(** * AGILE3D converter: the transform-and-validate pipeline

    A shallow embedding of [tools/converter/transforms/downsample.py] and
    [tools/converter/transforms/quantize.py], together with the frame-ordering
    check of the validator suite, and the properties the specification states
    about them; then of the converter that calls the two transforms,
    [tools/converter/pkl2web.py] with the data model of
    [tools/converter/models.py], and what the code itself shows of them.

    Layout:
    - a small model of the Python runtime the code relies on (exceptions,
      dict values, numpy arrays, numpy/Python floating-point arithmetic);
    - [Downsample]: [downsample_points] and [get_target_count];
    - [Quantize]: [quantize_points], [dequantize_points] and
      [compute_quantization_error];
    - [Validators]: [validate_frame_ordering];
    - [Models]: [Detection], [Frame] and [FrameData], frames being objects
      in a store;
    - [Pkl2web]: [validate_args] and [convert_frames]. *)

From Stdlib Require Import ZArith QArith Reals Lra Lia List String.
From Stdlib Require Import Floats.SpecFloat.
From stdpp Require Import base option list gmap strings sorting pretty.

Set Default Proof Using "Type".
Local Open Scope Z_scope.

(** ** Python runtime *)

(** The exceptions the code raises, or lets numpy raise. *)
Inductive exn : Type :=
| ValueError (msg : string)
| IndexError (msg : string)
| KeyError (key : string)
| TypeError (msg : string).

(** A warning issued through Python's [warnings] module.  It does not
    interrupt the call that issues it. *)
Inductive warning : Type :=
| RuntimeWarning (message : string).

(** A computation either raises or returns. *)
Definition result (A : Type) : Type := exn + A.

Definition ret {A : Type} (x : A) : result A := inr x.
Definition raise {A : Type} (e : exn) : result A := inl e.
Definition bind {A B : Type} (m : result A) (k : A → result B) : result B :=
  match m with
  | inl e => inl e
  | inr x => k x
  end.

Declare Scope py_scope.
Delimit Scope py_scope with py.
Notation "x <- m ;; k" := (bind m (fun x => k))
  (at level 100, m at next level, right associativity) : py_scope.

Definition is_ValueError {A : Type} (r : result A) : Prop :=
  match r with
  | inl (ValueError _) => True
  | _ => False
  end.

(** Values stored in the metadata dicts the transforms return; [F] is the
    carrier of floating-point numbers (see [NumOps]). *)
Inductive pyval (F : Type) : Type :=
| PNone
| PBool (b : bool)
| PInt (z : Z)
| PFloat (x : F)
| PStr (s : string)
| PFloats (l : list F).
Arguments PNone {F}.
Arguments PBool {F} b.
Arguments PInt {F} z.
Arguments PFloat {F} x.
Arguments PStr {F} s.
Arguments PFloats {F} l.

Abbreviation pydict F := (gmap string (pyval F)).

(** ** numpy arrays

    An array of [ndim >= 1] is kept as its shape and the list of its items
    along axis 0, each item flattened in C order; a cloud of shape [(N, w)]
    is [N] rows of [w] scalars. *)
Record ndarray (A : Type) : Type := NdArray {
  shape : list Z;
  rows : list (list A)
}.
Arguments NdArray {A} shape rows.
Arguments shape {A} _.
Arguments rows {A} _.

Definition ndim {A : Type} (a : ndarray A) : Z := Z.of_nat (length (shape a)).

(** [a.shape[i]]; only ever read below for an index that exists. *)
Definition shape_at {A : Type} (a : ndarray A) (i : nat) : Z := nth i (shape a) 0.

(** The number of scalars of an array of the given shape. *)
Definition size (s : list Z) : Z := fold_right Z.mul 1 s.

(** The array invariant numpy maintains: as many items along axis 0 as the
    shape says, each holding the scalars of one item. *)
Definition well_formed {A : Type} (a : ndarray A) : Prop :=
  match shape a with
  | [] => False
  | n :: rest =>
    n = Z.of_nat (length (rows a)) ∧
    Forall (λ r, Z.of_nat (length r) = size rest) (rows a)
  end.

(** The same invariant, for the two-dimensional array of a point cloud. *)
Definition is_cloud {A : Type} (a : ndarray A) (n w : Z) : Prop :=
  shape a = [n; w] ∧ n = Z.of_nat (length (rows a)) ∧
  Forall (λ r, Z.of_nat (length r) = w) (rows a).

(** [a[indices]] with an integer index array: picks items along axis 0 and
    raises [IndexError] for an index out of bounds. *)
Definition take_rows {A : Type} (a : ndarray A) (indices : list nat) : result (ndarray A) :=
  match mapM (λ i, rows a !! i) indices with
  | Some picked => ret (NdArray (Z.of_nat (length indices) :: tail (shape a)) picked)
  | None => raise (IndexError "index out of bounds for axis 0")
  end.

(** Rendering of a shape tuple in a message, as [str(tuple)] does. *)
Definition fmt_shape (s : list Z) : string :=
  match s with
  | [] => "()"
  | [n] => "(" +:+ pretty n +:+ ",)"
  | n :: rest => "(" +:+ pretty n +:+ fold_right (λ k acc, ", " +:+ pretty k +:+ acc) ")" rest
  end.

(** ** Floating-point arithmetic

    The operations the code applies to array elements (numpy, float32) and to
    Python floats (binary64).  The program is written once over this
    interface; [IEEE] below interprets it by the IEEE-754 operations of the
    standard library's [SpecFloat], [Exact] by real arithmetic. *)
Class NumOps (F : Type) : Type := {
  (* element arithmetic of a float32 array *)
  np_of_Z : Z → F;
  np_add : F → F → F;
  np_sub : F → F → F;
  np_mul : F → F → F;
  np_div : F → F → F;
  np_abs : F → F;
  np_sqrt : F → F;
  np_eqb : F → F → bool;
  np_minimum : F → F → F;
  np_maximum : F → F → F;
  (* casts: to an integer (truncation), to float16, and to float32 *)
  np_trunc : F → Z;
  np_to_half : F → F;
  np_to_single : F → F;
  (* [float(x)] of a float32 scalar, and Python floats *)
  np_to_py : F → F;
  py_of_Z : Z → F;
  py_of_Q : Q → F;
  py_mul : F → F → F;
  py_div : F → F → F;
  py_leb : F → F → bool
}.

(** Which values of the carrier are finite float32 numbers, and the real
    number each of them stands for. *)
Class Model (F : Type) : Type := {
  single : F → Prop;
  val : F → R
}.

(** *** IEEE-754 interpretation

    float32 is [prec = 24, emax = 128], float16 is [prec = 11, emax = 16] and
    a Python float is binary64, [prec = 53, emax = 1024].  A number is kept
    in the canonical form of its own format, which is what [SFcompare]
    expects, so changing format is a [cast] even when no rounding occurs. *)
Module IEEE.

Definition of_Z (prec emax : Z) (z : Z) : spec_float :=
  binary_normalize prec emax z 0 false.

(** Rounds a value of a wider or narrower format into the format [prec, emax]. *)
Definition cast (prec emax : Z) (x : spec_float) : spec_float :=
  match x with
  | S754_finite s m e => binary_round prec emax s m e
  | _ => x
  end.

(** The cast raises the floating-point overflow flag when it takes a finite
    number to an infinity; an infinity or NaN passes through unflagged. *)
Definition overflows (prec emax : Z) (x : spec_float) : bool :=
  match x, cast prec emax x with
  | S754_finite _ _ _, S754_infinity _ => true
  | _, _ => false
  end.

(** numpy's [minimum] and [maximum] propagate NaN. *)
Definition minimum (x y : spec_float) : spec_float :=
  match SFcompare x y with
  | None => S754_nan
  | Some Gt => y
  | Some _ => x
  end.

Definition maximum (x y : spec_float) : spec_float :=
  match SFcompare x y with
  | None => S754_nan
  | Some Lt => y
  | Some _ => x
  end.

(** Conversion to an integer drops the fractional part; infinities and NaN
    have no integer value and are mapped to 0 here. *)
Definition trunc (x : spec_float) : Z :=
  match x with
  | S754_finite s m e => cond_Zopp s (Z.shiftl (Z.pos m) e)
  | _ => 0
  end.

(** A decimal literal [n/d] denotes the binary64 number nearest to it, which
    is the correctly rounded quotient as long as [n] and [d] are exact. *)
Definition of_Q (q : Q) : spec_float :=
  SFdiv 53 1024 (of_Z 53 1024 (Qnum q)) (of_Z 53 1024 (Z.pos (Qden q))).

(** The finite numbers of float32, and the real number a finite number
    denotes; the other values are given 0. *)
Definition finite32 (x : spec_float) : Prop :=
  match x with
  | S754_zero _ => True
  | S754_finite _ m e => bounded 24 128 m e = true
  | _ => False
  end.

Definition SF2R (x : spec_float) : R :=
  match x with
  | S754_finite s m e => (IZR (cond_Zopp s (Z.pos m)) * powerRZ 2 e)%R
  | _ => 0%R
  end.

#[export] Instance model : Model spec_float := {|
  single := finite32;
  val := SF2R
|}.

#[export] Instance ops : NumOps spec_float := {|
  np_of_Z := of_Z 24 128;
  np_add := SFadd 24 128;
  np_sub := SFsub 24 128;
  np_mul := SFmul 24 128;
  np_div := SFdiv 24 128;
  np_abs := SFabs;
  np_sqrt := SFsqrt 24 128;
  np_eqb := SFeqb;
  np_minimum := minimum;
  np_maximum := maximum;
  np_trunc := trunc;
  np_to_half := cast 11 16;
  np_to_single := cast 24 128;
  np_to_py := cast 53 1024;
  py_of_Z := of_Z 53 1024;
  py_of_Q := of_Q;
  py_mul := SFmul 53 1024;
  py_div := SFdiv 53 1024;
  py_leb := SFleb
|}.

End IEEE.

(** *** Exact interpretation

    Every operation is the real-number operation it approximates and no cast
    rounds.  Statements about rounding itself are made on [IEEE]. *)
Module Exact.

Definition trunc (x : R) : Z :=
  if Rle_dec 0 x then Int_part x else (- Int_part (- x))%Z.

#[export] Instance ops : NumOps R := {|
  np_of_Z := IZR;
  np_add := Rplus;
  np_sub := Rminus;
  np_mul := Rmult;
  np_div := Rdiv;
  np_abs := Rabs;
  np_sqrt := sqrt;
  np_eqb := λ x y, if Req_dec_T x y then true else false;
  np_minimum := Rmin;
  np_maximum := Rmax;
  np_trunc := trunc;
  np_to_half := λ x, x;
  np_to_single := λ x, x;
  np_to_py := λ x, x;
  py_of_Z := IZR;
  py_of_Q := Q2R;
  py_mul := Rmult;
  py_div := Rdiv;
  py_leb := λ x y, if Rle_dec x y then true else false
|}.

(** Every real number counts as a value, and stands for itself. *)
#[export] Instance model : Model R := {|
  single := λ _, True;
  val := λ x, x
|}.

End Exact.

#[global] Existing Instances IEEE.ops IEEE.model Exact.ops Exact.model.

(** ** Accuracy of an interpretation

    What the round-trip bounds need to know of the arithmetic: how far an
    operation on finite float32 numbers may be from the real operation it
    approximates.  [u32] is the unit roundoff of float32 and [eta32] half its
    smallest positive number; [u16] and [eta16] are those of float16. *)
Definition u32 : R := (/ 2 ^ 24)%R.
Definition eta32 : R := (/ 2 ^ 150)%R.
Definition u16 : R := (/ 2 ^ 11)%R.
Definition eta16 : R := (/ 2 ^ 25)%R.
Definition huge : R := (2 ^ 100)%R.

Record Accurate {F : Type} (num : NumOps F) (model : Model F) : Prop := {
  acc_of_Z : ∀ z : Z, Z.abs z ≤ 2 ^ 24 →
    single (np_of_Z z) ∧ val (np_of_Z z) = IZR z;
  acc_add : ∀ x y : F, single x → single y → (Rabs (val x + val y) <= huge)%R →
    single (np_add x y) ∧
    (Rabs (val (np_add x y) - (val x + val y)) <= u32 * Rabs (val x + val y))%R;
  acc_sub : ∀ x y : F, single x → single y → (Rabs (val x - val y) <= huge)%R →
    single (np_sub x y) ∧
    (Rabs (val (np_sub x y) - (val x - val y)) <= u32 * Rabs (val x - val y))%R;
  acc_mul : ∀ x y : F, single x → single y → (Rabs (val x * val y) <= huge)%R →
    single (np_mul x y) ∧
    (Rabs (val (np_mul x y) - val x * val y) <= u32 * Rabs (val x * val y) + eta32)%R;
  acc_double : ∀ x : F, single x → (Rabs (val x) <= huge)%R →
    single (np_mul (np_of_Z 2) x) ∧ val (np_mul (np_of_Z 2) x) = (2 * val x)%R;
  acc_div : ∀ x y : F, single x → single y → val y ≠ 0%R →
    (Rabs (val x / val y) <= huge)%R →
    single (np_div x y) ∧
    (Rabs (val (np_div x y) - val x / val y) <= u32 * Rabs (val x / val y) + eta32)%R;
  acc_eqb_zero : ∀ x : F, single x →
    (np_eqb x (np_of_Z 0) = true ↔ val x = 0%R);
  acc_minimum : ∀ x y : F, single x → single y →
    single (np_minimum x y) ∧ val (np_minimum x y) = Rmin (val x) (val y);
  acc_maximum : ∀ x y : F, single x → single y →
    single (np_maximum x y) ∧ val (np_maximum x y) = Rmax (val x) (val y);
  acc_trunc : ∀ x : F, single x →
    ((0 <= val x)%R → (IZR (np_trunc x) <= val x < IZR (np_trunc x) + 1)%R) ∧
    ((val x <= 0)%R → (IZR (np_trunc x) - 1 < val x <= IZR (np_trunc x))%R);
  acc_to_py : ∀ x : F, single x → np_to_single (np_to_py x) = x;
  acc_half : ∀ x : F, single x → (Rabs (val x) <= 65504)%R →
    single (np_to_single (np_to_half x)) ∧
    (Rabs (val (np_to_single (np_to_half x)) - val x) <= u16 * Rabs (val x) + eta16)%R
}.

(** The root mean square of the differences between two arrays, element by
    element, as real numbers. *)
Fixpoint Rsum (l : list R) : R :=
  match l with
  | [] => 0%R
  | x :: l => (x + Rsum l)%R
  end.

Definition differences {F : Type} {model : Model F} (a b : ndarray F) : list R :=
  zip_with (λ x y, (val x - val y)%R) (concat (rows a)) (concat (rows b)).

Definition rms (l : list R) : R :=
  sqrt (Rsum (map (λ e, (e * e)%R) l) / INR (length l)).

Definition rms_error {F : Type} {model : Model F} (a b : ndarray F) : R :=
  rms (differences a b).

(** ** Downsampling (transforms/downsample.py) *)
Module Downsample.

Definition tier_map : gmap string Z := {[ "100k" := 100000; "50k" := 50000 ]}.

Definition invalid_tier (tier : string) : exn :=
  ValueError ("Invalid tier: " +:+ tier +:+ ". Choose from ['100k', '50k']").

Definition get_target_count (tier : string) : result Z :=
  match tier_map !! tier with
  | None => raise (invalid_tier tier)
  | Some n => ret n
  end.

Section Sampler.
Context {F : Type} {num : NumOps F} {A : Type}.

(** What the function uses of [numpy.random].  [World] is the state outside
    the program that a generator may draw from (the operating system's
    entropy pool), [seeded s] is the generator that [default_rng] builds
    from the integer seed [s], and [choice g n k] is the array that
    [g.choice(n, size=k, replace=False)] returns. *)
Context {World Generator : Type}.
Variable seeded : N → Generator.
Variable os_entropy : World → N * World.
Variable choice : Generator → nat → nat → list nat.

(** [np.random.default_rng(seed)]: a given seed fixes the generator, [None]
    asks the operating system for one. *)
Definition default_rng (seed : option N) (w : World) : Generator * World :=
  match seed with
  | Some s => (seeded s, w)
  | None => let '(s, w') := os_entropy w in (seeded s, w')
  end.

(** Sampling without replacement: [k] pairwise distinct indices below [n]. *)
Definition choice_spec : Prop :=
  ∀ g n k, (k ≤ n)%nat →
    length (choice g n k) = k ∧ NoDup (choice g n k) ∧
    Forall (λ i, (i < n)%nat) (choice g n k).

Definition downsample_points (points : ndarray A) (target_tier : string) (seed : N)
    (w : World) : result (ndarray A * pydict F) * World :=
  (* Parse target tier *)
  match tier_map !! target_tier with
  | None => (raise (invalid_tier target_tier), w)
  | Some target_count =>
    (* Validate input *)
    if negb (ndim points =? 2) || (shape_at points 1 <? 3) then
      (raise (ValueError ("Points must be (N, 3+) array. Got shape "
                          +:+ fmt_shape (shape points))), w)
    else
      let original_count := shape_at points 0 in
      (* If already at or below target, no downsampling needed *)
      if original_count <=? target_count then
        let metadata : pydict F :=
          {[ "method" := PStr "none";
             "target_tier" := PStr target_tier;
             "target_count" := PInt target_count;
             "original_count" := PInt original_count;
             "final_count" := PInt original_count;
             "reduction_ratio" := PFloat (py_of_Q 1);
             "within_spec" := PBool true;
             "reason" := PStr "original_count <= target_count" ]} in
        (ret (points, metadata), w)
      else
        (* Perform uniform random sampling *)
        let '(rng, w) := default_rng (Some seed) w in
        let indices := choice rng (Z.to_nat original_count) (Z.to_nat target_count) in
        let indices := merge_sort (≤)%nat indices in
        (downsampled <- take_rows points indices ;;
         (* Validate within ±1% of target *)
         let final_count := shape_at downsampled 0 in
         let tolerance := py_mul (py_of_Q (1 # 100)) (py_of_Z target_count) in
         let within_spec := py_leb (py_of_Z (Z.abs (final_count - target_count))) tolerance in
         let metadata : pydict F :=
           {[ "method" := PStr "random";
              "target_tier" := PStr target_tier;
              "target_count" := PInt target_count;
              "original_count" := PInt original_count;
              "final_count" := PInt final_count;
              "reduction_ratio" := PFloat (py_div (py_of_Z final_count) (py_of_Z original_count));
              "within_spec" := PBool within_spec;
              "tolerance_pct" := PFloat (py_of_Q 1) ]} in
         ret (downsampled, metadata), w)%py
  end.

End Sampler.
End Downsample.

(** ** Quantization (transforms/quantize.py) *)
Module Quantize.

Inductive float_dtype : Type := float16 | float32 | float64.

(** A point of the structured dtype
    [[('x', int16), ('y', int16), ('z', int16), ('intensity', uint16)]]. *)
Record packed_point : Type := PackedPoint {
  px : Z;
  py : Z;
  pz : Z;
  pintensity : Z
}.

(** The arrays that cross the quantize/dequantize boundary. *)
Inductive array (F : Type) : Type :=
| FloatArray (dt : float_dtype) (a : ndarray F)
| Int16Array (a : ndarray Z)
| PackedArray (recs : list packed_point).
Arguments FloatArray {F} dt a.
Arguments Int16Array {F} a.
Arguments PackedArray {F} recs.

Definition array_shape {F : Type} (a : array F) : list Z :=
  match a with
  | FloatArray _ a => shape a
  | Int16Array a => shape a
  | PackedArray recs => [Z.of_nat (length recs)]
  end.

(** Two's-complement wrap-around of the integer casts. *)
Definition wrap_int16 (z : Z) : Z := (z + 32768) mod 65536 - 32768.
Definition wrap_uint16 (z : Z) : Z := z mod 65536.

Definition amap {A B : Type} (f : A → B) (a : ndarray A) : ndarray B :=
  NdArray (shape a) (map (map f) (rows a)).

Section Quantize.
Context {F : Type} {num : NumOps F}.

(** [a.astype(np.float32)]. *)
Definition astype_float32 (a : array F) : result (ndarray F) :=
  match a with
  | FloatArray float32 a => ret a
  | FloatArray _ a => ret (amap np_to_single a)
  | Int16Array a => ret (amap np_of_Z a)
  | PackedArray _ => raise (TypeError "Cannot cast a structured array to float32")
  end.

(** [a.astype(np.int16)] on an unstructured array: a float is truncated
    towards zero and the integer reduced modulo 2^16, as numpy does for
    every float whose integer part fits 32 bits.  Beyond that,
    and for infinities and NaN (taken as 0 by [np_trunc]), the conversion is
    undefined in C and numpy's outcome depends on the platform; no statement
    below reaches that range. *)
Definition astype_int16 (a : array F) : result (ndarray Z) :=
  match a with
  | FloatArray _ a => ret (amap (λ x, wrap_int16 (np_trunc x)) a)
  | Int16Array a => ret a
  | PackedArray _ => raise (TypeError "Cannot cast a structured array to int16")
  end.

(** [a.shape[1]]. *)
Definition shape1 (a : array F) : result Z :=
  match array_shape a !! 1%nat with
  | Some w => ret w
  | None => raise (IndexError "tuple index out of range")
  end.

(** [a[:, j]]. *)
Definition column {A : Type} (j : nat) (rs : list (list A)) : result (list A) :=
  match mapM (λ r : list A, r !! j) rs with
  | Some c => ret c
  | None => raise (IndexError "index out of bounds for axis 1")
  end.

(** Reductions.  numpy refuses to take the minimum or maximum of nothing. *)
Definition reduce1 (op : F → F → F) (name : string) (l : list F) : result F :=
  match l with
  | [] => raise (ValueError ("zero-size array to reduction operation " +:+ name
                             +:+ " which has no identity"))
  | x :: l => ret (fold_left op l x)
  end.

Definition reduce_axis0 (op : F → F → F) (name : string) (rs : list (list F))
    : result (list F) :=
  match rs with
  | [] => raise (ValueError ("zero-size array to reduction operation " +:+ name
                             +:+ " which has no identity"))
  | r :: rs => ret (fold_left (zip_with op) rs r)
  end.

(** *** Summation

    numpy adds the elements of a contiguous float array as its
    [pairwise_sum] does (umath/loops_utils.h): fewer than 8 elements one
    after the other; up to 128 in eight interleaved partial sums, block of 8
    by block of 8, the partial sums then added two by two and the elements
    left over after the last block one by one; more than 128 by halves, the
    first half rounded down to a multiple of 8. *)

(** The eight partial sums after the blocks of 8 that [a] holds, and the
    elements left over. *)
Fixpoint unrolled (r : F * F * F * F * F * F * F * F) (a : list F) {struct a}
    : F * F * F * F * F * F * F * F * list F :=
  match a with
  | a0 :: a1 :: a2 :: a3 :: a4 :: a5 :: a6 :: a7 :: a' =>
    let '(r0, r1, r2, r3, r4, r5, r6, r7) := r in
    unrolled (np_add r0 a0, np_add r1 a1, np_add r2 a2, np_add r3 a3,
              np_add r4 a4, np_add r5 a5, np_add r6 a6, np_add r7 a7) a'
  | _ => (r, a)
  end.

(** The sum of at most 128 elements.  The running sum of fewer than 8
    starts from zero; numpy versions differ in the sign of that zero, which
    shows only in a sum of negative zeros. *)
Definition block_sum (a : list F) : F :=
  match a with
  | a0 :: a1 :: a2 :: a3 :: a4 :: a5 :: a6 :: a7 :: a' =>
    let '(r0, r1, r2, r3, r4, r5, r6, r7, rest) :=
      unrolled (a0, a1, a2, a3, a4, a5, a6, a7) a' in
    fold_left np_add rest
      (np_add (np_add (np_add r0 r1) (np_add r2 r3))
              (np_add (np_add r4 r5) (np_add r6 r7)))
  | _ => fold_left np_add a (np_of_Z 0)
  end.

(** [fuel] bounds the number of halvings; the length of [a] is more than
    enough ([pairwise_sum_fuel] below), and were it not, the rest would be
    added as one block. *)
Fixpoint pairwise_sum (fuel : nat) (a : list F) : F :=
  match fuel with
  | S fuel =>
    if (128 <? length a)%nat then
      let n2 := (length a / 2 - (length a / 2) mod 8)%nat in
      np_add (pairwise_sum fuel (take n2 a)) (pairwise_sum fuel (drop n2 a))
    else block_sum a
  | O => block_sum a
  end.

(** [np.add.reduce(a)] of a float32 array, which [mean] calls: the
    reduction starts from the identity of the addition and adds the
    pairwise sum of the whole array to it. *)
Definition add_reduce (l : list F) : F :=
  np_add (np_of_Z 0) (pairwise_sum (length l) l).

(** [a.mean()] of a float32 array: the float32 sum, divided by the number
    of elements in binary64 (the count is an [intp] scalar, with which a
    float32 scalar is promoted) and cast back to float32. *)
Definition mean (l : list F) : F :=
  np_to_single (py_div (np_to_py (add_reduce l)) (py_of_Z (Z.of_nat (length l)))).

(** [r[r == 0] = 1.0]. *)
Definition replace_zero (r : list F) : list F :=
  map (λ x, if np_eqb x (np_of_Z 0) then np_of_Z 1 else x) r.

Definition quantize_off (points : array F) : array F * pydict F :=
  let metadata : pydict F :=
    {[ "mode" := PStr "off";
       "dtype" := PStr "float32";
       "bytes_per_point" := PInt 16;
       "compression" := PFloat (py_of_Q 1) ]} in
  (points, metadata).

(** What [quantize_fp16] returns.  The function issues no warning of its
    own; those numpy issues while it runs are [quantize_fp16_warnings]
    below. *)
Definition quantize_fp16 (points : array F) : result (array F * pydict F) :=
  (points <- astype_float32 points ;;
   let quantized := FloatArray float16 (amap np_to_half points) in
   let metadata : pydict F :=
     {[ "mode" := PStr "fp16";
        "dtype" := PStr "float16";
        "bytes_per_point" := PInt 8;
        "compression" := PFloat (py_of_Q (1 # 2));
        "precision_loss_pct" := PFloat (py_of_Q (1 # 10));
        "suitable_range" := PStr "[-65504, 65504] (meters)" ]} in
   ret (quantized, metadata))%py.

(** [2.0 * (xyz - bbox_min) / bbox_range - 1.0], one coordinate. *)
Definition normalize (v lo range : F) : F :=
  np_sub (np_div (np_mul (np_of_Z 2) (np_sub v lo)) range) (np_of_Z 1).

(** [(xyz_normalized * 32767).astype(np.int16)], one coordinate. *)
Definition to_int16 (v : F) : Z :=
  wrap_int16 (np_trunc (np_mul v (np_of_Z 32767))).

(** [(intensity * 65535.0).clip(0, 65535).astype(np.uint16)], one value. *)
Definition intensity_to_uint16 (v : F) : Z :=
  wrap_uint16 (np_trunc
    (np_minimum (np_maximum (np_mul v (np_of_Z 65535)) (np_of_Z 0)) (np_of_Z 65535))).

(** The divisor of the normalization: the extent of the bounding box with
    every zero replaced by one (lines 131-136). *)
Definition bbox_divisor (bbox_min bbox_max : list F) : list F :=
  replace_zero (zip_with np_sub bbox_max bbox_min).

Definition pack (q : list Z) (i : Z) : packed_point :=
  PackedPoint (nth 0 q 0) (nth 1 q 0) (nth 2 q 0) i.

Definition quantize_int16 (points : array F) : result (array F * pydict F) :=
  (w <- shape1 points ;;
   if w <? 3 then
     raise (ValueError "int16 quantization requires at least 3 spatial coords (x, y, z)")
   else
   points <- astype_float32 points ;;
   (* Extract spatial coordinates (x, y, z) *)
   let xyz := map (take 3) (rows points) in
   let has_intensity := 3 <? w in
   intensity <- (if has_intensity then column 3 (rows points) else ret []) ;;
   (* Compute bounding box *)
   bbox_min <- reduce_axis0 np_minimum "minimum" xyz ;;
   bbox_max <- reduce_axis0 np_maximum "maximum" xyz ;;
   (* Avoid division by zero for degenerate dimensions *)
   let bbox_range := bbox_divisor bbox_min bbox_max in
   (* Normalize to [-1, 1] *)
   let xyz_normalized :=
     map (λ p, zip_with (λ v '(lo, range), normalize v lo range) p (zip bbox_min bbox_range)) xyz in
   (* Quantize to int16 *)
   let xyz_quantized := map (map to_int16) xyz_normalized in
   let quantized :=
     if has_intensity then
       PackedArray (zip_with pack xyz_quantized (map intensity_to_uint16 intensity))
     else
       Int16Array (NdArray [shape_at points 0; 3] xyz_quantized) in
   range_max <- reduce1 np_maximum "maximum" bbox_range ;;
   let metadata : pydict F :=
     {[ "mode" := PStr "int16";
        "dtype" := PStr (if has_intensity then "int16 (xyz) + uint16 (intensity)" else "int16");
        "bytes_per_point" := PInt (if has_intensity then 8 else 6);
        "compression" := PFloat (py_of_Q (1 # 2));
        "bbox_min" := PFloats (map np_to_py bbox_min);
        "bbox_max" := PFloats (map np_to_py bbox_max);
        "intensity_scale" := (if has_intensity then PInt 65535 else PNone);
        "precision_mm" :=
          PFloat (np_to_py (np_mul (np_div range_max (np_of_Z 32767)) (np_of_Z 1000))) ]} in
   ret (quantized, metadata))%py.

Definition quantize_points (points : array F) (mode : string) : result (array F * pydict F) :=
  if bool_decide (mode ∉ ["off"; "fp16"; "int16"]) then
    raise (ValueError ("Invalid quantization mode: " +:+ mode
                       +:+ ". Choose from 'off', 'fp16', 'int16'"))
  else if String.eqb mode "off" then ret (quantize_off points)
  else if String.eqb mode "fp16" then quantize_fp16 points
  else quantize_int16 points.

(** [np.array(metadata[key], dtype=np.float32)]. *)
Definition float32_list (metadata : pydict F) (key : string) : result (list F) :=
  match metadata !! key with
  | None => raise (KeyError key)
  | Some (PFloats l) => ret (map np_to_single l)
  | Some _ => raise (TypeError "float() argument must be a string or a real number")
  end.

(** [(xyz_normalized + 1.0) / 2.0 * bbox_range + bbox_min] after
    [xyz_int16.astype(np.float32) / 32767.0], one coordinate. *)
Definition denormalize (q : Z) (lo range : F) : F :=
  let n := np_div (np_of_Z q) (np_of_Z 32767) in
  np_add (np_mul (np_div (np_add n (np_of_Z 1)) (np_of_Z 2)) range) lo.

(** [f"{mode}"] in the message of the error below.  A mode that is a
    float or a list of floats is not rendered as [str] would render it
    (the decimal form of a float is not modelled) but as a placeholder:
    only the text of the message is concerned. *)
Definition fmt_mode (mode : option (pyval F)) : string :=
  match mode with
  | Some (PStr s) => s
  | None | Some PNone => "None"
  | Some (PBool b) => if b then "True" else "False"
  | Some (PInt z) => pretty z
  | Some (PFloat _) => "<float>"
  | Some (PFloats _) => "<list>"
  end.

Definition dequantize_points (quantized : array F) (metadata : pydict F) : result (ndarray F) :=
  let mode := metadata !! "mode" in
  match mode with
  | Some (PStr "off") => astype_float32 quantized
  | Some (PStr "fp16") => astype_float32 quantized
  | Some (PStr "int16") =>
    ((* Reverse normalization *)
     bbox_min <- float32_list metadata "bbox_min" ;;
     bbox_max <- float32_list metadata "bbox_max" ;;
     let bbox_range := bbox_divisor bbox_min bbox_max in
     (* Check if structured array (4D) or regular array (3D) *)
     parts <- match quantized with
              | PackedArray recs =>
                ret (map (λ r, [px r; py r; pz r]) recs, true, map pintensity recs)
              | _ =>
                a <- astype_int16 quantized ;;
                w <- shape1 quantized ;;
                let has_intensity := 3 <? w in
                i <- (if has_intensity then column 3 (rows a) else ret []) ;;
                ret (map (take 3) (rows a), has_intensity, map wrap_uint16 i)
              end ;;
     let '(xyz_int16, has_intensity, intensity_uint16) := parts in
     let xyz_float32 :=
       map (λ p, zip_with (λ q '(lo, range), denormalize q lo range) p (zip bbox_min bbox_range))
           xyz_int16 in
     let n := Z.of_nat (length xyz_int16) in
     (* Handle intensity if present *)
     if has_intensity : bool then
       let intensity_float32 := map (λ i, np_div (np_of_Z i) (np_of_Z 65535)) intensity_uint16 in
       ret (NdArray [n; 4] (zip_with (λ p i, p ++ [i]) xyz_float32 intensity_float32))
     else
       ret (NdArray [n; 3] xyz_float32))%py
  | _ => raise (ValueError ("Unknown quantization mode: " +:+ fmt_mode mode))
  end.

Definition compute_quantization_error (original dequantized : ndarray F) : result (pydict F) :=
  if bool_decide (shape original ≠ shape dequantized) then
    raise (ValueError "Shape mismatch between original and dequantized")
  else
    (let error := zip_with (λ a b, np_abs (np_sub a b))
                           (concat (rows original)) (concat (rows dequantized)) in
     max_error <- reduce1 np_maximum "maximum" error ;;
     let max_error := np_to_py max_error in
     let mean_error := np_to_py (mean error) in
     let rmse := np_to_py (np_sqrt (mean (map (λ e, np_mul e e) error))) in
     (* Tolerance: 1mm (typical LiDAR precision) *)
     let tolerance := py_of_Q (1 # 1000) in
     let within_tolerance := py_leb max_error tolerance in
     ret ({[ "max_error" := PFloat max_error;
             "mean_error" := PFloat mean_error;
             "rmse" := PFloat rmse;
             "within_tolerance_1mm" := PBool within_tolerance;
             "max_error_mm" := PFloat (py_mul max_error (py_of_Z 1000)) ]} : pydict F))%py.

End Quantize.

(** *** Warnings of the float16 mode

    [quantize.py] neither issues nor filters a warning, and leaves numpy's
    floating-point error state at its default.  Under that state (numpy
    1.24 and later) an [astype] call during which some element overflowed
    issues one [RuntimeWarning: overflow encountered in cast], however many
    elements did; underflow is ignored.  Whether Python then shows the
    warning on [sys.stderr] is up to the caller's warning filters.  The
    warnings of the other modes (an invalid value in a cast or an operation
    of the int16 mode, say) are not modelled. *)
Definition cast_warnings (prec emax : Z) (a : ndarray spec_float) : list warning :=
  if existsb (existsb (IEEE.overflows prec emax)) (rows a)
  then [RuntimeWarning "overflow encountered in cast"]
  else [].

(** The warnings issued during [quantize_fp16 points], in order: those of
    [points.astype(np.float32)], which runs unless the array is float32
    already and can overflow only from float64, then those of
    [points.astype(np.float16)]. *)
Definition quantize_fp16_warnings (points : array spec_float) : list warning :=
  let widening :=
    match points with
    | FloatArray float64 a => cast_warnings 24 128 a
    | _ => []
    end in
  match astype_float32 (num := IEEE.ops) points with
  | inl _ => widening
  | inr points => widening ++ cast_warnings 11 16 points
  end.

End Quantize.

(** ** Validator suite: frame ordering *)
Module Validators.

(** A frame entry of the sequence manifest and the manifest itself, reduced
    to what the ordering check reads. *)
Record frame : Type := Frame {
  frame_id : string;
  point_count : option Z
}.

Record manifest : Type := Manifest {
  frames : list frame
}.

(** [sub] occurs in [s]. *)
Definition mentions (s sub : string) : Prop :=
  ∃ pre post, s = pre +:+ sub +:+ post.

Section Ordering.
(** The position the external system assigns to a frame id. *)
Variable ordering_key : string → Z.

Definition ordering_error (a b : string) : string :=
  "Frame ordering error: " +:+ a +:+ " >= " +:+ b.

(** One error per adjacent pair that is not in strictly increasing order. *)
Fixpoint ordering_errors (ids : list string) : list string :=
  match ids with
  | a :: rest =>
    match rest with
    | b :: _ =>
      (if bool_decide (ordering_key a < ordering_key b) then [] else [ordering_error a b])
      ++ ordering_errors rest
    | [] => []
    end
  | [] => []
  end.

(** Modelled from the spec: [validate_frame_ordering] of
    validators/validators.py, of which only the tests are among the sources.
    Section 4.4 (5): frame ids must be strictly increasing across the
    manifest's frame list; an empty frame list is a failure; any out-of-order
    pair produces an error naming the offending ids.  The result is the
    pair [(valid, errors)] the tests destructure. *)
Definition validate_frame_ordering (m : manifest) : bool * list string :=
  match frames m with
  | [] => (false, ["No frames in manifest"])
  | fs =>
    let errors := ordering_errors (map frame_id fs) in
    (bool_decide (errors = []), errors)
  end.

End Ordering.
End Validators.

(** ** Concrete inputs used to exercise the statements below *)
Module Examples.

(** A stand-in for numpy's generator: its state is the seed, and [choice]
    hands out a window of [k] consecutive indices, highest first. *)
Definition toy_seeded (s : N) : N := s.
Definition toy_entropy (w : N) : N * N := (w, N.succ w).
Definition toy_choice (g : N) (n k : nat) : list nat :=
  reverse (seq (N.to_nat g mod (n - k + 1)) k).

(** The cloud of [n] points [(i, 0, 0)]. *)
Definition ramp (n : nat) : ndarray Z :=
  NdArray [Z.of_nat n; 3] (map (λ i, [Z.of_nat i; 0; 0]) (seq 0 n)).

(** Frame ids as the tests write them, zero-padded decimal numbers, ordered
    by their value. *)
Definition digit_value (c : Ascii.ascii) : Z :=
  Z.of_nat (Ascii.nat_of_ascii c) - 48.

Definition decimal_key (s : string) : Z :=
  fold_left (λ acc c, 10 * acc + digit_value c) (list_ascii_of_string s) 0.

Definition frames_of (ids : list string) : Validators.manifest :=
  Validators.Manifest (map (λ i, Validators.Frame i None) ids).

End Examples.

(** ** Proof support *)

(** The per-element absolute errors the error metric reduces. *)
Definition abs_errors {F : Type} {num : NumOps F} (original dequantized : ndarray F) : list F :=
  zip_with (λ a b, np_abs (np_sub a b)) (concat (rows original)) (concat (rows dequantized)).

(** The divisor [quantize_int16] derives from the two ends of an axis, and
    what a coordinate, an intensity and a whole point become on the way
    through [quantize_int16] and [dequantize_points]. *)
Definition axis_divisor {F : Type} {num : NumOps F} (lo hi : F) : F :=
  if np_eqb (np_sub hi lo) (np_of_Z 0) then np_of_Z 1 else np_sub hi lo.

Definition restore {F : Type} {num : NumOps F} (v lo hi : F) : F :=
  let rng := axis_divisor lo hi in
  Quantize.denormalize (Quantize.to_int16 (Quantize.normalize v lo rng)) lo rng.

Definition restore_intensity {F : Type} {num : NumOps F} (i : F) : F :=
  np_div (np_of_Z (Quantize.intensity_to_uint16 i)) (np_of_Z 65535).

Definition restore_point {F : Type} {num : NumOps F} (lo hi : F * F * F) (r : list F) : list F :=
  match r with
  | x :: y :: z :: rest =>
    restore x lo.1.1 hi.1.1 :: restore y lo.1.2 hi.1.2 :: restore z lo.2 hi.2
    :: map restore_intensity rest
  | _ => r
  end.

(** The conditions on the rows of a cloud: every entry is a finite float32
    number of magnitude at most 100, and the intensity, where there is one,
    lies between 0 and 1. *)
Definition in_range {F : Type} {model : Model F} (r : list F) : Prop :=
  Forall (λ x, single x ∧ (Rabs (val x) <= 100)%R) r.

Definition unit_intensity {F : Type} {model : Model F} (r : list F) : Prop :=
  ∀ i : F, r !! 3%nat = Some i → (0 <= val i <= 1)%R.

(** Closes a goal [l = r] between closed terms by evaluating both sides. *)
Ltac vm_refl :=
  match goal with
  | |- ?l = ?r => vm_cast_no_check (@eq_refl _ r)
  end.

(** ** The data model of the converter (models.py) *)
Module Models.

Record Detection (F : Type) : Type := MkDetection {
  id : string;
  class_name : string;
  center : F * F * F;
  dimensions : gmap string F;
  yaw : F;
  confidence : option F
}.
Arguments MkDetection {F} _ _ _ _ _ _.
Arguments id {F} _.
Arguments class_name {F} _.
Arguments center {F} _.
Arguments dimensions {F} _.
Arguments yaw {F} _.
Arguments confidence {F} _.

(** A [Frame] object.  [detections] is read below only through
    [sorted(...)] and [values()], so the order of insertion is not kept. *)
Record Frame (F : Type) : Type := MkFrame {
  frame_id : string;
  points : Quantize.array F;
  point_count : Z;
  ground_truth : list (Detection F);
  detections : gmap string (list (Detection F));
  transform_metadata : gmap string (pydict F)
}.
Arguments MkFrame {F} _ _ _ _ _ _.
Arguments frame_id {F} _.
Arguments points {F} _.
Arguments point_count {F} _.
Arguments ground_truth {F} _.
Arguments detections {F} _.
Arguments transform_metadata {F} _.

(** Python objects are shared by reference: a [Frame] is named by its
    identity, and the store gives every identity its current state.
    [FrameData.frames] is a list of such references. *)
Abbreviation ref := nat (only parsing).

Abbreviation store F := (nat → Frame F) (only parsing).

Record FrameData (F : Type) : Type := MkFrameData {
  frames : list ref;
  metadata : pydict F
}.
Arguments MkFrameData {F} _ _.
Arguments frames {F} _.
Arguments metadata {F} _.

Section Models.
Context {F : Type}.

(** [Frame.detection_count]. *)
Definition detection_count (f : Frame F) : Z :=
  fold_left Z.add (map (λ dets, Z.of_nat (length dets)) (map_to_list (detections f)).*2) 0.

(** [FrameData.frame_count]. *)
Definition frame_count (d : FrameData F) : Z := Z.of_nat (length (frames d)).

(** [FrameData.total_points]. *)
Definition total_points (objects : store F) (d : FrameData F) : Z :=
  fold_left Z.add (map (λ f, point_count (objects f)) (frames d)) 0.

(** The store in which the object [l] has become [f]. *)
Definition update (l : ref) (f : Frame F) (objects : store F) : store F :=
  λ l', if decide (l' = l) then f else objects l'.

(** Attribute assignments on the object [l]. *)
Definition set_points (l : ref) (p : Quantize.array F) (objects : store F) : store F :=
  let f := objects l in
  update l (MkFrame (frame_id f) p (point_count f) (ground_truth f) (detections f)
                    (transform_metadata f)) objects.

Definition set_point_count (l : ref) (n : Z) (objects : store F) : store F :=
  let f := objects l in
  update l (MkFrame (frame_id f) (points f) n (ground_truth f) (detections f)
                    (transform_metadata f)) objects.

Definition set_transform_metadata (l : ref) (md : gmap string (pydict F)) (objects : store F)
    : store F :=
  let f := objects l in
  update l (MkFrame (frame_id f) (points f) (point_count f) (ground_truth f) (detections f) md)
    objects.

End Models.
End Models.

(** ** The command-line converter (pkl2web.py) *)
Module Pkl2web.
Import Models.

(** The characters [','] and [':']. *)
Definition comma : Ascii.ascii := Ascii.ascii_of_nat 44.
Definition colon : Ascii.ascii := Ascii.ascii_of_nat 58.

(** [str(e)] of an exception raised with one argument.  A [KeyError] shows
    the [repr] of its key, which for the keys looked up here is the key in
    single quotes. *)
Definition exn_str (e : exn) : string :=
  match e with
  | ValueError msg | IndexError msg | TypeError msg => msg
  | KeyError key => "'" +:+ key +:+ "'"
  end.

(** [format(n, ',')]: decimal digits in groups of three. *)
Definition commas (digits : string) : string :=
  let ds := list_ascii_of_string digits in
  let n := length ds in
  string_of_list_ascii
    (concat (imap (λ i c, if bool_decide (0 < i ∧ (n - i) mod 3 = 0)%nat
                          then [comma; c] else [c]) ds)).

Definition fmt_thousands (z : Z) : string :=
  (if z <? 0 then "-" else "") +:+ commas (pretty (Z.abs z)).

(** The order of [sorted] on the items of a dict with string keys: keys are
    distinct, so the values are never compared, and strings compare by code
    point, which on their UTF-8 encoding is the order of the bytes. *)
Definition key_le {V : Type} (a b : string * V) : Prop := String.leb a.1 b.1 = true.

#[global] Instance key_le_dec {V : Type} (a b : string * V) : Decision (key_le a b) :=
  decide (String.leb a.1 b.1 = true).

Definition sorted_items {V : Type} (d : gmap string V) : list (string * V) :=
  merge_sort key_le (map_to_list d).

(** [s.split(sep)] for a separator of one character. *)
Fixpoint split (sep : Ascii.ascii) (s : string) : list string :=
  match s with
  | EmptyString => [EmptyString]
  | String c s' =>
    if Ascii.eqb c sep then EmptyString :: split sep s'
    else match split sep s' with
         | [] => [String c EmptyString]
         | part :: parts => String c part :: parts
         end
  end.

(** The parsed command line, as far as it is read below. *)
Record Namespace : Type := MkNamespace {
  input_pkl : string;
  out_dir : string;
  seq_id : string;
  frames_arg : string;
  branches : string;
  downsample : string;
  quantize : string;
  dry_run : bool
}.

Section ValidateArgs.
(** What [validate_args] uses of the runtime: [pathlib] paths with the state
    of the file system they are checked against, and [int] on a string,
    which is [None] where Python raises [ValueError]. *)
Context {Path : Type}.
Variable mkPath : string → Path.
Variable path_str : Path → string.
Variable path_exists : Path → bool.
Variable path_is_file : Path → bool.
Variable py_int : string → option Z.

Definition validate_args (args : Namespace) : option string :=
  (* Check input PKL exists *)
  let input_pkl := mkPath (input_pkl args) in
  if negb (path_exists input_pkl) then
    Some ("Input PKL file not found: " +:+ path_str input_pkl)
  else if negb (path_is_file input_pkl) then
    Some ("Input PKL path is not a file: " +:+ path_str input_pkl)
  else
  (* Check branches file exists *)
  let branches_file := mkPath (branches args) in
  if negb (path_exists branches_file) then
    Some ("Branches file not found: " +:+ path_str branches_file)
  else if negb (path_is_file branches_file) then
    Some ("Branches path is not a file: " +:+ path_str branches_file)
  else
  (* Validate frames format *)
  let invalid := Some ("Invalid frame range: " +:+ frames_arg args
                       +:+ ". Expected format 'start:end' with integers.") in
  let frame_parts := split colon (frames_arg args) in
  if negb (length frame_parts =? 2)%nat then
    Some "Frames must be in format 'start:end' (e.g., '0:100')"
  else
    match py_int (nth 0 frame_parts "") with
    | None => invalid
    | Some start =>
      match py_int (nth 1 frame_parts "") with
      | None => invalid
      | Some end_ =>
        if (start <? 0) || (end_ <? 0) then Some "Frame indices must be non-negative"
        else if end_ <? start then Some "Frame start must be <= end"
        else None
      end
    end.

End ValidateArgs.

Section ConvertFrames.
Context {F : Type} {num : NumOps F}.
Context {World Generator : Type}.
Variable seeded : N → Generator.
Variable os_entropy : World → N * World.
Variable choice : Generator → nat → nat → list nat.

(** What a call can change: the [Frame] objects, the two output streams
    and the world outside the program.  [out] is what has been written to
    [sys.stdout], line by line.  [err] is what the converter itself has
    printed to [sys.stderr]; a warning that numpy issues during a transform
    (such as [Quantize.quantize_fp16_warnings]) may be shown there as well,
    depending on the warning filters in force, and is not recorded here. *)
Record State : Type := MkState {
  objects : store F;
  out : list string;
  err : list string;
  world : World
}.

Definition with_objects (o : store F) (st : State) : State :=
  MkState o (out st) (err st) (world st).

Definition with_world (w : World) (st : State) : State :=
  MkState (objects st) (out st) (err st) w.

(** [print(line)] and [print(line, file=sys.stderr)]. *)
Definition print (line : string) (st : State) : State :=
  MkState (objects st) (out st ++ [line]) (err st) (world st).

Definition eprint (line : string) (st : State) : State :=
  MkState (objects st) (out st) (err st ++ [line]) (world st).

(** [downsample_points] on whatever array a frame holds.  A structured
    array is one-dimensional, each of its items one record. *)
Definition downsample_array (points : Quantize.array F) (target_tier : string) (seed : N)
    (w : World) : result (Quantize.array F * pydict F) * World :=
  match points with
  | Quantize.FloatArray dt a =>
    let '(r, w) := Downsample.downsample_points (F := F) seeded os_entropy choice
                     a target_tier seed w in
    ((p <- r ;; ret (Quantize.FloatArray dt p.1, p.2))%py, w)
  | Quantize.Int16Array a =>
    let '(r, w) := Downsample.downsample_points (F := F) seeded os_entropy choice
                     a target_tier seed w in
    ((p <- r ;; ret (Quantize.Int16Array p.1, p.2))%py, w)
  | Quantize.PackedArray recs =>
    let a := NdArray [Z.of_nat (length recs)] (map (λ r, [r]) recs) in
    let '(r, w) := Downsample.downsample_points (F := F) seeded os_entropy choice
                     a target_tier seed w in
    ((p <- r ;; ret (Quantize.PackedArray (concat (rows p.1)), p.2))%py, w)
  end.

(** The first [try] block of the loop body (lines 210-213). *)
Definition try_downsample (frame : ref) (downsample : string) (st : State)
    : result (pydict F) * State :=
  let '(r, w) := downsample_array (points (objects st frame)) downsample 42 (world st) in
  let st := with_world w st in
  match r with
  | inl e => (raise e, st)
  | inr (points, ds_meta) =>
    let st := with_objects (set_points frame points (objects st)) st in
    match Quantize.array_shape (Models.points (objects st frame)) !! 0%nat with
    | None => (raise (IndexError "tuple index out of range"), st)
    | Some n => (ret ds_meta, with_objects (set_point_count frame n (objects st)) st)
    end
  end.

(** The second [try] block (lines 221-223).  The warnings numpy may issue
    during [quantize_points] are not part of the state. *)
Definition try_quantize (frame : ref) (quantize : string) (st : State)
    : result (pydict F) * State :=
  match Quantize.quantize_points (points (objects st frame)) quantize with
  | inl e => (raise e, st)
  | inr (points, q_meta) =>
    (ret q_meta, with_objects (set_points frame points (objects st)) st)
  end.

(** The body of the loop over the selected frames (lines 205-230). *)
Definition transform_frame (downsample quantize : string) (dry_run : bool) (frame : ref)
    (st : State) : result unit * State :=
  let transform_metadata : gmap string (pydict F) := ∅ in
  (* Apply downsampling *)
  let '(r, transform_metadata, st) :=
    if bool_decide (downsample ∈ ["100k"; "50k"]) then
      match try_downsample frame downsample st with
      | (inr ds_meta, st) => (ret tt, <["downsample" := ds_meta]> transform_metadata, st)
      | (inl e, st) =>
        if negb dry_run then (raise e, transform_metadata, st)
        else (ret tt, transform_metadata,
              eprint ("[DRY-RUN] Warning: Downsampling failed: " +:+ exn_str e) st)
      end
    else (ret tt, transform_metadata, st) in
  match r with
  | inl e => (raise e, st)
  | inr _ =>
    (* Apply quantization *)
    let '(r, transform_metadata, st) :=
      if negb (String.eqb quantize "off") then
        match try_quantize frame quantize st with
        | (inr q_meta, st) => (ret tt, <["quantize" := q_meta]> transform_metadata, st)
        | (inl e, st) =>
          if negb dry_run then (raise e, transform_metadata, st)
          else (ret tt, transform_metadata,
                eprint ("[DRY-RUN] Warning: Quantization failed: " +:+ exn_str e) st)
        end
      else (ret tt, transform_metadata, st) in
    match r with
    | inl e => (raise e, st)
    | inr _ =>
      (* Store transform metadata *)
      (ret tt, with_objects (set_transform_metadata frame transform_metadata (objects st)) st)
    end
  end.

Fixpoint transform_frames (downsample quantize : string) (dry_run : bool)
    (selected_frames : list ref) (st : State) : result unit * State :=
  match selected_frames with
  | [] => (ret tt, st)
  | frame :: rest =>
    match transform_frame downsample quantize dry_run frame st with
    | (inl e, st) => (raise e, st)
    | (inr _, st) => transform_frames downsample quantize dry_run rest st
    end
  end.

(** The summary line of a frame in a dry run (lines 239-244). *)
Definition frame_summary (f : Frame F) : string :=
  let joined :=
    String.concat ", "
      (map (λ '(branch, dets), pretty (length dets) +:+ " (" +:+ branch +:+ ")")
           (sorted_items (detections f))) in
  let det_counts := if String.eqb joined "" then "0 detections" else joined in
  "  Frame " +:+ frame_id f +:+ ": " +:+ fmt_thousands (point_count f) +:+ " points, "
  +:+ det_counts.

(** The dict that [convert_frames] returns; the frame list of its manifest
    is the empty list. *)
Record Converted : Type := MkConverted {
  converted_frames : list ref;
  manifest : pydict F
}.

Definition convert_frames (pkl_data : FrameData F) (seq_id : string) (frames_range : Z * Z)
    (downsample quantize : string) (dry_run : bool) (st : State) : result Converted * State :=
  let '(frame_start, frame_end) := frames_range in
  (* Filter frames by range *)
  let selected_frames :=
    (filter (λ p, frame_start ≤ Z.of_nat p.1 ≤ frame_end) (imap pair (frames pkl_data))).*2 in
  (* Apply transforms (downsampling and quantization) *)
  match transform_frames downsample quantize dry_run selected_frames st with
  | (inl e, st) => (raise e, st)
  | (inr _, st) =>
    let st :=
      if dry_run then
        (* Print frame summaries *)
        let st := print ("[DRY-RUN] Sequence: " +:+ seq_id) st in
        let st := print ("[DRY-RUN] Frames: " +:+ pretty frame_start +:+ ":"
                         +:+ pretty frame_end +:+ " ("
                         +:+ pretty (length selected_frames) +:+ " total)") st in
        let st := print ("[DRY-RUN] Downsample: " +:+ downsample +:+ ", Quantize: "
                         +:+ quantize) st in
        let st := print "" st in
        fold_left (λ st frame, print (frame_summary (objects st frame)) st) selected_frames st
      else st in
    (ret (MkConverted selected_frames
            {[ "version" := PStr "1.0";
               "sequenceId" := PStr seq_id;
               "frames" := PFloats [] ]}), st)
  end.

End ConvertFrames.
End Pkl2web.

(** *** Rounding

    What the statements about [SpecFloat]'s rounding are phrased with. *)

(** Powers of two with an integer exponent. *)
Definition bpow (e : Z) : R := powerRZ 2 e.

(** A shift record [(m, r, s)] locates the real number [y]: [m] is its
    integer part, the round bit [r] tells whether its fractional part
    reaches one half, and the sticky bit [s] whether anything lies beyond. *)
Definition located (mrs : shr_record) (y : R) : Prop :=
  let f := (y - IZR (shr_m mrs))%R in
  match shr_r mrs, shr_s mrs with
  | false, false => f = 0%R
  | false, true => (0 < f < 1 / 2)%R
  | true, false => f = (1 / 2)%R
  | true, true => (1 / 2 < f < 1)%R
  end.

(** [m] is an integer nearest to [y], and no integer lies between them. *)
Definition nearest (m : Z) (y : R) : Prop :=
  (Rabs (IZR m - y) <= 1 / 2)%R ∧
  ∀ k : Z, ((y <= IZR k)%R → m ≤ k) ∧ ((IZR k <= y)%R → k ≤ m).

(** The finite numbers of the format [prec, emax]. *)
Definition finite_in (prec emax : Z) (x : spec_float) : Prop :=
  match x with
  | S754_zero _ => True
  | S754_finite _ m e => bounded prec emax m e = true
  | _ => False
  end.

(** [r] is what rounding the magnitude [x] with sign [sx] at the exponent
    [e] gives in the format [prec, emax], provided the rounded number stays
    below the overflow threshold. *)
Definition rounds (prec emax : Z) (sx : bool) (x : R) (e : Z) (r : spec_float) : Prop :=
  ∃ m1 : Z, 0 ≤ m1 ∧ nearest m1 (x / bpow e) ∧
    ((IZR m1 * bpow e < bpow emax)%R →
     (m1 = 0 ∧ r = S754_zero sx) ∨
     (∃ m e', r = S754_finite sx m e' ∧ bounded prec emax m e' = true ∧
        (IZR (Z.pos m) * bpow e' = IZR m1 * bpow e)%R)).

(** [e] is the exponent the format gives to numbers of the magnitude [x]. *)
Definition exponent_of (prec emax : Z) (x : R) (e : Z) : Prop :=
  emin prec emax ≤ e ∧ (emin prec emax < e → (bpow (e + prec - 1) <= x)%R).

(** The outcome of a rounding that did not overflow: a finite number [r] of
    sign [sx] whose magnitude [v] is nearest to [x] at the exponent [e]. *)
Definition rounded (prec emax : Z) (sx : bool) (x : R) (e : Z) (r : spec_float) (v : R) : Prop :=
  finite_in prec emax r ∧
  IEEE.SF2R r = (if sx then - v else v)%R ∧
  (r = S754_zero sx ∨ ∃ m e', r = S754_finite sx m e') ∧
  (0 <= v)%R ∧
  (Rabs (v - x) <= bpow (e - 1))%R ∧
  (∀ k : Z, (x <= IZR k * bpow e)%R → (v <= IZR k * bpow e)%R) ∧
  (∀ k : Z, (IZR k * bpow e <= x)%R → (IZR k * bpow e <= v)%R).

(** What an element of a float32 array can be: a finite number of the
    format, an infinity or NaN. *)
Definition float32_value (x : spec_float) : Prop :=
  match x with
  | S754_finite _ m e => bounded 24 128 m e = true
  | _ => True
  end.

(** A row with at least its three spatial entries, all finite numbers. *)
Definition spatial_row {F : Type} {model : Model F} (r : list F) : Prop :=
  ∃ (x y z : F) (rest : list F), r = x :: y :: z :: rest ∧ single x ∧ single y ∧ single z.

(** The spatial entries of a row lie inside the box [lo .. hi]. *)
Definition inside {F : Type} {model : Model F} (lo hi : F * F * F) (r : list F) : Prop :=
  ∃ (x y z : F) (rest : list F), r = x :: y :: z :: rest ∧
    single x ∧ single y ∧ single z ∧
    (val lo.1.1 <= val x <= val hi.1.1)%R ∧
    (val lo.1.2 <= val y <= val hi.1.2)%R ∧
    (val lo.2 <= val z <= val hi.2)%R.

(** *** Stored codes *)

(** What the int16 mode may store without having wrapped around: a
    coordinate code from -32767 to 32767, an intensity code from 0 to
    65535. *)
Definition coordinate_code (c : Z) : Prop := -32767 ≤ c ≤ 32767.

Definition codes_within {F : Type} (q : Quantize.array F) : Prop :=
  match q with
  | Quantize.PackedArray recs =>
    Forall (λ r, coordinate_code (Quantize.px r) ∧ coordinate_code (Quantize.py r) ∧
                 coordinate_code (Quantize.pz r) ∧ 0 ≤ Quantize.pintensity r ≤ 65535) recs
  | Quantize.Int16Array a => Forall (Forall coordinate_code) (rows a)
  | Quantize.FloatArray _ _ => False
  end.


(** [lo] and [hi] bound what the rows hold in column [j], and each of the
    two is the value some row holds there. *)
Definition column_bounds (rs : list (list spec_float)) (j : nat) (lo hi : spec_float) : Prop :=
  Forall (λ r, ∀ v, r !! j = Some v → (IEEE.SF2R lo <= IEEE.SF2R v <= IEEE.SF2R hi)%R) rs ∧
  Exists (λ r, ∃ v, r !! j = Some v ∧ IEEE.SF2R v = IEEE.SF2R lo) rs ∧
  Exists (λ r, ∃ v, r !! j = Some v ∧ IEEE.SF2R v = IEEE.SF2R hi) rs.

(** *** Steps of the converter *)

(** From [st] to [st'] nothing happened but to the arrays, the point counts
    and the transform metadata of the frames [ls]: every other object is as
    it was, every frame keeps its id, its ground truth and its detections,
    nothing was printed to the standard output and nothing was drawn from
    the world outside. *)
Definition touches_only {F World : Type} (ls : list nat)
    (st st' : Pkl2web.State (F := F) (World := World)) : Prop :=
  (∀ l, l ∉ ls → Pkl2web.objects st' l = Pkl2web.objects st l) ∧
  (∀ l, Models.frame_id (Pkl2web.objects st' l) = Models.frame_id (Pkl2web.objects st l) ∧
        Models.ground_truth (Pkl2web.objects st' l) = Models.ground_truth (Pkl2web.objects st l) ∧
        Models.detections (Pkl2web.objects st' l) = Models.detections (Pkl2web.objects st l)) ∧
  Pkl2web.world st' = Pkl2web.world st ∧
  Pkl2web.out st' = Pkl2web.out st.

(** The frame holds a float32 cloud of [n] points with [w] columns. *)
Definition holds_cloud {F : Type} (f : Models.Frame F) (n w : Z) : Prop :=
  ∃ a : ndarray F,
    Models.points f = Quantize.FloatArray Quantize.float32 a ∧ is_cloud a n w.

(** The frame has been taken through the transforms and holds [count]
    points: its point count, the length of its array and the final count in
    its downsampling metadata all say so, and its quantization metadata is
    there, naming the mode, exactly when the mode is not "off". *)
Definition converted_frame {F : Type} (f : Models.Frame F) (count : Z) (mode : string) : Prop :=
  Models.point_count f = count ∧
  Quantize.array_shape (Models.points f) !! 0%nat = Some count ∧
  (∃ ds_meta : pydict F,
     Models.transform_metadata f !! "downsample" = Some ds_meta ∧
     ds_meta !! "final_count" = Some (PInt count)) ∧
  (mode ≠ "off" →
   ∃ q_meta : pydict F,
     Models.transform_metadata f !! "quantize" = Some q_meta ∧
     q_meta !! "mode" = Some (PStr mode)) ∧
  (mode = "off" → Models.transform_metadata f !! "quantize" = None).

(** * Properties of the downsampler *)

Lemma tier_map_cases (tier : string) (n : Z) :
  Downsample.tier_map !! tier = Some n →
  (tier = "100k" ∧ n = 100000) ∨ (tier = "50k" ∧ n = 50000).
Proof.
  unfold Downsample.tier_map. intros Hn.
  destruct (decide (tier = "100k")) as [->|?]; [simplify_map_eq; auto|].
  destruct (decide (tier = "50k")) as [->|?]; [simplify_map_eq; auto|].
  simplify_map_eq.
Qed.

(** Indices without repetition sorted by [<=] are strictly increasing. *)
Lemma sorted_nodup_strict (l : list nat) :
  StronglySorted le l → NoDup l → StronglySorted lt l.
Proof.
  induction 1 as [|i l Hs IH Hall]; intros Hnd; [constructor|].
  apply NoDup_cons in Hnd as [Hi Hnd].
  constructor; [auto|].
  rewrite Forall_forall in Hall |- *.
  intros j Hj. specialize (Hall j Hj).
  assert (i ≠ j) by (intros ->; auto). lia.
Qed.

(** Reading a list at strictly increasing positions yields a subsequence. *)
Lemma lookup_sorted_sublist {A : Type} (l : list A) :
  ∀ (off : nat) (idx : list nat) (k : list A),
    Forall2 (λ i y, (off ≤ i)%nat ∧ l !! (i - off)%nat = Some y) idx k →
    StronglySorted lt idx →
    sublist k l.
Proof.
  induction l as [|a l IH]; intros off idx k Hk Hs.
  - destruct Hk as [|i y idx k [_ Hi] _]; [constructor|]. by rewrite lookup_nil in Hi.
  - destruct Hk as [|i y idx k [Hoff Hi] Hk]; [apply sublist_nil_l|].
    apply StronglySorted_inv in Hs as [Hs Hall].
    destruct (decide (i = off)) as [->|Hne].
    + replace (off - off)%nat with 0%nat in Hi by lia. simpl in Hi.
      injection Hi as ->. apply sublist_skip.
      apply (IH (S off) idx k); [|done].
      apply Forall2_same_length_lookup_2; [by eapply Forall2_length|].
      intros n j z Hj Hz.
      pose proof (Forall2_lookup_lr _ _ _ _ _ _ Hk Hj Hz) as [? Hl].
      rewrite Forall_forall in Hall.
      assert (off < j)%nat by (apply Hall; eapply list_elem_of_lookup_2; eauto).
      split; [lia|].
      replace (j - off)%nat with (S (j - S off)) in Hl by lia. done.
    + apply sublist_cons.
      apply (IH (S off) (i :: idx) (y :: k)); [|by constructor].
      constructor.
      * split; [lia|].
        replace (i - off)%nat with (S (i - S off)) in Hi by lia. done.
      * apply Forall2_same_length_lookup_2; [by eapply Forall2_length|].
        intros n j z Hj Hz.
        pose proof (Forall2_lookup_lr _ _ _ _ _ _ Hk Hj Hz) as [? Hl].
        rewrite Forall_forall in Hall.
        assert (i < j)%nat by (apply Hall; eapply list_elem_of_lookup_2; eauto).
        split; [lia|].
        replace (j - off)%nat with (S (j - S off)) in Hl by lia. done.
Qed.

Lemma take_rows_sorted {A : Type} (a : ndarray A) (idx : list nat) :
  StronglySorted lt idx →
  Forall (λ i, (i < length (rows a))%nat) idx →
  ∃ picked,
    take_rows a idx = ret (NdArray (Z.of_nat (length idx) :: tail (shape a)) picked) ∧
    mapM (λ i, rows a !! i) idx = Some picked ∧
    length picked = length idx ∧
    sublist picked (rows a).
Proof.
  intros Hs Hlt.
  assert (is_Some (mapM (λ i, rows a !! i) idx)) as [picked Hp].
  { apply mapM_is_Some. eapply Forall_impl; [exact Hlt|].
    intros i Hi. by apply lookup_lt_is_Some_2. }
  exists picked. unfold take_rows. rewrite Hp. split; [done|]. split; [done|].
  apply mapM_Some in Hp. split; [symmetry; by eapply Forall2_length|].
  apply (lookup_sorted_sublist (rows a) 0 idx picked); [|done].
  eapply Forall2_impl; [exact Hp|].
  intros i y Hi. split; [lia|]. by rewrite Nat.sub_0_r.
Qed.

Section DownsampleProps.
Context {A World Generator : Type}.
Variable seeded : N → Generator.
Variable os_entropy : World → N * World.
Variable choice : Generator → nat → nat → list nat.

Local Abbreviation downsample_points := (Downsample.downsample_points seeded os_entropy choice).

Lemma cloud_passes_validation (points : ndarray A) (n wd : Z) :
  shape points = [n; wd] → 3 ≤ wd →
  negb (ndim points =? 2) || (shape_at points 1 <? 3) = false ∧ shape_at points 0 = n.
Proof.
  intros Hshape Hwd. unfold ndim, shape_at. rewrite Hshape. simpl.
  split; [|done]. apply Z.ltb_ge. done.
Qed.

(** The sampling branch, run to its result. *)
Lemma downsample_sampling_branch {F : Type} {num : NumOps F}
    (points : ndarray A) (tier : string) (target n wd : Z) (seed : N) (w : World) :
  Downsample.choice_spec choice →
  is_cloud points n wd → 3 ≤ wd →
  Downsample.tier_map !! tier = Some target → target < n →
  ∃ (idx : list nat) (picked : list (list A)) (md : pydict F),
    downsample_points points tier seed w = (ret (NdArray [target; wd] picked, md), w) ∧
    idx = merge_sort le (choice (seeded seed) (Z.to_nat n) (Z.to_nat target)) ∧
    StronglySorted lt idx ∧
    Forall (λ i, (i < length (rows points))%nat) idx ∧
    mapM (λ i, rows points !! i) idx = Some picked ∧
    Z.of_nat (length picked) = target ∧
    sublist picked (rows points) ∧
    md !! "method" = Some (PStr "random") ∧
    md !! "final_count" = Some (PInt target) ∧
    md !! "within_spec" =
      Some (PBool (py_leb (py_of_Z 0) (py_mul (py_of_Q (1 # 100)) (py_of_Z target)))).
Proof.
  intros Hchoice (Hshape & Hn & Hrows) Hwd Htier Hlt.
  assert (0 ≤ target) as Hpos by (apply tier_map_cases in Htier as [[_ ->]|[_ ->]]; lia).
  destruct (cloud_passes_validation points n wd Hshape Hwd) as [Hval Hcount].
  set (raw := choice (seeded seed) (Z.to_nat n) (Z.to_nat target)).
  destruct (Hchoice (seeded seed) (Z.to_nat n) (Z.to_nat target)) as (Hlen & Hnd & Hin); [lia|].
  fold raw in Hlen, Hnd, Hin.
  set (idx := merge_sort le raw).
  assert (idx ≡ₚ raw) as Hperm by apply merge_sort_Permutation.
  assert (StronglySorted lt idx) as Hsorted.
  { apply sorted_nodup_strict.
    - apply (StronglySorted_merge_sort le).
    - by rewrite Hperm. }
  assert (Forall (λ i, (i < length (rows points))%nat) idx) as Hbound.
  { rewrite Hperm. eapply Forall_impl; [exact Hin|]. intros i Hi. simpl in Hi. lia. }
  assert (length idx = Z.to_nat target) as Hidx by (by rewrite Hperm).
  destruct (take_rows_sorted points idx Hsorted Hbound) as (picked & Htake & Hmap & Hplen & Hsub).
  eexists idx, picked, _. split.
  - unfold Downsample.downsample_points. rewrite Htier, Hval, Hcount.
    destruct (n <=? target) eqn:Hle; [apply Z.leb_le in Hle; lia|].
    unfold Downsample.default_rng. fold raw. fold idx. rewrite Htake.
    unfold bind, ret, shape_at. rewrite Hshape. simpl.
    rewrite Hidx, Z2Nat.id by done. reflexivity.
  - rewrite Z.sub_diag. simpl.
    split_and!; try done; lia.
Qed.

(** C1.  A cloud of shape (N, w), w >= 3, with more points than the target
    of a recognized tier is reduced to M points of the same width, where
    M <= N and |M - target| is within 1% of the target (M is the target
    itself); the rows kept are those at strictly increasing positions of
    the input, so the output is a subsequence of the input in input
    order. *)
Theorem downsample_above_target {F : Type} {num : NumOps F}
    (points : ndarray A) (tier : string) (target n wd : Z) (seed : N) (w : World) :
  Downsample.choice_spec choice →
  is_cloud points n wd → 3 ≤ wd →
  Downsample.tier_map !! tier = Some target → target < n →
  ∃ (out : ndarray A) (md : pydict F) (M : Z) (idx : list nat),
    downsample_points points tier seed w = (ret (out, md), w) ∧
    is_cloud out M wd ∧
    M ≤ n ∧ 100 * Z.abs (M - target) ≤ target ∧ M = target ∧
    StronglySorted lt idx ∧
    mapM (λ i, rows points !! i) idx = Some (rows out) ∧
    sublist (rows out) (rows points).
Proof.
  intros Hchoice Hcloud Hwd Htier Hlt.
  destruct (downsample_sampling_branch (F := F) points tier target n wd seed w
              Hchoice Hcloud Hwd Htier Hlt)
    as (idx & picked & md & Hrun & _ & Hsorted & _ & Hmap & Hlen & Hsub & _).
  destruct Hcloud as (_ & _ & Hrows).
  exists (NdArray [target; wd] picked), md, target, idx.
  split; [exact Hrun|]. simpl.
  assert (0 ≤ target) by lia.
  split_and!; try done; try lia.
  split_and!; try done.
  eapply Forall_forall. intros r Hr.
  rewrite Forall_forall in Hrows. apply Hrows.
  by eapply elem_of_sublist.
Qed.

(** C3.  A cloud with at most the target number of points, the empty cloud
    included, is returned as it is, with method "none", the reason string
    and [within_spec] set. *)
Theorem downsample_at_or_below_target {F : Type} {num : NumOps F}
    (points : ndarray A) (tier : string) (target n wd : Z) (seed : N) (w : World) :
  shape points = [n; wd] → 3 ≤ wd →
  Downsample.tier_map !! tier = Some target → n ≤ target →
  ∃ md : pydict F,
    downsample_points points tier seed w = (ret (points, md), w) ∧
    md !! "method" = Some (PStr "none") ∧
    md !! "reason" = Some (PStr "original_count <= target_count") ∧
    md !! "within_spec" = Some (PBool true) ∧
    md !! "original_count" = Some (PInt n) ∧
    md !! "final_count" = Some (PInt n).
Proof.
  intros Hshape Hwd Htier Hle.
  destruct (cloud_passes_validation points n wd Hshape Hwd) as [Hval Hcount].
  eexists. split.
  - unfold Downsample.downsample_points. rewrite Htier, Hval, Hcount.
    apply Z.leb_le in Hle. rewrite Hle. reflexivity.
  - split_and!; done.
Qed.

(** C8.  The result is a function of the cloud, the tier and the seed
    alone: whatever the state of the world in which the two calls are made,
    they return the same array and the same metadata (or raise the same
    error), and a call leaves that state as it found it. *)
Theorem downsample_deterministic {F : Type} {num : NumOps F}
    (points : ndarray A) (tier : string) (seed : N) (w1 w2 : World) :
  fst (Downsample.downsample_points (F := F) seeded os_entropy choice points tier seed w1)
  = fst (downsample_points points tier seed w2) ∧
  snd (Downsample.downsample_points (F := F) seeded os_entropy choice points tier seed w1) = w1.
Proof.
  unfold Downsample.downsample_points, Downsample.default_rng.
  destruct (Downsample.tier_map !! tier) as [target|]; [|done].
  destruct (negb (ndim points =? 2) || (shape_at points 1 <? 3)); [done|].
  destruct (shape_at points 0 <=? target); done.
Qed.

(** Whenever the function returns, it reports [within_spec = True]. *)
Lemma downsample_returns_within_spec
    (points : ndarray A) (tier : string) (seed : N) (w w' : World)
    (out : ndarray A) (md : pydict spec_float) :
  Downsample.choice_spec choice →
  Downsample.downsample_points (num := IEEE.ops) seeded os_entropy choice points tier seed w = (ret (out, md), w') →
  md !! "within_spec" = Some (PBool true).
Proof.
  intros Hchoice. unfold Downsample.downsample_points, Downsample.default_rng.
  destruct (Downsample.tier_map !! tier) as [target|] eqn:Htier; [|done].
  destruct (negb (ndim points =? 2) || (shape_at points 1 <? 3)); [done|].
  destruct (shape_at points 0 <=? target) eqn:Hle.
  { intros [= <- <- <-]. done. }
  apply Z.leb_gt in Hle.
  set (n := shape_at points 0) in *.
  assert (0 ≤ target) as Hpos by (apply tier_map_cases in Htier as [[_ ->]|[_ ->]]; lia).
  destruct (Hchoice (seeded seed) (Z.to_nat n) (Z.to_nat target)) as (Hlen & _ & _); [lia|].
  unfold take_rows.
  destruct (mapM _ _) as [picked|]; [|done]. unfold bind, ret, shape_at. simpl.
  rewrite (Permutation_length (merge_sort_Permutation le _)), Hlen, Z2Nat.id, Z.sub_diag by done.
  intros [= <- <- <-].
  apply tier_map_cases in Htier as [[_ ->]|[_ ->]]; vm_compute; reflexivity.
Qed.

(** C10.  With IEEE arithmetic for the tolerance test, every valid input (a
    cloud of width >= 3 and a recognized tier) yields metadata with
    [within_spec = True], and no input at all yields any other value of
    [within_spec]. *)
Theorem downsample_always_within_spec :
  Downsample.choice_spec choice →
  (∀ (points : ndarray A) (tier : string) (target n wd : Z) (seed : N) (w : World),
      is_cloud points n wd → 3 ≤ wd → Downsample.tier_map !! tier = Some target →
      ∃ (out : ndarray A) (md : pydict spec_float),
        Downsample.downsample_points (num := IEEE.ops) seeded os_entropy choice points tier seed w = (ret (out, md), w) ∧
        md !! "within_spec" = Some (PBool true)) ∧
  (∀ (points : ndarray A) (tier : string) (seed : N) (w w' : World)
     (out : ndarray A) (md : pydict spec_float),
      Downsample.downsample_points (num := IEEE.ops) seeded os_entropy choice points tier seed w = (ret (out, md), w') →
      md !! "within_spec" = Some (PBool true)).
Proof.
  intros Hchoice. split.
  - intros points tier target n wd seed w Hcloud Hwd Htier.
    destruct (Z_le_gt_dec n target) as [Hle|Hgt].
    + destruct Hcloud as (Hshape & _).
      destruct (cloud_passes_validation points n wd Hshape Hwd) as [Hval Hcount].
      eexists points, _. split.
      { unfold Downsample.downsample_points. rewrite Htier, Hval, Hcount.
        apply Z.leb_le in Hle. rewrite Hle. reflexivity. }
      done.
    + destruct (downsample_sampling_branch (num := IEEE.ops) points tier target n wd seed w
                  Hchoice Hcloud Hwd Htier ltac:(lia))
        as (idx & picked & md & Hrun & _).
      exists (NdArray [target; wd] picked), md. split; [exact Hrun|].
      by eapply downsample_returns_within_spec.
  - intros points tier seed w w' out md Hrun.
    by eapply downsample_returns_within_spec.
Qed.

End DownsampleProps.

(** *** The statements at concrete inputs *)

Lemma toy_choice_spec : Downsample.choice_spec Examples.toy_choice.
Proof.
  intros g n k Hk. unfold Examples.toy_choice.
  set (a := (N.to_nat g mod (n - k + 1))%nat).
  assert (a < n - k + 1)%nat by (apply Nat.mod_upper_bound; lia).
  split_and!.
  - by rewrite length_reverse, length_seq.
  - rewrite reverse_Permutation. apply NoDup_seq.
  - apply Forall_forall. intros i Hi.
    apply elem_of_reverse, elem_of_seq in Hi. simpl. lia.
Qed.

Lemma ramp_is_cloud (n : nat) : is_cloud (Examples.ramp n) (Z.of_nat n) 3.
Proof.
  unfold is_cloud, Examples.ramp. simpl. split_and!; [done| |].
  - by rewrite length_map, length_seq.
  - apply Forall_forall. intros r Hr. apply list_elem_of_fmap in Hr as (i & -> & _). done.
Qed.

Lemma downsample_above_target_witness :
  ∃ (out : ndarray Z) (md : pydict spec_float) (M : Z) (idx : list nat),
    Downsample.downsample_points (num := IEEE.ops)
      Examples.toy_seeded Examples.toy_entropy Examples.toy_choice
      (Examples.ramp (Z.to_nat 50001)) "50k" 42%N 0%N = (ret (out, md), 0%N) ∧
    is_cloud out M 3 ∧
    M ≤ 50001 ∧ 100 * Z.abs (M - 50000) ≤ 50000 ∧ M = 50000 ∧
    StronglySorted lt idx ∧
    mapM (λ i, rows (Examples.ramp (Z.to_nat 50001)) !! i) idx = Some (rows out) ∧
    sublist (rows out) (rows (Examples.ramp (Z.to_nat 50001))).
Proof.
  apply (downsample_above_target Examples.toy_seeded Examples.toy_entropy Examples.toy_choice
           (Examples.ramp (Z.to_nat 50001)) "50k" 50000 50001 3 42%N 0%N).
  - exact toy_choice_spec.
  - exact (ramp_is_cloud (Z.to_nat 50001)).
  - lia.
  - reflexivity.
  - lia.
Defined.

Lemma downsample_at_or_below_target_witness :
  ∃ md : pydict spec_float,
    Downsample.downsample_points (num := IEEE.ops)
      Examples.toy_seeded Examples.toy_entropy Examples.toy_choice
      (Examples.ramp 0) "100k" 42%N 0%N = (ret (Examples.ramp 0, md), 0%N) ∧
    md !! "method" = Some (PStr "none") ∧
    md !! "reason" = Some (PStr "original_count <= target_count") ∧
    md !! "within_spec" = Some (PBool true) ∧
    md !! "original_count" = Some (PInt 0) ∧
    md !! "final_count" = Some (PInt 0).
Proof.
  apply (downsample_at_or_below_target Examples.toy_seeded Examples.toy_entropy
           Examples.toy_choice (Examples.ramp 0) "100k" 100000 0 3 42%N 0%N).
  - reflexivity.
  - lia.
  - reflexivity.
  - lia.
Defined.

Lemma downsample_always_within_spec_witness :
  ∃ (out : ndarray Z) (md : pydict spec_float),
    Downsample.downsample_points (num := IEEE.ops)
      Examples.toy_seeded Examples.toy_entropy Examples.toy_choice
      (Examples.ramp (Z.to_nat 50001)) "50k" 42%N 0%N = (ret (out, md), 0%N) ∧
    md !! "within_spec" = Some (PBool true).
Proof.
  apply (proj1 (downsample_always_within_spec Examples.toy_seeded Examples.toy_entropy
                  Examples.toy_choice toy_choice_spec)
           (Examples.ramp (Z.to_nat 50001)) "50k" 50000 50001 3 42%N 0%N).
  - exact (ramp_is_cloud (Z.to_nat 50001)).
  - lia.
  - reflexivity.
Defined.

(** The empty cloud and a small cloud, evaluated. *)
Example downsample_small_cloud :
  fst (Downsample.downsample_points (num := IEEE.ops)
         Examples.toy_seeded Examples.toy_entropy Examples.toy_choice
         (Examples.ramp 2) "50k" 7%N 0%N)
  = ret (Examples.ramp 2,
         {[ "method" := PStr "none";
            "target_tier" := PStr "50k";
            "target_count" := PInt 50000;
            "original_count" := PInt 2;
            "final_count" := PInt 2;
            "reduction_ratio" := PFloat (S754_finite false 4503599627370496 (-52));
            "within_spec" := PBool true;
            "reason" := PStr "original_count <= target_count" ]}).
Proof. vm_refl. Qed.

Example downsample_rejects_unknown_tier :
  is_ValueError (fst (Downsample.downsample_points (num := IEEE.ops)
         Examples.toy_seeded Examples.toy_entropy Examples.toy_choice
         (Examples.ramp 2) "75k" 7%N 0%N)).
Proof. vm_compute. exact I. Qed.

Example downsample_rejects_narrow_cloud :
  is_ValueError (fst (Downsample.downsample_points (num := IEEE.ops) (A := Z)
         Examples.toy_seeded Examples.toy_entropy Examples.toy_choice
         (NdArray [1; 2] [[0; 0]]) "50k" 7%N 0%N)).
Proof. vm_compute. exact I. Qed.

(** * Properties of the quantizer *)

Section QuantizeProps.
Context {F : Type} {num : NumOps F}.

(** *** float16 mode *)

(** On a float array the float16 mode cannot fail: it casts element by
    element and attaches one fixed envelope. *)
Lemma quantize_fp16_float_array (dt : Quantize.float_dtype) (a : ndarray F) :
  ∃ a32 : ndarray F,
    Quantize.astype_float32 (Quantize.FloatArray dt a) = ret a32 ∧
    shape a32 = shape a ∧
    Quantize.quantize_fp16 (Quantize.FloatArray dt a)
    = ret (Quantize.FloatArray Quantize.float16 (Quantize.amap np_to_half a32),
           {[ "mode" := PStr "fp16";
              "dtype" := PStr "float16";
              "bytes_per_point" := PInt 8;
              "compression" := PFloat (py_of_Q (1 # 2));
              "precision_loss_pct" := PFloat (py_of_Q (1 # 10));
              "suitable_range" := PStr "[-65504, 65504] (meters)" ]}).
Proof.
  unfold Quantize.quantize_fp16.
  destruct dt; simpl; eexists; split_and!; reflexivity.
Qed.

(** Whatever the input, an envelope returned by the float16 mode is that
    same record. *)
Lemma quantize_fp16_envelope (points : Quantize.array F) (q : Quantize.array F)
    (md : pydict F) :
  Quantize.quantize_fp16 points = ret (q, md) →
  md = {[ "mode" := PStr "fp16";
          "dtype" := PStr "float16";
          "bytes_per_point" := PInt 8;
          "compression" := PFloat (py_of_Q (1 # 2));
          "precision_loss_pct" := PFloat (py_of_Q (1 # 10));
          "suitable_range" := PStr "[-65504, 65504] (meters)" ]}.
Proof.
  unfold Quantize.quantize_fp16.
  destruct (Quantize.astype_float32 points) as [e|a]; simpl; [done|].
  by intros [= <- <-].
Qed.

(** *** int16 mode: the guards *)




End QuantizeProps.

(** *** float16 mode at concrete inputs *)

(** C9 at a cloud of width 3: the envelope says 8 bytes per point, while
    half of the float32 footprint of a three-column point is 2 * 3 = 6. *)
Lemma quantize_fp16_bytes_per_point_width3 :
  ∃ (q : Quantize.array spec_float) (md : pydict spec_float),
    Quantize.quantize_fp16 (num := IEEE.ops)
      (Quantize.FloatArray Quantize.float32
         (NdArray [1; 3] [[IEEE.of_Z 24 128 1; IEEE.of_Z 24 128 2; IEEE.of_Z 24 128 3]]))
    = ret (q, md) ∧
    md !! "bytes_per_point" = Some (PInt 8) ∧
    8 ≠ 2 * 3 ∧
    md !! "compression" = Some (PFloat (IEEE.of_Q (1 # 2))).
Proof.
  destruct (quantize_fp16_float_array (num := IEEE.ops) Quantize.float32
              (NdArray [1; 3] [[IEEE.of_Z 24 128 1; IEEE.of_Z 24 128 2; IEEE.of_Z 24 128 3]]))
    as (a32 & _ & _ & Hq).
  eexists _, _. split; [exact Hq|]. split_and!; [vm_refl|lia|vm_refl].
Qed.

(** At width 4 the same constant is the right one. *)
Lemma quantize_fp16_bytes_per_point_width4 (a : ndarray spec_float) (n : Z) :
  shape a = [n; 4] →
  ∃ (q : Quantize.array spec_float) (md : pydict spec_float),
    Quantize.quantize_fp16 (num := IEEE.ops) (Quantize.FloatArray Quantize.float32 a)
    = ret (q, md) ∧
    md !! "bytes_per_point" = Some (PInt (2 * 4)) ∧
    md !! "compression" = Some (PFloat (IEEE.of_Q (1 # 2))).
Proof.
  intros _.
  destruct (quantize_fp16_float_array (num := IEEE.ops) Quantize.float32 a) as (a32 & _ & _ & Hq).
  eexists _, _. split; [exact Hq|]. split; vm_refl.
Qed.

(** * Properties of the error metric *)

Lemma is_cloud_well_formed {A : Type} (a : ndarray A) (n w : Z) :
  is_cloud a n w → well_formed a.
Proof.
  intros (Hshape & Hn & Hrows). unfold well_formed. rewrite Hshape.
  split; [done|]. eapply Forall_impl; [exact Hrows|].
  intros r Hr. simpl in *. unfold size. simpl. lia.
Qed.

(** A well-formed array holds as many scalars as its shape announces. *)
Lemma well_formed_length {A : Type} (a : ndarray A) :
  well_formed a → Z.of_nat (length (concat (rows a))) = size (shape a).
Proof.
  unfold well_formed. destruct (shape a) as [|n rest]; [done|].
  intros [-> Hrows]. change (size (?n :: rest)) with (n * size rest).
  generalize dependent (size rest). intros k Hrows.
  induction Hrows as [|r rs Hr _ IH]; simpl; [lia|].
  rewrite length_app. lia.
Qed.

Section Reductions.
Local Open Scope R_scope.

(** The accumulation loop computes the sum. *)
Lemma fold_left_Rplus (l : list R) (a : R) : fold_left Rplus l a = a + Rsum l.
Proof.
  revert a. induction l as [|x l IH]; intros a; simpl; [lra|]. rewrite IH. lra.
Qed.

Lemma Rsum_app (l k : list R) : Rsum (l ++ k) = Rsum l + Rsum k.
Proof. induction l as [|x l IH]; simpl; [lra|]. rewrite IH. lra. Qed.

(** In exact arithmetic numpy's order of addition is immaterial: the
    interleaved partial sums, the blocks and the halves all add up to the
    sum. *)
Lemma unrolled_exact (n : nat) (a : list R) (r0 r1 r2 r3 r4 r5 r6 r7 : R)
    (s0 s1 s2 s3 s4 s5 s6 s7 : R) (rest : list R) :
  (length a <= n)%nat →
  Quantize.unrolled (num := Exact.ops) (r0, r1, r2, r3, r4, r5, r6, r7) a
  = (s0, s1, s2, s3, s4, s5, s6, s7, rest) →
  s0 + s1 + s2 + s3 + s4 + s5 + s6 + s7 + Rsum rest
  = r0 + r1 + r2 + r3 + r4 + r5 + r6 + r7 + Rsum a.
Proof.
  revert a r0 r1 r2 r3 r4 r5 r6 r7. induction n as [|n IH]; intros a r0 r1 r2 r3 r4 r5 r6 r7 Hn.
  - destruct a; [|simpl in Hn; lia]. cbn [Quantize.unrolled]. intros [= <- <- <- <- <- <- <- <- <-]. done.
  - destruct a as [|a0 [|a1 [|a2 [|a3 [|a4 [|a5 [|a6 [|a7 a']]]]]]]];
      cbn [Quantize.unrolled];
      try (intros [= <- <- <- <- <- <- <- <- <-]; done).
    intros Hu. apply IH in Hu; [|simpl in Hn; lia].
    rewrite Hu. cbn [np_add Exact.ops Rsum]. lra.
Qed.

Lemma block_sum_exact (a : list R) : Quantize.block_sum (num := Exact.ops) a = Rsum a.
Proof.
  unfold Quantize.block_sum.
  destruct a as [|a0 [|a1 [|a2 [|a3 [|a4 [|a5 [|a6 [|a7 a']]]]]]]];
    try (cbn [np_add np_of_Z Exact.ops]; rewrite fold_left_Rplus; lra).
  destruct (Quantize.unrolled _ a') as [[[[[[[[s0 s1] s2] s3] s4] s5] s6] s7] rest] eqn:Hu.
  apply (unrolled_exact (length a')) in Hu; [|done].
  cbn [np_add Exact.ops]. rewrite fold_left_Rplus. cbn [Rsum]. lra.
Qed.

Lemma pairwise_sum_exact (fuel : nat) (a : list R) :
  Quantize.pairwise_sum (num := Exact.ops) fuel a = Rsum a.
Proof.
  revert a. induction fuel as [|fuel IH]; intros a; cbn [Quantize.pairwise_sum];
    [apply block_sum_exact|].
  destruct (128 <? length a)%nat; [|apply block_sum_exact].
  rewrite !IH. cbn [np_add Exact.ops]. by rewrite <- Rsum_app, take_drop.
Qed.

(** The mean in exact arithmetic. *)
Lemma mean_exact (l : list R) :
  Quantize.mean (num := Exact.ops) l = Rsum l / INR (length l).
Proof.
  unfold Quantize.mean, Quantize.add_reduce.
  cbn [np_to_single py_div np_to_py py_of_Z np_add np_of_Z Exact.ops].
  by rewrite pairwise_sum_exact, Rplus_0_l, <- INR_IZR_INZ.
Qed.

Lemma fold_left_Rmax_ge (l : list R) (a : R) :
  a <= fold_left Rmax l a ∧ Forall (λ x, x <= fold_left Rmax l a) l.
Proof.
  revert a. induction l as [|x l IH]; intros a; simpl; [split; [lra|constructor]|].
  destruct (IH (Rmax a x)) as [Ha Hl].
  pose proof (Rmax_l a x). pose proof (Rmax_r a x).
  split; [lra|]. constructor; [lra|done].
Qed.

Lemma fold_left_Rmax_in (l : list R) (a : R) :
  fold_left Rmax l a = a ∨ fold_left Rmax l a ∈ l.
Proof.
  revert a. induction l as [|x l IH]; intros a; simpl; [by left|].
  destruct (IH (Rmax a x)) as [H|H].
  - rewrite H. unfold Rmax. destruct (Rle_dec a x); [right; left|by left].
  - right. by right.
Qed.

Lemma Rsum_nonneg (l : list R) : Forall (λ x, 0 <= x) l → 0 <= Rsum l.
Proof. induction 1; simpl; lra. Qed.

Lemma Rsum_le_max (l : list R) (m : R) :
  Forall (λ x, x <= m) l → Rsum l <= INR (length l) * m.
Proof.
  induction 1 as [|x l Hx _ IH]; [simpl; lra|].
  change (length (x :: l)) with (S (length l)). rewrite S_INR. simpl. lra.
Qed.

Lemma Rsum_squares_le_max (l : list R) (m : R) :
  Forall (λ x, 0 <= x <= m) l → Rsum (map (λ e, e * e) l) <= INR (length l) * (m * m).
Proof.
  induction 1 as [|x l Hx _ IH]; [simpl; lra|].
  change (length (x :: l)) with (S (length l)). rewrite S_INR. simpl. nra.
Qed.

(** [2 * x * (sum of l) <= (sum of squares of l) + n * x^2]. *)
Lemma Rsum_cross (l : list R) (x : R) :
  2 * x * Rsum l <= Rsum (map (λ e, e * e) l) + INR (length l) * (x * x).
Proof.
  induction l as [|y l IH]; [simpl; lra|].
  change (length (y :: l)) with (S (length l)). rewrite S_INR. simpl.
  pose proof (Rle_0_sqr (x - y)) as Hsq. unfold Rsqr in Hsq. nra.
Qed.

(** The square of a sum is at most the number of terms times the sum of the
    squares. *)
Lemma Rsum_square_le (l : list R) :
  Rsum l * Rsum l <= INR (length l) * Rsum (map (λ e, e * e) l).
Proof.
  induction l as [|x l IH]; [simpl; lra|].
  change (length (x :: l)) with (S (length l)). rewrite S_INR. simpl.
  pose proof (Rsum_cross l x). nra.
Qed.

End Reductions.

Section ErrorMetric.
Context {F : Type} {num : NumOps F}.

(** The halving of the summation ends before the fuel does: any two
    amounts of fuel that reach the length of the list give the same sum. *)
Lemma pairwise_sum_fuel (f1 f2 : nat) (a : list F) :
  (length a ≤ f1)%nat → (length a ≤ f2)%nat →
  Quantize.pairwise_sum f1 a = Quantize.pairwise_sum f2 a.
Proof.
  revert f2 a. induction f1 as [|f1 IH]; intros f2 a H1 H2.
  - destruct a; [|simpl in H1; lia]. by destruct f2.
  - destruct f2 as [|f2].
    { destruct a; [|simpl in H2; lia]. done. }
    cbn [Quantize.pairwise_sum]. destruct (128 <? length a)%nat eqn:E; [|done].
    apply Nat.ltb_lt in E.
    pose proof (Nat.div_mod_eq (length a) 2) as Hd.
    pose proof (Nat.mod_upper_bound (length a) 2 ltac:(lia)) as Hd'.
    pose proof (Nat.div_mod_eq (length a / 2) 8) as Hm.
    pose proof (Nat.mod_upper_bound (length a / 2) 8 ltac:(lia)) as Hm'.
    f_equal; apply IH; rewrite ?length_take, ?length_drop; lia.
Qed.

Lemma abs_errors_length (original dequantized : ndarray F) :
  well_formed original → well_formed dequantized →
  shape original = shape dequantized →
  Z.of_nat (length (abs_errors original dequantized)) = size (shape original).
Proof.
  intros Ho Hd Hshape. unfold abs_errors.
  apply well_formed_length in Ho, Hd. rewrite <- Hshape in Hd.
  rewrite length_zip_with. lia.
Qed.

Lemma compute_quantization_error_mismatch (original dequantized : ndarray F) :
  shape original ≠ shape dequantized →
  Quantize.compute_quantization_error original dequantized
  = raise (ValueError "Shape mismatch between original and dequantized").
Proof.
  intros Hne. unfold Quantize.compute_quantization_error.
  by rewrite bool_decide_eq_true_2.
Qed.

Lemma compute_quantization_error_empty (original dequantized : ndarray F) :
  shape original = shape dequantized →
  abs_errors original dequantized = [] →
  Quantize.compute_quantization_error original dequantized
  = raise (ValueError "zero-size array to reduction operation maximum which has no identity").
Proof.
  intros Heq Hnil. unfold Quantize.compute_quantization_error.
  rewrite bool_decide_eq_false_2 by (by intros ?).
  fold (abs_errors original dequantized). by rewrite Hnil.
Qed.

Lemma compute_quantization_error_stats (original dequantized : ndarray F) (e : F) (es : list F) :
  shape original = shape dequantized →
  abs_errors original dequantized = e :: es →
  let max_error := np_to_py (fold_left np_maximum es e) in
  Quantize.compute_quantization_error original dequantized
  = ret {[ "max_error" := PFloat max_error;
           "mean_error" := PFloat (np_to_py (Quantize.mean (e :: es)));
           "rmse" := PFloat (np_to_py (np_sqrt (Quantize.mean (map (λ x, np_mul x x) (e :: es)))));
           "within_tolerance_1mm" := PBool (py_leb max_error (py_of_Q (1 # 1000)));
           "max_error_mm" := PFloat (py_mul max_error (py_of_Z 1000)) ]}.
Proof.
  intros Heq Herr. unfold Quantize.compute_quantization_error.
  rewrite bool_decide_eq_false_2 by (by intros ?).
  fold (abs_errors original dequantized). by rewrite Herr.
Qed.

End ErrorMetric.

Section ExactOrder.
Local Open Scope R_scope.

(** In exact arithmetic: mean <= root mean square <= maximum, for the
    absolute values of at least one number. *)
Lemma exact_statistics_order (e : R) (es : list R) :
  Forall (λ x, 0 <= x) (e :: es) →
  0 <= Quantize.mean (num := Exact.ops) (e :: es) ∧
  Quantize.mean (num := Exact.ops) (e :: es)
    <= sqrt (Quantize.mean (num := Exact.ops) (map (λ x, x * x) (e :: es))) ∧
  sqrt (Quantize.mean (num := Exact.ops) (map (λ x, x * x) (e :: es)))
    <= fold_left Rmax es e.
Proof.
  intros Hpos. set (l := e :: es) in *.
  rewrite !mean_exact, length_map.
  set (n := INR (length l)).
  assert (0 < n) as Hn by (apply lt_0_INR; simpl; lia).
  set (S := Rsum l). set (Q := Rsum (map (λ x, x * x) l)).
  set (M := fold_left Rmax es e).
  assert (0 <= S) as HS by (by apply Rsum_nonneg).
  assert (Forall (λ x, 0 <= x <= M) l) as Hbound.
  { destruct (fold_left_Rmax_ge es e) as [He Hes]. fold M in He, Hes.
    apply Forall_cons in Hpos as [He0 Hes0]. constructor; [lra|].
    rewrite Forall_forall in Hes, Hes0 |- *. intros x Hx.
    specialize (Hes x Hx). specialize (Hes0 x Hx). lra. }
  assert (0 <= M) as HM by (apply Forall_cons in Hbound as [? _]; lra).
  assert (S * S <= n * Q) as Hcs by apply Rsum_square_le.
  assert (Q <= n * (M * M)) as Hq by (by apply Rsum_squares_le_max).
  assert (0 < / n) as Hi by (by apply Rinv_0_lt_compat).
  assert (n * / n = 1) as Hni by (apply Rinv_r; lra).
  unfold Rdiv. set (i := / n) in *.
  assert (0 <= S * i) as Hmean by nra.
  assert (S * i * (S * i) <= Q * i) as Hle1.
  { assert (Q * i = n * Q * (i * i)) as ->
      by (transitivity (Q * i * (n * i)); [rewrite Hni|]; ring).
    replace (S * i * (S * i)) with (S * S * (i * i)) by ring.
    apply Rmult_le_compat_r; nra. }
  assert (Q * i <= M * M) as Hle2.
  { assert (M * M = n * (M * M) * i) as ->
      by (transitivity (M * M * (n * i)); [rewrite Hni|]; ring).
    apply Rmult_le_compat_r; lra. }
  split_and!; [done| |].
  - rewrite <- (sqrt_square (S * i)) at 1 by done. by apply sqrt_le_1_alt.
  - rewrite <- (sqrt_square M) by done. by apply sqrt_le_1_alt.
Qed.

End ExactOrder.

(** C7, as the code has it.  Arrays of different shapes are refused with a
    [ValueError], and so are arrays of one shape that hold no element (the
    maximum of nothing does not exist).  For arrays of one shape with at
    least one element the function returns its five statistics, where
    [within_tolerance_1mm] is the test [max_error <= 0.001] and
    [max_error_mm] is [max_error * 1000]; and when the arithmetic is exact,
    [0 <= mean_error <= rmse <= max_error]. *)
Theorem quantization_error_statistics :
  (∀ (F : Type) (num : NumOps F) (original dequantized : ndarray F),
      shape original ≠ shape dequantized →
      is_ValueError (Quantize.compute_quantization_error original dequantized)) ∧
  (∀ (F : Type) (num : NumOps F) (original dequantized : ndarray F),
      well_formed original → well_formed dequantized →
      shape original = shape dequantized → size (shape original) = 0 →
      is_ValueError (Quantize.compute_quantization_error original dequantized)) ∧
  (∀ (F : Type) (num : NumOps F) (original dequantized : ndarray F),
      well_formed original → well_formed dequantized →
      shape original = shape dequantized → 0 < size (shape original) →
      ∃ max_error mean_error rmse : F,
        Quantize.compute_quantization_error original dequantized
        = ret {[ "max_error" := PFloat max_error;
                 "mean_error" := PFloat mean_error;
                 "rmse" := PFloat rmse;
                 "within_tolerance_1mm" := PBool (py_leb max_error (py_of_Q (1 # 1000)));
                 "max_error_mm" := PFloat (py_mul max_error (py_of_Z 1000)) ]}) ∧
  (∀ original dequantized : ndarray R,
      well_formed original → well_formed dequantized →
      shape original = shape dequantized → 0 < size (shape original) →
      ∃ (max_error mean_error rmse : R) (within : bool),
        Quantize.compute_quantization_error (num := Exact.ops) original dequantized
        = ret {[ "max_error" := PFloat max_error;
                 "mean_error" := PFloat mean_error;
                 "rmse" := PFloat rmse;
                 "within_tolerance_1mm" := PBool within;
                 "max_error_mm" := PFloat (max_error * 1000)%R ]} ∧
        (0 <= mean_error)%R ∧ (mean_error <= rmse)%R ∧ (rmse <= max_error)%R ∧
        (within = true ↔ (max_error <= 1 / 1000)%R)).
Proof.
  split_and!.
  - intros F num original dequantized Hne.
    by rewrite compute_quantization_error_mismatch.
  - intros F num original dequantized Ho Hd Heq Hsize.
    rewrite compute_quantization_error_empty; [done|done|].
    apply length_zero_iff_nil.
    pose proof (abs_errors_length original dequantized Ho Hd Heq). lia.
  - intros F num original dequantized Ho Hd Heq Hsize.
    pose proof (abs_errors_length original dequantized Ho Hd Heq) as Hlen.
    destruct (abs_errors original dequantized) as [|e es] eqn:Herr; [simpl in Hlen; lia|].
    eexists _, _, _. by apply compute_quantization_error_stats.
  - intros original dequantized Ho Hd Heq Hsize.
    pose proof (abs_errors_length (num := Exact.ops) original dequantized Ho Hd Heq) as Hlen.
    destruct (abs_errors (num := Exact.ops) original dequantized) as [|e es] eqn:Herr;
      [simpl in Hlen; lia|].
    assert (Forall (λ x, (0 <= x)%R) (e :: es)) as Hpos.
    { rewrite <- Herr. unfold abs_errors. apply Forall_forall. intros x Hx.
      apply elem_of_lookup_zip_with in Hx as (i & a & b & -> & _). apply Rabs_pos. }
    destruct (exact_statistics_order e es Hpos) as (H0 & H1 & H2).
    eexists _, _, _, _.
    split; [by apply (compute_quantization_error_stats (num := Exact.ops))|].
    split_and!; [exact H0|exact H1|exact H2|].
    cbn [py_leb py_of_Q Exact.ops].
    replace (Q2R (1 # 1000)) with (1 / 1000)%R by (unfold Q2R; simpl; lra).
    destruct (Rle_dec _ _); split; intros; done.
Qed.

(** The statistics of one point whose third coordinate is off by two. *)
Lemma quantization_error_statistics_witness :
  ∃ (max_error mean_error rmse : R) (within : bool),
    Quantize.compute_quantization_error (num := Exact.ops)
      (NdArray [1; 3] [[1; 2; 3]%R]) (NdArray [1; 3] [[1; 2; 5]%R])
    = ret {[ "max_error" := PFloat max_error;
             "mean_error" := PFloat mean_error;
             "rmse" := PFloat rmse;
             "within_tolerance_1mm" := PBool within;
             "max_error_mm" := PFloat (max_error * 1000)%R ]} ∧
    (0 <= mean_error)%R ∧ (mean_error <= rmse)%R ∧ (rmse <= max_error)%R ∧
    (within = true ↔ (max_error <= 1 / 1000)%R).
Proof.
  apply (proj2 (proj2 (proj2 quantization_error_statistics))).
  - split; [reflexivity|]. repeat constructor.
  - split; [reflexivity|]. repeat constructor.
  - reflexivity.
  - reflexivity.
Defined.

(** C7, refuted as stated: two arrays of the same shape (0, 3) get no
    statistics but an error. *)
Lemma compute_quantization_error_empty_cloud :
  let empty : ndarray spec_float := NdArray [0; 3] [] in
  well_formed empty ∧ shape empty = shape empty ∧
  Quantize.compute_quantization_error (num := IEEE.ops) empty empty
  = raise (ValueError "zero-size array to reduction operation maximum which has no identity").
Proof.
  split_and!; [|reflexivity|reflexivity]. split; [reflexivity|constructor].
Qed.

(** The order of the statistics needs the arithmetic to be exact: in
    float32 the square of 2^-100 underflows to zero, so a single error of
    that size has a root mean square of zero below its positive mean. *)
Example ieee_rmse_below_mean :
  let tiny := IEEE.cast 24 128 (S754_finite false 1 (-100)) in
  let zero := IEEE.of_Z 24 128 0 in
  let mean_error := IEEE.cast 53 1024 (S754_finite false 11184811 (-125)) in
  Quantize.compute_quantization_error (num := IEEE.ops)
    (NdArray [1; 3] [[tiny; zero; zero]]) (NdArray [1; 3] [[zero; zero; zero]])
  = ret {[ "max_error" := PFloat (IEEE.cast 53 1024 tiny);
           "mean_error" := PFloat mean_error;
           "rmse" := PFloat (S754_zero false);
           "within_tolerance_1mm" := PBool true;
           "max_error_mm" := PFloat (SFmul 53 1024 (IEEE.cast 53 1024 tiny) (IEEE.of_Z 53 1024 1000)) ]} ∧
  SFltb (S754_zero false) mean_error = true.
Proof. split; vm_refl. Qed.

(** * Properties of the frame-ordering check *)

Lemma string_app_assoc (s1 s2 s3 : string) : (s1 +:+ s2) +:+ s3 = s1 +:+ (s2 +:+ s3).
Proof.
  induction s1 as [|c s1 IH]; [done|].
  change (String c ((s1 +:+ s2) +:+ s3) = String c (s1 +:+ (s2 +:+ s3))). by rewrite IH.
Qed.

Lemma string_app_empty_r (s : string) : s +:+ "" = s.
Proof.
  induction s as [|c s IH]; [done|].
  change (String c (s +:+ "") = String c s). by rewrite IH.
Qed.

Section OrderingProps.
Variable ordering_key : string → Z.

Local Abbreviation before := (λ a b : string, ordering_key a < ordering_key b).
Local Abbreviation ordering_errors := (Validators.ordering_errors ordering_key).

Lemma ordering_error_mentions (a b : string) :
  Validators.mentions (Validators.ordering_error a b) a ∧
  Validators.mentions (Validators.ordering_error a b) b.
Proof.
  unfold Validators.ordering_error. split.
  - exists "Frame ordering error: ", (" >= " +:+ b). done.
  - exists ("Frame ordering error: " +:+ a +:+ " >= "), "".
    by rewrite string_app_empty_r, !string_app_assoc.
Qed.

(** No error is reported exactly for a strictly increasing list of ids. *)
Lemma ordering_errors_nil (ids : list string) :
  ordering_errors ids = [] ↔ Sorted before ids.
Proof.
  induction ids as [|a [|b rest] IH].
  - split; [constructor|done].
  - split; [repeat constructor|done].
  - cbn [Validators.ordering_errors] in *. case_bool_decide as Hab; simpl.
    + rewrite IH. split.
      * intros Hs. constructor; [done|]. by constructor.
      * intros Hs. by apply Sorted_inv in Hs as [? _].
    + split; [done|]. intros Hs. apply Sorted_inv in Hs as [_ Hhd].
      by apply HdRel_inv in Hhd.
Qed.

(** An adjacent pair out of order has its own error in the list. *)
Lemma ordering_errors_reports (ids : list string) (i : nat) (a b : string) :
  ids !! i = Some a → ids !! S i = Some b → ¬ ordering_key a < ordering_key b →
  Validators.ordering_error a b ∈ ordering_errors ids.
Proof.
  revert i. induction ids as [|x [|y rest] IH]; intros i Ha Hb Hab.
  - by rewrite lookup_nil in Ha.
  - by destruct i.
  - cbn [Validators.ordering_errors]. destruct i as [|i].
    + simpl in Ha, Hb. injection Ha as ->. injection Hb as ->.
      rewrite bool_decide_eq_false_2 by done. by left.
    + apply elem_of_app. right. by apply (IH i).
Qed.

(** C6.  The check fails on an empty frame list; it fails, with an error
    that names both ids, whenever two adjacent ids are not in strictly
    increasing order; and it passes exactly when the frame list is not
    empty and its ids are strictly increasing. *)
Theorem frame_ordering_check (m : Validators.manifest) :
  let ids := map Validators.frame_id (Validators.frames m) in
  let valid := fst (Validators.validate_frame_ordering ordering_key m) in
  let errors := snd (Validators.validate_frame_ordering ordering_key m) in
  (Validators.frames m = [] → valid = false ∧ errors ≠ []) ∧
  (∀ (i : nat) (a b : string),
      ids !! i = Some a → ids !! S i = Some b → ¬ ordering_key a < ordering_key b →
      valid = false ∧
      ∃ e, e ∈ errors ∧ Validators.mentions e a ∧ Validators.mentions e b) ∧
  (valid = true ↔ Validators.frames m ≠ [] ∧ StronglySorted before ids).
Proof.
  unfold Validators.validate_frame_ordering.
  destruct (Validators.frames m) as [|f fs] eqn:Hfs; cbn zeta.
  - split_and!; [done| |].
    + intros i a b Ha. simpl in Ha. by rewrite lookup_nil in Ha.
    + simpl. split; [done|]. by intros [? _].
  - set (ids := map Validators.frame_id (f :: fs)). cbn [fst snd].
    assert (Transitive before) as Htrans by (intros x y z; lia).
    split_and!; [done| |].
    + intros i a b Ha Hb Hab.
      pose proof (ordering_errors_reports ids i a b Ha Hb Hab) as Hin.
      split.
      * apply bool_decide_eq_false. intros Hnil. rewrite Hnil in Hin. by apply elem_of_nil in Hin.
      * exists (Validators.ordering_error a b). split; [done|]. apply ordering_error_mentions.
    + rewrite bool_decide_eq_true, ordering_errors_nil. split.
      * intros Hs. split; [done|]. by apply Sorted_StronglySorted.
      * intros [_ Hs]. by apply StronglySorted_Sorted.
Qed.

End OrderingProps.

(** The three manifests of the test suite, ids ordered by their decimal value. *)
Example frame_ordering_sequential :
  Validators.validate_frame_ordering Examples.decimal_key
    (Examples.frames_of ["000000"; "000001"; "000002"]) = (true, []).
Proof. reflexivity. Qed.

Example frame_ordering_unordered :
  Validators.validate_frame_ordering Examples.decimal_key
    (Examples.frames_of ["000001"; "000000"; "000002"])
  = (false, ["Frame ordering error: 000001 >= 000000"]).
Proof. reflexivity. Qed.

Example frame_ordering_empty :
  fst (Validators.validate_frame_ordering Examples.decimal_key (Examples.frames_of [])) = false.
Proof. reflexivity. Qed.

(** The out-of-order manifest, through the general statement. *)
Lemma frame_ordering_check_witness :
  fst (Validators.validate_frame_ordering Examples.decimal_key
         (Examples.frames_of ["000001"; "000000"; "000002"])) = false ∧
  ∃ e, e ∈ snd (Validators.validate_frame_ordering Examples.decimal_key
                  (Examples.frames_of ["000001"; "000000"; "000002"])) ∧
       Validators.mentions e "000001" ∧ Validators.mentions e "000000".
Proof.
  apply (proj1 (proj2 (frame_ordering_check Examples.decimal_key
                         (Examples.frames_of ["000001"; "000000"; "000002"]))) 0%nat).
  - reflexivity.
  - reflexivity.
  - vm_compute. discriminate.
Defined.

(** * The quantize/dequantize round trip *)

Section Roundoff.
Local Open Scope R_scope.

Lemma Rabs_le_inv (a b : R) : Rabs a <= b → - b <= a <= b.
Proof. unfold Rabs. destruct (Rcase_abs a); lra. Qed.

Lemma u32_small : 0 < u32 <= 6 / 10 ^ 8.
Proof. unfold u32. lra. Qed.

Lemma eta32_small : 0 < eta32 <= 1 / 10 ^ 40.
Proof. unfold eta32. lra. Qed.

Lemma u16_small : 0 < u16 <= 49 / 10 ^ 5.
Proof. unfold u16. lra. Qed.

Lemma eta16_small : 0 < eta16 <= 3 / 10 ^ 8.
Proof. unfold eta16. lra. Qed.

Lemma huge_large : 10 ^ 6 <= huge.
Proof. unfold huge. lra. Qed.

Lemma u32_times (e : R) : 0 <= e → 0 <= u32 * e <= 6 / 10 ^ 8 * e.
Proof.
  intros He. pose proof u32_small as [Hu0 Hu1]. split.
  - apply Rmult_le_pos; lra.
  - apply Rmult_le_compat_r; lra.
Qed.

(** An operation with relative error [u32] and absolute error [eta32] on a
    result of size at most [B] is off by at most [c]. *)
Lemma round_within (z e B c : R) :
  Rabs (z - e) <= u32 * Rabs e + eta32 → Rabs e <= B →
  6 / 10 ^ 8 * B + 1 / 10 ^ 40 <= c →
  - c <= z - e <= c.
Proof.
  intros Herr HB Hc. apply Rabs_le_inv.
  pose proof u32_small. pose proof eta32_small. pose proof (Rabs_pos e). nra.
Qed.

Lemma round_within_rel (z e B c : R) :
  Rabs (z - e) <= u32 * Rabs e → Rabs e <= B → 6 / 10 ^ 8 * B <= c →
  - c <= z - e <= c.
Proof.
  intros Herr HB Hc. apply Rabs_le_inv.
  pose proof u32_small. pose proof (Rabs_pos e). nra.
Qed.

End Roundoff.

Section Chain.
Context {F : Type} {num : NumOps F} {model : Model F}.
Hypothesis acc : Accurate num model.
Local Open Scope R_scope.

Lemma single_const (z : Z) :
  (Z.abs z ≤ 2 ^ 24)%Z → single (np_of_Z z) ∧ val (np_of_Z z) = IZR z.
Proof using acc. apply (acc_of_Z _ _ acc). Qed.

(** The integer cast of a number strictly between -32768 and 32768. *)
Lemma trunc_int16 (p : F) :
  single p → -32768 < val p < 32768 →
  Quantize.wrap_int16 (np_trunc p) = np_trunc p ∧
  (-32767 <= np_trunc p <= 32767)%Z ∧
  -1 < IZR (np_trunc p) - val p < 1.
Proof using acc.
  intros Hp Hrange.
  destruct (acc_trunc _ _ acc p Hp) as [Hpos Hneg].
  assert (-1 < IZR (np_trunc p) - val p < 1 ∧ Rabs (IZR (np_trunc p)) <= Rabs (val p))
    as [Hd Hle].
  { destruct (Rle_dec 0 (val p)) as [H0|H0].
    - specialize (Hpos H0). split; [lra|].
      assert (0 <= IZR (np_trunc p)).
      { apply IZR_le. apply Z.lt_succ_r, lt_IZR. rewrite succ_IZR. lra. }
      rewrite !Rabs_pos_eq; lra.
    - assert (val p <= 0) as H1 by lra. specialize (Hneg H1). split; [lra|].
      assert (IZR (np_trunc p) <= 0).
      { apply IZR_le. apply Z.lt_succ_r, lt_IZR. rewrite succ_IZR.
        assert (IZR (np_trunc p) - 1 < 0) by lra. lra. }
      rewrite !Rabs_left1; lra. }
  assert ((-32768 < np_trunc p < 32768)%Z) as Hq.
  { apply Rabs_le_inv in Hle as Hle'.
    assert (Rabs (val p) < 32768) by (apply Rabs_def1; lra).
    pose proof (Rle_abs (IZR (np_trunc p))).
    split; apply lt_IZR; [|lra].
    pose proof (Rle_abs (- IZR (np_trunc p))) as Hm. rewrite Rabs_Ropp in Hm. lra. }
  split; [|split; [lia|done]].
  unfold Quantize.wrap_int16. rewrite Z.mod_small; lia.
Qed.

(** From the normalized coordinate [n], close to [2 w - 1], through the
    integer and back to a coordinate close to [lo + w * range]. *)
Lemma restore_coordinate (n lo rng : F) (w : R) :
  single n → single lo → single rng →
  0 <= w <= 1 + 1 / 10 ^ 6 → Rabs (val n - (2 * w - 1)) <= 4 / 10 ^ 7 →
  0 < val rng <= 201 → Rabs (val lo) <= 100 →
  single (Quantize.denormalize (Quantize.to_int16 n) lo rng) ∧
  Rabs (val (Quantize.denormalize (Quantize.to_int16 n) lo rng) - (val lo + w * val rng))
    <= 33 / 10 ^ 4.
Proof using acc.
  intros Hn Hlo Hrng Hw Hnw HR HL.
  apply Rabs_le_inv in Hnw, HL. pose proof huge_large as Hhuge.
  destruct (single_const 1) as [H1s H1v]; [lia|].
  destruct (single_const 2) as [H2s H2v]; [lia|].
  destruct (single_const 32767) as [Hks Hkv]; [lia|].
  unfold Quantize.to_int16, Quantize.denormalize.
  (* p = n * 32767 *)
  set (p := np_mul n (np_of_Z 32767)).
  destruct (acc_mul _ _ acc n (np_of_Z 32767) Hn Hks) as [Hp Hperr].
  { rewrite Hkv. apply Rabs_le. lra. }
  fold p in Hp, Hperr. rewrite Hkv in Hperr.
  apply (round_within _ _ 32768 (2 / 10 ^ 3)) in Hperr; [|apply Rabs_le; lra|lra].
  (* q = trunc p *)
  destruct (trunc_int16 p Hp) as (-> & Hq & Hqp); [lra|].
  set (q := np_trunc p) in *.
  assert (-32767 <= IZR q <= 32767) as HqR by (split; apply IZR_le; lia).
  destruct (single_const q) as [Hqs Hqv]; [lia|].
  (* a = q / 32767 *)
  set (a := np_div (np_of_Z q) (np_of_Z 32767)).
  destruct (acc_div _ _ acc (np_of_Z q) (np_of_Z 32767) Hqs Hks) as [Ha Haerr].
  { rewrite Hkv. lra. }
  { rewrite Hqv, Hkv. apply Rabs_le. lra. }
  fold a in Ha, Haerr. rewrite Hqv, Hkv in Haerr.
  apply (round_within _ _ 1 (7 / 10 ^ 8)) in Haerr; [|apply Rabs_le; lra|lra].
  (* b = a + 1 *)
  set (b := np_add a (np_of_Z 1)).
  destruct (acc_add _ _ acc a (np_of_Z 1) Ha H1s) as [Hb Hberr].
  { rewrite H1v. apply Rabs_le. lra. }
  fold b in Hb, Hberr. rewrite H1v in Hberr.
  apply (round_within_rel _ _ 3 (2 / 10 ^ 7)) in Hberr; [|apply Rabs_le; lra|lra].
  (* c = b / 2 *)
  set (c := np_div b (np_of_Z 2)).
  destruct (acc_div _ _ acc b (np_of_Z 2) Hb H2s) as [Hc Hcerr].
  { rewrite H2v. lra. }
  { rewrite H2v. apply Rabs_le. lra. }
  fold c in Hc, Hcerr. rewrite H2v in Hcerr.
  apply (round_within _ _ 2 (2 / 10 ^ 7)) in Hcerr; [|apply Rabs_le; lra|lra].
  assert (- (16 / 10 ^ 6) <= val c - w <= 16 / 10 ^ 6) as Hcw by lra.
  (* g = c * range *)
  set (g := np_mul c rng).
  assert (- 202 <= val c * val rng <= 202) as Hcr by nra.
  destruct (acc_mul _ _ acc c rng Hc Hrng) as [Hg Hgerr].
  { apply Rabs_le. lra. }
  fold g in Hg, Hgerr.
  apply (round_within _ _ 202 (13 / 10 ^ 6)) in Hgerr; [|apply Rabs_le; lra|lra].
  (* y = g + lo *)
  destruct (acc_add _ _ acc g lo Hg Hlo) as [Hy Hyerr].
  { apply Rabs_le. lra. }
  split; [exact Hy|].
  apply (round_within_rel _ _ 303 (19 / 10 ^ 6)) in Hyerr; [|apply Rabs_le; lra|lra].
  assert (- (3216 / 10 ^ 6) <= (val c - w) * val rng <= 3216 / 10 ^ 6) as Hprod by nra.
  apply Rabs_le. lra.
Qed.

(** One spatial coordinate through [quantize_int16] and back. *)
Lemma coordinate_roundtrip (x lo hi : F) :
  single x → single lo → single hi →
  -100 <= val lo → val lo <= val x → val x <= val hi → val hi <= 100 →
  single (restore x lo hi) ∧ Rabs (val (restore x lo hi) - val x) <= 33 / 10 ^ 4.
Proof using acc.
  intros Hx Hlo Hhi HL1 HL2 HL3 HL4. unfold restore. cbn zeta.
  pose proof huge_large as Hhuge. pose proof u32_small as Hu. pose proof eta32_small as Heta.
  destruct (single_const 1) as [H1s H1v]; [lia|].
  assert (0 <= val hi - val lo) as HE0 by lra.
  assert (0 <= val x - val lo) as HD0 by lra.
  pose proof (u32_times _ HE0) as HuE.
  pose proof (u32_times _ HD0) as HuD.
  (* the extent *)
  destruct (acc_sub _ _ acc hi lo Hhi Hlo) as [Hr0 Hr0err]; [apply Rabs_le; lra|].
  rewrite (Rabs_pos_eq (val hi - val lo)) in Hr0err by lra.
  apply Rabs_le_inv in Hr0err.
  (* the offset of the coordinate *)
  destruct (acc_sub _ _ acc x lo Hx Hlo) as [Hd Hderr]; [apply Rabs_le; lra|].
  rewrite (Rabs_pos_eq (val x - val lo)) in Hderr by lra.
  apply Rabs_le_inv in Hderr.
  set (d := np_sub x lo) in *.
  destruct (acc_double _ _ acc d Hd) as [Ht Htv]; [apply Rabs_le; lra|].
  set (t := np_mul (np_of_Z 2) d) in *.
  assert (∃ (rng : F) (w : R),
    axis_divisor lo hi = rng ∧ single rng ∧ 0 < val rng <= 201 ∧
    0 <= w <= 1 + 1 / 10 ^ 6 ∧ val x = val lo + w * val rng ∧
    - (13 / 10 ^ 8) <= val t / val rng - 2 * w <= 13 / 10 ^ 8)
    as (rng & w & Hrng & Hrngs & HR & Hw & Hxw & Htw).
  { unfold axis_divisor.
    destruct (np_eqb (np_sub hi lo) (np_of_Z 0)) eqn:Hz.
    - apply (acc_eqb_zero _ _ acc _ Hr0) in Hz.
      rewrite Hz in Hr0err.
      assert (val hi - val lo = 0) as HEz by lra.
      assert (val d = 0) as Hdv by lra.
      exists (np_of_Z 1), 0. rewrite H1v, Htv, Hdv.
      split_and!; try done; lra.
    - assert (val (np_sub hi lo) ≠ 0) as Hnz.
      { intros Hv. apply (acc_eqb_zero _ _ acc _ Hr0) in Hv. congruence. }
      set (R := val (np_sub hi lo)) in *.
      assert (0 <= R) as HRge by lra.
      assert (0 < R) as HRpos.
      { destruct (Rle_lt_or_eq_dec 0 R HRge) as [?|Heq]; [done|]. by destruct Hnz. }
      assert (0 < / R) as Hi by (by apply Rinv_0_lt_compat).
      assert (R * / R = 1) as HRi by (apply Rinv_r; lra).
      exists (np_sub hi lo), ((val x - val lo) * / R). fold R.
      assert (val x - val lo <= val hi - val lo) as HDE by lra.
      assert (val x = val lo + (val x - val lo)) as HxD by ring.
      revert HDE HxD HD0 HuD Hderr.
      generalize (val x - val lo). intros D HDE HxD HD0 HuD Hderr.
      assert (D <= (1 + 1 / 10 ^ 6) * R) as HDR by lra.
      assert (D * / R <= 1 + 1 / 10 ^ 6) as Hwle.
      { replace (1 + 1 / 10 ^ 6) with ((1 + 1 / 10 ^ 6) * R * / R) by (rewrite Rmult_assoc, HRi; ring).
        apply Rmult_le_compat_r; lra. }
      assert (0 <= D * / R) as Hwge by (apply Rmult_le_pos; lra).
      assert (- (6 / 10 ^ 8 * (D * / R)) <= (val d - D) * / R <= 6 / 10 ^ 8 * (D * / R)) as Hrel.
      { split.
        - replace (- (6 / 10 ^ 8 * (D * / R))) with (- (6 / 10 ^ 8 * D) * / R) by ring.
          apply Rmult_le_compat_r; lra.
        - replace (6 / 10 ^ 8 * (D * / R)) with (6 / 10 ^ 8 * D * / R) by ring.
          apply Rmult_le_compat_r; lra. }
      split_and!; try done; try lra.
      + rewrite Rmult_assoc, (Rmult_comm (/ R)), HRi. lra.
      + unfold Rdiv. rewrite Htv.
        replace (2 * val d * / R - 2 * (D * / R)) with (2 * ((val d - D) * / R)) by ring. lra.
      + unfold Rdiv. rewrite Htv.
        replace (2 * val d * / R - 2 * (D * / R)) with (2 * ((val d - D) * / R)) by ring. lra. }
  rewrite Hrng. unfold Quantize.normalize. fold d. fold t.
  (* v = t / range *)
  destruct (acc_div _ _ acc t rng Ht Hrngs) as [Hv Hverr]; [lra| |].
  { apply Rabs_le. lra. }
  set (v := np_div t rng) in *.
  apply (round_within _ _ (21 / 10) (13 / 10 ^ 8)) in Hverr; [|apply Rabs_le; lra|lra].
  (* n = v - 1 *)
  destruct (acc_sub _ _ acc v (np_of_Z 1) Hv H1s) as [Hn Hnerr].
  { rewrite H1v. apply Rabs_le. lra. }
  rewrite H1v in Hnerr.
  apply (round_within_rel _ _ 2 (12 / 10 ^ 8)) in Hnerr; [|apply Rabs_le; lra|lra].
  set (n := np_sub v (np_of_Z 1)) in *.
  destruct (restore_coordinate n lo rng w Hn Hlo Hrngs Hw) as [Hy Hyerr].
  { apply Rabs_le. lra. }
  { done. }
  { apply Rabs_le. lra. }
  split; [exact Hy|]. by rewrite Hxw.
Qed.

(** The intensity of a point through [quantize_int16] and back. *)
Lemma intensity_roundtrip (i : F) :
  single i → 0 <= val i <= 1 →
  single (restore_intensity i) ∧ Rabs (val (restore_intensity i) - val i) <= 2 / 10 ^ 5.
Proof using acc.
  intros Hi HI. unfold restore_intensity. pose proof huge_large as Hhuge.
  destruct (single_const 0) as [H0s H0v]; [lia|].
  destruct (single_const 65535) as [Hks Hkv]; [lia|].
  unfold Quantize.intensity_to_uint16.
  (* m = i * 65535 *)
  destruct (acc_mul _ _ acc i (np_of_Z 65535) Hi Hks) as [Hm Hmerr].
  { rewrite Hkv. apply Rabs_le. lra. }
  rewrite Hkv in Hmerr.
  apply (round_within _ _ 65535 (4 / 10 ^ 3)) in Hmerr; [|apply Rabs_le; lra|lra].
  set (m := np_mul i (np_of_Z 65535)) in *.
  (* clip *)
  destruct (acc_maximum _ _ acc m (np_of_Z 0) Hm H0s) as [Hk1 Hk1v]. rewrite H0v in Hk1v.
  set (k1 := np_maximum m (np_of_Z 0)) in *.
  destruct (acc_minimum _ _ acc k1 (np_of_Z 65535) Hk1 Hks) as [Hk Hkval]. rewrite Hkv in Hkval.
  set (k := np_minimum k1 (np_of_Z 65535)) in *.
  assert (0 <= val k <= 65535 ∧ - (4 / 10 ^ 3) <= val k - val i * 65535 <= 4 / 10 ^ 3)
    as [Hkr Hkerr].
  { rewrite Hkval, Hk1v. unfold Rmin, Rmax.
    destruct (Rle_dec (val m) 0); destruct (Rle_dec _ 65535); lra. }
  (* the integer *)
  destruct (acc_trunc _ _ acc k Hk) as [Hpos _]. specialize (Hpos ltac:(lra)).
  set (q := np_trunc k) in *.
  assert ((0 <= q <= 65535)%Z) as Hq.
  { split.
    - apply Z.lt_succ_r, lt_IZR. rewrite succ_IZR. lra.
    - apply le_IZR. lra. }
  assert (0 <= IZR q <= 65535) as HqR by (split; apply IZR_le; lia).
  unfold Quantize.wrap_uint16. rewrite Z.mod_small by lia.
  destruct (single_const q) as [Hqs Hqv]; [lia|].
  (* y = q / 65535 *)
  destruct (acc_div _ _ acc (np_of_Z q) (np_of_Z 65535) Hqs Hks) as [Hy Hyerr].
  { rewrite Hkv. lra. }
  { rewrite Hqv, Hkv. apply Rabs_le. lra. }
  split; [exact Hy|]. rewrite Hqv, Hkv in Hyerr.
  apply (round_within _ _ 1 (7 / 10 ^ 8)) in Hyerr; [|apply Rabs_le; lra|lra].
  apply Rabs_le. lra.
Qed.

(** One value through [quantize_fp16] and back. *)
Lemma half_roundtrip (x : F) :
  single x → Rabs (val x) <= 100 →
  single (np_to_single (np_to_half x)) ∧
  Rabs (val (np_to_single (np_to_half x)) - val x) <= 5 / 10 ^ 2.
Proof using acc.
  intros Hx HX.
  destruct (acc_half _ _ acc x Hx) as [Hy Hyerr]; [lra|].
  split; [exact Hy|].
  pose proof u16_small. pose proof eta16_small. pose proof (Rabs_pos (val x)). nra.
Qed.

(** *** The bounding box *)

(** The column-wise reduction of the spatial part of the rows, axis by axis. *)
Lemma reduce_columns (op : F → F → F) (rop : R → R → R) (rs : list (list F)) :
  (∀ x y, single x → single y → single (op x y) ∧ val (op x y) = rop (val x) (val y)) →
  Forall spatial_row rs →
  ∀ a b c : F, single a → single b → single c →
  ∃ a' b' c' : F,
    fold_left (zip_with op) (map (take 3) rs) [a; b; c] = [a'; b'; c'] ∧
    single a' ∧ single b' ∧ single c' ∧
    val a' = fold_left rop (map (λ r, val (nth 0 r (np_of_Z 0))) rs) (val a) ∧
    val b' = fold_left rop (map (λ r, val (nth 1 r (np_of_Z 0))) rs) (val b) ∧
    val c' = fold_left rop (map (λ r, val (nth 2 r (np_of_Z 0))) rs) (val c).
Proof.
  intros Hop Hrs. induction Hrs as [|r rs (x & y & z & rest & -> & Hx & Hy & Hz) _ IH];
    intros a b c Ha Hb Hc.
  - exists a, b, c. by split_and!.
  - cbn [map fold_left take zip_with nth].
    destruct (Hop a x Ha Hx) as [Ha' Hav], (Hop b y Hb Hy) as [Hb' Hbv],
      (Hop c z Hc Hz) as [Hc' Hcv].
    destruct (IH _ _ _ Ha' Hb' Hc') as (a' & b' & c' & Heq & ? & ? & ? & Hva & Hvb & Hvc).
    exists a', b', c'. rewrite Heq, Hva, Hvb, Hvc, Hav, Hbv, Hcv.
    by split_and!.
Qed.

Lemma fold_left_Rmin_le (l : list R) (a : R) :
  fold_left Rmin l a <= a ∧ Forall (λ x, fold_left Rmin l a <= x) l.
Proof.
  revert a. induction l as [|x l IH]; intros a; simpl; [split; [lra|constructor]|].
  destruct (IH (Rmin a x)) as [Ha Hl].
  pose proof (Rmin_l a x). pose proof (Rmin_r a x).
  split; [lra|]. constructor; [lra|done].
Qed.

Lemma fold_left_Rmin_ge (l : list R) (a m : R) :
  m <= a → Forall (λ x, m <= x) l → m <= fold_left Rmin l a.
Proof.
  intros Ha Hl. revert a Ha. induction Hl as [|x l Hx _ IH]; intros a Ha; simpl; [done|].
  apply IH. by apply Rmin_glb.
Qed.

Lemma fold_left_Rmax_le (l : list R) (a m : R) :
  a <= m → Forall (λ x, x <= m) l → fold_left Rmax l a <= m.
Proof.
  intros Ha Hl. revert a Ha. induction Hl as [|x l Hx _ IH]; intros a Ha; simpl; [done|].
  apply IH. by apply Rmax_lub.
Qed.

Lemma in_range_spatial (r : list F) :
  in_range r → (3 <= length r)%nat →
  ∃ (x y z : F) (rest : list F), r = x :: y :: z :: rest ∧
    (single x ∧ -100 <= val x <= 100) ∧ (single y ∧ -100 <= val y <= 100) ∧
    (single z ∧ -100 <= val z <= 100) ∧ in_range rest.
Proof.
  intros Hr Hlen. destruct r as [|x [|y [|z rest]]]; simpl in Hlen; try lia.
  unfold in_range in Hr.
  apply Forall_cons in Hr as [[Hx Hxv] Hr]. apply Forall_cons in Hr as [[Hy Hyv] Hr].
  apply Forall_cons in Hr as [[Hz Hzv] Hr].
  apply Rabs_le_inv in Hxv, Hyv, Hzv.
  exists x, y, z, rest. split_and!; try done; lra.
Qed.

(** The bounding box [quantize_int16] computes for a cloud that is not
    empty: finite, inside [-100, 100], and around every point. *)
Lemma cloud_bbox (rs : list (list F)) :
  rs ≠ [] → Forall in_range rs → Forall (λ r, (3 <= length r)%nat) rs →
  ∃ lo hi : F * F * F,
    Quantize.reduce_axis0 np_minimum "minimum" (map (take 3) rs) = ret [lo.1.1; lo.1.2; lo.2] ∧
    Quantize.reduce_axis0 np_maximum "maximum" (map (take 3) rs) = ret [hi.1.1; hi.1.2; hi.2] ∧
    (single lo.1.1 ∧ single lo.1.2 ∧ single lo.2) ∧
    (single hi.1.1 ∧ single hi.1.2 ∧ single hi.2) ∧
    (-100 <= val lo.1.1 ∧ -100 <= val lo.1.2 ∧ -100 <= val lo.2) ∧
    (val hi.1.1 <= 100 ∧ val hi.1.2 <= 100 ∧ val hi.2 <= 100) ∧
    Forall (inside lo hi) rs.
Proof using acc.
  intros Hne Hrange Hlen. destruct rs as [|r0 rest]; [done|]. clear Hne.
  assert (Forall (λ r, ∃ (x y z : F) (tl : list F), r = x :: y :: z :: tl ∧
            (single x ∧ -100 <= val x <= 100) ∧ (single y ∧ -100 <= val y <= 100) ∧
            (single z ∧ -100 <= val z <= 100)) (r0 :: rest)) as Hall.
  { rewrite Forall_forall in Hrange, Hlen |- *. intros r Hr.
    destruct (in_range_spatial r (Hrange r Hr) (Hlen r Hr)) as (x & y & z & tl & ? & ? & ? & ? & _).
    by exists x, y, z, tl. }
  clear Hrange Hlen.
  apply Forall_cons in Hall as [(x0 & y0 & z0 & tl0 & -> & [Hx0 Hx0v] & [Hy0 Hy0v] & [Hz0 Hz0v]) Hall].
  assert (Forall spatial_row rest) as Hsp.
  { eapply Forall_impl; [exact Hall|]. intros r (x & y & z & tl & -> & [? _] & [? _] & [? _]).
    by exists x, y, z, tl. }
  destruct (reduce_columns np_minimum Rmin rest (acc_minimum _ _ acc) Hsp x0 y0 z0 Hx0 Hy0 Hz0)
    as (lx & ly & lz & Hlo & Hlx & Hly & Hlz & Hlxv & Hlyv & Hlzv).
  destruct (reduce_columns np_maximum Rmax rest (acc_maximum _ _ acc) Hsp x0 y0 z0 Hx0 Hy0 Hz0)
    as (hx & hy & hz & Hhi & Hhx & Hhy & Hhz & Hhxv & Hhyv & Hhzv).
  exists (lx, ly, lz), (hx, hy, hz). cbn [fst snd map take Quantize.reduce_axis0].
  rewrite !take_0, Hlo, Hhi.
  (* the columns, as lists of reals *)
  set (cx := map (λ r, val (nth 0 r (np_of_Z 0))) rest) in *.
  set (cy := map (λ r, val (nth 1 r (np_of_Z 0))) rest) in *.
  set (cz := map (λ r, val (nth 2 r (np_of_Z 0))) rest) in *.
  assert (Forall (λ v, -100 <= v <= 100) cx ∧ Forall (λ v, -100 <= v <= 100) cy ∧
          Forall (λ v, -100 <= v <= 100) cz) as (Hcx & Hcy & Hcz).
  { split_and!; apply Forall_fmap; (eapply Forall_impl; [exact Hall|]);
      intros r (x & y & z & tl & -> & [_ ?] & [_ ?] & [_ ?]); done. }
  destruct (fold_left_Rmin_le cx (val x0)) as [Hlx0 Hlxall], (fold_left_Rmin_le cy (val y0))
    as [Hly0 Hlyall], (fold_left_Rmin_le cz (val z0)) as [Hlz0 Hlzall].
  destruct (fold_left_Rmax_ge cx (val x0)) as [Hhx0 Hhxall], (fold_left_Rmax_ge cy (val y0))
    as [Hhy0 Hhyall], (fold_left_Rmax_ge cz (val z0)) as [Hhz0 Hhzall].
  rewrite <- Hlxv in Hlx0, Hlxall. rewrite <- Hlyv in Hly0, Hlyall. rewrite <- Hlzv in Hlz0, Hlzall.
  rewrite <- Hhxv in Hhx0, Hhxall. rewrite <- Hhyv in Hhy0, Hhyall. rewrite <- Hhzv in Hhz0, Hhzall.
  split_and!; try done.
  - rewrite Hlxv. apply fold_left_Rmin_ge; [lra|]. eapply Forall_impl; [exact Hcx|]. simpl. intros; lra.
  - rewrite Hlyv. apply fold_left_Rmin_ge; [lra|]. eapply Forall_impl; [exact Hcy|]. simpl. intros; lra.
  - rewrite Hlzv. apply fold_left_Rmin_ge; [lra|]. eapply Forall_impl; [exact Hcz|]. simpl. intros; lra.
  - rewrite Hhxv. apply fold_left_Rmax_le; [lra|]. eapply Forall_impl; [exact Hcx|]. simpl. intros; lra.
  - rewrite Hhyv. apply fold_left_Rmax_le; [lra|]. eapply Forall_impl; [exact Hcy|]. simpl. intros; lra.
  - rewrite Hhzv. apply fold_left_Rmax_le; [lra|]. eapply Forall_impl; [exact Hcz|]. simpl. intros; lra.
  - constructor.
    + exists x0, y0, z0, tl0. cbn [fst snd]. split_and!; done.
    + apply Forall_forall. intros r Hr.
      rewrite Forall_forall in Hall. destruct (Hall r Hr) as (x & y & z & tl & -> & [? _] & [? _] & [? _]).
      exists x, y, z, tl. cbn [fst snd].
      rewrite Forall_forall in Hlxall, Hlyall, Hlzall, Hhxall, Hhyall, Hhzall.
      split_and!; try done.
      * apply Hlxall. apply (list_elem_of_fmap_2 (λ r, val (nth 0 r (np_of_Z 0))) rest _ Hr).
      * apply Hhxall. apply (list_elem_of_fmap_2 (λ r, val (nth 0 r (np_of_Z 0))) rest _ Hr).
      * apply Hlyall. apply (list_elem_of_fmap_2 (λ r, val (nth 1 r (np_of_Z 0))) rest _ Hr).
      * apply Hhyall. apply (list_elem_of_fmap_2 (λ r, val (nth 1 r (np_of_Z 0))) rest _ Hr).
      * apply Hlzall. apply (list_elem_of_fmap_2 (λ r, val (nth 2 r (np_of_Z 0))) rest _ Hr).
      * apply Hhzall. apply (list_elem_of_fmap_2 (λ r, val (nth 2 r (np_of_Z 0))) rest _ Hr).
Qed.

(** *** The two modes on a whole cloud *)

Local Open Scope Z_scope.

Lemma column_total {A : Type} (j : nat) (d : A) (rs : list (list A)) :
  Forall (λ r, (j < length r)%nat) rs →
  Quantize.column j rs = ret (map (λ r, nth j r d) rs).
Proof.
  intros Hrs. unfold Quantize.column.
  assert (mapM (λ r : list A, r !! j) rs = Some (map (λ r, nth j r d) rs)) as ->; [|done].
  apply mapM_Some. induction Hrs as [|r rs Hr _ IH]; [constructor|].
  constructor; [|exact IH].
  destruct (lookup_lt_is_Some_2 r j Hr) as [y Hy]. rewrite Hy. f_equal.
  symmetry. by apply nth_lookup_Some.
Qed.

(** The int16 mode and back, on a cloud without intensity. *)
Lemma int16_roundtrip_width3 (points : ndarray F) (n : Z) :
  is_cloud points n 3 → rows points ≠ [] → Forall in_range (rows points) →
  ∃ (lo hi : F * F * F) (q : Quantize.array F) (md : pydict F),
    Quantize.quantize_int16 (Quantize.FloatArray Quantize.float32 points) = ret (q, md) ∧
    Quantize.dequantize_points q md
    = ret (NdArray [n; 3] (map (restore_point lo hi) (rows points))) ∧
    (-100 <= val lo.1.1 ∧ -100 <= val lo.1.2 ∧ -100 <= val lo.2)%R ∧
    (val hi.1.1 <= 100 ∧ val hi.1.2 <= 100 ∧ val hi.2 <= 100)%R ∧
    (single lo.1.1 ∧ single lo.1.2 ∧ single lo.2) ∧
    (single hi.1.1 ∧ single hi.1.2 ∧ single hi.2) ∧
    Forall (inside lo hi) (rows points).
Proof using acc.
  intros (Hshape & Hn & Hrows) Hne Hrange.
  destruct (cloud_bbox (rows points) Hne Hrange)
    as (lo & hi & Hmin & Hmax & Hlos & His & Hlov & Hhiv & Hin).
  { eapply Forall_impl; [exact Hrows|]. simpl. intros r Hr. lia. }
  exists lo, hi. eexists _, _.
  unfold Quantize.quantize_int16, Quantize.shape1.
  cbn [Quantize.array_shape Quantize.astype_float32].
  rewrite Hshape. cbn [lookup list_lookup bind ret Z.ltb Z.compare Pos.compare Pos.compare_cont].
  rewrite Hmin, Hmax. cbn [bind ret].
  unfold Quantize.bbox_divisor, Quantize.replace_zero.
  cbn [zip_with map Quantize.reduce1 bind ret fold_left].
  fold (axis_divisor lo.1.1 hi.1.1). fold (axis_divisor lo.1.2 hi.1.2).
  fold (axis_divisor lo.2 hi.2).
  split; [reflexivity|]. split; [|done].
  match goal with |- context [Quantize.dequantize_points _ ?m] => set (md := m) end.
  assert (md !! "mode" = Some (PStr "int16")) as Hmode by done.
  assert (md !! "bbox_min" = Some (PFloats [np_to_py lo.1.1; np_to_py lo.1.2; np_to_py lo.2]))
    as Hbmin by done.
  assert (md !! "bbox_max" = Some (PFloats [np_to_py hi.1.1; np_to_py hi.1.2; np_to_py hi.2]))
    as Hbmax by done.
  clearbody md.
  unfold Quantize.dequantize_points, Quantize.float32_list. rewrite Hmode, Hbmin, Hbmax.
  cbn [bind ret map Quantize.astype_int16 Quantize.shape1 Quantize.array_shape shape rows
       lookup list_lookup Z.ltb Z.compare Pos.compare Pos.compare_cont].
  destruct Hlos as (? & ? & ?), His as (? & ? & ?).
  rewrite !(acc_to_py _ _ acc) by done.
  unfold Quantize.bbox_divisor, Quantize.replace_zero. cbn [zip_with map zip].
  fold (axis_divisor lo.1.1 hi.1.1). fold (axis_divisor lo.1.2 hi.1.2).
  fold (axis_divisor lo.2 hi.2).
  rewrite !length_map, <- Hn, !map_map. do 2 f_equal.
  apply Forall_fmap_ext_1. eapply Forall_impl; [exact Hrows|].
  intros r Hr. simpl in Hr. destruct r as [|x [|y [|z [|? ?]]]]; simpl in Hr; try lia.
  reflexivity.
Qed.

(** The int16 mode and back, on a cloud with intensity. *)
Lemma int16_roundtrip_width4 (points : ndarray F) (n : Z) :
  is_cloud points n 4 → rows points ≠ [] → Forall in_range (rows points) →
  ∃ (lo hi : F * F * F) (q : Quantize.array F) (md : pydict F),
    Quantize.quantize_int16 (Quantize.FloatArray Quantize.float32 points) = ret (q, md) ∧
    Quantize.dequantize_points q md
    = ret (NdArray [n; 4] (map (restore_point lo hi) (rows points))) ∧
    (-100 <= val lo.1.1 ∧ -100 <= val lo.1.2 ∧ -100 <= val lo.2)%R ∧
    (val hi.1.1 <= 100 ∧ val hi.1.2 <= 100 ∧ val hi.2 <= 100)%R ∧
    (single lo.1.1 ∧ single lo.1.2 ∧ single lo.2) ∧
    (single hi.1.1 ∧ single hi.1.2 ∧ single hi.2) ∧
    Forall (inside lo hi) (rows points).
Proof using acc.
  intros (Hshape & Hn & Hrows) Hne Hrange.
  destruct (cloud_bbox (rows points) Hne Hrange)
    as (lo & hi & Hmin & Hmax & Hlos & His & Hlov & Hhiv & Hin).
  { eapply Forall_impl; [exact Hrows|]. simpl. intros r Hr. lia. }
  exists lo, hi. eexists _, _.
  unfold Quantize.quantize_int16, Quantize.shape1.
  cbn [Quantize.array_shape Quantize.astype_float32].
  rewrite Hshape. cbn [lookup list_lookup bind ret Z.ltb Z.compare Pos.compare Pos.compare_cont].
  rewrite (column_total 3 (np_of_Z 0)).
  2:{ eapply Forall_impl; [exact Hrows|]. simpl. intros r Hr. lia. }
  cbn [bind ret]. rewrite Hmin, Hmax. cbn [bind ret].
  unfold Quantize.bbox_divisor, Quantize.replace_zero.
  cbn [zip_with map Quantize.reduce1 bind ret fold_left].
  fold (axis_divisor lo.1.1 hi.1.1). fold (axis_divisor lo.1.2 hi.1.2).
  fold (axis_divisor lo.2 hi.2).
  split; [reflexivity|]. split; [|done].
  match goal with |- context [Quantize.dequantize_points _ ?m] => set (md := m) end.
  assert (md !! "mode" = Some (PStr "int16")) as Hmode by done.
  assert (md !! "bbox_min" = Some (PFloats [np_to_py lo.1.1; np_to_py lo.1.2; np_to_py lo.2]))
    as Hbmin by done.
  assert (md !! "bbox_max" = Some (PFloats [np_to_py hi.1.1; np_to_py hi.1.2; np_to_py hi.2]))
    as Hbmax by done.
  clearbody md.
  unfold Quantize.dequantize_points, Quantize.float32_list. rewrite Hmode, Hbmin, Hbmax.
  cbn [bind ret map].
  destruct Hlos as (? & ? & ?), His as (? & ? & ?).
  rewrite !(acc_to_py _ _ acc) by done.
  unfold Quantize.bbox_divisor, Quantize.replace_zero. cbn [zip_with map zip].
  fold (axis_divisor lo.1.1 hi.1.1). fold (axis_divisor lo.1.2 hi.1.2).
  fold (axis_divisor lo.2 hi.2).
  rewrite !map_map, !zip_with_fmap_l, !zip_with_fmap_r, !zip_with_diag.
  rewrite !length_map, <- Hn, !map_map.
  do 2 f_equal.
  apply Forall_fmap_ext_1. eapply Forall_impl; [exact Hrows|].
  intros r Hr. simpl in Hr. destruct r as [|x [|y [|z [|i [|? ?]]]]]; simpl in Hr; try lia.
  reflexivity.
Qed.

Lemma quantize_points_int16 (points : Quantize.array F) :
  Quantize.quantize_points points "int16" = Quantize.quantize_int16 points.
Proof. reflexivity. Qed.

Lemma quantize_points_fp16 (points : Quantize.array F) :
  Quantize.quantize_points points "fp16" = Quantize.quantize_fp16 points.
Proof. reflexivity. Qed.

(** The float16 mode and back, on any float32 array. *)
Lemma fp16_roundtrip (points : ndarray F) :
  ∃ (q : Quantize.array F) (md : pydict F),
    Quantize.quantize_fp16 (Quantize.FloatArray Quantize.float32 points) = ret (q, md) ∧
    Quantize.dequantize_points q md
    = ret (NdArray (shape points)
             (map (map (λ x, np_to_single (np_to_half x))) (rows points))).
Proof.
  eexists _, _. split; [reflexivity|].
  match goal with |- context [Quantize.dequantize_points _ ?m] => set (md := m) end.
  assert (md !! "mode" = Some (PStr "fp16")) as Hmode by done.
  clearbody md.
  unfold Quantize.dequantize_points. rewrite Hmode.
  cbn [Quantize.astype_float32]. unfold Quantize.amap. cbn [shape rows]. rewrite map_map.
  do 2 f_equal. apply map_ext. intros r. by rewrite map_map.
Qed.

(** *** From the elements to the root mean square *)

Lemma differences_rowwise (h : list F → list F) (P : R → Prop) (a : ndarray F) (s : list Z) :
  Forall (λ r, length (h r) = length r ∧
               Forall P (zip_with (λ x y, val x - val y)%R r (h r))) (rows a) →
  Forall P (differences a (NdArray s (map h (rows a)))) ∧
  length (differences a (NdArray s (map h (rows a)))) = length (concat (rows a)).
Proof.
  unfold differences. cbn [rows]. induction 1 as [|r rs [Hlen Hr] _ [IH1 IH2]]; [by split|].
  cbn [map concat]. rewrite zip_with_app by done. split.
  - by apply Forall_app.
  - rewrite !length_app, IH2, length_zip_with, Hlen. lia.
Qed.

End Chain.

Section RootMeanSquare.
Local Open Scope R_scope.

Lemma Rsum_squares_le (l : list R) (B : R) :
  Forall (λ e, Rabs e <= B) l → Rsum (map (λ e, e * e) l) <= INR (length l) * (B * B).
Proof.
  induction 1 as [|x l Hx _ IH]; [simpl; lra|].
  change (length (x :: l)) with (S (length l)). rewrite S_INR. simpl.
  apply Rabs_le_inv in Hx. nra.
Qed.

Lemma Rsum_squares_nonneg (l : list R) : 0 <= Rsum (map (λ e, e * e) l).
Proof. induction l as [|x l IH]; simpl; [lra|]. nra. Qed.

(** The root mean square of numbers of magnitude at most [B] is at most [B]. *)
Lemma rms_le (l : list R) (B : R) :
  l ≠ [] → 0 <= B → Forall (λ e, Rabs e <= B) l → rms l <= B.
Proof.
  intros Hne HB Hl. unfold rms.
  pose proof (Rsum_squares_le l B Hl) as Hsum.
  set (n := INR (length l)) in *.
  assert (0 < n) as Hn by (apply lt_0_INR; destruct l; [done|simpl; lia]).
  assert (0 < / n) as Hi by (by apply Rinv_0_lt_compat).
  assert (n * / n = 1) as Hni by (apply Rinv_r; lra).
  rewrite <- (sqrt_square B) by done. apply sqrt_le_1_alt. unfold Rdiv.
  assert (B * B = n * (B * B) * / n) as ->
    by (transitivity (B * B * (n * / n)); [rewrite Hni|]; ring).
  apply Rmult_le_compat_r; lra.
Qed.

End RootMeanSquare.

Section RoundTrip.
Context {F : Type} {num : NumOps F} {model : Model F}.
Hypothesis acc : Accurate num model.

Lemma cloud_not_empty (points : ndarray F) (n w : Z) :
  is_cloud points n w → 0 < n → 3 ≤ w →
  rows points ≠ [] ∧ length (concat (rows points)) ≠ 0%nat.
Proof.
  intros (_ & Hn & Hrows) Hpos Hw.
  destruct (rows points) as [|r rs]; [simpl in Hn; lia|].
  split; [done|]. apply Forall_cons in Hrows as [Hr _].
  cbn [concat]. rewrite length_app. lia.
Qed.

(** The errors of the float16 round trip on one row. *)
Lemma fp16_row_errors (r : list F) :
  in_range r →
  length (map (λ x, np_to_single (np_to_half x)) r) = length r ∧
  Forall (λ e, (Rabs e <= 5 / 10 ^ 2)%R)
         (zip_with (λ x y, (val x - val y)%R) r (map (λ x, np_to_single (np_to_half x)) r)).
Proof using acc.
  intros Hr. split; [by rewrite length_map|].
  rewrite zip_with_fmap_r, zip_with_diag. apply Forall_fmap.
  eapply Forall_impl; [exact Hr|]. intros x [Hx Hxv]. simpl.
  destruct (half_roundtrip acc x Hx Hxv) as [_ Herr]. by rewrite Rabs_minus_sym.
Qed.

(** The errors of the int16 round trip on one row of width 3 or 4. *)
Lemma int16_row_errors (lo hi : F * F * F) (r : list F) :
  (-100 <= val lo.1.1 ∧ -100 <= val lo.1.2 ∧ -100 <= val lo.2)%R →
  (val hi.1.1 <= 100 ∧ val hi.1.2 <= 100 ∧ val hi.2 <= 100)%R →
  (single lo.1.1 ∧ single lo.1.2 ∧ single lo.2) →
  (single hi.1.1 ∧ single hi.1.2 ∧ single hi.2) →
  inside lo hi r → in_range r → unit_intensity r → (length r ≤ 4)%nat →
  length (restore_point lo hi r) = length r ∧
  Forall (λ e, (Rabs e <= 33 / 10 ^ 4)%R)
         (zip_with (λ x y, (val x - val y)%R) r (restore_point lo hi r)).
Proof using acc.
  intros (Hlx & Hly & Hlz) (Hhx & Hhy & Hhz) (Hlxs & Hlys & Hlzs) (Hhxs & Hhys & Hhzs)
    (x & y & z & rest & -> & Hx & Hy & Hz & Hxv & Hyv & Hzv) Hrange Hunit Hlen.
  cbn [restore_point]. split; [simpl; by rewrite length_map|].
  destruct (coordinate_roundtrip acc x lo.1.1 hi.1.1) as [_ Hex]; try done; try lra.
  destruct (coordinate_roundtrip acc y lo.1.2 hi.1.2) as [_ Hey]; try done; try lra.
  destruct (coordinate_roundtrip acc z lo.2 hi.2) as [_ Hez]; try done; try lra.
  cbn [zip_with]. rewrite Rabs_minus_sym in Hex, Hey, Hez.
  repeat (constructor; [done|]).
  destruct rest as [|i [|? ?]]; [constructor| |simpl in Hlen; lia].
  cbn [map zip_with]. constructor; [|constructor].
  unfold in_range in Hrange. rewrite !Forall_cons in Hrange.
  destruct Hrange as (_ & _ & _ & [Hi _] & _).
  destruct (intensity_roundtrip acc i Hi (Hunit i eq_refl)) as [_ Hei].
  rewrite Rabs_minus_sym. lra.
Qed.

(** The round trip, entry by entry, in any arithmetic that meets the accuracy
    laws.  Take a cloud of at least one point of width 3 or 4, all of whose
    entries are finite numbers of magnitude at most 100.  In "fp16" mode
    quantizing and dequantizing with the returned envelope gives back an
    array of the same shape, each entry within 0.05 of the original; in
    "int16" mode, when moreover every intensity lies between 0 and 1, each
    entry is within 0.0033 of the original. *)
Lemma roundtrip_elementwise (points : ndarray F) (n w : Z) :
  is_cloud points n w → 0 < n → w = 3 ∨ w = 4 →
  Forall in_range (rows points) →
  (∃ (q : Quantize.array F) (md : pydict F) (d : ndarray F),
      Quantize.quantize_points (Quantize.FloatArray Quantize.float32 points) "fp16"
      = ret (q, md) ∧
      Quantize.dequantize_points q md = ret d ∧
      shape d = shape points ∧
      differences points d ≠ [] ∧
      Forall (λ e, (Rabs e <= 5 / 10 ^ 2)%R) (differences points d)) ∧
  (Forall unit_intensity (rows points) →
   ∃ (q : Quantize.array F) (md : pydict F) (d : ndarray F),
      Quantize.quantize_points (Quantize.FloatArray Quantize.float32 points) "int16"
      = ret (q, md) ∧
      Quantize.dequantize_points q md = ret d ∧
      shape d = shape points ∧
      differences points d ≠ [] ∧
      Forall (λ e, (Rabs e <= 33 / 10 ^ 4)%R) (differences points d)).
Proof using acc.
  intros Hcloud Hpos Hw Hrange.
  destruct (cloud_not_empty points n w Hcloud Hpos ltac:(lia)) as [Hne Hlen].
  split.
  - destruct (fp16_roundtrip points) as (q & md & Hq & Hd).
    destruct (differences_rowwise (map (λ x, np_to_single (np_to_half x)))
                (λ e, (Rabs e <= 5 / 10 ^ 2)%R) points (shape points)) as [Hall Hl].
    { eapply Forall_impl; [exact Hrange|]. intros r Hr. by apply fp16_row_errors. }
    eexists q, md, _. rewrite quantize_points_fp16.
    split_and!; [exact Hq|exact Hd|done| |exact Hall].
    intros Hnil. rewrite Hnil in Hl. simpl in Hl. lia.
  - intros Hunit.
    assert (∃ (lo hi : F * F * F) (q : Quantize.array F) (md : pydict F),
      Quantize.quantize_int16 (Quantize.FloatArray Quantize.float32 points) = ret (q, md) ∧
      Quantize.dequantize_points q md
      = ret (NdArray [n; w] (map (restore_point lo hi) (rows points))) ∧
      (-100 <= val lo.1.1 ∧ -100 <= val lo.1.2 ∧ -100 <= val lo.2)%R ∧
      (val hi.1.1 <= 100 ∧ val hi.1.2 <= 100 ∧ val hi.2 <= 100)%R ∧
      (single lo.1.1 ∧ single lo.1.2 ∧ single lo.2) ∧
      (single hi.1.1 ∧ single hi.1.2 ∧ single hi.2) ∧
      Forall (inside lo hi) (rows points))
      as (lo & hi & q & md & Hq & Hd & Hlo & Hhi & Hlos & His & Hin).
    { destruct Hw as [-> | ->].
      - by apply int16_roundtrip_width3.
      - by apply int16_roundtrip_width4. }
    destruct Hcloud as (Hshape & Hn & Hrows).
    destruct (differences_rowwise (restore_point lo hi)
                (λ e, (Rabs e <= 33 / 10 ^ 4)%R) points [n; w]) as [Hall Hl].
    { rewrite Forall_forall in Hrange, Hunit, Hin, Hrows |- *. intros r Hr.
      apply int16_row_errors; auto.
      specialize (Hrows r Hr). simpl in Hrows. lia. }
    eexists q, md, _. rewrite quantize_points_int16.
    split_and!; [exact Hq|exact Hd|by rewrite Hshape| |exact Hall].
    intros Hnil. rewrite Hnil in Hl. simpl in Hl. lia.
Qed.

End RoundTrip.

(** *** Exact arithmetic is accurate *)

Section ExactAccurate.
Local Open Scope R_scope.

Lemma Rabs_zero_le (e b : R) : 0 <= b → Rabs (e - e) <= b.
Proof. intros Hb. by rewrite Rminus_diag, Rabs_R0. Qed.

Lemma exact_trunc_spec (x : R) :
  (0 <= x → IZR (Exact.trunc x) <= x < IZR (Exact.trunc x) + 1) ∧
  (x <= 0 → IZR (Exact.trunc x) - 1 < x <= IZR (Exact.trunc x)).
Proof.
  unfold Exact.trunc. destruct (Rle_dec 0 x) as [Hx|Hx].
  - destruct (base_Int_part x) as [H1 H2]. split; [intros _; lra|].
    intros Hle. assert (x = 0) as -> by lra.
    assert (Int_part 0 = 0%Z) as ->.
    { apply Z.le_antisymm.
      - apply le_IZR. lra.
      - apply Z.lt_succ_r, lt_IZR. rewrite succ_IZR. lra. }
    lra.
  - destruct (base_Int_part (- x)) as [H1 H2]. split; [intros; lra|].
    intros _. rewrite opp_IZR. lra.
Qed.

Lemma exact_accurate : Accurate Exact.ops Exact.model.
Proof.
  pose proof u32_small as Hu. pose proof eta32_small as He.
  pose proof u16_small as Hu'. pose proof eta16_small as He'.
  split; cbn [np_of_Z np_add np_sub np_mul np_div np_eqb np_minimum np_maximum np_trunc
              np_to_half np_to_single np_to_py Exact.ops single val Exact.model].
  - done.
  - intros x y _ _ _. split; [done|]. apply Rabs_zero_le.
    apply Rmult_le_pos; [lra|apply Rabs_pos].
  - intros x y _ _ _. split; [done|]. apply Rabs_zero_le.
    apply Rmult_le_pos; [lra|apply Rabs_pos].
  - intros x y _ _ _. split; [done|]. apply Rabs_zero_le.
    pose proof (Rabs_pos (x * y)). nra.
  - done.
  - intros x y _ _ _ _. split; [done|]. apply Rabs_zero_le.
    pose proof (Rabs_pos (x / y)). nra.
  - intros x _. destruct (Req_dec_T x 0); split; done.
  - done.
  - done.
  - intros x _. apply exact_trunc_spec.
  - done.
  - intros x _ _. split; [done|]. apply Rabs_zero_le.
    pose proof (Rabs_pos x). nra.
Qed.

End ExactAccurate.

(** The round trip of one point with intensity, in exact arithmetic. *)
Lemma roundtrip_exact_example :
  let cloud : ndarray R := NdArray [1; 4] [[0; 50; -100; 1 / 2]%R] in
  ∃ (q : Quantize.array R) (md : pydict R) (d : ndarray R),
    Quantize.quantize_points (num := Exact.ops)
      (Quantize.FloatArray Quantize.float32 cloud) "int16" = ret (q, md) ∧
    Quantize.dequantize_points q md = ret d ∧
    shape d = shape cloud ∧
    (rms_error cloud d <= 33 / 10 ^ 4)%R.
Proof.
  intros cloud.
  destruct (roundtrip_elementwise exact_accurate cloud 1 4) as [_ H].
  - split; [reflexivity|]. split; [reflexivity|]. repeat constructor.
  - lia.
  - by right.
  - constructor; [|constructor]. unfold in_range.
    repeat (apply Forall_cons; split; [split; [exact I|apply Rabs_le; simpl; lra]|]).
    constructor.
  - destruct H as (q & md & d & Hq & Hd & Hs & Hne & Hall).
    { constructor; [|constructor]. intros i [= <-]. simpl. lra. }
    exists q, md, d. split_and!; try done. apply rms_le; [done|lra|done].
Qed.


(** * IEEE-754 arithmetic is accurate

    The rounding of [SpecFloat], from its definition: a number is brought to
    the exponent of its format by shifting and is rounded to the nearest
    mantissa, so the result is within half a unit in the last place. *)

Section Powers.
Local Open Scope R_scope.

Lemma bpow_pos (e : Z) : 0 < bpow e.
Proof. apply powerRZ_lt. lra. Qed.

Lemma bpow_add (a b : Z) : bpow (a + b) = bpow a * bpow b.
Proof. apply powerRZ_add. lra. Qed.

Lemma bpow_0 : bpow 0 = 1.
Proof. reflexivity. Qed.

Lemma bpow_1 : bpow 1 = 2.
Proof. unfold bpow. simpl. lra. Qed.

Lemma bpow_m1 : bpow (-1) = / 2.
Proof. unfold bpow. simpl. f_equal. lra. Qed.

Lemma bpow_succ (e : Z) : bpow (e + 1) = 2 * bpow e.
Proof. rewrite bpow_add, bpow_1. ring. Qed.

Lemma bpow_pred (e : Z) : bpow (e - 1) = bpow e / 2.
Proof. replace (e - 1)%Z with (e + -1)%Z by lia. rewrite bpow_add, bpow_m1. reflexivity. Qed.

Lemma bpow_opp (e : Z) : bpow (- e) = / bpow e.
Proof. apply powerRZ_neg'. Qed.

Lemma bpow_nat (n : nat) : bpow (Z.of_nat n) = 2 ^ n.
Proof. unfold bpow. by rewrite <- pow_powerRZ. Qed.

Lemma bpow_IZR (e : Z) : (0 <= e)%Z → bpow e = IZR (2 ^ e).
Proof.
  intros He. rewrite <- (Z2Nat.id e) by done.
  by rewrite bpow_nat, <- pow_IZR.
Qed.

Lemma bpow_ge_1 (e : Z) : (0 <= e)%Z → 1 <= bpow e.
Proof.
  intros He. rewrite <- (Z2Nat.id e) by done. rewrite bpow_nat.
  apply pow_R1_Rle. lra.
Qed.

Lemma bpow_le (a b : Z) : (a <= b)%Z → bpow a <= bpow b.
Proof.
  intros Hab. replace b with (a + (b - a))%Z by lia. rewrite bpow_add.
  pose proof (bpow_pos a). pose proof (bpow_ge_1 (b - a) ltac:(lia)). nra.
Qed.

Lemma bpow_lt (a b : Z) : (a < b)%Z → bpow a < bpow b.
Proof.
  intros Hab. apply Rlt_le_trans with (bpow (a + 1)); [|apply bpow_le; lia].
  rewrite bpow_succ. pose proof (bpow_pos a). lra.
Qed.

Lemma bpow_lt_inv (a b : Z) : bpow a < bpow b → (a < b)%Z.
Proof.
  intros Hlt. destruct (Z_lt_le_dec a b) as [?|Hle]; [done|].
  apply bpow_le in Hle. lra.
Qed.

End Powers.

Section Digits.

(** The number of binary digits of a positive mantissa. *)
Lemma digits2_pos_bounds (m : positive) :
  2 ^ (Z.pos (digits2_pos m) - 1) <= Z.pos m < 2 ^ Z.pos (digits2_pos m).
Proof.
  induction m as [m IH|m IH|]; cbn [digits2_pos].
  - rewrite Pos2Z.inj_succ, (Pos2Z.inj_xI m).
    replace (Z.succ (Z.pos (digits2_pos m)) - 1) with (Z.succ (Z.pos (digits2_pos m) - 1)) by lia.
    rewrite !Z.pow_succ_r by lia. revert IH.
    generalize (2 ^ (Z.pos (digits2_pos m) - 1)), (2 ^ Z.pos (digits2_pos m)). lia.
  - rewrite Pos2Z.inj_succ, (Pos2Z.inj_xO m).
    replace (Z.succ (Z.pos (digits2_pos m)) - 1) with (Z.succ (Z.pos (digits2_pos m) - 1)) by lia.
    rewrite !Z.pow_succ_r by lia. revert IH.
    generalize (2 ^ (Z.pos (digits2_pos m) - 1)), (2 ^ Z.pos (digits2_pos m)). lia.
  - simpl. lia.
Qed.

Lemma Zdigits2_bounds (m : Z) :
  0 < m → 2 ^ (Zdigits2 m - 1) <= m < 2 ^ Zdigits2 m.
Proof. destruct m as [|p|p]; try lia. intros _. apply digits2_pos_bounds. Qed.

Lemma Zdigits2_pos (m : Z) : 0 < m → 0 < Zdigits2 m.
Proof. destruct m; simpl; lia. Qed.

(** The digits of a number are fixed by the powers of two around it. *)
Lemma Zdigits2_unique (m d : Z) :
  2 ^ (d - 1) <= m < 2 ^ d → 0 < m → Zdigits2 m = d.
Proof.
  intros [Hlo Hhi] Hm. pose proof (Zdigits2_bounds m Hm) as [Hlo' Hhi'].
  pose proof (Zdigits2_pos m Hm).
  assert (0 < d).
  { destruct (Z_lt_le_dec 0 d); [done|].
    assert (2 ^ d <= 2 ^ 0) by (apply Z.pow_le_mono_r; lia). simpl in *. lia. }
  assert (Zdigits2 m - 1 < d) by (apply (Z.pow_lt_mono_r_iff 2); lia).
  assert (d - 1 < Zdigits2 m) by (apply (Z.pow_lt_mono_r_iff 2); lia).
  lia.
Qed.

Lemma Zdigits2_le (m d : Z) : 0 < m → m < 2 ^ d → 0 <= d → Zdigits2 m <= d.
Proof.
  intros Hm Hlt Hd. pose proof (Zdigits2_bounds m Hm) as [Hlo _].
  pose proof (Zdigits2_pos m Hm).
  assert (Zdigits2 m - 1 < d) by (apply (Z.pow_lt_mono_r_iff 2); lia). lia.
Qed.

End Digits.

Section Shifting.
Local Open Scope R_scope.

Lemma iter_pos_nat {A : Type} (f : A → A) (p : positive) (x : A) :
  SpecFloat.iter_pos f p x = Nat.iter (Pos.to_nat p) f x.
Proof.
  revert x. induction p as [p IH|p IH|]; intros x; cbn [SpecFloat.iter_pos].
  - rewrite !IH, Pos2Nat.inj_xI, <- Nat.iter_add, <- Nat.iter_succ_r. f_equal. lia.
  - rewrite !IH, Pos2Nat.inj_xO, <- Nat.iter_add. f_equal. lia.
  - reflexivity.
Qed.

Lemma located_bounds (mrs : shr_record) (y : R) :
  located mrs y → IZR (shr_m mrs) <= y < IZR (shr_m mrs) + 1.
Proof. unfold located. destruct (shr_r mrs), (shr_s mrs); intros; lra. Qed.

Lemma located_exact (mrs : shr_record) (y : R) :
  located mrs y → y = IZR (shr_m mrs) → shr_r mrs = false ∧ shr_s mrs = false.
Proof. unfold located. destruct (shr_r mrs), (shr_s mrs); intros; split; (done || lra). Qed.

(** One step of the shift halves the number located. *)
Lemma shr_1_located (mrs : shr_record) (y : R) :
  (0 <= shr_m mrs)%Z → located mrs y →
  located (shr_1 mrs) (y / 2) ∧
  (0 <= shr_m (shr_1 mrs))%Z ∧
  shr_m (shr_1 mrs) = (shr_m mrs / 2)%Z.
Proof.
  destruct mrs as [m r s]. cbn [shr_m]. intros Hm.
  destruct m as [|[p|p|]|]; [| | | |lia].
  - destruct r, s; unfold located; cbn; intros; split_and!; try done; lra.
  - assert (IZR (Z.pos p~1) = 2 * IZR (Z.pos p) + 1) as HI
      by (rewrite (Pos2Z.inj_xI p), plus_IZR, mult_IZR; reflexivity).
    unfold located. cbn [shr_1 shr_m shr_r shr_s orb]. rewrite HI.
    split; [destruct r, s; cbn; intros; lra|]. split; [lia|].
    rewrite (Pos2Z.inj_xI p). apply Z.div_unique with 1%Z; lia.
  - assert (IZR (Z.pos p~0) = 2 * IZR (Z.pos p)) as HI
      by (rewrite (Pos2Z.inj_xO p), mult_IZR; reflexivity).
    unfold located. cbn [shr_1 shr_m shr_r shr_s orb]. rewrite HI.
    split; [destruct r, s; cbn; intros; lra|]. split; [lia|].
    rewrite (Pos2Z.inj_xO p). apply Z.div_unique with 0%Z; lia.
  - destruct r, s; unfold located; cbn; intros; split_and!; try done; lra.
Qed.

(** Shifting [n] times divides the number located by [2 ^ n]. *)
Lemma shr_iter_located (n : nat) (mrs : shr_record) (y : R) :
  (0 <= shr_m mrs)%Z → located mrs y →
  located (Nat.iter n shr_1 mrs) (y / 2 ^ n) ∧
  (0 <= shr_m (Nat.iter n shr_1 mrs))%Z ∧
  shr_m (Nat.iter n shr_1 mrs) = (shr_m mrs / 2 ^ Z.of_nat n)%Z.
Proof.
  intros Hm Hy. induction n as [|n (IH1 & IH2 & IH3)].
  - cbn [Nat.iter pow]. split; [by rewrite Rdiv_1_r|]. split; [done|].
    by rewrite Z.div_1_r.
  - change (Nat.iter (S n) shr_1 mrs) with (shr_1 (Nat.iter n shr_1 mrs)).
    destruct (shr_1_located _ _ IH2 IH1) as (H1 & H2 & H3).
    split; [|split; [done|]].
    + replace (y / 2 ^ S n) with (y / 2 ^ n / 2); [done|].
      simpl. field. apply pow_nonzero. lra.
    + rewrite H3, IH3, Nat2Z.inj_succ, Z.pow_succ_r by lia.
      rewrite Z.div_div by lia. f_equal. lia.
Qed.

End Shifting.

(** ** Rounding to the format [prec, emax] *)
Section Rounding.
Variables prec emax : Z.
Hypothesis Hprec : 0 < prec.
Hypothesis Hemax : prec < emax.

Local Abbreviation fexp := (SpecFloat.fexp prec emax).
Local Abbreviation emin := (SpecFloat.emin prec emax).

Lemma fexp_cases (e : Z) :
  (fexp e = e - prec ∧ emin ≤ e - prec) ∨ (fexp e = emin ∧ e - prec ≤ emin).
Proof. unfold SpecFloat.fexp. lia. Qed.

Lemma fexp_mono (a b : Z) : a ≤ b → fexp a ≤ fexp b.
Proof. unfold SpecFloat.fexp. lia. Qed.

Lemma emin_bounds : emin ≤ 0 ∧ emin ≤ emax - prec.
Proof using Hprec Hemax. unfold SpecFloat.emin. lia. Qed.

Lemma IZR_above (m k : Z) (y : R) : (IZR m < y)%R → (y <= IZR k)%R → m + 1 ≤ k.
Proof.
  intros H1 H2. assert (m < k); [|lia]. apply lt_IZR. lra.
Qed.

Lemma IZR_below (m k : Z) (y : R) : (y < IZR m + 1)%R → (IZR k <= y)%R → k ≤ m.
Proof.
  intros H1 H2. assert (k < m + 1); [|lia]. apply lt_IZR. rewrite plus_IZR. lra.
Qed.

Lemma shr_m_of_loc (m : Z) (l : location) : shr_m (shr_record_of_loc m l) = m.
Proof. by destruct l as [|[]]. Qed.

(** Rounding the integer part by the round and sticky bits gives a nearest
    integer. *)
Lemma round_nearest (mrs : shr_record) (y : R) :
  located mrs y →
  nearest (round_nearest_even (shr_m mrs) (loc_of_shr_record mrs)) y ∧
  shr_m mrs ≤ round_nearest_even (shr_m mrs) (loc_of_shr_record mrs) ≤ shr_m mrs + 1.
Proof.
  destruct mrs as [m r s]. unfold located, nearest. cbn [shr_m shr_r shr_s].
  destruct r, s; cbn [loc_of_shr_record round_nearest_even]; intros Hy.
  - split; [|lia]. rewrite plus_IZR. split; [apply Rabs_le; lra|].
    intros k. split; intros Hk.
    + apply (IZR_above m k y); lra.
    + assert (k ≤ m); [|lia]. apply (IZR_below m k y); lra.
  - destruct (Z.even m).
    + split; [|lia]. split; [apply Rabs_le; lra|].
      intros k. split; intros Hk.
      * assert (m + 1 ≤ k); [|lia]. apply (IZR_above m k y); lra.
      * apply (IZR_below m k y); lra.
    + split; [|lia]. rewrite plus_IZR. split; [apply Rabs_le; lra|].
      intros k. split; intros Hk.
      * apply (IZR_above m k y); lra.
      * assert (k ≤ m); [|lia]. apply (IZR_below m k y); lra.
  - split; [|lia]. split; [apply Rabs_le; lra|].
    intros k. split; intros Hk.
    + assert (m + 1 ≤ k); [|lia]. apply (IZR_above m k y); lra.
    + apply (IZR_below m k y); lra.
  - split; [|lia]. split; [apply Rabs_le; lra|].
    intros k. split; intros Hk.
    + apply le_IZR. lra.
    + apply le_IZR. lra.
Qed.

(** The first shift brings the mantissa to the exponent of the format. *)
Lemma shr_fexp_located (mx ex : Z) (lx : location) (x : R) :
  0 ≤ mx → located (shr_record_of_loc mx lx) (x / bpow ex) →
  ex ≤ fexp (Zdigits2 mx + ex) →
  ∃ mrs, shr_fexp prec emax mx ex lx = (mrs, fexp (Zdigits2 mx + ex)) ∧
    located mrs (x / bpow (fexp (Zdigits2 mx + ex))) ∧
    shr_m mrs = mx / 2 ^ (fexp (Zdigits2 mx + ex) - ex).
Proof.
  intros Hmx Hloc Hex. unfold shr_fexp, shr.
  remember (fexp (Zdigits2 mx + ex) - ex) as n eqn:Hn.
  destruct n as [|p|p]; [| |lia].
  - exists (shr_record_of_loc mx lx).
    replace (fexp (Zdigits2 mx + ex)) with ex by lia.
    split; [done|]. split; [done|]. by rewrite shr_m_of_loc, Z.div_1_r.
  - exists (SpecFloat.iter_pos shr_1 p (shr_record_of_loc mx lx)).
    split; [f_equal; lia|]. rewrite iter_pos_nat.
    destruct (shr_iter_located (Pos.to_nat p) (shr_record_of_loc mx lx) (x / bpow ex))
      as (H1 & _ & H3); [by rewrite shr_m_of_loc|done|].
    rewrite positive_nat_Z, shr_m_of_loc in H3. split; [|done].
    replace (fexp (Zdigits2 mx + ex)) with (ex + Z.of_nat (Pos.to_nat p))
      by (rewrite positive_nat_Z; lia).
    rewrite bpow_add, bpow_nat.
    replace (x / (bpow ex * 2 ^ Pos.to_nat p))%R with (x / bpow ex / 2 ^ Pos.to_nat p)%R; [done|].
    field. split; [apply pow_nonzero; lra|]. pose proof (bpow_pos ex). lra.
Qed.

(** The shifted mantissa fits the precision, and fills it unless the exponent
    is the least one. *)
Lemma shifted_mantissa (mx ex : Z) :
  0 ≤ mx → ex ≤ fexp (Zdigits2 mx + ex) →
  0 ≤ mx / 2 ^ (fexp (Zdigits2 mx + ex) - ex) < 2 ^ prec ∧
  (emin < fexp (Zdigits2 mx + ex) →
   2 ^ (prec - 1) ≤ mx / 2 ^ (fexp (Zdigits2 mx + ex) - ex)).
Proof using Hprec.
  intros Hmx Hex. destruct (Z.eq_dec mx 0) as [->|Hne].
  - cbn [Zdigits2] in *. rewrite Z.div_0_l by (apply Z.pow_nonzero; lia).
    split; [split; [lia|apply Z.pow_pos_nonneg; lia]|].
    destruct (fexp_cases (0 + ex)); lia.
  - assert (0 < mx) as Hpos by lia.
    pose proof (Zdigits2_bounds mx Hpos) as [Hlo Hhi].
    pose proof (Zdigits2_pos mx Hpos) as Hd.
    pose proof (fexp_cases (Zdigits2 mx + ex)) as Hc.
    set (d := Zdigits2 mx) in *. set (e' := fexp (d + ex)) in *.
    assert (0 < 2 ^ (e' - ex)) as Hpow by (apply Z.pow_pos_nonneg; lia).
    split; [split|].
    + apply Z.div_pos; lia.
    + apply Z.div_lt_upper_bound; [done|].
      rewrite <- Z.pow_add_r by lia.
      eapply Z.lt_le_trans; [exact Hhi|]. apply Z.pow_le_mono_r; lia.
    + intros Hmin. apply Z.div_le_lower_bound; [done|].
      rewrite <- Z.pow_add_r by lia.
      replace (e' - ex + (prec - 1)) with (d - 1) by lia. done.
Qed.

Lemma bpow_IZR_le (m e : Z) : 0 ≤ e → 2 ^ e ≤ m → (bpow e <= IZR m)%R.
Proof. intros He Hm. rewrite bpow_IZR by done. by apply IZR_le. Qed.

(** The rounding of a located number: the mantissa is a nearest integer at
    the exponent of the format, and below the overflow threshold the result
    is that number, in canonical form. *)
Lemma binary_round_aux_spec (sx : bool) (mx ex : Z) (lx : location) (x : R) :
  0 ≤ mx → located (shr_record_of_loc mx lx) (x / bpow ex) →
  ex ≤ fexp (Zdigits2 mx + ex) →
  ∃ m1 : Z, 0 ≤ m1 ∧ nearest m1 (x / bpow (fexp (Zdigits2 mx + ex))) ∧
    ((IZR m1 * bpow (fexp (Zdigits2 mx + ex)) < bpow emax)%R →
     (m1 = 0 ∧ binary_round_aux prec emax sx mx ex lx = S754_zero sx) ∨
     (∃ m e, binary_round_aux prec emax sx mx ex lx = S754_finite sx m e ∧
        bounded prec emax m e = true ∧
        (IZR (Z.pos m) * bpow e = IZR m1 * bpow (fexp (Zdigits2 mx + ex)))%R)).
Proof using Hprec Hemax.
  intros Hmx Hloc Hex.
  destruct (shr_fexp_located mx ex lx x Hmx Hloc Hex) as (mrs & Hshr & Hloc' & Hm).
  destruct (shifted_mantissa mx ex Hmx Hex) as [[HA1 HA2] HB].
  rewrite <- Hm in HA1, HA2, HB.
  destruct (round_nearest mrs _ Hloc') as [Hnear Hm1].
  pose proof emin_bounds as [Hemin0 Hemin1].
  assert (emin ≤ fexp (Zdigits2 mx + ex)) as Hee by (unfold SpecFloat.fexp; lia).
  unfold binary_round_aux. rewrite Hshr.
  generalize dependent (fexp (Zdigits2 mx + ex)). intros e' _ Hshr Hloc' _ HB Hnear Hee.
  generalize dependent (round_nearest_even (shr_m mrs) (loc_of_shr_record mrs)).
  intros m1 Hnear Hm1.
  exists m1. split; [lia|]. split; [done|]. intros Hov.
  destruct (Z.eq_dec m1 0) as [Hz|Hnz].
  - left. split; [done|]. rewrite Hz. unfold shr_fexp, shr. cbn [Zdigits2].
    destruct (fexp (0 + e') - e') eqn:Hn.
    + by cbn.
    + exfalso. unfold SpecFloat.fexp in Hn. lia.
    + by cbn.
  - right. assert (0 < m1) as Hpos by lia.
    destruct (Z_lt_le_dec m1 (2 ^ prec)) as [Hlt|Hge].
    + pose proof (Zdigits2_le m1 prec Hpos Hlt ltac:(lia)) as Hd1.
      pose proof (Zdigits2_pos m1 Hpos) as Hd0.
      assert (fexp (Zdigits2 m1 + e') = e') as Hcan.
      { destruct (Z.eq_dec e' emin) as [He|He].
        - unfold SpecFloat.fexp. lia.
        - rewrite (Zdigits2_unique m1 prec); [unfold SpecFloat.fexp; lia| |done].
          split; [|done]. etrans; [apply HB; lia|lia]. }
      assert (e' ≤ emax - prec) as Hle.
      { destruct (Z.eq_dec e' emin) as [He|He]; [lia|].
        assert (prec - 1 + e' < emax); [|lia]. apply bpow_lt_inv.
        eapply Rle_lt_trans; [|exact Hov]. rewrite bpow_add.
        apply Rmult_le_compat_r; [left; apply bpow_pos|].
        apply bpow_IZR_le; [lia|]. etrans; [apply HB; lia|lia]. }
      unfold shr_fexp, shr. rewrite Hcan, Z.sub_diag. cbn [shr_record_of_loc shr_m].
      destruct m1 as [|p|p]; [lia| |lia].
      exists p, e'. rewrite (proj2 (Z.leb_le _ _) Hle). split; [done|]. split; [|done].
      unfold bounded, canonical_mantissa. apply andb_true_iff. split.
      * apply Z.eqb_eq. exact Hcan.
      * by apply Z.leb_le.
    + assert (m1 = 2 ^ prec) as -> by lia.
      assert (prec + e' < emax) as Hle.
      { apply bpow_lt_inv. rewrite bpow_add, (bpow_IZR prec) by lia. done. }
      assert (2 ^ prec = 2 * 2 ^ (prec - 1)) as Hhalf.
      { rewrite <- Z.pow_succ_r by lia. f_equal. lia. }
      assert (0 < 2 ^ (prec - 1)) as Hpp by (apply Z.pow_pos_nonneg; lia).
      assert (Zdigits2 (2 ^ prec) = prec + 1) as Hd.
      { apply Zdigits2_unique; [|done]. replace (prec + 1 - 1) with prec by lia.
        split; [done|]. rewrite Z.pow_add_r by lia. lia. }
      assert (fexp (prec + 1 + e') = e' + 1) as Hf by (unfold SpecFloat.fexp; lia).
      unfold shr_fexp, shr. rewrite Hd, Hf.
      replace (e' + 1 - e') with 1 by lia. cbn [SpecFloat.iter_pos shr_record_of_loc].
      destruct (shr_1_located (Build_shr_record (2 ^ prec) false false) (IZR (2 ^ prec)))
        as (_ & _ & Hs); [cbn [shr_m]; lia|unfold located; cbn; lra|].
      cbn [shr_m] in Hs. rewrite Hs.
      replace (2 ^ prec / 2) with (2 ^ (prec - 1))
        by (rewrite Hhalf, Z.mul_comm, Z.div_mul; lia).
      destruct (2 ^ (prec - 1)) as [|p|p] eqn:Hp; [lia| |lia].
      assert (e' + 1 ≤ emax - prec) as Hle' by lia.
      exists p, (e' + 1). rewrite (proj2 (Z.leb_le _ _) Hle').
      split; [done|]. split.
      * unfold bounded, canonical_mantissa. apply andb_true_iff. split.
        -- apply Z.eqb_eq. change (Z.pos (digits2_pos p)) with (Zdigits2 (Z.pos p)).
           rewrite (Zdigits2_unique (Z.pos p) prec); [unfold SpecFloat.fexp; lia| |lia].
           rewrite <- Hp. split; [done|]. rewrite Hhalf. lia.
        -- apply Z.leb_le. lia.
      * rewrite Hhalf, mult_IZR, bpow_succ. lra.
Qed.

(** *** What a rounding gives *)

Lemma nearest_error (m : Z) (x : R) (e : Z) :
  nearest m (x / bpow e) → (Rabs (IZR m * bpow e - x) <= bpow (e - 1))%R.
Proof.
  intros [H _]. pose proof (bpow_pos e) as He.
  replace (IZR m * bpow e - x)%R with ((IZR m - x / bpow e) * bpow e)%R
    by (field; lra).
  rewrite Rabs_mult, (Rabs_pos_eq (bpow e)), bpow_pred by lra.
  apply Rmult_le_compat_r with (r := bpow e) in H; lra.
Qed.

Lemma scaled_le (x : R) (k e : Z) :
  (x <= IZR k * bpow e)%R ↔ (x / bpow e <= IZR k)%R.
Proof.
  pose proof (bpow_pos e) as He. split; intros H.
  - apply Rmult_le_reg_r with (bpow e); [done|].
    replace (x / bpow e * bpow e)%R with x by (field; lra). done.
  - apply Rmult_le_compat_r with (r := bpow e) in H; [|lra].
    replace (x / bpow e * bpow e)%R with x in H by (field; lra). done.
Qed.

Lemma scaled_ge (x : R) (k e : Z) :
  (IZR k * bpow e <= x)%R ↔ (IZR k <= x / bpow e)%R.
Proof.
  pose proof (bpow_pos e) as He. split; intros H.
  - apply Rmult_le_reg_r with (bpow e); [done|].
    replace (x / bpow e * bpow e)%R with x by (field; lra). done.
  - apply Rmult_le_compat_r with (r := bpow e) in H; [|lra].
    replace (x / bpow e * bpow e)%R with x in H by (field; lra). done.
Qed.

(** A rounding that stays below the overflow threshold yields a finite
    number with the properties of a nearest one. *)
Lemma rounds_rounded (sx : bool) (x : R) (e : Z) (r : spec_float) :
  rounds prec emax sx x e r →
  (∀ m : Z, nearest m (x / bpow e) → (IZR m * bpow e < bpow emax)%R) →
  ∃ v, rounded prec emax sx x e r v.
Proof.
  intros (m1 & Hm1 & Hnear & Hres) Hov. specialize (Hres (Hov m1 Hnear)).
  pose proof (bpow_pos e) as He.
  exists (IZR m1 * bpow e)%R. unfold rounded.
  assert (0 <= IZR m1 * bpow e)%R as Hv.
  { apply Rmult_le_pos; [apply IZR_le; lia|lra]. }
  assert (finite_in prec emax r ∧
          IEEE.SF2R r = (if sx then - (IZR m1 * bpow e) else IZR m1 * bpow e)%R ∧
          (r = S754_zero sx ∨ ∃ m e', r = S754_finite sx m e')) as (H1 & H2 & H3).
  { destruct Hres as [[-> ->]|(m & e' & -> & Hb & Hv')].
    - split; [done|]. split; [|by left]. cbn. destruct sx; lra.
    - split; [done|]. split; [|right; eauto]. cbn [IEEE.SF2R]. fold (bpow e').
      rewrite <- Hv'. destruct sx; cbn [cond_Zopp].
      + change (Z.neg m) with (- Z.pos m). rewrite opp_IZR. lra.
      + done. }
  split_and!; try done.
  - by apply nearest_error.
  - intros k Hk. apply Rmult_le_compat_r; [lra|]. apply IZR_le.
    apply (proj2 Hnear k). by apply scaled_le.
  - intros k Hk. apply Rmult_le_compat_r; [lra|]. apply IZR_le.
    apply (proj2 Hnear k). by apply scaled_ge.
Qed.

Lemma rounded_exact (sx : bool) (x : R) (e : Z) (r : spec_float) (v : R) (k : Z) :
  rounded prec emax sx x e r v → x = (IZR k * bpow e)%R → v = x.
Proof.
  intros (_ & _ & _ & _ & _ & Hle & Hge) ->.
  apply Rle_antisym; [apply Hle|apply Hge]; lra.
Qed.

(** The error of a rounding is relative to the number rounded unless the
    exponent is the least one. *)
Lemma exponent_of_ulp (x : R) (e : Z) :
  exponent_of prec emax x e → (0 <= x)%R →
  (emin < e → (bpow (e - 1) <= bpow (- prec) * x)%R) ∧
  (bpow (e - 1) <= bpow (- prec) * x + bpow (emin - 1))%R ∧
  ((x < bpow (emax - 1))%R → e + 1 < emax).
Proof using Hprec Hemax.
  intros [H1 H2] Hx. pose proof (bpow_pos (- prec)) as Hp.
  assert (emin < e → (bpow (e - 1) <= bpow (- prec) * x)%R) as H3.
  { intros H. specialize (H2 H).
    replace (e - 1) with (- prec + (e + prec - 1)) by lia. rewrite bpow_add.
    apply Rmult_le_compat_l; lra. }
  split; [done|]. split.
  - destruct (Z.eq_dec e emin) as [->|Hne].
    + assert (0 <= bpow (- prec) * x)%R by (apply Rmult_le_pos; lra). lra.
    + pose proof (bpow_pos (emin - 1)). specialize (H3 ltac:(lia)). lra.
  - intros Hlt. destruct (Z.eq_dec e emin) as [->|Hne].
    + unfold SpecFloat.emin. lia.
    + assert (e + prec - 1 < emax - 1); [|lia]. apply bpow_lt_inv.
      specialize (H2 ltac:(lia)). lra.
Qed.

Lemma no_overflow (x : R) (e : Z) :
  exponent_of prec emax x e → (0 <= x < bpow (emax - 1))%R →
  ∀ m : Z, nearest m (x / bpow e) → (IZR m * bpow e < bpow emax)%R.
Proof using Hprec Hemax.
  intros He [Hx0 Hx] m Hm. apply nearest_error in Hm. apply Rabs_le_inv in Hm.
  destruct (exponent_of_ulp x e He Hx0) as (_ & _ & H). specialize (H Hx).
  pose proof (bpow_le (e - 1) (emax - 1) ltac:(lia)).
  replace emax with (emax - 1 + 1) by lia. rewrite bpow_succ. lra.
Qed.

(** *** Alignment and [binary_round] *)

Lemma iter_xO (m d : positive) : Z.pos (Pos.iter xO m d) = Z.pos m * 2 ^ Z.pos d.
Proof.
  rewrite Pos2Nat.inj_iter, <- (positive_nat_Z d).
  induction (Pos.to_nat d) as [|n IH].
  - cbn [Nat.iter nat_rect]. change (2 ^ Z.of_nat 0) with 1. lia.
  - cbn [nat_rect]. set (q := nat_rect _ m _ n) in *.
    rewrite (Pos2Z.inj_xO q), IH, Nat2Z.inj_succ, Z.pow_succ_r; lia.
Qed.

Lemma shl_align_spec (mx : positive) (ex ex' : Z) :
  snd (shl_align mx ex ex') = Z.min ex ex' ∧
  Z.pos (fst (shl_align mx ex ex')) = Z.pos mx * 2 ^ (ex - Z.min ex ex').
Proof.
  unfold shl_align. destruct (ex' - ex) as [|d|d] eqn:Hd; cbn [fst snd].
  - replace (ex - Z.min ex ex') with 0 by lia. split; lia.
  - replace (ex - Z.min ex ex') with 0 by lia. split; lia.
  - rewrite iter_xO. replace (ex - Z.min ex ex') with (Z.pos d) by lia. split; lia.
Qed.

Lemma Zdigits2_shift (m k : Z) : 0 < m → 0 ≤ k → Zdigits2 (m * 2 ^ k) = Zdigits2 m + k.
Proof.
  intros Hm Hk. pose proof (Zdigits2_bounds m Hm) as [Hlo Hhi].
  pose proof (Zdigits2_pos m Hm) as Hd.
  assert (0 < 2 ^ k) by (apply Z.pow_pos_nonneg; lia).
  apply Zdigits2_unique; [|lia].
  replace (Zdigits2 m + k - 1) with (Zdigits2 m - 1 + k) by lia.
  rewrite !Z.pow_add_r by lia. split; nia.
Qed.

Lemma IZR_shift (m a b : Z) : b ≤ a → (IZR (m * 2 ^ (a - b)) * bpow b = IZR m * bpow a)%R.
Proof.
  intros H. rewrite mult_IZR, <- bpow_IZR by lia.
  replace a with (a - b + b) at 2 by lia. rewrite bpow_add. lra.
Qed.

Lemma located_exactly (m : Z) (y : R) : y = IZR m → located (shr_record_of_loc m loc_Exact) y.
Proof. intros ->. unfold located. cbn. lra. Qed.

Lemma binary_round_rounds (sx : bool) (mx : positive) (ex : Z) :
  rounds prec emax sx (IZR (Z.pos mx) * bpow ex) (fexp (Zdigits2 (Z.pos mx) + ex))
    (binary_round prec emax sx mx ex).
Proof using Hprec Hemax.
  unfold binary_round.
  destruct (shl_align_spec mx ex (fexp (Z.pos (digits2_pos mx) + ex))) as [He Hm].
  destruct (shl_align mx ex (fexp (Z.pos (digits2_pos mx) + ex))) as [mz ez].
  cbn [fst snd] in He, Hm.
  change (Z.pos (digits2_pos mx)) with (Zdigits2 (Z.pos mx)) in *.
  assert (Zdigits2 (Z.pos mz) + ez = Zdigits2 (Z.pos mx) + ex) as Hd.
  { rewrite Hm, Zdigits2_shift by lia. lia. }
  assert (IZR (Z.pos mz) * bpow ez = IZR (Z.pos mx) * bpow ex)%R as Hv.
  { rewrite Hm, He. apply IZR_shift. lia. }
  rewrite <- Hd, <- Hv. rewrite <- Hd in He. apply binary_round_aux_spec; [lia| |lia].
  apply located_exactly. pose proof (bpow_pos ez). field. lra.
Qed.

(** *** Finite numbers of the format *)

Lemma SF2R_finite (s : bool) (m : positive) (e : Z) :
  IEEE.SF2R (S754_finite s m e)
  = (if s then - (IZR (Z.pos m) * bpow e) else IZR (Z.pos m) * bpow e)%R.
Proof.
  cbn [IEEE.SF2R]. fold (bpow e). destruct s; cbn [cond_Zopp]; [|done].
  change (- Z.pos m) with (Z.opp (Z.pos m)). rewrite opp_IZR. lra.
Qed.

Lemma Zdigits2_ge (m k : Z) : 0 ≤ k → 2 ^ k ≤ m → k + 1 ≤ Zdigits2 m.
Proof.
  intros Hk Hm. assert (0 < 2 ^ k) by (apply Z.pow_pos_nonneg; lia).
  pose proof (Zdigits2_bounds m ltac:(lia)) as [_ Hhi].
  pose proof (Zdigits2_pos m ltac:(lia)).
  assert (k < Zdigits2 m); [|lia]. apply (Z.pow_lt_mono_r_iff 2); lia.
Qed.

Lemma value_bounds (m e : Z) :
  0 < m →
  (bpow (Zdigits2 m - 1 + e) <= IZR m * bpow e < bpow (Zdigits2 m + e))%R.
Proof.
  intros Hm. pose proof (Zdigits2_bounds m Hm) as [Hlo Hhi].
  pose proof (Zdigits2_pos m Hm) as Hd. pose proof (bpow_pos e) as He.
  rewrite !bpow_add, (bpow_IZR (Zdigits2 m - 1)), (bpow_IZR (Zdigits2 m)) by lia. split.
  - apply Rmult_le_compat_r; [lra|]. by apply IZR_le.
  - apply Rmult_lt_compat_r; [lra|]. by apply IZR_lt.
Qed.

Lemma bounded_facts (m : positive) (e : Z) :
  bounded prec emax m e = true →
  fexp (Zdigits2 (Z.pos m) + e) = e ∧ e ≤ emax - prec ∧ emin ≤ e ∧
  Zdigits2 (Z.pos m) ≤ prec ∧ (emin < e → Zdigits2 (Z.pos m) = prec).
Proof.
  unfold bounded, canonical_mantissa. intros [H1 H2]%andb_true_iff.
  apply Z.eqb_eq in H1. apply Z.leb_le in H2.
  change (Z.pos (digits2_pos m)) with (Zdigits2 (Z.pos m)) in H1.
  split; [done|]. split; [done|].
  destruct (fexp_cases (Zdigits2 (Z.pos m) + e)); lia.
Qed.

Lemma exponent_of_mantissa (m e : Z) :
  0 < m → exponent_of prec emax (IZR m * bpow e) (fexp (Zdigits2 m + e)).
Proof.
  intros Hm. split; [unfold SpecFloat.fexp; lia|]. intros H.
  destruct (fexp_cases (Zdigits2 m + e)) as [[-> _]|[He _]]; [|lia].
  replace (Zdigits2 m + e - prec + prec - 1) with (Zdigits2 m - 1 + e) by lia.
  apply value_bounds. done.
Qed.

(** The magnitude of a finite number is below the overflow threshold. *)
Lemma finite_below (s : bool) (m : positive) (e : Z) :
  bounded prec emax m e = true → (IZR (Z.pos m) * bpow e < bpow emax)%R.
Proof.
  intros (_ & H2 & _ & H4 & _)%bounded_facts.
  eapply Rlt_le_trans; [apply value_bounds; lia|]. apply bpow_le. lia.
Qed.

(** From magnitudes to signed numbers. *)
Lemma rounded_signed (sx : bool) (x : R) (e : Z) (r : spec_float) (v t : R) :
  rounded prec emax sx x e r v → exponent_of prec emax x e → (0 <= x)%R →
  t = (if sx then - x else x)%R →
  finite_in prec emax r ∧
  (Rabs (IEEE.SF2R r - t) <= bpow (- prec) * Rabs t + bpow (emin - 1))%R ∧
  (emin < e → (Rabs (IEEE.SF2R r - t) <= bpow (- prec) * Rabs t)%R) ∧
  (∀ k : Z, x = (IZR k * bpow e)%R → IEEE.SF2R r = t).
Proof using Hprec Hemax.
  intros Hr He Hx ->. pose proof Hr as (H1 & H2 & _ & H4 & H5 & _).
  destruct (exponent_of_ulp x e He Hx) as (U1 & U2 & _).
  assert (Rabs (IEEE.SF2R r - (if sx then - x else x)) = Rabs (v - x)) as ->.
  { rewrite H2. destruct sx; [|done].
    replace (- v - - x)%R with (- (v - x))%R by lra. apply Rabs_Ropp. }
  assert (Rabs (if sx then - x else x) = x) as ->.
  { destruct sx; [rewrite Rabs_Ropp|]; by apply Rabs_pos_eq. }
  split; [done|]. split; [lra|]. split.
  - intros H. specialize (U1 H). lra.
  - intros k Hk. rewrite H2, (rounded_exact _ _ _ _ _ k Hr Hk). done.
Qed.

Lemma located_exponent_of (m ex : Z) (l : location) (x : R) :
  0 ≤ m → located (shr_record_of_loc m l) (x / bpow ex) →
  ex ≤ fexp (Zdigits2 m + ex) →
  exponent_of prec emax x (fexp (Zdigits2 m + ex)) ∧ (0 <= x)%R.
Proof using Hprec.
  intros Hm Hloc Hex. apply located_bounds in Hloc. rewrite shr_m_of_loc in Hloc.
  pose proof (bpow_pos ex) as He. destruct Hloc as [Hlo _].
  apply scaled_ge in Hlo.
  assert (0 <= IZR m * bpow ex)%R by (apply Rmult_le_pos; [apply IZR_le; lia|lra]).
  split; [|lra]. split; [unfold SpecFloat.fexp; lia|]. intros H'.
  destruct (Z.eq_dec m 0) as [->|Hne].
  { cbn [Zdigits2] in *. destruct (fexp_cases (0 + ex)); lia. }
  destruct (fexp_cases (Zdigits2 m + ex)) as [[-> _]|[He' _]]; [|lia].
  replace (Zdigits2 m + ex - prec + prec - 1) with (Zdigits2 m - 1 + ex) by lia.
  etrans; [apply value_bounds; lia|done].
Qed.

(** The rounding of a located number that is small enough. *)
Lemma binary_round_aux_rounded (sx : bool) (mx ex : Z) (lx : location) (x : R) :
  0 ≤ mx → located (shr_record_of_loc mx lx) (x / bpow ex) →
  ex ≤ fexp (Zdigits2 mx + ex) → (x < bpow (emax - 1))%R →
  ∃ v, rounded prec emax sx x (fexp (Zdigits2 mx + ex))
         (binary_round_aux prec emax sx mx ex lx) v ∧
       exponent_of prec emax x (fexp (Zdigits2 mx + ex)) ∧ (0 <= x)%R.
Proof using Hprec Hemax.
  intros Hmx Hloc Hex Hx.
  destruct (located_exponent_of mx ex lx x Hmx Hloc Hex) as [He Hx0].
  destruct (rounds_rounded sx x (fexp (Zdigits2 mx + ex))
              (binary_round_aux prec emax sx mx ex lx)) as [v Hv].
  - by apply binary_round_aux_spec.
  - by apply no_overflow.
  - by exists v.
Qed.

(** *** Multiplication *)

Lemma SFmul_finite_rounded (sx sy : bool) (mx my : positive) (ex ey : Z) :
  bounded prec emax mx ex = true → bounded prec emax my ey = true →
  (IZR (Z.pos (mx * my)) * bpow (ex + ey) < bpow (emax - 1))%R →
  ∃ v, rounded prec emax (xorb sx sy) (IZR (Z.pos (mx * my)) * bpow (ex + ey))
         (fexp (Zdigits2 (Z.pos (mx * my)) + (ex + ey)))
         (SFmul prec emax (S754_finite sx mx ex) (S754_finite sy my ey)) v ∧
       exponent_of prec emax (IZR (Z.pos (mx * my)) * bpow (ex + ey))
         (fexp (Zdigits2 (Z.pos (mx * my)) + (ex + ey))).
Proof using Hprec Hemax.
  intros Hx Hy HX.
  destruct (bounded_facts mx ex Hx) as (Hcx & _ & Hex & Hdx & Hnx).
  destruct (bounded_facts my ey Hy) as (Hcy & _ & Hey & Hdy & Hny).
  pose proof emin_bounds as [Hemin0 _].
  destruct (binary_round_aux_rounded (xorb sx sy) (Z.pos (mx * my)) (ex + ey) loc_Exact
              (IZR (Z.pos (mx * my)) * bpow (ex + ey)))
    as (v & Hv & He & _); [lia| | |done|by exists v].
  - apply located_exactly. pose proof (bpow_pos (ex + ey)). field. lra.
  - pose proof (Zdigits2_pos (Z.pos mx) ltac:(lia)) as Hpx.
    pose proof (Zdigits2_pos (Z.pos my) ltac:(lia)) as Hpy.
    pose proof (Zdigits2_bounds (Z.pos mx) ltac:(lia)) as [Hlx _].
    pose proof (Zdigits2_bounds (Z.pos my) ltac:(lia)) as [Hly _].
    assert (Zdigits2 (Z.pos mx) + Zdigits2 (Z.pos my) - 2 + 1
            ≤ Zdigits2 (Z.pos (mx * my))) as HD.
    { apply Zdigits2_ge; [lia|].
      replace (Zdigits2 (Z.pos mx) + Zdigits2 (Z.pos my) - 2)
        with ((Zdigits2 (Z.pos mx) - 1) + (Zdigits2 (Z.pos my) - 1)) by lia.
      rewrite Z.pow_add_r, Pos2Z.inj_mul by lia.
      apply Z.mul_le_mono_nonneg; try done; apply Z.pow_nonneg; lia. }
    unfold SpecFloat.fexp. lia.
Qed.

Lemma SF2R_mul (sx sy : bool) (mx my : positive) (ex ey : Z) :
  (IEEE.SF2R (S754_finite sx mx ex) * IEEE.SF2R (S754_finite sy my ey))%R
  = (if xorb sx sy then - (IZR (Z.pos (mx * my)) * bpow (ex + ey))
     else IZR (Z.pos (mx * my)) * bpow (ex + ey))%R.
Proof.
  rewrite !SF2R_finite, Pos2Z.inj_mul, mult_IZR, bpow_add.
  destruct sx, sy; cbn [xorb]; lra.
Qed.

Lemma Rabs_signed (b : bool) (x : R) : (0 <= x)%R → Rabs (if b then - x else x) = x.
Proof. intros H. destruct b; [rewrite Rabs_Ropp|]; by apply Rabs_pos_eq. Qed.

Lemma mantissa_nonneg (m : positive) (e : Z) : (0 < IZR (Z.pos m) * bpow e)%R.
Proof. apply Rmult_lt_0_compat; [by apply IZR_lt|apply bpow_pos]. Qed.

Lemma Rabs_zero_error (t : R) :
  t = 0%R → (Rabs (0 - t) <= bpow (- prec) * Rabs t + bpow (emin - 1))%R.
Proof. intros ->. pose proof (bpow_pos (emin - 1)). rewrite Rminus_0_r, Rabs_R0. lra. Qed.

Lemma SFmul_accurate (x y : spec_float) :
  finite_in prec emax x → finite_in prec emax y →
  (Rabs (IEEE.SF2R x * IEEE.SF2R y) < bpow (emax - 1))%R →
  finite_in prec emax (SFmul prec emax x y) ∧
  (Rabs (IEEE.SF2R (SFmul prec emax x y) - IEEE.SF2R x * IEEE.SF2R y)
   <= bpow (- prec) * Rabs (IEEE.SF2R x * IEEE.SF2R y) + bpow (emin - 1))%R.
Proof using Hprec Hemax.
  intros Hx Hy Hlt.
  destruct x as [sx|sx| |sx mx ex], y as [sy|sy| |sy my ey]; try done;
    try (split; [done|]; cbn [SFmul IEEE.SF2R]; apply Rabs_zero_error; lra).
  cbn [finite_in] in Hx, Hy. pose proof (mantissa_nonneg (mx * my) (ex + ey)) as HX0.
  rewrite SF2R_mul, Rabs_signed in Hlt by lra.
  destruct (SFmul_finite_rounded sx sy mx my ex ey Hx Hy Hlt) as (v & Hv & He).
  destruct (rounded_signed _ _ _ _ _ _ Hv He ltac:(lra) (SF2R_mul sx sy mx my ex ey))
    as (H1 & H2 & _).
  done.
Qed.

(** *** Division *)

(** The location of a quotient from the remainder of the division. *)
Lemma new_location_located (q nb r : Z) :
  0 < nb → 0 ≤ r < nb →
  located (shr_record_of_loc q (new_location nb r)) (IZR q + IZR r / IZR nb).
Proof.
  intros Hnb [Hr0 Hr]. set (ρ := (IZR r / IZR nb)%R).
  assert (0 < IZR nb)%R as Hnb' by (by apply IZR_lt).
  assert (IZR r = ρ * IZR nb)%R as Hρ by (unfold ρ; field; lra).
  assert (0 <= IZR r)%R as Hr0' by (by apply IZR_le).
  assert (r ≠ 0 → (0 < ρ)%R) as Hpos.
  { intros Hne. assert (0 < IZR r)%R by (apply IZR_lt; lia).
    unfold ρ. by apply Rdiv_lt_0_compat. }
  assert (2 * r < nb → (ρ < 1 / 2)%R) as Hlt.
  { intros H. apply IZR_lt in H. rewrite mult_IZR in H. nra. }
  assert (nb < 2 * r → (1 / 2 < ρ)%R) as Hgt.
  { intros H. apply IZR_lt in H. rewrite mult_IZR in H. nra. }
  assert (ρ < 1)%R as Hone.
  { apply IZR_lt in Hr. nra. }
  assert (∀ y : R, (0 < y < 1 / 2)%R →
            located (shr_record_of_loc q (loc_Inexact Lt)) (IZR q + y)) as LLt.
  { intros y Hy. unfold located. cbn. lra. }
  assert (∀ y : R, (1 / 2 < y < 1)%R →
            located (shr_record_of_loc q (loc_Inexact Gt)) (IZR q + y)) as LGt.
  { intros y Hy. unfold located. cbn. lra. }
  unfold new_location. destruct (Z.even nb) eqn:Heven.
  - unfold new_location_even. destruct (Z.eqb_spec r 0) as [->|Hne].
    + apply located_exactly. unfold ρ. lra.
    + destruct (Z.compare_spec (2 * r) nb) as [E|L|G].
      * unfold located. cbn. apply (f_equal IZR) in E. rewrite mult_IZR in E. nra.
      * apply LLt. split; [by apply Hpos|by apply Hlt].
      * apply LGt. split; [by apply Hgt|done].
  - unfold new_location_odd. destruct (Z.eqb_spec r 0) as [->|Hne].
    + apply located_exactly. unfold ρ. lra.
    + assert (2 * r ≠ nb) as Hodd.
      { intros E. rewrite <- E, Z.even_mul in Heven. done. }
      destruct (Z.compare_spec (2 * r + 1) nb) as [E|L|G].
      * apply LLt. split; [by apply Hpos|apply Hlt; lia].
      * apply LLt. split; [by apply Hpos|apply Hlt; lia].
      * apply LGt. split; [apply Hgt; lia|done].
Qed.

Lemma SFdiv_core_spec (mx my : positive) (ex ey q e' : Z) (l : location) :
  SFdiv_core_binary prec emax (Z.pos mx) ex (Z.pos my) ey = (q, e', l) →
  0 ≤ q ∧
  located (shr_record_of_loc q l)
    (IZR (Z.pos mx) * bpow ex / (IZR (Z.pos my) * bpow ey) / bpow e') ∧
  e' ≤ fexp (Zdigits2 q + e').
Proof.
  unfold SFdiv_core_binary.
  set (D := Zdigits2 (Z.pos mx) + ex - (Zdigits2 (Z.pos my) + ey)).
  set (e0 := Z.min (fexp D) (ex - ey)).
  set (m' := match ex - ey - e0 with
             | 0 => Z.pos mx
             | Z.pos _ => Z.shiftl (Z.pos mx) (ex - ey - e0)
             | Z.neg _ => 0
             end).
  assert (m' = Z.pos mx * 2 ^ (ex - ey - e0)) as Hm'.
  { unfold m'. destruct (ex - ey - e0) as [|p|p] eqn:Hs.
    - lia.
    - by rewrite Z.shiftl_mul_pow2.
    - lia. }
  assert (0 < 2 ^ (ex - ey - e0)) as Hpow by (apply Z.pow_pos_nonneg; lia).
  pose proof (Z_div_mod m' (Z.pos my) ltac:(lia)) as Hdiv.
  destruct (Z.div_eucl m' (Z.pos my)) as [q0 r]. destruct Hdiv as [Hdiv Hr].
  intros [= <- <- <-].
  assert (0 ≤ q0) as Hq by nia.
  set (A := (IZR (Z.pos mx) * bpow ex)%R). set (B := (IZR (Z.pos my) * bpow ey)%R).
  pose proof (mantissa_nonneg mx ex) as HA. pose proof (mantissa_nonneg my ey) as HB.
  fold A in HA. fold B in HB.
  pose proof (bpow_pos e0) as He0. pose proof (bpow_pos ey) as Hey.
  assert (0 < IZR (Z.pos my))%R as Hmy by (by apply IZR_lt).
  assert (A / B / bpow e0 = IZR q0 + IZR r / IZR (Z.pos my))%R as HX.
  { assert (IZR m' = IZR (Z.pos my) * IZR q0 + IZR r)%R as E
      by (rewrite Hdiv, plus_IZR, mult_IZR; done).
    rewrite Hm', mult_IZR, <- bpow_IZR in E by lia.
    unfold A, B. replace ex with ((ex - ey - e0) + e0 + ey) at 1 by lia.
    rewrite !bpow_add. pose proof (bpow_pos (ex - ey - e0)).
    apply Rmult_eq_reg_r with (IZR (Z.pos my)); [|lra].
    transitivity (IZR (Z.pos mx) * bpow (ex - ey - e0))%R; [field; lra|].
    rewrite E. field. lra. }
  split; [done|]. split.
  { rewrite HX. apply new_location_located; lia. }
  assert (D ≤ Zdigits2 q0 + e0) as HD; [|pose proof (fexp_mono _ _ HD); lia].
  assert (D - 1 < Zdigits2 q0 + e0); [|lia]. apply bpow_lt_inv.
  apply Rlt_trans with (A / B)%R.
  - apply Rmult_lt_reg_r with B; [done|].
    replace (A / B * B)%R with A by (field; lra).
    apply Rlt_le_trans with (bpow (D - 1) * bpow (Zdigits2 (Z.pos my) + ey))%R.
    + apply Rmult_lt_compat_l; [apply bpow_pos|]. apply value_bounds. lia.
    + rewrite <- bpow_add. replace (D - 1 + (Zdigits2 (Z.pos my) + ey))
        with (Zdigits2 (Z.pos mx) - 1 + ex) by lia.
      apply value_bounds. lia.
  - assert (A / B / bpow e0 < bpow (Zdigits2 q0))%R as Hlt.
    { rewrite HX. assert (IZR r / IZR (Z.pos my) < 1)%R.
      { apply Rmult_lt_reg_r with (IZR (Z.pos my)); [done|].
        replace (IZR r / IZR (Z.pos my) * IZR (Z.pos my))%R with (IZR r) by (field; lra).
        rewrite Rmult_1_l. apply IZR_lt. lia. }
      assert (q0 + 1 ≤ 2 ^ Zdigits2 q0) as Hq1.
      { destruct (Z.eq_dec q0 0) as [->|Hne]; [done|].
        pose proof (Zdigits2_bounds q0 ltac:(lia)). lia. }
      assert (0 ≤ Zdigits2 q0).
      { destruct (Z.eq_dec q0 0) as [->|Hne]; [done|].
        pose proof (Zdigits2_pos q0 ltac:(lia)). lia. }
      apply IZR_le in Hq1. rewrite plus_IZR, <- bpow_IZR in Hq1 by done. lra. }
    rewrite bpow_add. apply Rmult_lt_compat_r with (r := bpow e0) in Hlt; [|done].
    replace (A / B / bpow e0 * bpow e0)%R with (A / B)%R in Hlt by (field; lra).
    done.
Qed.

Lemma SF2R_div (sx sy : bool) (mx my : positive) (ex ey : Z) :
  (IEEE.SF2R (S754_finite sx mx ex) / IEEE.SF2R (S754_finite sy my ey))%R
  = (if xorb sx sy then - (IZR (Z.pos mx) * bpow ex / (IZR (Z.pos my) * bpow ey))
     else IZR (Z.pos mx) * bpow ex / (IZR (Z.pos my) * bpow ey))%R.
Proof.
  rewrite !SF2R_finite. pose proof (mantissa_nonneg my ey) as H. revert H.
  generalize (IZR (Z.pos mx) * bpow ex)%R, (IZR (Z.pos my) * bpow ey)%R.
  intros a b Hb. destruct sx, sy; cbn [xorb]; field; lra.
Qed.

Lemma SFdiv_accurate (x y : spec_float) :
  finite_in prec emax x → finite_in prec emax y → IEEE.SF2R y ≠ 0%R →
  (Rabs (IEEE.SF2R x / IEEE.SF2R y) < bpow (emax - 1))%R →
  finite_in prec emax (SFdiv prec emax x y) ∧
  (Rabs (IEEE.SF2R (SFdiv prec emax x y) - IEEE.SF2R x / IEEE.SF2R y)
   <= bpow (- prec) * Rabs (IEEE.SF2R x / IEEE.SF2R y) + bpow (emin - 1))%R.
Proof using Hprec Hemax.
  intros Hx Hy Hy0 Hlt.
  destruct x as [sx|sx| |sx mx ex], y as [sy|sy| |sy my ey]; try done.
  { split; [done|]. cbn [SFdiv]. apply Rabs_zero_error. cbn [IEEE.SF2R]. lra. }
  pose proof (mantissa_nonneg mx ex) as HA. pose proof (mantissa_nonneg my ey) as HB.
  assert (0 < IZR (Z.pos mx) * bpow ex / (IZR (Z.pos my) * bpow ey))%R as HX0
    by (by apply Rdiv_lt_0_compat).
  rewrite SF2R_div, Rabs_signed in Hlt by lra.
  cbn [SFdiv].
  destruct (SFdiv_core_binary prec emax (Z.pos mx) ex (Z.pos my) ey) as [[q e'] l] eqn:Hcore.
  destruct (SFdiv_core_spec _ _ _ _ _ _ _ Hcore) as (Hq & Hloc & Hpre).
  destruct (binary_round_aux_rounded (xorb sx sy) q e' l _ Hq Hloc Hpre Hlt)
    as (v & Hv & He & _).
  destruct (rounded_signed _ _ _ _ _ _ Hv He ltac:(lra) (SF2R_div sx sy mx my ex ey))
    as (H1 & H2 & _).
  done.
Qed.

(** *** Normalization, addition and subtraction *)

(** Rounding a number that lies on the grid of the format, or above its
    least exponent, loses at most a relative error. *)
Lemma binary_round_accurate (sx : bool) (m : positive) (e : Z) (t : R) :
  emin ≤ e → (IZR (Z.pos m) * bpow e < bpow (emax - 1))%R →
  t = (if sx then - (IZR (Z.pos m) * bpow e) else IZR (Z.pos m) * bpow e)%R →
  finite_in prec emax (binary_round prec emax sx m e) ∧
  (Rabs (IEEE.SF2R (binary_round prec emax sx m e) - t) <= bpow (- prec) * Rabs t)%R ∧
  (∀ k : Z, (IZR (Z.pos m) * bpow e = IZR k * bpow (fexp (Zdigits2 (Z.pos m) + e)))%R →
     IEEE.SF2R (binary_round prec emax sx m e) = t) ∧
  (binary_round prec emax sx m e = S754_zero sx ∨
   ∃ m' e', binary_round prec emax sx m e = S754_finite sx m' e').
Proof using Hprec Hemax.
  intros He Hlt Ht. pose proof (mantissa_nonneg m e) as HX.
  pose proof (exponent_of_mantissa (Z.pos m) e ltac:(lia)) as Hexp.
  destruct (rounds_rounded sx _ _ _ (binary_round_rounds sx m e)) as [v Hv].
  { apply no_overflow; [done|lra]. }
  destruct (rounded_signed _ _ _ _ _ _ Hv Hexp ltac:(lra) Ht) as (H1 & _ & H3 & H4).
  split; [done|]. split; [|split; [done|apply Hv]].
  destruct (Z_lt_le_dec emin (fexp (Zdigits2 (Z.pos m) + e))) as [Hn|Hs]; [by apply H3|].
  assert (fexp (Zdigits2 (Z.pos m) + e) = emin) as Hmin by (unfold SpecFloat.fexp in *; lia).
  rewrite (H4 (Z.pos m * 2 ^ (e - emin))).
  - rewrite Rminus_diag, Rabs_R0. apply Rmult_le_pos; [left; apply bpow_pos|apply Rabs_pos].
  - rewrite Hmin. symmetry. by apply IZR_shift.
Qed.

Lemma binary_normalize_accurate (m e : Z) (sz : bool) :
  emin ≤ e → (Rabs (IZR m * bpow e) < bpow (emax - 1))%R →
  finite_in prec emax (binary_normalize prec emax m e sz) ∧
  (Rabs (IEEE.SF2R (binary_normalize prec emax m e sz) - IZR m * bpow e)
   <= bpow (- prec) * Rabs (IZR m * bpow e))%R ∧
  (∀ k : Z, (IZR (Z.abs m) * bpow e = IZR k * bpow (fexp (Zdigits2 m + e)))%R →
     IEEE.SF2R (binary_normalize prec emax m e sz) = (IZR m * bpow e)%R).
Proof using Hprec Hemax.
  intros He Hlt. destruct m as [|p|p]; cbn [binary_normalize Z.abs].
  - split; [done|]. cbn [IEEE.SF2R]. rewrite Rmult_0_l, Rminus_diag, Rabs_R0.
    split; [lra|done].
  - pose proof (mantissa_nonneg p e). rewrite Rabs_pos_eq in Hlt by lra.
    destruct (binary_round_accurate false p e _ He Hlt eq_refl) as (H1 & H2 & H3 & _).
    done.
  - pose proof (mantissa_nonneg p e).
    assert (IZR (Z.neg p) * bpow e = - (IZR (Z.pos p) * bpow e))%R as E.
    { change (Z.neg p) with (- Z.pos p). rewrite opp_IZR. lra. }
    rewrite E in *. rewrite Rabs_Ropp, Rabs_pos_eq in Hlt by lra.
    destruct (binary_round_accurate true p e _ He Hlt eq_refl) as (H1 & H2 & H3 & _).
    done.
Qed.

Lemma aligned_value (s : bool) (m : positive) (e ez : Z) :
  ez ≤ e →
  (IZR (cond_Zopp s (Z.pos (fst (shl_align m e ez)))) * bpow ez)%R
  = IEEE.SF2R (S754_finite s m e).
Proof.
  intros H. destruct (shl_align_spec m e ez) as [_ Hm].
  rewrite Hm, SF2R_finite. replace (Z.min e ez) with ez by lia.
  pose proof (IZR_shift (Z.pos m) e ez H) as E.
  destruct s; unfold cond_Zopp; [rewrite opp_IZR|]; lra.
Qed.

Lemma Rabs_exact_error (t : R) : (Rabs (t - t) <= bpow (- prec) * Rabs t)%R.
Proof.
  rewrite Rminus_diag, Rabs_R0.
  apply Rmult_le_pos; [left; apply bpow_pos|apply Rabs_pos].
Qed.

Lemma SFadd_accurate (x y : spec_float) :
  finite_in prec emax x → finite_in prec emax y →
  (Rabs (IEEE.SF2R x + IEEE.SF2R y) < bpow (emax - 1))%R →
  finite_in prec emax (SFadd prec emax x y) ∧
  (Rabs (IEEE.SF2R (SFadd prec emax x y) - (IEEE.SF2R x + IEEE.SF2R y))
   <= bpow (- prec) * Rabs (IEEE.SF2R x + IEEE.SF2R y))%R.
Proof using Hprec Hemax.
  intros Hx Hy Hlt.
  destruct x as [sx|sx| |sx mx ex], y as [sy|sy| |sy my ey]; try done.
  - split; [by destruct sx, sy|].
    replace (IEEE.SF2R (SFadd prec emax (S754_zero sx) (S754_zero sy)))
      with (IEEE.SF2R (S754_zero sx) + IEEE.SF2R (S754_zero sy))%R
      by (destruct sx, sy; cbn; lra).
    apply Rabs_exact_error.
  - split; [done|]. cbn [SFadd].
    replace (IEEE.SF2R (S754_zero sx) + IEEE.SF2R (S754_finite sy my ey))%R
      with (IEEE.SF2R (S754_finite sy my ey)) by (cbn [IEEE.SF2R]; lra).
    apply Rabs_exact_error.
  - split; [done|]. cbn [SFadd].
    replace (IEEE.SF2R (S754_finite sx mx ex) + IEEE.SF2R (S754_zero sy))%R
      with (IEEE.SF2R (S754_finite sx mx ex)) by (cbn [IEEE.SF2R]; lra).
    apply Rabs_exact_error.
  - cbn [finite_in] in Hx, Hy.
    destruct (bounded_facts mx ex Hx) as (_ & _ & Hex & _).
    destruct (bounded_facts my ey Hy) as (_ & _ & Hey & _).
    cbn [SFadd]. set (ez := Z.min ex ey).
    set (S := cond_Zopp sx (Z.pos (fst (shl_align mx ex ez)))
              + cond_Zopp sy (Z.pos (fst (shl_align my ey ez)))).
    assert (IZR S * bpow ez
            = IEEE.SF2R (S754_finite sx mx ex) + IEEE.SF2R (S754_finite sy my ey))%R as E.
    { unfold S. rewrite plus_IZR, Rmult_plus_distr_r, !aligned_value by lia. done. }
    rewrite <- E in *.
    destruct (binary_normalize_accurate S ez false ltac:(lia) Hlt) as (H1 & H2 & _).
    done.
Qed.

Lemma SFsub_accurate (x y : spec_float) :
  finite_in prec emax x → finite_in prec emax y →
  (Rabs (IEEE.SF2R x - IEEE.SF2R y) < bpow (emax - 1))%R →
  finite_in prec emax (SFsub prec emax x y) ∧
  (Rabs (IEEE.SF2R (SFsub prec emax x y) - (IEEE.SF2R x - IEEE.SF2R y))
   <= bpow (- prec) * Rabs (IEEE.SF2R x - IEEE.SF2R y))%R.
Proof using Hprec Hemax.
  intros Hx Hy Hlt.
  destruct x as [sx|sx| |sx mx ex], y as [sy|sy| |sy my ey]; try done.
  - split; [by destruct sx, sy|].
    replace (IEEE.SF2R (SFsub prec emax (S754_zero sx) (S754_zero sy)))
      with (IEEE.SF2R (S754_zero sx) - IEEE.SF2R (S754_zero sy))%R
      by (destruct sx, sy; cbn; lra).
    apply Rabs_exact_error.
  - split; [done|]. cbn [SFsub].
    replace (IEEE.SF2R (S754_finite (negb sy) my ey))
      with (IEEE.SF2R (S754_zero sx) - IEEE.SF2R (S754_finite sy my ey))%R.
    { apply Rabs_exact_error. }
    rewrite !SF2R_finite. cbn [IEEE.SF2R]. destruct sy; cbn [negb]; lra.
  - split; [done|]. cbn [SFsub].
    replace (IEEE.SF2R (S754_finite sx mx ex) - IEEE.SF2R (S754_zero sy))%R
      with (IEEE.SF2R (S754_finite sx mx ex)) by (cbn [IEEE.SF2R]; lra).
    apply Rabs_exact_error.
  - cbn [finite_in] in Hx, Hy.
    destruct (bounded_facts mx ex Hx) as (_ & _ & Hex & _).
    destruct (bounded_facts my ey Hy) as (_ & _ & Hey & _).
    cbn [SFsub]. set (ez := Z.min ex ey).
    set (S := cond_Zopp sx (Z.pos (fst (shl_align mx ex ez)))
              - cond_Zopp sy (Z.pos (fst (shl_align my ey ez)))).
    assert (IZR S * bpow ez
            = IEEE.SF2R (S754_finite sx mx ex) - IEEE.SF2R (S754_finite sy my ey))%R as E.
    { unfold S. rewrite minus_IZR, Rmult_minus_distr_r, !aligned_value by lia. done. }
    rewrite <- E in *.
    destruct (binary_normalize_accurate S ez false ltac:(lia) Hlt) as (H1 & H2 & _).
    done.
Qed.

(** *** Order, extrema and truncation *)

(** Between canonical numbers the exponent decides the order first. *)
Lemma canonical_lt (m1 m2 : positive) (e1 e2 : Z) :
  bounded prec emax m1 e1 = true → bounded prec emax m2 e2 = true → e1 < e2 →
  (IZR (Z.pos m1) * bpow e1 < IZR (Z.pos m2) * bpow e2)%R.
Proof.
  intros (H1 & _)%bounded_facts (H2 & _)%bounded_facts Hlt.
  assert (Zdigits2 (Z.pos m1) + e1 < Zdigits2 (Z.pos m2) + e2) as Hd.
  { destruct (Z_lt_le_dec (Zdigits2 (Z.pos m1) + e1) (Zdigits2 (Z.pos m2) + e2)) as [|Hge];
      [done|]. apply fexp_mono in Hge. lia. }
  eapply Rlt_le_trans; [apply value_bounds; lia|].
  etrans; [|apply value_bounds; lia]. apply bpow_le. lia.
Qed.

Lemma canonical_unique (m1 m2 : positive) (e1 e2 : Z) :
  bounded prec emax m1 e1 = true → bounded prec emax m2 e2 = true →
  (IZR (Z.pos m1) * bpow e1 = IZR (Z.pos m2) * bpow e2)%R →
  m1 = m2 ∧ e1 = e2.
Proof.
  intros H1 H2 E.
  destruct (Z.lt_trichotomy e1 e2) as [Hlt|[->|Hgt]].
  - pose proof (canonical_lt m1 m2 e1 e2 H1 H2 Hlt). lra.
  - split; [|done]. pose proof (bpow_pos e2).
    apply Rmult_eq_reg_r in E; [|lra]. apply eq_IZR in E. congruence.
  - pose proof (canonical_lt m2 m1 e2 e1 H2 H1 Hgt). lra.
Qed.

Lemma canonical_compare (m1 m2 : positive) (e1 e2 : Z) :
  bounded prec emax m1 e1 = true → bounded prec emax m2 e2 = true →
  match (match e1 ?= e2 with
         | Lt => Lt
         | Gt => Gt
         | Eq => Pos.compare_cont Eq m1 m2
         end) with
  | Lt => (IZR (Z.pos m1) * bpow e1 < IZR (Z.pos m2) * bpow e2)%R
  | Eq => (IZR (Z.pos m1) * bpow e1 = IZR (Z.pos m2) * bpow e2)%R
  | Gt => (IZR (Z.pos m2) * bpow e2 < IZR (Z.pos m1) * bpow e1)%R
  end.
Proof.
  intros H1 H2. destruct (Z.compare_spec e1 e2) as [->|Hlt|Hgt].
  - change (Pos.compare_cont Eq m1 m2) with (Pos.compare m1 m2).
    pose proof (bpow_pos e2).
    destruct (Pos.compare_spec m1 m2) as [->|Hlt|Hgt].
    + done.
    + apply Rmult_lt_compat_r; [done|]. apply IZR_lt. lia.
    + apply Rmult_lt_compat_r; [done|]. apply IZR_lt. lia.
  - by apply canonical_lt.
  - by apply canonical_lt.
Qed.

Lemma SFcompare_finite (x y : spec_float) :
  finite_in prec emax x → finite_in prec emax y →
  match SFcompare x y with
  | Some Lt => (IEEE.SF2R x < IEEE.SF2R y)%R
  | Some Eq => IEEE.SF2R x = IEEE.SF2R y
  | Some Gt => (IEEE.SF2R y < IEEE.SF2R x)%R
  | None => False
  end.
Proof.
  intros Hx Hy.
  destruct x as [sx|sx| |sx mx ex], y as [sy|sy| |sy my ey]; try done.
  - pose proof (mantissa_nonneg my ey). cbn [SFcompare]. rewrite SF2R_finite.
    cbn [IEEE.SF2R]. destruct sy; lra.
  - pose proof (mantissa_nonneg mx ex). cbn [SFcompare]. rewrite SF2R_finite.
    cbn [IEEE.SF2R]. destruct sx; lra.
  - cbn [finite_in] in Hx, Hy.
    pose proof (mantissa_nonneg mx ex). pose proof (mantissa_nonneg my ey).
    cbn [SFcompare]. rewrite !SF2R_finite. destruct sx, sy; try lra.
    + pose proof (canonical_compare mx my ex ey Hx Hy) as Hc.
      destruct (ex ?= ey); [destruct (Pos.compare_cont Eq mx my)| |]; cbn [CompOpp]; lra.
    + pose proof (canonical_compare mx my ex ey Hx Hy) as Hc.
      destruct (ex ?= ey); [destruct (Pos.compare_cont Eq mx my)| |]; lra.
Qed.

Lemma minimum_finite (x y : spec_float) :
  finite_in prec emax x → finite_in prec emax y →
  finite_in prec emax (IEEE.minimum x y) ∧
  IEEE.SF2R (IEEE.minimum x y) = Rmin (IEEE.SF2R x) (IEEE.SF2R y).
Proof.
  intros Hx Hy. pose proof (SFcompare_finite x y Hx Hy) as Hc. unfold IEEE.minimum.
  destruct (SFcompare x y) as [[| |]|]; [| | |done].
  - split; [done|]. rewrite Rmin_left; [done|lra].
  - split; [done|]. rewrite Rmin_left; [done|lra].
  - split; [done|]. rewrite Rmin_right; [done|lra].
Qed.

Lemma maximum_finite (x y : spec_float) :
  finite_in prec emax x → finite_in prec emax y →
  finite_in prec emax (IEEE.maximum x y) ∧
  IEEE.SF2R (IEEE.maximum x y) = Rmax (IEEE.SF2R x) (IEEE.SF2R y).
Proof.
  intros Hx Hy. pose proof (SFcompare_finite x y Hx Hy) as Hc. unfold IEEE.maximum.
  destruct (SFcompare x y) as [[| |]|]; [| | |done].
  - split; [done|]. rewrite Rmax_left; [done|lra].
  - split; [done|]. rewrite Rmax_right; [done|lra].
  - split; [done|]. rewrite Rmax_left; [done|lra].
Qed.

Lemma SFeqb_zero (x : spec_float) :
  finite_in prec emax x → (SFeqb x (S754_zero false) = true ↔ IEEE.SF2R x = 0%R).
Proof.
  intros Hx. destruct x as [sx|sx| |sx mx ex]; try done.
  pose proof (mantissa_nonneg mx ex). unfold SFeqb. cbn [SFcompare].
  rewrite SF2R_finite. split; [by destruct sx|]. destruct sx; lra.
Qed.

(** Shifting a mantissa to the exponent 0 drops the fractional part. *)
Lemma shiftl_floor (m : positive) (e : Z) :
  (IZR (Z.shiftl (Z.pos m) e) <= IZR (Z.pos m) * bpow e
   < IZR (Z.shiftl (Z.pos m) e) + 1)%R.
Proof.
  destruct (Z_le_gt_dec 0 e) as [He|He].
  - rewrite Z.shiftl_mul_pow2, mult_IZR, <- bpow_IZR by done. lra.
  - rewrite Z.shiftl_div_pow2 by lia.
    assert (0 < 2 ^ (- e)) as Hp by (apply Z.pow_pos_nonneg; lia).
    pose proof (Z.mul_div_le (Z.pos m) (2 ^ (- e)) Hp) as Hlo.
    pose proof (Z.mul_succ_div_gt (Z.pos m) (2 ^ (- e)) Hp) as Hhi.
    apply IZR_le in Hlo. apply IZR_lt in Hhi.
    rewrite mult_IZR in Hlo, Hhi. unfold Z.succ in Hhi. rewrite plus_IZR in Hhi.
    rewrite <- !bpow_IZR in Hlo, Hhi by lia.
    pose proof (bpow_pos (- e)) as Hb. pose proof (bpow_pos e) as Hb'.
    assert (bpow (- e) * bpow e = 1)%R as E.
    { rewrite <- bpow_add. replace (- e + e) with 0 by lia. apply bpow_0. }
    set (T := IZR (Z.pos m / 2 ^ (- e))) in *. set (M := IZR (Z.pos m)) in *.
    split.
    + apply Rmult_le_reg_l with (bpow (- e)); [done|].
      replace (bpow (- e) * (M * bpow e))%R with (M * (bpow (- e) * bpow e))%R by ring.
      rewrite E. lra.
    + apply Rmult_lt_reg_l with (bpow (- e)); [done|].
      replace (bpow (- e) * (M * bpow e))%R with (M * (bpow (- e) * bpow e))%R by ring.
      rewrite E. lra.
Qed.

Lemma trunc_finite (x : spec_float) :
  finite_in prec emax x →
  ((0 <= IEEE.SF2R x)%R →
   (IZR (IEEE.trunc x) <= IEEE.SF2R x < IZR (IEEE.trunc x) + 1)%R) ∧
  ((IEEE.SF2R x <= 0)%R →
   (IZR (IEEE.trunc x) - 1 < IEEE.SF2R x <= IZR (IEEE.trunc x))%R).
Proof.
  intros Hx. destruct x as [sx|sx| |sx mx ex]; try done.
  - cbn. split; intros; lra.
  - pose proof (mantissa_nonneg mx ex). pose proof (shiftl_floor mx ex).
    rewrite SF2R_finite. unfold IEEE.trunc.
    destruct sx; unfold cond_Zopp; [rewrite opp_IZR|]; split; intros; lra.
Qed.

(** *** Numbers that need no rounding *)

Lemma nearest_integer (m k : Z) : nearest m (IZR k) → m = k.
Proof.
  intros [_ H]. destruct (H k) as [H1 H2].
  specialize (H1 ltac:(lra)). specialize (H2 ltac:(lra)). lia.
Qed.

Lemma rounds_exact (sx : bool) (x : R) (e k : Z) (r : spec_float) :
  rounds prec emax sx x e r → x = (IZR k * bpow e)%R → (x < bpow emax)%R →
  finite_in prec emax r ∧ IEEE.SF2R r = (if sx then - x else x)%R ∧
  (r = S754_zero sx ∨ ∃ m e', r = S754_finite sx m e').
Proof.
  intros Hr Hk Hx. pose proof (bpow_pos e) as He.
  assert (x / bpow e = IZR k)%R as Hq by (rewrite Hk; field; lra).
  destruct (rounds_rounded sx x e r Hr) as [v Hv].
  { intros m Hm. rewrite Hq in Hm. apply nearest_integer in Hm. subst m. lra. }
  pose proof (rounded_exact _ _ _ _ _ k Hv Hk) as ->.
  destruct Hv as (H1 & H2 & H3 & _). done.
Qed.

(** A canonical number of the format is its own rounding. *)
Lemma binary_round_canonical (sx : bool) (m m' : positive) (e e' : Z) :
  bounded prec emax m e = true →
  (IZR (Z.pos m') * bpow e' = IZR (Z.pos m) * bpow e)%R →
  binary_round prec emax sx m' e' = S754_finite sx m e.
Proof using Hprec Hemax.
  intros Hb Hv. pose proof (bounded_facts m e Hb) as (Hc & _).
  pose proof (value_bounds (Z.pos m) e ltac:(lia)) as [L1 U1].
  pose proof (value_bounds (Z.pos m') e' ltac:(lia)) as [L2 U2].
  rewrite Hv in L2, U2.
  assert (Zdigits2 (Z.pos m') + e' = Zdigits2 (Z.pos m) + e) as Hd.
  { assert (Zdigits2 (Z.pos m') - 1 + e' < Zdigits2 (Z.pos m) + e)
      by (apply bpow_lt_inv; lra).
    assert (Zdigits2 (Z.pos m) - 1 + e < Zdigits2 (Z.pos m') + e')
      by (apply bpow_lt_inv; lra).
    lia. }
  pose proof (binary_round_rounds sx m' e') as Hr. rewrite Hd, Hc, Hv in Hr.
  destruct (rounds_exact sx _ e (Z.pos m) _ Hr eq_refl (finite_below sx m e Hb))
    as (H1 & H2 & [H3|(m2 & e2 & H3)]); rewrite H3 in *.
  - pose proof (mantissa_nonneg m e). cbn [IEEE.SF2R] in H2. destruct sx; lra.
  - cbn [finite_in] in H1.
    destruct (canonical_unique m2 m e2 e H1 Hb) as [-> ->]; [|done].
    rewrite SF2R_finite in H2. destruct sx; lra.
Qed.

End Rounding.

(** ** Conversions between formats *)
Section Widening.
Variables pa ea pb eb : Z.
Hypothesis Hpb : 0 < pb.
Hypothesis Heb : pb < eb.
Hypothesis Hprec : pa ≤ pb.
Hypothesis Hemin : emin pb eb ≤ emin pa ea.
Hypothesis Hemax : ea ≤ eb.

(** A number of a format is also a number of every wider format. *)
Lemma cast_widen (x : spec_float) :
  finite_in pa ea x →
  finite_in pb eb (IEEE.cast pb eb x) ∧
  IEEE.SF2R (IEEE.cast pb eb x) = IEEE.SF2R x ∧
  (∀ s m e, x = S754_finite s m e → ∃ m' e', IEEE.cast pb eb x = S754_finite s m' e').
Proof using Hpb Heb Hprec Hemin Hemax.
  intros Hx. destruct x as [sx|sx| |sx mx ex]; try done.
  cbn [finite_in] in Hx. cbn [IEEE.cast].
  destruct (bounded_facts pa ea mx ex Hx) as (_ & _ & Hex & Hdx & _).
  pose proof (Zdigits2_pos (Z.pos mx) ltac:(lia)) as Hd0.
  pose proof (mantissa_nonneg mx ex) as HX.
  assert (fexp pb eb (Zdigits2 (Z.pos mx) + ex) ≤ ex) as Hle
    by (unfold fexp; lia).
  destruct (rounds_exact pb eb sx _ _
              (Z.pos mx * 2 ^ (ex - fexp pb eb (Zdigits2 (Z.pos mx) + ex))) _
              (binary_round_rounds pb eb Hpb Heb sx mx ex))
    as (H1 & H2 & H3).
  { symmetry. by apply IZR_shift. }
  { eapply Rlt_le_trans; [by apply (finite_below pa ea sx)|]. by apply bpow_le. }
  split; [done|]. split; [by rewrite H2, SF2R_finite|].
  intros s m e [= -> -> ->]. destruct H3 as [H3|H3]; [|done].
  rewrite H3 in H2. cbn [IEEE.SF2R] in H2. destruct s; lra.
Qed.

End Widening.

(** ** float32, float16 and binary64 *)
Section Single.
Local Open Scope R_scope.

Lemma bpow_neg (n : nat) : bpow (- Z.of_nat n) = / 2 ^ n.
Proof. by rewrite bpow_opp, bpow_nat. Qed.

Lemma u32_bpow : bpow (- 24) = u32.
Proof. apply (bpow_neg 24). Qed.

Lemma eta32_bpow : bpow (emin 24 128 - 1) = eta32.
Proof. apply (bpow_neg 150). Qed.

Lemma u16_bpow : bpow (- 11) = u16.
Proof. apply (bpow_neg 11). Qed.

Lemma eta16_bpow : bpow (emin 11 16 - 1) = eta16.
Proof. apply (bpow_neg 25). Qed.

Lemma huge_bpow : huge = bpow 100.
Proof. symmetry. apply (bpow_nat 100). Qed.

Lemma huge_below (t : R) : Rabs t <= huge → Rabs t < bpow (128 - 1).
Proof.
  intros H. rewrite huge_bpow in H. eapply Rle_lt_trans; [exact H|].
  apply bpow_lt. lia.
Qed.

Lemma single_format : (0 < 24 ∧ 24 < 128)%Z.
Proof. lia. Qed.

Lemma Zdigits2_abs (z : Z) : Zdigits2 (Z.abs z) = Zdigits2 z.
Proof. by destruct z. Qed.

Lemma single_of_Z (z : Z) :
  (Z.abs z ≤ 2 ^ 24)%Z →
  IEEE.finite32 (IEEE.of_Z 24 128 z) ∧ IEEE.SF2R (IEEE.of_Z 24 128 z) = IZR z.
Proof.
  intros Hz. unfold IEEE.of_Z.
  destruct (binary_normalize_accurate 24 128 ltac:(lia) ltac:(lia) z 0 false)
    as (H1 & _ & H3).
  { unfold emin. lia. }
  { rewrite bpow_0, Rmult_1_r, <- abs_IZR.
    apply Rle_lt_trans with (bpow 24); [|apply bpow_lt; lia].
    rewrite (bpow_IZR 24) by lia. by apply IZR_le. }
  split; [exact H1|]. rewrite bpow_0, !Rmult_1_r in H3.
  destruct (Z.eq_dec z 0%Z) as [->|Hne].
  { apply (H3 0%Z). change (Z.abs 0) with 0%Z. by rewrite Rmult_0_l. }
  destruct (Z_lt_le_dec (Z.abs z) (2 ^ 24)%Z) as [Hlt|Hge].
  - pose proof (Zdigits2_le (Z.abs z) 24%Z ltac:(lia) Hlt ltac:(lia)) as Hd.
    pose proof (Zdigits2_pos (Z.abs z) ltac:(lia)) as Hd0.
    rewrite Zdigits2_abs in Hd, Hd0.
    apply (H3 (Z.abs z * 2 ^ (0 - fexp 24 128 (Zdigits2 z + 0)))%Z).
    rewrite IZR_shift, bpow_0 by (unfold fexp, emin; lia). lra.
  - assert (z = 16777216 ∨ z = - 16777216)%Z as [-> | ->] by lia.
    + apply (H3 8388608%Z). change (Z.abs 16777216) with 16777216%Z.
      replace (fexp 24 128 _) with 1%Z by done. rewrite bpow_1. lra.
    + apply (H3 8388608%Z). change (Z.abs (-16777216)) with 16777216%Z.
      replace (fexp 24 128 _) with 1%Z by done. rewrite bpow_1. lra.
Qed.

Lemma single_add (x y : spec_float) :
  IEEE.finite32 x → IEEE.finite32 y → Rabs (IEEE.SF2R x + IEEE.SF2R y) <= huge →
  IEEE.finite32 (SFadd 24 128 x y) ∧
  Rabs (IEEE.SF2R (SFadd 24 128 x y) - (IEEE.SF2R x + IEEE.SF2R y))
  <= u32 * Rabs (IEEE.SF2R x + IEEE.SF2R y).
Proof.
  intros Hx Hy Hh. rewrite <- u32_bpow.
  apply (SFadd_accurate 24 128); try done; try lia. by apply huge_below.
Qed.

Lemma single_sub (x y : spec_float) :
  IEEE.finite32 x → IEEE.finite32 y → Rabs (IEEE.SF2R x - IEEE.SF2R y) <= huge →
  IEEE.finite32 (SFsub 24 128 x y) ∧
  Rabs (IEEE.SF2R (SFsub 24 128 x y) - (IEEE.SF2R x - IEEE.SF2R y))
  <= u32 * Rabs (IEEE.SF2R x - IEEE.SF2R y).
Proof.
  intros Hx Hy Hh. rewrite <- u32_bpow.
  apply (SFsub_accurate 24 128); try done; try lia. by apply huge_below.
Qed.

Lemma single_mul (x y : spec_float) :
  IEEE.finite32 x → IEEE.finite32 y → Rabs (IEEE.SF2R x * IEEE.SF2R y) <= huge →
  IEEE.finite32 (SFmul 24 128 x y) ∧
  Rabs (IEEE.SF2R (SFmul 24 128 x y) - IEEE.SF2R x * IEEE.SF2R y)
  <= u32 * Rabs (IEEE.SF2R x * IEEE.SF2R y) + eta32.
Proof.
  intros Hx Hy Hh. rewrite <- u32_bpow, <- eta32_bpow.
  apply (SFmul_accurate 24 128); try done; try lia. by apply huge_below.
Qed.

Lemma single_div (x y : spec_float) :
  IEEE.finite32 x → IEEE.finite32 y → IEEE.SF2R y ≠ 0 →
  Rabs (IEEE.SF2R x / IEEE.SF2R y) <= huge →
  IEEE.finite32 (SFdiv 24 128 x y) ∧
  Rabs (IEEE.SF2R (SFdiv 24 128 x y) - IEEE.SF2R x / IEEE.SF2R y)
  <= u32 * Rabs (IEEE.SF2R x / IEEE.SF2R y) + eta32.
Proof.
  intros Hx Hy Hy0 Hh. rewrite <- u32_bpow, <- eta32_bpow.
  apply (SFdiv_accurate 24 128); try done; try lia. by apply huge_below.
Qed.

Lemma two_value : IZR 8388608 * bpow (-22) = 2.
Proof. change (-22)%Z with (- Z.of_nat 22)%Z. rewrite bpow_neg. lra. Qed.

(** Doubling is exact. *)
Lemma single_double (x : spec_float) :
  IEEE.finite32 x → Rabs (IEEE.SF2R x) <= huge →
  IEEE.finite32 (SFmul 24 128 (IEEE.of_Z 24 128 2) x) ∧
  IEEE.SF2R (SFmul 24 128 (IEEE.of_Z 24 128 2) x) = 2 * IEEE.SF2R x.
Proof.
  intros Hx Hh.
  change (IEEE.of_Z 24 128 2) with (S754_finite false 8388608 (-22)).
  destruct x as [sx|sx| |sx mx ex]; try done.
  { split; [done|]. cbn. lra. }
  assert (bounded 24 128 8388608 (-22) = true) as Htwo by done.
  cbn [IEEE.finite32] in Hx.
  destruct (bounded_facts 24 128 mx ex Hx) as (Hc & _ & Hex & Hdx & _).
  pose proof (Zdigits2_pos (Z.pos mx) ltac:(lia)) as Hd0.
  pose proof (mantissa_nonneg mx ex) as HX.
  assert (IZR (Z.pos (8388608 * mx)) * bpow (-22 + ex) = 2 * (IZR (Z.pos mx) * bpow ex)) as E.
  { rewrite Pos2Z.inj_mul, mult_IZR, bpow_add.
    transitivity (IZR 8388608 * bpow (-22) * (IZR (Z.pos mx) * bpow ex)); [ring|].
    by rewrite two_value. }
  assert (Zdigits2 (Z.pos (8388608 * mx)) = (Zdigits2 (Z.pos mx) + 23)%Z) as Hd.
  { rewrite Pos2Z.inj_mul, Z.mul_comm. apply (Zdigits2_shift (Z.pos mx) 23); lia. }
  destruct (SFmul_finite_rounded 24 128 ltac:(lia) ltac:(lia) false sx 8388608 mx (-22) ex Htwo Hx)
    as (v & Hv & He).
  { rewrite E. rewrite SF2R_finite, Rabs_signed, huge_bpow in Hh by lra.
    apply Rle_lt_trans with (2 * bpow 100); [lra|].
    rewrite <- bpow_succ. apply bpow_lt. lia. }
  destruct (rounded_signed 24 128 ltac:(lia) ltac:(lia) _ _ _ _ _ _ Hv He ltac:(lra)
              (SF2R_mul false sx 8388608 mx (-22) ex)) as (H1 & _ & _ & H4).
  split; [exact H1|].
  rewrite (H4 (Z.pos mx * 2 ^ (ex + 1 - fexp 24 128 (Zdigits2 (Z.pos (8388608 * mx)) + (-22 + ex))))%Z).
  - rewrite (SF2R_finite false), two_value. done.
  - rewrite IZR_shift, E, bpow_succ by (rewrite Hd; unfold fexp in *; lia). lra.
Qed.

(** A float32 number survives the way through binary64 and back. *)
Lemma single_to_py (x : spec_float) :
  IEEE.finite32 x → IEEE.cast 24 128 (IEEE.cast 53 1024 x) = x.
Proof.
  intros Hx. destruct x as [sx|sx| |sx mx ex]; try done.
  destruct (cast_widen 24 128 53 1024 ltac:(lia) ltac:(lia) ltac:(lia) ltac:(done) ltac:(lia)
              (S754_finite sx mx ex) Hx) as (_ & Hv & Hs).
  destruct (Hs sx mx ex eq_refl) as (m' & e' & Hc). rewrite Hc in *.
  cbn [IEEE.cast]. apply (binary_round_canonical 24 128); [lia|lia|exact Hx|].
  rewrite !SF2R_finite in Hv. destruct sx; lra.
Qed.

(** Rounding a float32 number of the range of float16 to float16. *)
Lemma half_rounding (x : spec_float) :
  IEEE.finite32 x → Rabs (IEEE.SF2R x) <= 65504 →
  finite_in 11 16 (IEEE.cast 11 16 x) ∧
  Rabs (IEEE.SF2R (IEEE.cast 11 16 x) - IEEE.SF2R x) <= u16 * Rabs (IEEE.SF2R x) + eta16.
Proof.
  intros Hx Hr. rewrite <- u16_bpow, <- eta16_bpow.
  destruct x as [sx|sx| |sx mx ex]; try done.
  { split; [done|]. cbn [IEEE.cast IEEE.SF2R]. by apply (Rabs_zero_error 11 16). }
  pose proof (mantissa_nonneg mx ex) as HX.
  rewrite SF2R_finite, Rabs_signed in Hr by lra.
  pose proof (exponent_of_mantissa 11 16 (Z.pos mx) ex ltac:(lia)) as He.
  set (e := fexp 11 16 (Zdigits2 (Z.pos mx) + ex)) in *.
  assert (bpow 16 = 65536) as E16 by (rewrite (bpow_IZR 16) by lia; done).
  destruct (rounds_rounded 11 16 sx _ _ _ (binary_round_rounds 11 16 ltac:(lia) ltac:(lia) sx mx ex))
    as [v Hv].
  { fold e. intros m Hm. destruct (Z_le_gt_dec e 5) as [Hle|Hgt].
    - assert (IZR (2047 * 2 ^ (5 - e)) * bpow e = 65504) as Ek.
      { rewrite IZR_shift by done. rewrite (bpow_IZR 5) by lia.
        change (2 ^ 5)%Z with 32%Z. lra. }
      assert (m ≤ 2047 * 2 ^ (5 - e))%Z as Hm'.
      { apply (proj2 Hm). apply scaled_le. lra. }
      apply IZR_le in Hm'. pose proof (bpow_pos e).
      apply Rmult_le_compat_r with (r := bpow e) in Hm'; lra.
    - destruct He as [_ He]. specialize (He ltac:(unfold emin; lia)).
      pose proof (bpow_le 16 (e + 11 - 1) ltac:(lia)). lra. }
  fold e in Hv. cbn [IEEE.cast].
  destruct (rounded_signed 11 16 ltac:(lia) ltac:(lia) _ _ _ _ _ _ Hv He ltac:(lra)
              (SF2R_finite sx mx ex)) as (H1 & H2 & _).
  done.
Qed.

Lemma single_half (x : spec_float) :
  IEEE.finite32 x → Rabs (IEEE.SF2R x) <= 65504 →
  IEEE.finite32 (IEEE.cast 24 128 (IEEE.cast 11 16 x)) ∧
  Rabs (IEEE.SF2R (IEEE.cast 24 128 (IEEE.cast 11 16 x)) - IEEE.SF2R x)
  <= u16 * Rabs (IEEE.SF2R x) + eta16.
Proof.
  intros Hx Hr. destruct (half_rounding x Hx Hr) as [Hh He].
  destruct (cast_widen 11 16 24 128 ltac:(lia) ltac:(lia) ltac:(lia) ltac:(done) ltac:(lia)
              _ Hh) as (H1 & H2 & _).
  split; [exact H1|]. by rewrite H2.
Qed.

(** [SpecFloat] at the parameters of float32, float16 and binary64 meets
    the accuracy laws. *)
Lemma ieee_accurate : Accurate IEEE.ops IEEE.model.
Proof.
  split.
  - apply single_of_Z.
  - apply single_add.
  - apply single_sub.
  - apply single_mul.
  - apply single_double.
  - apply single_div.
  - intros x Hx. apply (SFeqb_zero 24 128 x Hx).
  - apply (minimum_finite 24 128).
  - apply (maximum_finite 24 128).
  - apply (trunc_finite 24 128).
  - apply single_to_py.
  - apply single_half.
Qed.

End Single.

(** ** The round trip in IEEE-754 arithmetic *)



(** * More on the downsampler: when it returns, what it records, how calls compose *)

Section DownsampleMore.
Context {A World Generator : Type}.
Variable seeded : N → Generator.
Variable os_entropy : World → N * World.
Variable choice : Generator → nat → nat → list nat.

Local Abbreviation downsample_points := (Downsample.downsample_points seeded os_entropy choice).

(** The array handed back by the sampling branch, with all of its metadata. *)
Lemma downsample_sampling_run {F : Type} {num : NumOps F}
    (points : ndarray A) (tier : string) (target n : Z) (rest : list Z) (seed : N) (w : World) :
  Downsample.choice_spec choice →
  shape points = n :: rest → n = Z.of_nat (length (rows points)) →
  negb (ndim points =? 2) || (shape_at points 1 <? 3) = false →
  Downsample.tier_map !! tier = Some target → target < n →
  ∃ (idx : list nat) (picked : list (list A)),
    downsample_points points tier seed w
    = (ret (NdArray (target :: rest) picked,
            {[ "method" := PStr "random";
               "target_tier" := PStr tier;
               "target_count" := PInt target;
               "original_count" := PInt n;
               "final_count" := PInt target;
               "reduction_ratio" := PFloat (py_div (py_of_Z target) (py_of_Z n));
               "within_spec" := PBool (py_leb (py_of_Z 0)
                                  (py_mul (py_of_Q (1 # 100)) (py_of_Z target)));
               "tolerance_pct" := PFloat (py_of_Q 1) ]} : pydict F), w) ∧
    StronglySorted lt idx ∧
    mapM (λ i, rows points !! i) idx = Some picked ∧
    Z.of_nat (length picked) = target ∧
    sublist picked (rows points).
Proof.
  intros Hchoice Hshape Hn Hval Htier Hlt.
  assert (0 ≤ target) as Hpos by (apply tier_map_cases in Htier as [[_ ->]|[_ ->]]; lia).
  assert (shape_at points 0 = n) as Hcount by (unfold shape_at; by rewrite Hshape).
  set (raw := choice (seeded seed) (Z.to_nat n) (Z.to_nat target)).
  destruct (Hchoice (seeded seed) (Z.to_nat n) (Z.to_nat target)) as (Hlen & Hnd & Hin); [lia|].
  fold raw in Hlen, Hnd, Hin.
  set (idx := merge_sort le raw).
  assert (idx ≡ₚ raw) as Hperm by apply merge_sort_Permutation.
  assert (StronglySorted lt idx) as Hsorted.
  { apply sorted_nodup_strict.
    - apply (StronglySorted_merge_sort le).
    - by rewrite Hperm. }
  assert (Forall (λ i, (i < length (rows points))%nat) idx) as Hbound.
  { rewrite Hperm. eapply Forall_impl; [exact Hin|]. intros i Hi. simpl in Hi. lia. }
  assert (length idx = Z.to_nat target) as Hidx by (by rewrite Hperm).
  destruct (take_rows_sorted points idx Hsorted Hbound) as (picked & Htake & Hmap & Hplen & Hsub).
  exists idx, picked. split; [|split_and!; try done; lia].
  unfold Downsample.downsample_points. rewrite Htier, Hval, Hcount.
  destruct (n <=? target) eqn:Hle; [apply Z.leb_le in Hle; lia|].
  unfold Downsample.default_rng. fold raw. fold idx. rewrite Htake.
  unfold bind, ret, shape_at. rewrite Hshape. simpl.
  rewrite Hidx, Z2Nat.id, Z.sub_diag by done. reflexivity.
Qed.

(** The branch without sampling, with all of its metadata. *)
Lemma downsample_identity_run {F : Type} {num : NumOps F}
    (points : ndarray A) (tier : string) (target : Z) (seed : N) (w : World) :
  negb (ndim points =? 2) || (shape_at points 1 <? 3) = false →
  Downsample.tier_map !! tier = Some target → shape_at points 0 ≤ target →
  downsample_points points tier seed w
  = (ret (points,
          {[ "method" := PStr "none";
             "target_tier" := PStr tier;
             "target_count" := PInt target;
             "original_count" := PInt (shape_at points 0);
             "final_count" := PInt (shape_at points 0);
             "reduction_ratio" := PFloat (py_of_Q 1);
             "within_spec" := PBool true;
             "reason" := PStr "original_count <= target_count" ]} : pydict F), w).
Proof.
  intros Hval Htier Hle. unfold Downsample.downsample_points. rewrite Htier, Hval.
  apply Z.leb_le in Hle. by rewrite Hle.
Qed.

Lemma validation_fails (points : ndarray A) :
  ndim points ≠ 2 ∨ shape_at points 1 < 3 ↔
  negb (ndim points =? 2) || (shape_at points 1 <? 3) = true.
Proof.
  rewrite orb_true_iff, negb_true_iff, Z.eqb_neq, Z.ltb_lt. done.
Qed.

Lemma validation_passes (points : ndarray A) :
  ndim points = 2 ∧ 3 ≤ shape_at points 1 ↔
  negb (ndim points =? 2) || (shape_at points 1 <? 3) = false.
Proof.
  rewrite orb_false_iff, negb_false_iff, Z.eqb_eq, Z.ltb_ge. done.
Qed.

(** The call returns exactly on a recognized tier and a two-dimensional array
    of at least three columns; in every other case it raises [ValueError],
    the tier being looked at first. *)
Theorem downsample_returns_iff {F : Type} {num : NumOps F}
    (points : ndarray A) (tier : string) (seed : N) (w : World) :
  Downsample.choice_spec choice → well_formed points →
  ((∃ (out : ndarray A) (md : pydict F) (w' : World),
       downsample_points points tier seed w = (ret (out, md), w')) ↔
   is_Some (Downsample.tier_map !! tier) ∧ ndim points = 2 ∧ 3 ≤ shape_at points 1) ∧
  (Downsample.tier_map !! tier = None →
   Downsample.downsample_points (F := F) seeded os_entropy choice points tier seed w = (raise (Downsample.invalid_tier tier), w)) ∧
  (is_Some (Downsample.tier_map !! tier) → ndim points ≠ 2 ∨ shape_at points 1 < 3 →
   Downsample.downsample_points (F := F) seeded os_entropy choice points tier seed w
   = (raise (ValueError ("Points must be (N, 3+) array. Got shape "
                         +:+ fmt_shape (shape points))), w)).
Proof.
  intros Hchoice Hwf. split_and!.
  - split.
    + intros (out & md & w' & Hrun). unfold Downsample.downsample_points in Hrun.
      destruct (Downsample.tier_map !! tier) as [target|] eqn:Htier; [|done].
      split; [done|]. apply validation_passes.
      destruct (negb (ndim points =? 2) || (shape_at points 1 <? 3)); done.
    + intros ([target Htier] & Hval%validation_passes).
      destruct (Z_le_gt_dec (shape_at points 0) target) as [Hle|Hgt].
      * eexists _, _, _. by apply downsample_identity_run.
      * unfold well_formed in Hwf. destruct (shape points) as [|n rest] eqn:Hshape; [done|].
        destruct Hwf as [Hn _].
        assert (shape_at points 0 = n) as Hcount by (unfold shape_at; by rewrite Hshape).
        destruct (downsample_sampling_run (F := F) points tier target n rest seed w)
          as (idx & picked & Hrun & _); try done; [lia|].
        eexists _, _, _. exact Hrun.
  - intros Htier. unfold Downsample.downsample_points. by rewrite Htier.
  - intros [target Htier] Hval%validation_fails.
    unfold Downsample.downsample_points. by rewrite Htier, Hval.
Qed.

(** The size of what a successful call returns. *)
Lemma downsample_result_size {F : Type} {num : NumOps F}
    (points out : ndarray A) (md : pydict F) (tier : string) (n wd : Z)
    (seed : N) (w w' : World) :
  Downsample.choice_spec choice →
  is_cloud points n wd → 3 ≤ wd →
  downsample_points points tier seed w = (ret (out, md), w') →
  ∃ target : Z,
    Downsample.tier_map !! tier = Some target ∧
    shape out = [Z.min n target; wd] ∧
    md !! "final_count" = Some (PInt (Z.min n target)).
Proof.
  intros Hchoice (Hshape & Hn & Hrows) Hwd Hrun.
  destruct (cloud_passes_validation points n wd Hshape Hwd) as [Hval Hcount].
  destruct (Downsample.tier_map !! tier) as [target|] eqn:Htier.
  2:{ unfold Downsample.downsample_points in Hrun. by rewrite Htier in Hrun. }
  exists target. split; [done|].
  destruct (Z.leb_spec n target) as [Hle|Hgt].
  - rewrite (downsample_identity_run points tier target seed w Hval Htier) in Hrun by lia.
    injection Hrun as <- <- <-. rewrite Hcount, Z.min_l by done. by split.
  - destruct (downsample_sampling_run (F := F) points tier target n [wd] seed w)
      as (idx & picked & Hrun' & _); try done.
    rewrite Hrun' in Hrun. injection Hrun as <- <- <-. rewrite Z.min_r by lia. by split.
Qed.

(** What the metadata of a successful call records: the tier and its count,
    which is the count [get_target_count] gives, the number of points that
    came in and the number that went out, which is the smaller of the input
    size and the target, and the method, "random" exactly when points were
    dropped. *)
Theorem downsample_metadata_counts {F : Type} {num : NumOps F}
    (points out : ndarray A) (md : pydict F) (tier : string) (n wd : Z)
    (seed : N) (w w' : World) :
  Downsample.choice_spec choice →
  is_cloud points n wd → 3 ≤ wd →
  downsample_points points tier seed w = (ret (out, md), w') →
  ∃ target : Z,
    Downsample.get_target_count tier = ret target ∧
    md !! "target_tier" = Some (PStr tier) ∧
    md !! "target_count" = Some (PInt target) ∧
    md !! "original_count" = Some (PInt n) ∧
    md !! "final_count" = Some (PInt (Z.min n target)) ∧
    is_cloud out (Z.min n target) wd ∧
    md !! "method" = Some (PStr (if n <=? target then "none" else "random")).
Proof.
  intros Hchoice Hcloud Hwd Hrun. pose proof Hcloud as (Hshape & Hn & Hrows).
  destruct (cloud_passes_validation points n wd Hshape Hwd) as [Hval Hcount].
  destruct (Downsample.tier_map !! tier) as [target|] eqn:Htier.
  2:{ unfold Downsample.downsample_points in Hrun. by rewrite Htier in Hrun. }
  exists target. unfold Downsample.get_target_count. rewrite Htier. split; [done|].
  destruct (Z.leb_spec n target) as [Hle|Hgt].
  - rewrite (downsample_identity_run points tier target seed w Hval Htier) in Hrun by lia.
    injection Hrun as <- <- <-. rewrite Hcount, Z.min_l by done.
    split_and!; done.
  - destruct (downsample_sampling_run (F := F) points tier target n [wd] seed w)
      as (idx & picked & Hrun' & _ & _ & Hlen & Hsub); try done.
    rewrite Hrun' in Hrun. injection Hrun as <- <- <-. rewrite Z.min_r by lia.
    assert (is_cloud (NdArray [target; wd] picked) target wd) as Hout.
    { split; [done|]. split; [done|]. cbn [rows].
      eapply Forall_forall. intros r Hr. rewrite Forall_forall in Hrows. apply Hrows.
      by eapply elem_of_sublist. }
    split_and!; done.
Qed.

(** Downsampling what a call has returned changes nothing: the second call,
    with any seed, hands the array back as it is, with method "none". *)
Theorem downsample_idempotent {F : Type} {num : NumOps F}
    (points out : ndarray A) (md : pydict F) (tier : string) (n wd : Z)
    (seed seed' : N) (w w' w'' : World) :
  Downsample.choice_spec choice →
  is_cloud points n wd → 3 ≤ wd →
  downsample_points points tier seed w = (ret (out, md), w') →
  ∃ md' : pydict F,
    downsample_points out tier seed' w'' = (ret (out, md'), w'') ∧
    md' !! "method" = Some (PStr "none") ∧
    md' !! "final_count" = md !! "final_count".
Proof.
  intros Hchoice Hcloud Hwd Hrun.
  destruct (downsample_result_size points out md tier n wd seed w w' Hchoice Hcloud Hwd Hrun)
    as (target & Htier & Hshape & Hfinal).
  destruct (cloud_passes_validation out (Z.min n target) wd Hshape Hwd) as [Hval Hcount].
  eexists. split.
  - apply downsample_identity_run; [done|done|lia].
  - rewrite Hcount, Hfinal. split; done.
Qed.

(** Downsampling to the 100k tier and then to the 50k tier leaves 50000
    points, still a subsequence of the original cloud in its order. *)
Theorem downsample_cascade {F : Type} {num : NumOps F}
    (points : ndarray A) (n wd : Z) (seed seed' : N) (w : World) :
  Downsample.choice_spec choice →
  is_cloud points n wd → 3 ≤ wd → 100000 < n →
  ∃ (out1 out2 : ndarray A) (md1 md2 : pydict F),
    downsample_points points "100k" seed w = (ret (out1, md1), w) ∧
    downsample_points out1 "50k" seed' w = (ret (out2, md2), w) ∧
    is_cloud out2 50000 wd ∧
    sublist (rows out2) (rows points) ∧
    md2 !! "original_count" = Some (PInt 100000) ∧
    md2 !! "final_count" = Some (PInt 50000).
Proof.
  intros Hchoice (Hshape & Hn & Hrows) Hwd Hlt.
  destruct (cloud_passes_validation points n wd Hshape Hwd) as [Hval _].
  destruct (downsample_sampling_run (F := F) points "100k" 100000 n [wd] seed w)
    as (idx1 & picked1 & Hrun1 & _ & _ & Hlen1 & Hsub1); try done.
  set (out1 := NdArray [100000; wd] picked1) in *.
  destruct (cloud_passes_validation out1 100000 wd eq_refl Hwd) as [Hval1 _].
  destruct (downsample_sampling_run (F := F) out1 "50k" 50000 100000 [wd] seed' w)
    as (idx2 & picked2 & Hrun2 & _ & _ & Hlen2 & Hsub2); try done.
  exists out1, (NdArray [50000; wd] picked2). eexists _, _.
  split; [exact Hrun1|]. split; [exact Hrun2|].
  assert (sublist picked2 (rows points)) as Hsub by (by etrans).
  assert (is_cloud (NdArray [50000; wd] picked2) 50000 wd) as Hout.
  { split; [done|]. split; [done|]. cbn [rows].
    eapply Forall_forall. intros r Hr. rewrite Forall_forall in Hrows. apply Hrows.
    by eapply elem_of_sublist. }
  split_and!; done.
Qed.

End DownsampleMore.

(** *** The statements at concrete inputs *)

Lemma downsample_returns_iff_witness :
  ((∃ (out : ndarray Z) (md : pydict spec_float) (w' : N),
       Downsample.downsample_points (num := IEEE.ops)
         Examples.toy_seeded Examples.toy_entropy Examples.toy_choice
         (Examples.ramp 2) "75k" 7%N 0%N = (ret (out, md), w')) ↔
   is_Some (Downsample.tier_map !! "75k") ∧ ndim (Examples.ramp 2) = 2
   ∧ 3 ≤ shape_at (Examples.ramp 2) 1) ∧
  (Downsample.tier_map !! "75k" = None →
   Downsample.downsample_points (F := spec_float) (num := IEEE.ops)
     Examples.toy_seeded Examples.toy_entropy Examples.toy_choice
     (Examples.ramp 2) "75k" 7%N 0%N = (raise (Downsample.invalid_tier "75k"), 0%N)) ∧
  (is_Some (Downsample.tier_map !! "75k") →
   ndim (Examples.ramp 2) ≠ 2 ∨ shape_at (Examples.ramp 2) 1 < 3 →
   Downsample.downsample_points (F := spec_float) (num := IEEE.ops)
     Examples.toy_seeded Examples.toy_entropy Examples.toy_choice
     (Examples.ramp 2) "75k" 7%N 0%N
   = (raise (ValueError ("Points must be (N, 3+) array. Got shape "
                         +:+ fmt_shape (shape (Examples.ramp 2)))), 0%N)).
Proof.
  apply (downsample_returns_iff Examples.toy_seeded Examples.toy_entropy Examples.toy_choice).
  - exact toy_choice_spec.
  - simpl. split; [reflexivity|]. repeat constructor.
Defined.

Lemma downsample_metadata_counts_witness :
  ∃ target : Z,
    Downsample.get_target_count "50k" = ret target ∧
    ({[ "method" := PStr "none";
        "target_tier" := PStr "50k";
        "target_count" := PInt 50000;
        "original_count" := PInt 2;
        "final_count" := PInt 2;
        "reduction_ratio" := PFloat (IEEE.of_Q 1);
        "within_spec" := PBool true;
        "reason" := PStr "original_count <= target_count" ]} : pydict spec_float)
      !! "target_tier" = Some (PStr "50k") ∧
    ({[ "method" := PStr "none";
        "target_tier" := PStr "50k";
        "target_count" := PInt 50000;
        "original_count" := PInt 2;
        "final_count" := PInt 2;
        "reduction_ratio" := PFloat (IEEE.of_Q 1);
        "within_spec" := PBool true;
        "reason" := PStr "original_count <= target_count" ]} : pydict spec_float)
      !! "target_count" = Some (PInt target) ∧
    ({[ "method" := PStr "none";
        "target_tier" := PStr "50k";
        "target_count" := PInt 50000;
        "original_count" := PInt 2;
        "final_count" := PInt 2;
        "reduction_ratio" := PFloat (IEEE.of_Q 1);
        "within_spec" := PBool true;
        "reason" := PStr "original_count <= target_count" ]} : pydict spec_float)
      !! "original_count" = Some (PInt 2) ∧
    ({[ "method" := PStr "none";
        "target_tier" := PStr "50k";
        "target_count" := PInt 50000;
        "original_count" := PInt 2;
        "final_count" := PInt 2;
        "reduction_ratio" := PFloat (IEEE.of_Q 1);
        "within_spec" := PBool true;
        "reason" := PStr "original_count <= target_count" ]} : pydict spec_float)
      !! "final_count" = Some (PInt (Z.min 2 target)) ∧
    is_cloud (Examples.ramp 2) (Z.min 2 target) 3 ∧
    ({[ "method" := PStr "none";
        "target_tier" := PStr "50k";
        "target_count" := PInt 50000;
        "original_count" := PInt 2;
        "final_count" := PInt 2;
        "reduction_ratio" := PFloat (IEEE.of_Q 1);
        "within_spec" := PBool true;
        "reason" := PStr "original_count <= target_count" ]} : pydict spec_float)
      !! "method" = Some (PStr (if 2 <=? target then "none" else "random")).
Proof.
  apply (downsample_metadata_counts Examples.toy_seeded Examples.toy_entropy Examples.toy_choice
           (Examples.ramp 2) (Examples.ramp 2) _ "50k" 2 3 7%N 0%N 0%N).
  - exact toy_choice_spec.
  - exact (ramp_is_cloud 2).
  - lia.
  - reflexivity.
Defined.

Lemma downsample_idempotent_witness :
  ∃ md' : pydict spec_float,
    Downsample.downsample_points (num := IEEE.ops)
      Examples.toy_seeded Examples.toy_entropy Examples.toy_choice
      (Examples.ramp 2) "50k" 11%N 5%N = (ret (Examples.ramp 2, md'), 5%N) ∧
    md' !! "method" = Some (PStr "none") ∧
    md' !! "final_count"
    = ({[ "method" := PStr "none";
          "target_tier" := PStr "50k";
          "target_count" := PInt 50000;
          "original_count" := PInt 2;
          "final_count" := PInt 2;
          "reduction_ratio" := PFloat (IEEE.of_Q 1);
          "within_spec" := PBool true;
          "reason" := PStr "original_count <= target_count" ]} : pydict spec_float)
      !! "final_count".
Proof.
  apply (downsample_idempotent Examples.toy_seeded Examples.toy_entropy Examples.toy_choice
           (Examples.ramp 2) (Examples.ramp 2) _ "50k" 2 3 7%N 11%N 0%N 0%N 5%N).
  - exact toy_choice_spec.
  - exact (ramp_is_cloud 2).
  - lia.
  - reflexivity.
Defined.

Lemma downsample_cascade_witness :
  ∃ (out1 out2 : ndarray Z) (md1 md2 : pydict spec_float),
    Downsample.downsample_points (num := IEEE.ops)
      Examples.toy_seeded Examples.toy_entropy Examples.toy_choice
      (Examples.ramp (Z.to_nat 100001)) "100k" 42%N 0%N = (ret (out1, md1), 0%N) ∧
    Downsample.downsample_points (num := IEEE.ops)
      Examples.toy_seeded Examples.toy_entropy Examples.toy_choice
      out1 "50k" 42%N 0%N = (ret (out2, md2), 0%N) ∧
    is_cloud out2 50000 3 ∧
    sublist (rows out2) (rows (Examples.ramp (Z.to_nat 100001))) ∧
    md2 !! "original_count" = Some (PInt 100000) ∧
    md2 !! "final_count" = Some (PInt 50000).
Proof.
  apply (downsample_cascade Examples.toy_seeded Examples.toy_entropy Examples.toy_choice
           (Examples.ramp (Z.to_nat 100001)) 100001 3 42%N 42%N 0%N).
  - exact toy_choice_spec.
  - exact (ramp_is_cloud (Z.to_nat 100001)).
  - lia.
  - lia.
Defined.

(** * More on the quantizer *)

(** ** Rounding, overflow included *)
Section RoundingTotal.
Variables prec emax : Z.
Hypothesis Hprec : 0 < prec.
Hypothesis Hemax : prec < emax.

Local Abbreviation fexp := (SpecFloat.fexp prec emax).
Local Abbreviation emin := (SpecFloat.emin prec emax).

(** Every outcome of a rounding: zero, a canonical finite number, or, from
    the overflow threshold on, the infinity of the sign. *)
Lemma binary_round_aux_total (sx : bool) (mx ex : Z) (lx : location) (x : R) :
  0 ≤ mx → located (shr_record_of_loc mx lx) (x / bpow ex) →
  ex ≤ fexp (Zdigits2 mx + ex) →
  ∃ m1 : Z, 0 ≤ m1 ∧ nearest m1 (x / bpow (fexp (Zdigits2 mx + ex))) ∧
    ((m1 = 0 ∧ binary_round_aux prec emax sx mx ex lx = S754_zero sx) ∨
     (0 < m1 ∧ (IZR m1 * bpow (fexp (Zdigits2 mx + ex)) < bpow emax)%R ∧
      ∃ m e, binary_round_aux prec emax sx mx ex lx = S754_finite sx m e ∧
        bounded prec emax m e = true ∧
        (IZR (Z.pos m) * bpow e = IZR m1 * bpow (fexp (Zdigits2 mx + ex)))%R) ∨
     (0 < m1 ∧ (bpow emax <= IZR m1 * bpow (fexp (Zdigits2 mx + ex)))%R ∧
      binary_round_aux prec emax sx mx ex lx = S754_infinity sx)).
Proof using Hprec Hemax.
  intros Hmx Hloc Hex.
  destruct (shr_fexp_located prec emax mx ex lx x Hmx Hloc Hex) as (mrs & Hshr & Hloc' & Hm).
  destruct (shifted_mantissa prec emax Hprec mx ex Hmx Hex) as [[HA1 HA2] HB].
  rewrite <- Hm in HA1, HA2, HB.
  destruct (round_nearest mrs _ Hloc') as [Hnear Hm1].
  pose proof (emin_bounds prec emax Hprec Hemax) as [Hemin0 Hemin1].
  assert (emin ≤ fexp (Zdigits2 mx + ex)) as Hee by (unfold SpecFloat.fexp; lia).
  unfold binary_round_aux. rewrite Hshr.
  generalize dependent (fexp (Zdigits2 mx + ex)). intros e' _ Hshr Hloc' _ HB Hnear Hee.
  generalize dependent (round_nearest_even (shr_m mrs) (loc_of_shr_record mrs)).
  intros m1 Hnear Hm1.
  exists m1. split; [lia|]. split; [done|].
  destruct (Z.eq_dec m1 0) as [Hz|Hnz].
  - left. split; [done|]. rewrite Hz. unfold shr_fexp, shr. cbn [Zdigits2].
    destruct (fexp (0 + e') - e') eqn:Hn.
    + by cbn.
    + exfalso. unfold SpecFloat.fexp in Hn. lia.
    + by cbn.
  - right. assert (0 < m1) as Hpos by lia. pose proof (bpow_pos e') as Hbe.
    destruct (Z_lt_le_dec m1 (2 ^ prec)) as [Hlt|Hge].
    + pose proof (Zdigits2_le m1 prec Hpos Hlt ltac:(lia)) as Hd1.
      pose proof (Zdigits2_pos m1 Hpos) as Hd0.
      assert (fexp (Zdigits2 m1 + e') = e') as Hcan.
      { destruct (Z.eq_dec e' emin) as [He|He].
        - unfold SpecFloat.fexp. lia.
        - rewrite (Zdigits2_unique m1 prec); [unfold SpecFloat.fexp; lia| |done].
          split; [|done]. etrans; [apply HB; lia|lia]. }
      unfold shr_fexp, shr. rewrite Hcan, Z.sub_diag. cbn [shr_record_of_loc shr_m].
      destruct (Rlt_le_dec (IZR m1 * bpow e') (bpow emax)) as [Hov|Hov].
      * left. split; [done|]. split; [done|].
        assert (e' ≤ emax - prec) as Hle.
        { destruct (Z.eq_dec e' emin) as [He|He]; [lia|].
          assert (prec - 1 + e' < emax); [|lia]. apply bpow_lt_inv.
          eapply Rle_lt_trans; [|exact Hov]. rewrite bpow_add.
          apply Rmult_le_compat_r; [lra|].
          apply bpow_IZR_le; [lia|]. etrans; [apply HB; lia|lia]. }
        destruct m1 as [|p|p]; [lia| |lia].
        exists p, e'. rewrite (proj2 (Z.leb_le _ _) Hle). split; [done|]. split; [|done].
        unfold bounded, canonical_mantissa. apply andb_true_iff. split.
        -- apply Z.eqb_eq. exact Hcan.
        -- by apply Z.leb_le.
      * right. split; [done|]. split; [done|].
        assert (emax - prec < e') as Hgt.
        { assert (emax < prec + e'); [|lia]. apply bpow_lt_inv.
          eapply Rle_lt_trans; [exact Hov|]. rewrite bpow_add, (bpow_IZR prec) by lia.
          apply Rmult_lt_compat_r; [done|]. by apply IZR_lt. }
        destruct m1 as [|p|p]; [lia| |lia].
        by rewrite (proj2 (Z.leb_gt _ _) Hgt).
    + assert (m1 = 2 ^ prec) as -> by lia.
      assert (2 ^ prec = 2 * 2 ^ (prec - 1)) as Hhalf.
      { rewrite <- Z.pow_succ_r by lia. f_equal. lia. }
      assert (0 < 2 ^ (prec - 1)) as Hpp by (apply Z.pow_pos_nonneg; lia).
      assert (Zdigits2 (2 ^ prec) = prec + 1) as Hd.
      { apply Zdigits2_unique; [|done]. replace (prec + 1 - 1) with prec by lia.
        split; [done|]. rewrite Z.pow_add_r by lia. lia. }
      assert (fexp (prec + 1 + e') = e' + 1) as Hf by (unfold SpecFloat.fexp; lia).
      unfold shr_fexp, shr. rewrite Hd, Hf.
      replace (e' + 1 - e') with 1 by lia. cbn [SpecFloat.iter_pos shr_record_of_loc].
      destruct (shr_1_located (Build_shr_record (2 ^ prec) false false) (IZR (2 ^ prec)))
        as (_ & _ & Hs); [cbn [shr_m]; lia|unfold located; cbn; lra|].
      cbn [shr_m] in Hs. rewrite Hs.
      replace (2 ^ prec / 2) with (2 ^ (prec - 1))
        by (rewrite Hhalf, Z.mul_comm, Z.div_mul; lia).
      assert (IZR (2 ^ prec) * bpow e' = bpow (prec + e'))%R as Hval
        by (by rewrite bpow_add, (bpow_IZR prec) by lia).
      destruct (Rlt_le_dec (IZR (2 ^ prec) * bpow e') (bpow emax)) as [Hov|Hov].
      * left. split; [done|]. split; [done|].
        assert (prec + e' < emax) as Hle by (apply bpow_lt_inv; by rewrite <- Hval).
        destruct (2 ^ (prec - 1)) as [|p|p] eqn:Hp; [lia| |lia].
        assert (e' + 1 ≤ emax - prec) as Hle' by lia.
        exists p, (e' + 1). rewrite (proj2 (Z.leb_le _ _) Hle').
        split; [done|]. split.
        -- unfold bounded, canonical_mantissa. apply andb_true_iff. split.
           ++ apply Z.eqb_eq. change (Z.pos (digits2_pos p)) with (Zdigits2 (Z.pos p)).
              rewrite (Zdigits2_unique (Z.pos p) prec); [unfold SpecFloat.fexp; lia| |lia].
              rewrite <- Hp. split; [done|]. rewrite Hhalf. lia.
           ++ apply Z.leb_le. lia.
        -- rewrite Hhalf, mult_IZR, bpow_succ. lra.
      * right. split; [done|]. split; [done|].
        assert (emax ≤ prec + e') as Hge'.
        { destruct (Z_lt_le_dec (prec + e') emax) as [Hc|]; [|done].
          apply bpow_lt in Hc. lra. }
        destruct (2 ^ (prec - 1)) as [|p|p] eqn:Hp; [lia| |lia].
        assert (emax - prec < e' + 1) as Hgt by lia.
        by rewrite (proj2 (Z.leb_gt _ _) Hgt).
Qed.

Lemma binary_round_total (sx : bool) (mx : positive) (ex : Z) :
  ∃ m1 : Z, 0 ≤ m1 ∧
    nearest m1 (IZR (Z.pos mx) * bpow ex / bpow (fexp (Zdigits2 (Z.pos mx) + ex))) ∧
    ((m1 = 0 ∧ binary_round prec emax sx mx ex = S754_zero sx) ∨
     (0 < m1 ∧
      (IZR m1 * bpow (fexp (Zdigits2 (Z.pos mx) + ex)) < bpow emax)%R ∧
      ∃ m e, binary_round prec emax sx mx ex = S754_finite sx m e ∧
        bounded prec emax m e = true ∧
        (IZR (Z.pos m) * bpow e = IZR m1 * bpow (fexp (Zdigits2 (Z.pos mx) + ex)))%R) ∨
     (0 < m1 ∧
      (bpow emax <= IZR m1 * bpow (fexp (Zdigits2 (Z.pos mx) + ex)))%R ∧
      binary_round prec emax sx mx ex = S754_infinity sx)).
Proof using Hprec Hemax.
  unfold binary_round.
  destruct (shl_align_spec mx ex (fexp (Z.pos (digits2_pos mx) + ex))) as [He Hm].
  destruct (shl_align mx ex (fexp (Z.pos (digits2_pos mx) + ex))) as [mz ez].
  cbn [fst snd] in He, Hm.
  change (Z.pos (digits2_pos mx)) with (Zdigits2 (Z.pos mx)) in *.
  assert (Zdigits2 (Z.pos mz) + ez = Zdigits2 (Z.pos mx) + ex) as Hd.
  { rewrite Hm, Zdigits2_shift by lia. lia. }
  assert (IZR (Z.pos mz) * bpow ez = IZR (Z.pos mx) * bpow ex)%R as Hv.
  { rewrite Hm, He. apply IZR_shift. lia. }
  rewrite <- Hd, <- Hv. rewrite <- Hd in He. apply binary_round_aux_total; [lia| |lia].
  apply located_exactly. pose proof (bpow_pos ez). field. lra.
Qed.

(** A rounding gives zero, a canonical finite number or an infinity, of the
    sign that went in; it gives no zero to a number that has a binary digit
    above the least exponent. *)
Lemma binary_round_shape (sx : bool) (mx : positive) (ex : Z) :
  (binary_round prec emax sx mx ex = S754_zero sx ∧ Zdigits2 (Z.pos mx) + ex ≤ emin) ∨
  (∃ m e, binary_round prec emax sx mx ex = S754_finite sx m e ∧
     bounded prec emax m e = true) ∨
  binary_round prec emax sx mx ex = S754_infinity sx.
Proof using Hprec Hemax.
  destruct (binary_round_total sx mx ex)
    as (m1 & _ & Hnear & [[-> Hr]|[(_ & _ & m & e & Hr & Hb & _)|(_ & _ & Hr)]]).
  - left. split; [done|].
    destruct (Z_le_gt_dec (Zdigits2 (Z.pos mx) + ex) emin) as [|Hgt]; [done|]. exfalso.
    destruct Hnear as [Hn _]. apply Rabs_le_inv in Hn.
    pose proof (value_bounds (Z.pos mx) ex ltac:(lia)) as [Hlo _].
    pose proof (Zdigits2_pos (Z.pos mx) ltac:(lia)) as Hd.
    set (e' := fexp (Zdigits2 (Z.pos mx) + ex)) in *.
    assert (e' ≤ Zdigits2 (Z.pos mx) - 1 + ex) as He' by (unfold e', SpecFloat.fexp; lia).
    pose proof (bpow_le _ _ He') as Hle. pose proof (bpow_pos e') as Hp.
    assert (1 <= IZR (Z.pos mx) * bpow ex / bpow e')%R.
    { apply Rmult_le_reg_r with (bpow e'); [done|].
      replace (IZR (Z.pos mx) * bpow ex / bpow e' * bpow e')%R
        with (IZR (Z.pos mx) * bpow ex)%R by (field; lra).
      lra. }
    lra.
  - right. left. eauto.
  - by right; right.
Qed.

End RoundingTotal.

(** ** The modes of the quantizer at their edges *)

Section QuantizeEdges.
Context {F : Type} {num : NumOps F}.

(** Mode "off" and back is the identity on every float32 array, empty or
    not and whatever it holds; the envelope says float32 and 16 bytes. *)
Theorem quantize_off_roundtrip (points : ndarray F) :
  ∃ md : pydict F,
    Quantize.quantize_points (Quantize.FloatArray Quantize.float32 points) "off"
    = ret (Quantize.FloatArray Quantize.float32 points, md) ∧
    Quantize.dequantize_points (Quantize.FloatArray Quantize.float32 points) md = ret points ∧
    md !! "dtype" = Some (PStr "float32") ∧
    md !! "bytes_per_point" = Some (PInt 16).
Proof. eexists. split; [reflexivity|]. split_and!; reflexivity. Qed.


Lemma int16_refuses_empty (points : ndarray F) (w : Z) :
  is_cloud points 0 w → 3 ≤ w →
  Quantize.quantize_points (Quantize.FloatArray Quantize.float32 points) "int16"
  = raise (ValueError "zero-size array to reduction operation minimum which has no identity").
Proof.
  intros (Hshape & Hn & _) Hw.
  assert (rows points = []) as Hrows by (destruct (rows points); [done|simpl in Hn; lia]).
  rewrite quantize_points_int16. unfold Quantize.quantize_int16, Quantize.shape1.
  cbn [Quantize.array_shape Quantize.astype_float32]. rewrite Hshape.
  cbn [lookup list_lookup bind ret]. apply Z.ltb_ge in Hw. rewrite Hw.
  cbn [bind ret]. rewrite Hrows. by destruct (3 <? w).
Qed.

(** A cloud without points: the int16 mode refuses it, for it has no
    bounding box, while the float16 mode hands back an empty array. *)
Theorem quantize_empty_cloud (points : ndarray F) (w : Z) :
  is_cloud points 0 w → 3 ≤ w →
  Quantize.quantize_points (Quantize.FloatArray Quantize.float32 points) "int16"
  = raise (ValueError "zero-size array to reduction operation minimum which has no identity") ∧
  ∃ md : pydict F,
    Quantize.quantize_points (Quantize.FloatArray Quantize.float32 points) "fp16"
    = ret (Quantize.FloatArray Quantize.float16 (NdArray [0; w] []), md).
Proof.
  intros (Hshape & Hn & _) Hw.
  assert (rows points = []) as Hrows by (destruct (rows points); [done|simpl in Hn; lia]).
  split.
  - rewrite quantize_points_int16. unfold Quantize.quantize_int16, Quantize.shape1.
    cbn [Quantize.array_shape Quantize.astype_float32]. rewrite Hshape.
    cbn [lookup list_lookup bind ret]. apply Z.ltb_ge in Hw. rewrite Hw.
    cbn [bind ret]. rewrite Hrows. by destruct (3 <? w).
  - rewrite quantize_points_fp16. eexists.
    unfold Quantize.quantize_fp16, Quantize.astype_float32, bind, ret, Quantize.amap.
    rewrite Hshape, Hrows. reflexivity.
Qed.

End QuantizeEdges.


Lemma quantize_empty_cloud_witness :
  Quantize.quantize_points (num := IEEE.ops)
    (Quantize.FloatArray Quantize.float32 (NdArray [0; 4] [])) "int16"
  = raise (ValueError "zero-size array to reduction operation minimum which has no identity") ∧
  ∃ md : pydict spec_float,
    Quantize.quantize_points (num := IEEE.ops)
      (Quantize.FloatArray Quantize.float32 (NdArray [0; 4] [])) "fp16"
    = ret (Quantize.FloatArray Quantize.float16 (NdArray [0; 4] []), md).
Proof.
  apply (quantize_empty_cloud (num := IEEE.ops) (NdArray [0; 4] []) 4).
  - split; [reflexivity|]. split; [reflexivity|]. constructor.
  - lia.
Defined.

(** ** float16 mode: what was stored stays as it is *)

(** A float16 number taken to float32 and back is the number it was; so is
    whatever a float32 number, or anything else, was rounded to. *)
Lemma half_single_half (x : spec_float) :
  IEEE.cast 11 16 (IEEE.cast 24 128 (IEEE.cast 11 16 x)) = IEEE.cast 11 16 x.
Proof.
  destruct x as [s|s| |s m e]; try reflexivity.
  cbn [IEEE.cast].
  destruct (binary_round_shape 11 16 ltac:(lia) ltac:(lia) s m e)
    as [[Hr _]|[(m' & e' & Hr & Hb)|Hr]]; rewrite Hr; try reflexivity.
  destruct (cast_widen 11 16 24 128 ltac:(lia) ltac:(lia) ltac:(lia) ltac:(done) ltac:(lia)
              (S754_finite s m' e') Hb) as (_ & Hv & Hs).
  destruct (Hs s m' e' eq_refl) as (m2 & e2 & Hc). rewrite Hc in *.
  cbn [IEEE.cast]. apply (binary_round_canonical 11 16); [lia|lia|exact Hb|].
  rewrite !SF2R_finite in Hv. destruct s; lra.
Qed.

(** Quantizing to float16 what was dequantized from float16 gives back the
    stored array and its envelope: the stored data is a fixed point of the
    round trip, whatever the cloud holds. *)
Theorem fp16_requantize_fixed_point (points : ndarray spec_float) :
  ∃ (q : Quantize.array spec_float) (md : pydict spec_float) (d : ndarray spec_float),
    Quantize.quantize_points (num := IEEE.ops)
      (Quantize.FloatArray Quantize.float32 points) "fp16" = ret (q, md) ∧
    Quantize.dequantize_points q md = ret d ∧
    Quantize.quantize_points (num := IEEE.ops)
      (Quantize.FloatArray Quantize.float32 d) "fp16" = ret (q, md).
Proof.
  eexists _, _, _. split; [reflexivity|]. split; [reflexivity|].
  rewrite quantize_points_fp16.
  unfold Quantize.quantize_fp16, Quantize.astype_float32, bind, ret, Quantize.amap.
  cbn [shape rows np_to_half np_to_single IEEE.ops]. do 4 f_equal.
  induction (rows points) as [|r rs IH]; [done|]. cbn [map]. f_equal; [|exact IH].
  clear IH. induction r as [|x r IH]; [done|]. cbn [map].
  f_equal; [apply half_single_half|exact IH].
Qed.

(** ** The error metric of an array against itself *)

Lemma SFsub_self (x : spec_float) :
  IEEE.finite32 x → SFsub 24 128 x x = S754_zero false.
Proof.
  destruct x as [[]|[]| |s m e]; try done. intros _.
  cbn [SFsub]. by rewrite Z.sub_diag.
Qed.

Lemma of_Z_positive (prec emax : Z) (p : positive) :
  0 < prec → prec < emax →
  (∃ m e, IEEE.of_Z prec emax (Z.pos p) = S754_finite false m e) ∨
  IEEE.of_Z prec emax (Z.pos p) = S754_infinity false.
Proof.
  intros Hprec Hemax. unfold IEEE.of_Z. cbn [binary_normalize].
  destruct (binary_round_shape prec emax Hprec Hemax false p 0)
    as [[_ Hd]|[(m & e & Hr & _)|Hr]].
  - pose proof (Zdigits2_pos (Z.pos p) ltac:(lia)). unfold emin in Hd. lia.
  - left. eauto.
  - by right.
Qed.

(** Zeros add up to zero, in whatever order. *)
Lemma fold_zeros (l : list spec_float) :
  Forall (λ x, x = S754_zero false) l →
  fold_left (SFadd 24 128) l (S754_zero false) = S754_zero false.
Proof. induction 1 as [|x l -> _ IH]; [done|]. cbn [fold_left]. exact IH. Qed.

Lemma unrolled_zeros (n : nat) (a : list spec_float) :
  (length a ≤ n)%nat → Forall (λ x, x = S754_zero false) a →
  ∃ rest : list spec_float,
    Quantize.unrolled (num := IEEE.ops)
      (S754_zero false, S754_zero false, S754_zero false, S754_zero false,
       S754_zero false, S754_zero false, S754_zero false, S754_zero false) a
    = (S754_zero false, S754_zero false, S754_zero false, S754_zero false,
       S754_zero false, S754_zero false, S754_zero false, S754_zero false, rest) ∧
    Forall (λ x, x = S754_zero false) rest.
Proof.
  revert a. induction n as [|n IH]; intros a Hn Ha.
  - destruct a; [|simpl in Hn; lia]. by exists [].
  - destruct a as [|a0 [|a1 [|a2 [|a3 [|a4 [|a5 [|a6 [|a7 a']]]]]]]];
      try (eexists; split; [reflexivity|done]).
    repeat (apply Forall_cons in Ha as [-> Ha]).
    cbn [Quantize.unrolled]. apply IH; [simpl in Hn; lia|done].
Qed.

Lemma block_sum_zeros (a : list spec_float) :
  Forall (λ x, x = S754_zero false) a →
  Quantize.block_sum (num := IEEE.ops) a = S754_zero false.
Proof.
  intros Ha. unfold Quantize.block_sum.
  destruct a as [|a0 [|a1 [|a2 [|a3 [|a4 [|a5 [|a6 [|a7 a']]]]]]]];
    try (by apply fold_zeros).
  repeat (apply Forall_cons in Ha as [-> Ha]).
  destruct (unrolled_zeros (length a') a' ltac:(done) Ha) as (rest & -> & Hrest).
  by apply fold_zeros.
Qed.

Lemma pairwise_sum_zeros (fuel : nat) (a : list spec_float) :
  Forall (λ x, x = S754_zero false) a →
  Quantize.pairwise_sum (num := IEEE.ops) fuel a = S754_zero false.
Proof.
  revert a. induction fuel as [|fuel IH]; intros a Ha; cbn [Quantize.pairwise_sum];
    [by apply block_sum_zeros|].
  destruct (128 <? length a)%nat; [|by apply block_sum_zeros].
  rewrite !IH; [done|by apply Forall_drop|by apply Forall_take].
Qed.

Lemma mean_of_zeros (l : list spec_float) :
  l ≠ [] → Forall (λ x, x = S754_zero false) l →
  Quantize.mean (num := IEEE.ops) l = S754_zero false.
Proof.
  intros Hne Hl. unfold Quantize.mean, Quantize.add_reduce.
  rewrite pairwise_sum_zeros by done.
  cbn [np_to_single py_div np_to_py py_of_Z np_add np_of_Z IEEE.ops].
  change (SFadd 24 128 (IEEE.of_Z 24 128 0) (S754_zero false)) with (S754_zero false).
  cbn [IEEE.cast].
  destruct l as [|x l]; [done|]. cbn [length]. rewrite Nat2Z.inj_succ.
  destruct (Z.succ (Z.of_nat (length l))) as [|p|p] eqn:Hp; [lia| |lia].
  by destruct (of_Z_positive 53 1024 p ltac:(lia) ltac:(lia)) as [(m & e & ->)| ->].
Qed.

(** An array of finite numbers compared with itself has no error at all:
    the three statistics are zero and it is within the tolerance. *)
Theorem quantization_error_of_identical_arrays (a : ndarray spec_float) :
  concat (rows a) ≠ [] → Forall (Forall IEEE.finite32) (rows a) →
  Quantize.compute_quantization_error (num := IEEE.ops) a a
  = ret {[ "max_error" := PFloat (S754_zero false);
           "mean_error" := PFloat (S754_zero false);
           "rmse" := PFloat (S754_zero false);
           "within_tolerance_1mm" := PBool true;
           "max_error_mm" := PFloat (S754_zero false) ]}.
Proof.
  intros Hne Hfin.
  assert (Forall IEEE.finite32 (concat (rows a))) as Hall by (by apply Forall_concat).
  assert (abs_errors (num := IEEE.ops) a a = map (λ _, S754_zero false) (concat (rows a)))
    as Herr.
  { unfold abs_errors. rewrite zip_with_diag. apply Forall_fmap_ext_1.
    eapply Forall_impl; [exact Hall|]. intros x Hx. cbn [np_abs np_sub IEEE.ops].
    by rewrite SFsub_self. }
  destruct (concat (rows a)) as [|x l] eqn:Hl; [done|]. cbn [map] in Herr.
  rewrite (compute_quantization_error_stats a a _ _ eq_refl Herr). cbn zeta.
  assert (Forall (λ x, x = S754_zero false) (map (λ _ : spec_float, S754_zero false) l))
    as Hz by (apply Forall_fmap, Forall_true; done).
  assert (fold_left (np_maximum (NumOps := IEEE.ops))
            (map (λ _ : spec_float, S754_zero false) l) (S754_zero false)
          = S754_zero false) as ->.
  { clear. induction l as [|y l IH]; [done|]. cbn [map fold_left]. exact IH. }
  rewrite mean_of_zeros; [|done|by constructor].
  rewrite mean_of_zeros; [|done|].
  - reflexivity.
  - cbn [map]. constructor; [done|].
    apply Forall_fmap. eapply Forall_impl; [exact Hz|]. by intros y ->.
Qed.

Lemma quantization_error_of_identical_arrays_witness :
  Quantize.compute_quantization_error (num := IEEE.ops)
    (NdArray [1; 3] [[IEEE.of_Z 24 128 1; IEEE.of_Z 24 128 (-7); IEEE.of_Z 24 128 0]])
    (NdArray [1; 3] [[IEEE.of_Z 24 128 1; IEEE.of_Z 24 128 (-7); IEEE.of_Z 24 128 0]])
  = ret {[ "max_error" := PFloat (S754_zero false);
           "mean_error" := PFloat (S754_zero false);
           "rmse" := PFloat (S754_zero false);
           "within_tolerance_1mm" := PBool true;
           "max_error_mm" := PFloat (S754_zero false) ]}.
Proof.
  apply quantization_error_of_identical_arrays.
  - done.
  - repeat constructor.
Defined.

(** ** int16 mode: what is stored and what comes back *)

Section Int16Shape.
Context {F : Type} {num : NumOps F}.

Lemma reduce_axis0_length (op : F → F → F) (name : string) (rs : list (list F)) (k : nat) :
  rs ≠ [] → Forall (λ r, length r = k) rs →
  ∃ l, Quantize.reduce_axis0 op name rs = ret l ∧ length l = k.
Proof.
  intros Hne Hrs. destruct rs as [|r rs]; [done|]. clear Hne.
  apply Forall_cons in Hrs as [Hr Hrs]. cbn [Quantize.reduce_axis0].
  eexists. split; [reflexivity|].
  revert r Hr. induction Hrs as [|r' rs Hr' _ IH]; intros r Hr; [done|].
  cbn [fold_left]. apply IH. rewrite length_zip_with. lia.
Qed.

Lemma bbox_divisor_length (bbox_min bbox_max : list F) :
  length (Quantize.bbox_divisor bbox_min bbox_max)
  = Nat.min (length bbox_max) (length bbox_min).
Proof.
  unfold Quantize.bbox_divisor, Quantize.replace_zero.
  by rewrite length_map, length_zip_with.
Qed.

Lemma rows_with_intensity {A : Type} (xs : list (list A)) (l : list A) (k : nat) :
  Forall (λ p, length p = k) xs →
  Forall (λ r, length r = S k) (zip_with (λ p i, p ++ [i]) xs l).
Proof.
  intros Hxs. revert l. induction Hxs as [|p xs Hp _ IH]; intros [|i l]; cbn [zip_with];
    try constructor; [|apply IH].
  rewrite length_app. simpl. lia.
Qed.

Lemma denormalized_rows {A : Type} (f : A → F * F → F) (zs : list (F * F)) (xs : list (list A)) :
  length zs = 3%nat → Forall (λ p, length p = 3%nat) xs →
  Forall (λ p, length p = 3%nat) (map (λ p, zip_with f p zs) xs).
Proof.
  intros Hzs Hxs. apply Forall_fmap. eapply Forall_impl; [exact Hxs|].
  intros p Hp. simpl in Hp |- *. rewrite length_zip_with. lia.
Qed.

Lemma length3 {A : Type} (l : list A) : length l = 3%nat → ∃ a b c, l = [a; b; c].
Proof. destruct l as [|a [|b [|c [|? ?]]]]; try done. intros _. by exists a, b, c. Qed.

(** The int16 mode on a cloud that has a point and three columns. *)
Lemma int16_mode_run (points : ndarray F) (n w : Z) :
  is_cloud points n w → 0 < n → 3 ≤ w →
  ∃ (q : Quantize.array F) (md : pydict F) (d : ndarray F),
    Quantize.quantize_points (Quantize.FloatArray Quantize.float32 points) "int16" = ret (q, md) ∧
    Quantize.array_shape q = (if 3 <? w then [n] else [n; 3]) ∧
    md !! "mode" = Some (PStr "int16") ∧
    md !! "bytes_per_point" = Some (PInt (if 3 <? w then 8 else 6)) ∧
    md !! "intensity_scale" = Some (if 3 <? w then PInt 65535 else PNone) ∧
    Quantize.dequantize_points q md = ret d ∧
    is_cloud d n (Z.min w 4).
Proof.
  intros (Hshape & Hn & Hrows) Hpos Hw.
  assert (Forall (λ r, length r = 3%nat) (map (take 3) (rows points))) as Hxyz.
  { apply Forall_fmap. eapply Forall_impl; [exact Hrows|]. intros r Hr. simpl in Hr |- *.
    rewrite length_take. lia. }
  assert (map (take 3) (rows points) ≠ []) as Hne.
  { destruct (rows points); [simpl in Hn; lia|done]. }
  destruct (reduce_axis0_length np_minimum "minimum" _ 3 Hne Hxyz) as (bmin & Hmin & Hlmin).
  destruct (reduce_axis0_length np_maximum "maximum" _ 3 Hne Hxyz) as (bmax & Hmax & Hlmax).
  destruct (length3 _ Hlmin) as (l1 & l2 & l3 & ->).
  destruct (length3 _ Hlmax) as (h1 & h2 & h3 & ->).
  rewrite quantize_points_int16. unfold Quantize.quantize_int16, Quantize.shape1.
  cbn [Quantize.array_shape Quantize.astype_float32]. rewrite Hshape.
  cbn [lookup list_lookup bind ret].
  assert ((w <? 3) = false) as -> by lia. cbn [bind ret].
  rewrite Hmin, Hmax. clear Hmin Hmax Hlmin Hlmax.
  assert (∃ rm, Quantize.reduce1 np_maximum "maximum"
                  (Quantize.bbox_divisor [l1; l2; l3] [h1; h2; h3]) = ret rm) as [rm Hrm]
    by (eexists; reflexivity).
  destruct (3 <? w) eqn:Hw3.
  - rewrite (column_total 3 (np_of_Z 0)).
    2:{ eapply Forall_impl; [exact Hrows|]. simpl. intros r Hr. lia. }
    cbn [bind ret]. rewrite Hrm. cbn [bind ret].
    eexists _, _, _. split; [reflexivity|].
    split. { cbn [Quantize.array_shape]. rewrite length_zip_with, !length_map. f_equal. lia. }
    split; [done|]. split; [done|]. split; [done|].
    match goal with |- context [Quantize.dequantize_points _ ?m] => set (md := m) end.
    assert (md !! "mode" = Some (PStr "int16")) as Hmode by done.
    assert (md !! "bbox_min" = Some (PFloats [np_to_py l1; np_to_py l2; np_to_py l3]))
      as Hbmin by done.
    assert (md !! "bbox_max" = Some (PFloats [np_to_py h1; np_to_py h2; np_to_py h3]))
      as Hbmax by done.
    clearbody md.
    unfold Quantize.dequantize_points, Quantize.float32_list. rewrite Hmode, Hbmin, Hbmax.
    cbn [bind ret map]. split; [reflexivity|].
    assert (∀ A (l : list A), length l = length (rows points) → Z.of_nat (length l) = n)
      as Hlen by (intros A l ->; done).
    unfold is_cloud. cbn [shape rows]. split_and!.
    + f_equal; [|f_equal; lia]. apply Hlen.
      by rewrite !length_map, length_zip_with, !length_map, Nat.min_id.
    + symmetry. apply Hlen.
      rewrite length_zip_with, !length_map, !length_zip_with, !length_map. lia.
    + replace (w `min` 4) with (Z.of_nat 4) by lia.
      eapply Forall_impl; [apply (rows_with_intensity _ _ 3)|by intros r ->].
      apply denormalized_rows.
      * rewrite length_zip_with, bbox_divisor_length. done.
      * apply Forall_fmap, Forall_true. done.
  - assert (w = 3) as -> by lia.
    cbn [bind ret]. rewrite Hrm. cbn [bind ret].
    eexists _, _, _. split; [reflexivity|].
    split. { cbn [Quantize.array_shape]. unfold shape_at. by rewrite Hshape. }
    split; [done|]. split; [done|]. split; [done|].
    match goal with |- context [Quantize.dequantize_points _ ?m] => set (md := m) end.
    assert (md !! "mode" = Some (PStr "int16")) as Hmode by done.
    assert (md !! "bbox_min" = Some (PFloats [np_to_py l1; np_to_py l2; np_to_py l3]))
      as Hbmin by done.
    assert (md !! "bbox_max" = Some (PFloats [np_to_py h1; np_to_py h2; np_to_py h3]))
      as Hbmax by done.
    clearbody md.
    unfold Quantize.dequantize_points, Quantize.float32_list. rewrite Hmode, Hbmin, Hbmax.
    cbn [bind ret map Quantize.astype_int16 Quantize.shape1 Quantize.array_shape shape rows
         lookup list_lookup Z.ltb Z.compare Pos.compare Pos.compare_cont].
    split; [reflexivity|].
    unfold is_cloud. cbn [shape rows]. split_and!.
    + f_equal. by rewrite !length_map.
    + by rewrite !length_map.
    + eapply Forall_impl; [apply denormalized_rows|by intros r ->].
      * rewrite length_zip_with, bbox_divisor_length. done.
      * rewrite !Forall_fmap. eapply Forall_impl; [exact Hrows|].
        intros r Hr. simpl in Hr |- *.
        rewrite length_take, length_map, length_zip_with, length_take.
        cbn [length]. lia.
Qed.

(** The int16 mode accepts every cloud that has a point and three columns.
    With a fourth column it stores one packed record of 8 bytes per point,
    without it an (N, 3) array of 6 bytes per point; what is dequantized
    has the N points again, and never more than four columns. *)
Theorem int16_mode_shapes (points : ndarray F) (n w : Z) :
  is_cloud points n w → 0 < n → 3 ≤ w →
  ∃ (q : Quantize.array F) (md : pydict F) (d : ndarray F),
    Quantize.quantize_points (Quantize.FloatArray Quantize.float32 points) "int16" = ret (q, md) ∧
    Quantize.array_shape q = (if 3 <? w then [n] else [n; 3]) ∧
    md !! "bytes_per_point" = Some (PInt (if 3 <? w then 8 else 6)) ∧
    md !! "intensity_scale" = Some (if 3 <? w then PInt 65535 else PNone) ∧
    Quantize.dequantize_points q md = ret d ∧
    is_cloud d n (Z.min w 4).
Proof.
  intros Hcloud Hn Hw.
  destruct (int16_mode_run points n w Hcloud Hn Hw)
    as (q & md & d & Hq & Hshape & _ & Hbytes & Hscale & Hd & Hback).
  exists q, md, d. by split_and!.
Qed.

End Int16Shape.

Lemma int16_mode_shapes_witness :
  ∃ (q : Quantize.array spec_float) (md : pydict spec_float) (d : ndarray spec_float),
    Quantize.quantize_points (num := IEEE.ops)
      (Quantize.FloatArray Quantize.float32
         (NdArray [1; 5] [[S754_zero false; S754_zero false; S754_zero false;
                           S754_zero false; S754_zero false]])) "int16" = ret (q, md) ∧
    Quantize.array_shape q = (if 3 <? 5 then [1] else [1; 3]) ∧
    md !! "bytes_per_point" = Some (PInt (if 3 <? 5 then 8 else 6)) ∧
    md !! "intensity_scale" = Some (if 3 <? 5 then PInt 65535 else PNone) ∧
    Quantize.dequantize_points q md = ret d ∧
    is_cloud d 1 (Z.min 5 4).
Proof.
  apply (int16_mode_shapes (num := IEEE.ops)).
  - split; [reflexivity|]. split; [reflexivity|]. repeat constructor.
  - lia.
  - lia.
Defined.

(** *** The codes *)

Section Codes.
Context {F : Type} {num : NumOps F} {model : Model F}.
Hypothesis acc : Accurate num model.
Local Open Scope R_scope.

(** The code of a coordinate that lies in the bounding box: the integer
    cast neither wraps around nor reaches -32768. *)
Lemma coordinate_code_range (x lo hi : F) :
  single x → single lo → single hi →
  -100 <= val lo → val lo <= val x → val x <= val hi → val hi <= 100 →
  coordinate_code (Quantize.to_int16 (Quantize.normalize x lo (axis_divisor lo hi))).
Proof using acc.
  intros Hx Hlo Hhi HL1 HL2 HL3 HL4.
  pose proof huge_large as Hhuge. pose proof u32_small as Hu. pose proof eta32_small as Heta.
  destruct (single_const acc 1) as [H1s H1v]; [lia|].
  destruct (single_const acc 32767) as [Hks Hkv]; [lia|].
  assert (0 <= val hi - val lo) as HE0 by lra.
  assert (0 <= val x - val lo) as HD0 by lra.
  pose proof (u32_times _ HE0) as HuE.
  pose proof (u32_times _ HD0) as HuD.
  (* the extent *)
  destruct (acc_sub _ _ acc hi lo Hhi Hlo) as [Hr0 Hr0err]; [apply Rabs_le; lra|].
  rewrite (Rabs_pos_eq (val hi - val lo)) in Hr0err by lra.
  apply Rabs_le_inv in Hr0err.
  (* the offset of the coordinate *)
  destruct (acc_sub _ _ acc x lo Hx Hlo) as [Hd Hderr]; [apply Rabs_le; lra|].
  rewrite (Rabs_pos_eq (val x - val lo)) in Hderr by lra.
  apply Rabs_le_inv in Hderr.
  set (d := np_sub x lo) in *.
  destruct (acc_double _ _ acc d Hd) as [Ht Htv]; [apply Rabs_le; lra|].
  set (t := np_mul (np_of_Z 2) d) in *.
  assert (∃ (rng : F) (w : R),
    axis_divisor lo hi = rng ∧ single rng ∧ 0 < val rng <= 201 ∧
    0 <= w <= 1 + 1 / 10 ^ 6 ∧
    - (13 / 10 ^ 8) <= val t / val rng - 2 * w <= 13 / 10 ^ 8)
    as (rng & w & Hrng & Hrngs & HR & Hw & Htw).
  { unfold axis_divisor.
    destruct (np_eqb (np_sub hi lo) (np_of_Z 0)) eqn:Hz.
    - apply (acc_eqb_zero _ _ acc _ Hr0) in Hz.
      rewrite Hz in Hr0err.
      assert (val hi - val lo = 0) as HEz by lra.
      assert (val d = 0) as Hdv by lra.
      exists (np_of_Z 1), 0. rewrite H1v, Htv, Hdv.
      split_and!; try done; lra.
    - assert (val (np_sub hi lo) ≠ 0) as Hnz.
      { intros Hv. apply (acc_eqb_zero _ _ acc _ Hr0) in Hv. congruence. }
      set (R := val (np_sub hi lo)) in *.
      assert (0 <= R) as HRge by lra.
      assert (0 < R) as HRpos.
      { destruct (Rle_lt_or_eq_dec 0 R HRge) as [?|Heq]; [done|]. by destruct Hnz. }
      assert (0 < / R) as Hi by (by apply Rinv_0_lt_compat).
      assert (R * / R = 1) as HRi by (apply Rinv_r; lra).
      exists (np_sub hi lo), ((val x - val lo) * / R). fold R.
      assert (val x - val lo <= val hi - val lo) as HDE by lra.
      revert HDE HD0 HuD Hderr.
      generalize (val x - val lo). intros D HDE HD0 HuD Hderr.
      assert (D <= (1 + 1 / 10 ^ 6) * R) as HDR by lra.
      assert (D * / R <= 1 + 1 / 10 ^ 6) as Hwle.
      { replace (1 + 1 / 10 ^ 6) with ((1 + 1 / 10 ^ 6) * R * / R) by (rewrite Rmult_assoc, HRi; ring).
        apply Rmult_le_compat_r; lra. }
      assert (0 <= D * / R) as Hwge by (apply Rmult_le_pos; lra).
      assert (- (6 / 10 ^ 8 * (D * / R)) <= (val d - D) * / R <= 6 / 10 ^ 8 * (D * / R)) as Hrel.
      { split.
        - replace (- (6 / 10 ^ 8 * (D * / R))) with (- (6 / 10 ^ 8 * D) * / R) by ring.
          apply Rmult_le_compat_r; lra.
        - replace (6 / 10 ^ 8 * (D * / R)) with (6 / 10 ^ 8 * D * / R) by ring.
          apply Rmult_le_compat_r; lra. }
      split_and!; try done; try lra.
      + unfold Rdiv. rewrite Htv.
        replace (2 * val d * / R - 2 * (D * / R)) with (2 * ((val d - D) * / R)) by ring. lra.
      + unfold Rdiv. rewrite Htv.
        replace (2 * val d * / R - 2 * (D * / R)) with (2 * ((val d - D) * / R)) by ring. lra. }
  rewrite Hrng. unfold Quantize.normalize. fold d. fold t.
  (* v = t / range *)
  destruct (acc_div _ _ acc t rng Ht Hrngs) as [Hv Hverr]; [lra| |].
  { apply Rabs_le. lra. }
  set (v := np_div t rng) in *.
  apply (round_within _ _ (21 / 10) (13 / 10 ^ 8)) in Hverr; [|apply Rabs_le; lra|lra].
  (* n = v - 1 *)
  destruct (acc_sub _ _ acc v (np_of_Z 1) Hv H1s) as [Hn Hnerr].
  { rewrite H1v. apply Rabs_le. lra. }
  rewrite H1v in Hnerr.
  apply (round_within_rel _ _ 2 (12 / 10 ^ 8)) in Hnerr; [|apply Rabs_le; lra|lra].
  set (n := np_sub v (np_of_Z 1)) in *.
  (* p = n * 32767 *)
  unfold Quantize.to_int16.
  destruct (acc_mul _ _ acc n (np_of_Z 32767) Hn Hks) as [Hp Hperr].
  { rewrite Hkv. apply Rabs_le. lra. }
  rewrite Hkv in Hperr.
  apply (round_within _ _ 32768 (2 / 10 ^ 3)) in Hperr; [|apply Rabs_le; lra|lra].
  destruct (trunc_int16 acc _ Hp) as (-> & Hq & _); [lra|].
  exact Hq.
Qed.

Lemma intensity_code_range (i : F) : (0 ≤ Quantize.intensity_to_uint16 i ≤ 65535)%Z.
Proof.
  unfold Quantize.intensity_to_uint16, Quantize.wrap_uint16.
  match goal with |- context [(?a mod 65536)%Z] => pose proof (Z.mod_pos_bound a 65536) end. lia.
Qed.

Lemma int16_codes (points : ndarray F) (n w : Z) :
  is_cloud points n w → (0 < n)%Z → (3 ≤ w)%Z → Forall in_range (rows points) →
  ∃ (q : Quantize.array F) (md : pydict F),
    Quantize.quantize_points (Quantize.FloatArray Quantize.float32 points) "int16" = ret (q, md) ∧
    codes_within q.
Proof using acc.
  intros (Hshape & Hn & Hrows) Hpos Hw Hrange.
  assert (rows points ≠ []) as Hne by (destruct (rows points); [simpl in Hn; lia|done]).
  destruct (cloud_bbox acc (rows points) Hne Hrange)
    as (lo & hi & Hmin & Hmax & Hlos & His & Hlov & Hhiv & Hin).
  { eapply Forall_impl; [exact Hrows|]. simpl. intros r Hr. lia. }
  assert (∃ rm, Quantize.reduce1 np_maximum "maximum"
                  (Quantize.bbox_divisor [lo.1.1; lo.1.2; lo.2] [hi.1.1; hi.1.2; hi.2]) = ret rm)
    as [rm Hrm] by (eexists; reflexivity).
  rewrite quantize_points_int16. unfold Quantize.quantize_int16, Quantize.shape1.
  cbn [Quantize.array_shape Quantize.astype_float32]. rewrite Hshape.
  cbn [lookup list_lookup bind ret].
  assert ((w <? 3)%Z = false) as -> by lia. cbn [bind ret].
  assert (∀ r, inside lo hi r →
    Forall coordinate_code
      (map Quantize.to_int16
         (zip_with (λ (v : F) '(lo, range), Quantize.normalize v lo range) (take 3 r)
            (zip [lo.1.1; lo.1.2; lo.2]
               (Quantize.bbox_divisor [lo.1.1; lo.1.2; lo.2] [hi.1.1; hi.1.2; hi.2])))) ∧
    length (take 3 r) = 3%nat) as Hcodes.
  { intros r (x & y & z & rest & -> & Hx & Hy & Hz & Hxv & Hyv & Hzv).
    split; [|done].
    unfold Quantize.bbox_divisor, Quantize.replace_zero. cbn [take zip_with map].
    fold (axis_divisor lo.1.1 hi.1.1). fold (axis_divisor lo.1.2 hi.1.2).
    fold (axis_divisor lo.2 hi.2).
    destruct Hlos as (? & ? & ?), His as (? & ? & ?).
    repeat constructor; apply coordinate_code_range; try done; lra. }
  destruct (3 <? w)%Z eqn:Hw3.
  - rewrite (column_total 3 (np_of_Z 0)).
    2:{ eapply Forall_impl; [exact Hrows|]. simpl. intros r Hr. lia. }
    cbn [bind ret]. rewrite Hmin, Hmax. cbn [bind ret]. rewrite Hrm. cbn [bind ret].
    eexists _, _. split; [reflexivity|]. cbn [codes_within].
    rewrite !map_map, zip_with_fmap_l, zip_with_fmap_r, zip_with_diag.
    apply Forall_fmap. eapply Forall_impl; [exact Hin|].
    intros r Hr. destruct (Hcodes r Hr) as [Hc Hl]. simpl.
    revert Hc Hl. generalize (take 3 r). intros [|a [|b [|c [|? ?]]]]; try done.
    intros Hc _. cbn [zip_with map] in Hc |- *.
    apply Forall_cons in Hc as [Ha Hc]. apply Forall_cons in Hc as [Hb Hc].
    apply Forall_cons in Hc as [Hc _].
    unfold Quantize.pack. cbn [nth Quantize.px Quantize.py Quantize.pz Quantize.pintensity].
    split_and!; try done; apply intensity_code_range.
  - rewrite Hmin, Hmax. cbn [bind ret]. rewrite Hrm. cbn [bind ret].
    eexists _, _. split; [reflexivity|]. cbn [codes_within rows].
    rewrite !map_map. apply Forall_fmap. eapply Forall_impl; [exact Hin|].
    intros r Hr. by destruct (Hcodes r Hr) as [Hc _].
Qed.

End Codes.

(** The int16 mode stores a cloud of finite float32 numbers of magnitude at
    most 100 without wrapping around: every coordinate becomes a code from
    -32767 to 32767, the code -32768 is never produced, and every intensity
    a code from 0 to 65535. *)
Theorem int16_codes_within_range (points : ndarray spec_float) (n w : Z) :
  is_cloud points n w → 0 < n → 3 ≤ w →
  Forall (in_range (model := IEEE.model)) (rows points) →
  ∃ (q : Quantize.array spec_float) (md : pydict spec_float),
    Quantize.quantize_points (num := IEEE.ops)
      (Quantize.FloatArray Quantize.float32 points) "int16" = ret (q, md) ∧
    codes_within q.
Proof.
  intros Hcloud Hn Hw Hrange.
  destruct (int16_codes ieee_accurate points n w Hcloud Hn Hw Hrange) as (q & md & Hq & Hc).
  exists q, md. by split.
Qed.

(** *** The bounding box, column by column *)

Section Int16Run.
Context {F : Type} {num : NumOps F}.

Lemma fold_columns (op : F → F → F) (d : F) (rs : list (list F)) (a b c : F) :
  Forall (λ r, (3 ≤ length r)%nat) rs →
  fold_left (zip_with op) (map (take 3) rs) [a; b; c]
  = [fold_left op (map (λ r, nth 0 r d) rs) a; fold_left op (map (λ r, nth 1 r d) rs) b;
     fold_left op (map (λ r, nth 2 r d) rs) c].
Proof.
  intros Hrs. revert a b c. induction Hrs as [|r rs Hr _ IH]; intros a b c; [done|].
  destruct r as [|x [|y [|z rest]]]; simpl in Hr; try lia.
  cbn [map fold_left take zip_with nth]. apply IH.
Qed.

(** The bounding box of a cloud that has a point: along each axis the
    reduction of that column, started from the first point. *)
Lemma reduce_axis0_columns (op : F → F → F) (name : string) (d : F) (r0 : list F)
    (rs : list (list F)) :
  Forall (λ r, (3 ≤ length r)%nat) (r0 :: rs) →
  Quantize.reduce_axis0 op name (map (take 3) (r0 :: rs))
  = ret [fold_left op (map (λ r, nth 0 r d) rs) (nth 0 r0 d);
         fold_left op (map (λ r, nth 1 r d) rs) (nth 1 r0 d);
         fold_left op (map (λ r, nth 2 r d) rs) (nth 2 r0 d)].
Proof.
  intros Hrs. apply Forall_cons in Hrs as [Hr0 Hrs].
  destruct r0 as [|x [|y [|z rest]]]; simpl in Hr0; try lia.
  cbn [map Quantize.reduce_axis0 take nth]. by rewrite (fold_columns op d).
Qed.

(** The int16 mode and back on a cloud that has a point, given its bounding
    box: each point is restored from its own codes, and a fifth column and
    those after it are dropped. *)
Lemma int16_roundtrip_run (points : ndarray F) (n w : Z) (lo hi : F * F * F) :
  is_cloud points n w → 3 ≤ w →
  Quantize.reduce_axis0 np_minimum "minimum" (map (take 3) (rows points))
  = ret [lo.1.1; lo.1.2; lo.2] →
  Quantize.reduce_axis0 np_maximum "maximum" (map (take 3) (rows points))
  = ret [hi.1.1; hi.1.2; hi.2] →
  Forall (λ v, np_to_single (np_to_py v) = v) [lo.1.1; lo.1.2; lo.2; hi.1.1; hi.1.2; hi.2] →
  ∃ (q : Quantize.array F) (md : pydict F),
    Quantize.quantize_points (Quantize.FloatArray Quantize.float32 points) "int16" = ret (q, md) ∧
    md !! "bbox_min" = Some (PFloats (map np_to_py [lo.1.1; lo.1.2; lo.2])) ∧
    md !! "bbox_max" = Some (PFloats (map np_to_py [hi.1.1; hi.1.2; hi.2])) ∧
    Quantize.dequantize_points q md
    = ret (NdArray [n; Z.min w 4] (map (λ r, restore_point lo hi (take 4 r)) (rows points))).
Proof.
  intros (Hshape & Hn & Hrows) Hw Hmin Hmax Hpy.
  assert (∃ rm, Quantize.reduce1 np_maximum "maximum"
                  (Quantize.bbox_divisor [lo.1.1; lo.1.2; lo.2] [hi.1.1; hi.1.2; hi.2]) = ret rm)
    as [rm Hrm] by (eexists; reflexivity).
  rewrite quantize_points_int16. unfold Quantize.quantize_int16, Quantize.shape1.
  cbn [Quantize.array_shape Quantize.astype_float32]. rewrite Hshape.
  cbn [lookup list_lookup bind ret].
  assert ((w <? 3) = false) as -> by lia. cbn [bind ret].
  destruct (3 <? w) eqn:Hw3.
  - rewrite (column_total 3 (np_of_Z 0)).
    2:{ eapply Forall_impl; [exact Hrows|]. simpl. intros r Hr. lia. }
    cbn [bind ret]. rewrite Hmin, Hmax. cbn [bind ret]. rewrite Hrm. cbn [bind ret].
    eexists _, _. split; [reflexivity|]. split; [done|]. split; [done|].
    match goal with |- context [Quantize.dequantize_points _ ?m] => set (md := m) end.
    assert (md !! "mode" = Some (PStr "int16")) as Hmode by done.
    assert (md !! "bbox_min" = Some (PFloats [np_to_py lo.1.1; np_to_py lo.1.2; np_to_py lo.2]))
      as Hbmin by done.
    assert (md !! "bbox_max" = Some (PFloats [np_to_py hi.1.1; np_to_py hi.1.2; np_to_py hi.2]))
      as Hbmax by done.
    clearbody md.
    unfold Quantize.dequantize_points, Quantize.float32_list. rewrite Hmode, Hbmin, Hbmax.
    cbn [bind ret map].
    repeat (apply Forall_cons in Hpy as [-> Hpy]).
    unfold Quantize.bbox_divisor, Quantize.replace_zero. cbn [zip_with map zip].
    fold (axis_divisor lo.1.1 hi.1.1). fold (axis_divisor lo.1.2 hi.1.2).
    fold (axis_divisor lo.2 hi.2).
    rewrite !map_map, !zip_with_fmap_l, !zip_with_fmap_r, !zip_with_diag.
    rewrite !length_map, <- Hn, !map_map.
    replace (w `min` 4) with 4 by lia.
    do 2 f_equal.
    apply Forall_fmap_ext_1. eapply Forall_impl; [exact Hrows|].
    intros r Hr. simpl in Hr. destruct r as [|x [|y [|z [|i rest]]]]; simpl in Hr; try lia.
    reflexivity.
  - assert (w = 3) as -> by lia.
    rewrite Hmin, Hmax. cbn [bind ret]. rewrite Hrm. cbn [bind ret].
    eexists _, _. split; [reflexivity|]. split; [done|]. split; [done|].
    match goal with |- context [Quantize.dequantize_points _ ?m] => set (md := m) end.
    assert (md !! "mode" = Some (PStr "int16")) as Hmode by done.
    assert (md !! "bbox_min" = Some (PFloats [np_to_py lo.1.1; np_to_py lo.1.2; np_to_py lo.2]))
      as Hbmin by done.
    assert (md !! "bbox_max" = Some (PFloats [np_to_py hi.1.1; np_to_py hi.1.2; np_to_py hi.2]))
      as Hbmax by done.
    clearbody md.
    unfold Quantize.dequantize_points, Quantize.float32_list. rewrite Hmode, Hbmin, Hbmax.
    cbn [bind ret map Quantize.astype_int16 Quantize.shape1 Quantize.array_shape shape rows
         lookup list_lookup Z.ltb Z.compare Pos.compare Pos.compare_cont].
    repeat (apply Forall_cons in Hpy as [-> Hpy]).
    unfold Quantize.bbox_divisor, Quantize.replace_zero. cbn [zip_with map zip].
    fold (axis_divisor lo.1.1 hi.1.1). fold (axis_divisor lo.1.2 hi.1.2).
    fold (axis_divisor lo.2 hi.2).
    rewrite !length_map, <- Hn, !map_map. do 2 f_equal.
    apply Forall_fmap_ext_1. eapply Forall_impl; [exact Hrows|].
    intros r Hr. simpl in Hr. destruct r as [|x [|y [|z [|? ?]]]]; simpl in Hr; try lia.
    reflexivity.
Qed.

End Int16Run.

(** *** The bounding box of a cloud of finite numbers *)

Section BoundingBox.
Local Open Scope R_scope.

Lemma fold_left_Rmin_in (l : list R) (a : R) :
  fold_left Rmin l a = a ∨ fold_left Rmin l a ∈ l.
Proof.
  revert a. induction l as [|x l IH]; intros a; simpl; [by left|].
  destruct (IH (Rmin a x)) as [H|H].
  - rewrite H. unfold Rmin. destruct (Rle_dec a x); [by left|right; left].
  - right. by right.
Qed.

Lemma fold_minimum_finite (l : list spec_float) (a : spec_float) :
  IEEE.finite32 a → Forall IEEE.finite32 l →
  IEEE.finite32 (fold_left IEEE.minimum l a) ∧
  IEEE.SF2R (fold_left IEEE.minimum l a) = fold_left Rmin (map IEEE.SF2R l) (IEEE.SF2R a).
Proof.
  intros Ha Hl. revert a Ha. induction Hl as [|x l Hx _ IH]; intros a Ha; [done|].
  cbn [fold_left map].
  destruct (minimum_finite 24 128 a x Ha Hx) as [Hm Hv]. rewrite <- Hv. by apply IH.
Qed.

Lemma fold_maximum_finite (l : list spec_float) (a : spec_float) :
  IEEE.finite32 a → Forall IEEE.finite32 l →
  IEEE.finite32 (fold_left IEEE.maximum l a) ∧
  IEEE.SF2R (fold_left IEEE.maximum l a) = fold_left Rmax (map IEEE.SF2R l) (IEEE.SF2R a).
Proof.
  intros Ha Hl. revert a Ha. induction Hl as [|x l Hx _ IH]; intros a Ha; [done|].
  cbn [fold_left map].
  destruct (maximum_finite 24 128 a x Ha Hx) as [Hm Hv]. rewrite <- Hv. by apply IH.
Qed.

Lemma nth_finite (j : nat) (r : list spec_float) :
  Forall IEEE.finite32 r → IEEE.finite32 (nth j r (S754_zero false)).
Proof.
  intros Hr. revert j. induction Hr as [|x r Hx _ IH]; intros [|j]; cbn [nth]; try done.
Qed.

(** One column of the rows [r0 :: rs]: its least and its greatest entry. *)
Lemma column_extremes (j : nat) (r0 : list spec_float) (rs : list (list spec_float)) :
  Forall (Forall IEEE.finite32) (r0 :: rs) →
  Forall (λ r, (j < length r)%nat) (r0 :: rs) →
  let col := map (λ r, nth j r (S754_zero false)) rs in
  let lo := fold_left IEEE.minimum col (nth j r0 (S754_zero false)) in
  let hi := fold_left IEEE.maximum col (nth j r0 (S754_zero false)) in
  IEEE.finite32 lo ∧ IEEE.finite32 hi ∧ column_bounds (r0 :: rs) j lo hi.
Proof.
  intros Hfin Hlen col lo hi.
  assert (Forall IEEE.finite32 col) as Hcol.
  { apply Forall_fmap. apply Forall_cons in Hfin as [_ Hfin].
    eapply Forall_impl; [exact Hfin|]. intros r Hr. by apply nth_finite. }
  assert (IEEE.finite32 (nth j r0 (S754_zero false))) as H0.
  { apply Forall_cons in Hfin as [Hfin _]. by apply nth_finite. }
  destruct (fold_minimum_finite col _ H0 Hcol) as [Hlo Hlov].
  destruct (fold_maximum_finite col _ H0 Hcol) as [Hhi Hhiv].
  fold lo in Hlo, Hlov. fold hi in Hhi, Hhiv.
  split; [exact Hlo|]. split; [exact Hhi|].
  assert (∀ r v, r ∈ r0 :: rs → r !! j = Some v → nth j r (S754_zero false) = v) as Hnth.
  { intros r v _ Hv. by apply nth_lookup_Some. }
  assert (∀ r, r ∈ r0 :: rs → r !! j = Some (nth j r (S754_zero false))) as Hget.
  { intros r Hr. rewrite Forall_forall in Hlen. specialize (Hlen r Hr).
    destruct (lookup_lt_is_Some_2 r j Hlen) as [v Hv]. rewrite Hv. f_equal.
    symmetry. by apply nth_lookup_Some. }
  destruct (fold_left_Rmin_le (map IEEE.SF2R col) (IEEE.SF2R (nth j r0 (S754_zero false))))
    as [Hle0 Hle].
  destruct (fold_left_Rmax_ge (map IEEE.SF2R col) (IEEE.SF2R (nth j r0 (S754_zero false))))
    as [Hge0 Hge].
  rewrite <- Hlov in Hle0, Hle. rewrite <- Hhiv in Hge0, Hge.
  rewrite Forall_forall in Hle, Hge.
  assert (∀ r, r ∈ rs → IEEE.SF2R (nth j r (S754_zero false)) ∈ map IEEE.SF2R col) as Hmem.
  { intros r Hr. unfold col. rewrite map_map.
    apply (list_elem_of_fmap_2 (λ r, IEEE.SF2R (nth j r (S754_zero false))) rs r Hr). }
  split_and!.
  - apply Forall_forall. intros r Hr v Hv. rewrite <- (Hnth r v Hr Hv).
    apply elem_of_cons in Hr as [->|Hr]; [lra|].
    split; [apply Hle|apply Hge]; by apply Hmem.
  - apply Exists_exists.
    destruct (fold_left_Rmin_in (map IEEE.SF2R col) (IEEE.SF2R (nth j r0 (S754_zero false))))
      as [Heq|Hin]; rewrite <- Hlov in *.
    + exists r0. split; [left|]. eexists. split; [apply Hget; left|]. done.
    + unfold col in Hin. rewrite map_map in Hin.
      apply list_elem_of_fmap in Hin as (r & Hr & Hin).
      exists r. split; [by right|]. eexists. split; [apply Hget; by right|]. done.
  - apply Exists_exists.
    destruct (fold_left_Rmax_in (map IEEE.SF2R col) (IEEE.SF2R (nth j r0 (S754_zero false))))
      as [Heq|Hin]; rewrite <- Hhiv in *.
    + exists r0. split; [left|]. eexists. split; [apply Hget; left|]. done.
    + unfold col in Hin. rewrite map_map in Hin.
      apply list_elem_of_fmap in Hin as (r & Hr & Hin).
      exists r. split; [by right|]. eexists. split; [apply Hget; by right|]. done.
Qed.

End BoundingBox.

Lemma to_py_value (x : spec_float) :
  IEEE.finite32 x → IEEE.SF2R (IEEE.cast 53 1024 x) = IEEE.SF2R x.
Proof.
  intros Hx.
  by destruct (cast_widen 24 128 53 1024 ltac:(lia) ltac:(lia) ltac:(lia) ltac:(done) ltac:(lia)
                 x Hx) as (_ & Hv & _).
Qed.

Lemma column_bounds_to_py (rs : list (list spec_float)) (j : nat) (lo hi : spec_float) :
  IEEE.finite32 lo → IEEE.finite32 hi → column_bounds rs j lo hi →
  column_bounds rs j (IEEE.cast 53 1024 lo) (IEEE.cast 53 1024 hi).
Proof. intros Hlo Hhi. unfold column_bounds. by rewrite !to_py_value. Qed.

(** The bounding box the int16 mode writes into the envelope of a cloud of
    finite numbers is the tight one: along each of the three axes no point
    lies outside it, and both of its ends are coordinates of points. *)
Theorem int16_bounding_box_tight (points : ndarray spec_float) (n w : Z) :
  is_cloud points n w → 0 < n → 3 ≤ w →
  Forall (Forall IEEE.finite32) (rows points) →
  ∃ (q : Quantize.array spec_float) (md : pydict spec_float) (lo hi : list spec_float),
    Quantize.quantize_points (num := IEEE.ops)
      (Quantize.FloatArray Quantize.float32 points) "int16" = ret (q, md) ∧
    md !! "bbox_min" = Some (PFloats lo) ∧ md !! "bbox_max" = Some (PFloats hi) ∧
    ∀ j : nat, (j < 3)%nat →
      ∃ a b : spec_float, lo !! j = Some a ∧ hi !! j = Some b ∧
        column_bounds (rows points) j a b.
Proof.
  intros Hcloud Hn Hw Hfin. pose proof Hcloud as (Hshape & Hlen & Hrows).
  destruct (rows points) as [|r0 rs] eqn:Hrs; [simpl in Hlen; lia|].
  assert (∀ j, (j < 3)%nat → Forall (λ r : list spec_float, (j < length r)%nat) (r0 :: rs))
    as Hwide.
  { intros j Hj. eapply Forall_impl; [exact Hrows|]. intros r Hr. simpl in Hr. lia. }
  destruct (column_extremes 0 r0 rs Hfin (Hwide 0%nat ltac:(lia))) as (Hl0 & Hh0 & Hb0).
  destruct (column_extremes 1 r0 rs Hfin (Hwide 1%nat ltac:(lia))) as (Hl1 & Hh1 & Hb1).
  destruct (column_extremes 2 r0 rs Hfin (Hwide 2%nat ltac:(lia))) as (Hl2 & Hh2 & Hb2).
  cbn zeta in *.
  set (col := λ j : nat, map (λ r : list spec_float, nth j r (S754_zero false)) rs) in *.
  set (lo := λ j : nat, fold_left IEEE.minimum (col j) (nth j r0 (S754_zero false))) in *.
  set (hi := λ j : nat, fold_left IEEE.maximum (col j) (nth j r0 (S754_zero false))) in *.
  destruct (int16_roundtrip_run (num := IEEE.ops) points n w
              (lo 0%nat, lo 1%nat, lo 2%nat) (hi 0%nat, hi 1%nat, hi 2%nat) Hcloud Hw)
    as (q & md & Hq & Hmin & Hmax & _).
  - rewrite Hrs. apply (reduce_axis0_columns _ _ (S754_zero false)).
    eapply Forall_impl; [exact Hrows|]. intros r Hr. simpl in Hr. lia.
  - rewrite Hrs. apply (reduce_axis0_columns _ _ (S754_zero false)).
    eapply Forall_impl; [exact Hrows|]. intros r Hr. simpl in Hr. lia.
  - cbn [fst snd]. repeat constructor; by apply single_to_py.
  - exists q, md. eexists _, _. split; [exact Hq|]. split; [exact Hmin|]. split; [exact Hmax|].
    intros [|[|[|j]]] Hj; [| | |lia]; eexists _, _; (split; [reflexivity|]);
      (split; [reflexivity|]); by apply column_bounds_to_py.
Qed.

(** *** An axis along which the cloud is flat *)







Lemma int16_codes_within_range_witness :
  ∃ (q : Quantize.array spec_float) (md : pydict spec_float),
    Quantize.quantize_points (num := IEEE.ops)
      (Quantize.FloatArray Quantize.float32
         (NdArray [2; 3] [[S754_zero false; S754_zero false; S754_finite false 13107200 (-18)];
                          [S754_finite true 13107200 (-18); S754_zero false;
                           S754_finite false 13107200 (-18)]])) "int16" = ret (q, md) ∧
    codes_within q.
Proof.
  apply (int16_codes_within_range _ 2 3).
  - split; [reflexivity|]. split; [reflexivity|]. repeat constructor.
  - lia.
  - lia.
  - assert (∀ s l, in_range (model := IEEE.model) l →
              in_range (model := IEEE.model) (S754_finite s 13107200 (-18) :: l)) as Hf.
    { intros s l Hl. constructor; [|exact Hl]. split; [reflexivity|]. apply Rabs_le.
      cbn [val IEEE.model IEEE.SF2R]. change (powerRZ 2 (-18)) with (/ 2 ^ 18)%R.
      destruct s; cbn [cond_Zopp]; [rewrite opp_IZR|]; lra. }
    assert (∀ l, in_range (model := IEEE.model) l →
              in_range (model := IEEE.model) (S754_zero false :: l)) as Hc.
    { intros l Hl. constructor; [|exact Hl]. split; [exact I|]. apply Rabs_le; simpl; lra. }
    apply Forall_cons; split; [apply Hc, Hc, Hf; constructor|].
    apply Forall_cons; split; [apply Hf, Hc, Hf; constructor|constructor].
Defined.

Lemma int16_bounding_box_tight_witness :
  ∃ (q : Quantize.array spec_float) (md : pydict spec_float) (lo hi : list spec_float),
    Quantize.quantize_points (num := IEEE.ops)
      (Quantize.FloatArray Quantize.float32
         (NdArray [2; 3] [[S754_zero false; S754_zero false; S754_finite false 13107200 (-18)];
                          [S754_finite true 13107200 (-18); S754_zero false;
                           S754_finite false 13107200 (-18)]])) "int16" = ret (q, md) ∧
    md !! "bbox_min" = Some (PFloats lo) ∧ md !! "bbox_max" = Some (PFloats hi) ∧
    ∀ j : nat, (j < 3)%nat →
      ∃ a b : spec_float, lo !! j = Some a ∧ hi !! j = Some b ∧
        column_bounds
          [[S754_zero false; S754_zero false; S754_finite false 13107200 (-18)];
           [S754_finite true 13107200 (-18); S754_zero false;
            S754_finite false 13107200 (-18)]] j a b.
Proof.
  apply (int16_bounding_box_tight
           (NdArray [2; 3] [[S754_zero false; S754_zero false; S754_finite false 13107200 (-18)];
                            [S754_finite true 13107200 (-18); S754_zero false;
                             S754_finite false 13107200 (-18)]]) 2 3).
  - split; [reflexivity|]. split; [reflexivity|]. repeat constructor.
  - lia.
  - lia.
  - repeat constructor.
Defined.


(** * The converter: which frames it takes and what it does to them *)

Section FrameRange.
Import Models Pkl2web.

Lemma select_from {A : Type} (l : list A) (k : nat) (s e : Z) :
  (filter (λ p : nat * A, s ≤ Z.of_nat p.1 ≤ e) (imap (λ i, pair (k + i)%nat) l)).*2
  = take (Z.to_nat (e + 1 - Z.of_nat k) - Z.to_nat (s - Z.of_nat k))
         (drop (Z.to_nat (s - Z.of_nat k)) l).
Proof.
  revert k. induction l as [|x l IH]; intros k.
  - by rewrite drop_nil, take_nil.
  - cbn [imap]. rewrite filter_cons.
    rewrite (imap_ext _ (λ i, pair (S k + i)%nat) l) by (intros; simpl; f_equal; lia).
    specialize (IH (S k)). rewrite Nat.add_0_r.
    destruct (decide (s ≤ Z.of_nat (k, x).1 ≤ e)) as [Hin|Hout]; cbn [fst] in *.
    + cbn [fmap list_fmap snd]. change (list_fmap _ _ snd ?l) with (l.*2). rewrite IH.
      replace (Z.to_nat (s - Z.of_nat k)) with 0%nat by lia.
      replace (Z.to_nat (s - Z.of_nat (S k))) with 0%nat by lia.
      rewrite !drop_0, Nat.sub_0_r.
      replace (Z.to_nat (e + 1 - Z.of_nat k)) with (S (Z.to_nat (e + 1 - Z.of_nat (S k))))
        by lia.
      rewrite Nat.sub_0_r. done.
    + rewrite IH. destruct (decide (s ≤ Z.of_nat k)) as [Hs|Hs].
      * (* past the end of the range *)
        replace (Z.to_nat (e + 1 - Z.of_nat (S k)) - Z.to_nat (s - Z.of_nat (S k)))%nat
          with 0%nat by lia.
        replace (Z.to_nat (e + 1 - Z.of_nat k) - Z.to_nat (s - Z.of_nat k))%nat
          with 0%nat by lia.
        by rewrite !take_0.
      * (* before its start *)
        replace (Z.to_nat (s - Z.of_nat k)) with (S (Z.to_nat (s - Z.of_nat (S k)))) by lia.
        cbn [drop]. f_equal. lia.
Qed.

(** The comprehension of lines 199-202 is a slice of the frame list. *)
Lemma select_range {A : Type} (l : list A) (s e : Z) :
  (filter (λ p : nat * A, s ≤ Z.of_nat p.1 ≤ e) (imap pair l)).*2
  = take (Z.to_nat (e + 1) - Z.to_nat s) (drop (Z.to_nat s) l).
Proof.
  pose proof (select_from l 0 s e) as H. cbn [Nat.add] in H.
  rewrite (imap_ext _ pair l) in H by done.
  rewrite H. f_equal; [|f_equal]; f_equal; lia.
Qed.

End FrameRange.

Section ConvertFramesSteps.
Import Models Pkl2web.
Context {F : Type} {num : NumOps F} {World Generator : Type}.
Variable seeded : N → Generator.
Variable os_entropy : World → N * World.
Variable choice : Generator → nat → nat → list nat.

Lemma touches_only_refl (ls : list nat) (st : State (F := F) (World := World)) :
  touches_only ls st st.
Proof. by split_and!. Qed.

Lemma touches_only_trans (ls ls' : list nat) (st1 st2 st3 : State (F := F) (World := World)) :
  touches_only ls st1 st2 → touches_only ls' st2 st3 → touches_only (ls ++ ls') st1 st3.
Proof.
  intros (H1 & H2 & H3 & H4) (G1 & G2 & G3 & G4). split_and!.
  - intros l Hl. apply not_elem_of_app in Hl as [? ?]. rewrite G1, H1; done.
  - intros l. destruct (H2 l) as (? & ? & ?), (G2 l) as (? & ? & ?). split_and!; congruence.
  - congruence.
  - congruence.
Qed.

(** A fixed seed: the sampler never asks the world outside for one. *)
Lemma downsample_points_world {A : Type} (points : ndarray A) (tier : string) (seed : N)
    (w : World) :
  (Downsample.downsample_points (F := F) seeded os_entropy choice points tier seed w).2 = w.
Proof.
  unfold Downsample.downsample_points, Downsample.default_rng.
  repeat case_match; done.
Qed.

Lemma downsample_array_world (points : Quantize.array F) (tier : string) (seed : N) (w : World) :
  (downsample_array seeded os_entropy choice points tier seed w).2 = w.
Proof.
  unfold downsample_array.
  destruct points as [dt a|a|recs].
  - pose proof (downsample_points_world a tier seed w) as H.
    by destruct (Downsample.downsample_points _ _ _ a tier seed w).
  - pose proof (downsample_points_world a tier seed w) as H.
    by destruct (Downsample.downsample_points _ _ _ a tier seed w).
  - match goal with |- context [Downsample.downsample_points _ _ _ ?a _ _ _] =>
      pose proof (downsample_points_world a tier seed w) as H;
      by destruct (Downsample.downsample_points _ _ _ a tier seed w) end.
Qed.

Ltac touch :=
  unfold touches_only, with_objects, with_world, eprint, print, set_points, set_point_count,
    set_transform_metadata, update;
  cbn [fst snd objects out err world];
  split_and!;
  [ intros ? [? _]%not_elem_of_cons; repeat case_decide; done
  | intros ?; repeat (case_decide; subst; cbn [frame_id ground_truth detections]); done
  | done
  | done ].

Lemma try_downsample_step (frame : nat) (ds : string) (st : State (F := F) (World := World)) :
  touches_only [frame] st (try_downsample seeded os_entropy choice frame ds st).2 ∧
  err (try_downsample seeded os_entropy choice frame ds st).2 = err st.
Proof.
  unfold try_downsample.
  pose proof (downsample_array_world (points (objects st frame)) ds 42 (world st)) as Hw.
  destruct (downsample_array _ _ _ _ _ _ _) as [r w]. simpl in Hw. subst w.
  destruct r as [e|[pts md]].
  - split; [touch|done].
  - cbn [objects with_objects with_world].
    destruct (Quantize.array_shape _ !! 0%nat); (split; [touch|done]).
Qed.

Lemma try_quantize_step (frame : nat) (q : string) (st : State (F := F) (World := World)) :
  touches_only [frame] st (try_quantize frame q st).2 ∧
  err (try_quantize frame q st).2 = err st.
Proof.
  unfold try_quantize.
  destruct (Quantize.quantize_points _ _) as [e|[pts md]]; (split; [touch|done]).
Qed.

Lemma touches_only_mono (ls ls' : list nat) (st st' : State (F := F) (World := World)) :
  (∀ l, l ∈ ls → l ∈ ls') → touches_only ls st st' → touches_only ls' st st'.
Proof. intros Hsub (H1 & H2 & H3 & H4). split_and!; try done. intros l Hl. apply H1. auto. Qed.

Lemma touches_only_step (l : nat) (st1 st2 st3 : State (F := F) (World := World)) :
  touches_only [l] st1 st2 → touches_only [l] st2 st3 → touches_only [l] st1 st3.
Proof.
  intros H12 H23. apply (touches_only_mono ([l] ++ [l])).
  - intros l' Hl'. apply elem_of_app in Hl' as [?|?]; done.
  - by eapply touches_only_trans.
Qed.

(** The second half of the loop body, from whatever state the first left. *)
Lemma quantize_step (q : string) (dry : bool) (frame : nat)
    (md : gmap string (pydict F)) (st0 st : State (F := F) (World := World)) :
  touches_only [frame] st0 st → (dry = false → err st = err st0) →
  let r : result unit * State :=
    let '(r, transform_metadata, st) :=
      if negb (String.eqb q "off") then
        match try_quantize frame q st with
        | (inr q_meta, st) => (ret tt, <["quantize" := q_meta]> md, st)
        | (inl e, st) =>
          if negb dry then (raise e, md, st)
          else (ret tt, md,
                eprint ("[DRY-RUN] Warning: Quantization failed: " +:+ exn_str e) st)
        end
      else (ret tt, md, st) in
    match r with
    | inl e => (raise e, st)
    | inr _ =>
      (ret tt, with_objects (set_transform_metadata frame transform_metadata (objects st)) st)
    end in
  touches_only [frame] st0 r.2 ∧ (dry = false → err r.2 = err st0) ∧ (dry = true → r.1 = ret tt).
Proof.
  intros Ht He.
  assert (∀ (md' : gmap string (pydict F)) (st' : State (F := F) (World := World)),
            touches_only [frame] st'
              (with_objects (set_transform_metadata frame md' (objects st')) st')) as Hset
    by (intros; touch).
  assert (∀ (line : string) (st' : State (F := F) (World := World)),
            touches_only [frame] st' (eprint line st')) as Hprint by (intros; touch).
  destruct (negb (String.eqb q "off")).
  - pose proof (try_quantize_step frame q st) as [Hq Hqe].
    destruct (try_quantize frame q st) as [[e|m] st1]; cbn [snd] in Hq, Hqe.
    + destruct dry; cbn [negb fst snd raise ret].
      * split_and!; [|done|done].
        eapply touches_only_step; [exact Ht|]. eapply touches_only_step; [exact Hq|].
        eapply touches_only_step; [apply Hprint|apply Hset].
      * split_and!; [|intros _; rewrite Hqe; by apply He|done].
        eapply touches_only_step; [exact Ht|exact Hq].
    + cbn [fst snd raise ret]. split_and!; [| |done].
      * eapply touches_only_step; [exact Ht|]. eapply touches_only_step; [exact Hq|apply Hset].
      * intros Hd. cbn [err with_objects]. rewrite Hqe. by apply He.
  - cbn [fst snd raise ret]. split_and!; [| |done].
    + eapply touches_only_step; [exact Ht|apply Hset].
    + intros Hd. cbn [err with_objects]. by apply He.
Qed.

(** One pass of the loop body. *)
Lemma transform_frame_step (ds q : string) (dry : bool) (frame : nat)
    (st : State (F := F) (World := World)) :
  let r := transform_frame seeded os_entropy choice ds q dry frame st in
  touches_only [frame] st r.2 ∧ (dry = false → err r.2 = err st) ∧ (dry = true → r.1 = ret tt).
Proof.
  unfold transform_frame.
  assert (∀ (line : string) (st' : State (F := F) (World := World)),
            touches_only [frame] st' (eprint line st')) as Hprint by (intros; touch).
  destruct (bool_decide (ds ∈ ["100k"; "50k"])).
  - pose proof (try_downsample_step frame ds st) as [Hd Hde].
    destruct (try_downsample _ _ _ frame ds st) as [[e|m] st1]; cbn [snd] in Hd, Hde.
    + destruct dry.
      * apply (quantize_step q true frame ∅ st
                 (eprint ("[DRY-RUN] Warning: Downsampling failed: " +:+ exn_str e) st1));
          [|done].
        eapply touches_only_step; [exact Hd|apply Hprint].
      * cbn [negb raise fst snd]. by split_and!.
    + apply (quantize_step q dry frame _ st st1); [done|by intros _].
  - apply (quantize_step q dry frame ∅ st st); [apply touches_only_refl|done].
Qed.

(** The loop over the selected frames. *)
Lemma transform_frames_step (ds q : string) (dry : bool) (selected : list nat)
    (st : State (F := F) (World := World)) :
  let r := transform_frames seeded os_entropy choice ds q dry selected st in
  touches_only selected st r.2 ∧ (dry = false → err r.2 = err st) ∧ (dry = true → r.1 = ret tt).
Proof.
  revert st. induction selected as [|frame rest IH]; intros st.
  - cbn [transform_frames fst snd]. split_and!; [apply touches_only_refl|done|done].
  - cbn [transform_frames].
    pose proof (transform_frame_step ds q dry frame st) as (Ht & He & Hr). cbn zeta in Ht, He, Hr.
    destruct (transform_frame _ _ _ ds q dry frame st) as [[e|u] st1]; cbn [fst snd] in *.
    + split_and!; [|done|by intros ->; specialize (Hr eq_refl)].
      apply (touches_only_mono [frame]); [|done].
      intros l ->%list_elem_of_singleton. left.
    + specialize (IH st1). cbn zeta in IH. destruct IH as (Ht' & He' & Hr').
      split_and!; [|intros Hd; rewrite He', He; done|done].
      apply (touches_only_trans [frame] rest _ _ _ Ht Ht').
Qed.

(** The summaries a dry run prints, one line per selected frame. *)
Lemma print_summaries (selected : list nat) (st : State (F := F) (World := World)) :
  fold_left (λ st frame, print (frame_summary (objects st frame)) st) selected st
  = MkState (objects st) (out st ++ map (λ l, frame_summary (objects st l)) selected)
            (err st) (world st).
Proof.
  revert st. induction selected as [|frame rest IH]; intros st.
  - cbn [fold_left map]. rewrite app_nil_r. by destruct st.
  - cbn [fold_left map]. rewrite IH. unfold print. cbn [objects out err world].
    by rewrite <- app_assoc.
Qed.

End ConvertFramesSteps.

Section ConvertFramesRuns.
Import Models Pkl2web.
Context {F : Type} {num : NumOps F} {World Generator : Type}.
Variable seeded : N → Generator.
Variable os_entropy : World → N * World.
Variable choice : Generator → nat → nat → list nat.

(** Whenever [convert_frames] returns, the frames it hands back are those
    at the positions [start] to [end] of the input, both included and in
    their order; a range that reaches past the data is cut off at its end,
    one that starts past it gives no frame at all.  The manifest names the
    sequence and lists no frame yet. *)
Theorem convert_frames_selects_range (pkl_data : FrameData F) (seq_id : string)
    (frame_start frame_end : Z) (ds q : string) (dry : bool)
    (st : State (F := F) (World := World)) (c : Converted (F := F)) :
  (convert_frames seeded os_entropy choice pkl_data seq_id (frame_start, frame_end) ds q dry st).1
  = ret c →
  converted_frames c
  = take (Z.to_nat (frame_end + 1) - Z.to_nat frame_start)
         (drop (Z.to_nat frame_start) (frames pkl_data)) ∧
  (0 ≤ frame_start ≤ frame_end →
   Z.of_nat (length (converted_frames c))
   = Z.min (frame_count pkl_data) (frame_end + 1) - Z.min (frame_count pkl_data) frame_start) ∧
  manifest c !! "sequenceId" = Some (PStr seq_id) ∧
  manifest c !! "frames" = Some (PFloats []).
Proof.
  unfold convert_frames. rewrite select_range.
  destruct (transform_frames _ _ _ _ _ _ _ _) as [[e|u] st1]; [done|].
  cbn [fst]. intros [= <-]. cbn [converted_frames manifest].
  split_and!; [done| |done|done].
  intros Hrange. unfold frame_count. rewrite length_take, length_drop. lia.
Qed.

(** A dry run never raises, whatever the frames hold and whatever tier and
    mode it is given: a transform that fails is reported on the error
    stream instead.  It prints the three header
    lines, an empty line and one summary line for each selected frame. *)
Theorem convert_frames_dry_run (pkl_data : FrameData F) (seq_id : string)
    (frame_start frame_end : Z) (ds q : string) (st : State (F := F) (World := World)) :
  ∃ (c : Converted (F := F)) (st' : State (F := F) (World := World)),
    convert_frames seeded os_entropy choice pkl_data seq_id (frame_start, frame_end) ds q true st
    = (ret c, st') ∧
    out st'
    = out st
      ++ ["[DRY-RUN] Sequence: " +:+ seq_id;
          "[DRY-RUN] Frames: " +:+ pretty frame_start +:+ ":" +:+ pretty frame_end +:+ " ("
            +:+ pretty (length (converted_frames c)) +:+ " total)";
          "[DRY-RUN] Downsample: " +:+ ds +:+ ", Quantize: " +:+ q;
          ""]
      ++ map (λ l, frame_summary (objects st' l)) (converted_frames c).
Proof.
  unfold convert_frames.
  set (selected := (filter _ _).*2).
  pose proof (transform_frames_step seeded os_entropy choice ds q true selected st)
    as (Ht & _ & Hr). cbn zeta in Ht, Hr. specialize (Hr eq_refl).
  destruct (transform_frames _ _ _ _ _ _ _ _) as [r st1]. cbn [fst snd] in Ht, Hr. subst r.
  destruct Ht as (_ & _ & _ & Hout).
  eexists _, _. split; [reflexivity|].
  rewrite print_summaries. unfold print. cbn [objects out converted_frames].
  rewrite Hout, <- !app_assoc. reflexivity.
Qed.

(** Whether it returns or raises, [convert_frames] changes nothing but the
    arrays, the point counts and the transform metadata of the frames in
    the range: the objects outside it are as they were, every frame keeps
    its id, its ground truth and its detections, and nothing is drawn from
    the world outside, the sampler being seeded.  Outside a dry run it
    writes nothing to the standard output. *)
Theorem convert_frames_confined (pkl_data : FrameData F) (seq_id : string)
    (frame_start frame_end : Z) (ds q : string) (dry : bool)
    (st : State (F := F) (World := World)) :
  let selected := take (Z.to_nat (frame_end + 1) - Z.to_nat frame_start)
                       (drop (Z.to_nat frame_start) (frames pkl_data)) in
  let st' := (convert_frames seeded os_entropy choice pkl_data seq_id
                (frame_start, frame_end) ds q dry st).2 in
  (∀ l, l ∉ selected → objects st' l = objects st l) ∧
  (∀ l, frame_id (objects st' l) = frame_id (objects st l) ∧
        ground_truth (objects st' l) = ground_truth (objects st l) ∧
        detections (objects st' l) = detections (objects st l)) ∧
  world st' = world st ∧
  (dry = false → out st' = out st).
Proof.
  intros selected st'. subst st'. unfold convert_frames. rewrite select_range. fold selected.
  pose proof (transform_frames_step seeded os_entropy choice ds q dry selected st)
    as ((H1 & H2 & H3 & H4) & He & _). cbn zeta in *.
  destruct (transform_frames _ _ _ _ _ _ _ _) as [[e|u] st1]; cbn [fst snd] in *.
  - split_and!; done.
  - destruct dry; cbn [snd].
    + rewrite print_summaries. unfold print. cbn [objects out err world].
      split_and!; done.
    + split_and!; done.
Qed.

End ConvertFramesRuns.

(** ** Frames that hold clouds *)

Section ConvertFramesSuccess.
Import Models Pkl2web.
Context {F : Type} {num : NumOps F} {World Generator : Type}.
Variable seeded : N → Generator.
Variable os_entropy : World → N * World.
Variable choice : Generator → nat → nat → list nat.
Hypothesis Hchoice : Downsample.choice_spec choice.

(** The downsampler on a cloud, whichever branch it takes. *)
Lemma downsample_cloud_run {A : Type} (a : ndarray A) (tier : string) (target n w : Z)
    (seed : N) (wld : World) :
  Downsample.tier_map !! tier = Some target → is_cloud a n w → 3 ≤ w →
  ∃ (out : ndarray A) (md : pydict F),
    Downsample.downsample_points (F := F) seeded os_entropy choice a tier seed wld
    = (ret (out, md), wld) ∧
    is_cloud out (Z.min n target) w ∧
    md !! "final_count" = Some (PInt (Z.min n target)).
Proof using Hchoice.
  intros Htier Hcloud Hw. pose proof Hcloud as (Hshape & Hn & Hrows).
  destruct (cloud_passes_validation a n w Hshape Hw) as [Hval Hcount].
  destruct (Z_le_gt_dec n target) as [Hle|Hgt].
  - exists a. eexists. rewrite (downsample_identity_run seeded os_entropy choice a tier target)
      by (try done; lia).
    split; [reflexivity|]. rewrite Hcount, Z.min_l by done. by split.
  - destruct (downsample_sampling_branch seeded os_entropy choice (F := F) a tier target n w
                seed wld Hchoice Hcloud Hw Htier ltac:(lia))
      as (idx & picked & md & Hrun & _ & _ & _ & _ & Hlen & Hsub & _ & Hfinal & _).
    exists (NdArray [target; w] picked), md. rewrite Z.min_r by lia.
    split; [exact Hrun|]. split; [|exact Hfinal].
    split; [done|]. split; [done|]. cbn [rows].
    apply Forall_forall. intros r Hr. rewrite Forall_forall in Hrows. apply Hrows.
    by eapply elem_of_sublist.
Qed.

Lemma points_set_points (l : nat) (p : Quantize.array F) (o : nat → Frame F) :
  points (set_points l p o l) = p.
Proof. unfold set_points, update. by rewrite decide_True. Qed.

(** The first half of the loop body on a frame that holds a cloud. *)
Lemma try_downsample_cloud (ds : string) (target : Z) (frame : nat)
    (st : State (F := F) (World := World)) (n w : Z) :
  Downsample.tier_map !! ds = Some target →
  holds_cloud (objects st frame) n w → 3 ≤ w →
  ∃ (kept : ndarray F) (md : pydict F),
    try_downsample seeded os_entropy choice frame ds st
    = (ret md,
       with_objects
         (set_point_count frame (Z.min n target)
            (set_points frame (Quantize.FloatArray Quantize.float32 kept) (objects st))) st) ∧
    is_cloud kept (Z.min n target) w ∧
    md !! "final_count" = Some (PInt (Z.min n target)).
Proof using Hchoice.
  intros Htier (a & Hpoints & Hcloud) Hw.
  destruct (downsample_cloud_run a ds target n w 42 (world st) Htier Hcloud Hw)
    as (kept & md & Hrun & Hout & Hfinal).
  exists kept, md. split; [|by split].
  unfold try_downsample, downsample_array. rewrite Hpoints, Hrun.
  destruct st as [o so se sw].
  cbn [bind ret fst snd objects out err world with_objects with_world].
  rewrite points_set_points. cbn [Quantize.array_shape]. destruct Hout as (-> & _ & _).
  reflexivity.
Qed.

(** The two quantizing modes on a cloud: the count of points is kept. *)
Lemma quantize_cloud_run (q : string) (kept : ndarray F) (m w : Z) :
  q = "fp16" ∨ q = "int16" → is_cloud kept m w → 3 ≤ w → (q = "int16" → 0 < m) →
  ∃ (pts : Quantize.array F) (q_meta : pydict F),
    Quantize.quantize_points (Quantize.FloatArray Quantize.float32 kept) q = ret (pts, q_meta) ∧
    Quantize.array_shape pts !! 0%nat = Some m ∧
    q_meta !! "mode" = Some (PStr q).
Proof.
  intros [->| ->] Hcloud Hw Hm.
  - eexists _, _. split; [reflexivity|]. cbn [Quantize.array_shape Quantize.amap shape].
    destruct Hcloud as (-> & _ & _). by split.
  - destruct (int16_mode_run kept m w Hcloud (Hm eq_refl) Hw)
      as (pts & q_meta & _ & Hq & Hshape & Hmode & _).
    exists pts, q_meta. split; [exact Hq|]. split; [|exact Hmode].
    rewrite Hshape. by destruct (3 <? w).
Qed.

(** One pass of the loop body on a frame that holds a cloud. *)
Lemma transform_frame_converts (ds q : string) (target : Z) (frame : nat)
    (st : State (F := F) (World := World)) (n w : Z) :
  Downsample.tier_map !! ds = Some target →
  q ∈ ["off"; "fp16"; "int16"] →
  holds_cloud (objects st frame) n w → 3 ≤ w → (q = "int16" → 0 < n) →
  ∃ st' : State (F := F) (World := World),
    transform_frame seeded os_entropy choice ds q false frame st = (ret tt, st') ∧
    converted_frame (objects st' frame) (Z.min n target) q.
Proof using Hchoice.
  intros Htier Hq Hholds Hw Hn.
  assert (0 < target) as Hpos by (apply tier_map_cases in Htier as [[_ ->]|[_ ->]]; lia).
  assert (bool_decide (ds ∈ ["100k"; "50k"]) = true) as Hds.
  { apply bool_decide_eq_true. apply tier_map_cases in Htier as [[-> _]|[-> _]];
      [left|right; left]. }
  destruct (try_downsample_cloud ds target frame st n w Htier Hholds Hw)
    as (kept & ds_meta & Hrun & Hkept & Hfinal).
  unfold transform_frame. rewrite Hds, Hrun. cbn [negb ret].
  set (st1 := with_objects _ st).
  assert (points (objects st1 frame) = Quantize.FloatArray Quantize.float32 kept) as Hpts.
  { unfold st1, with_objects, set_point_count, set_points, update. cbn [objects].
    by rewrite !decide_True. }
  assert (point_count (objects st1 frame) = Z.min n target) as Hcount.
  { unfold st1, with_objects, set_point_count, set_points, update. cbn [objects].
    by rewrite !decide_True. }
  clearbody st1.
  destruct (decide (q = "off")) as [->|Hoff].
  - cbn [String.eqb Ascii.eqb Bool.eqb negb]. eexists. split; [reflexivity|].
    unfold converted_frame, with_objects, set_transform_metadata, update. cbn [objects].
    rewrite decide_True by done. cbn [point_count points transform_metadata].
    rewrite Hpts, Hcount. cbn [Quantize.array_shape]. destruct Hkept as (-> & _ & _).
    split_and!; try done. exists ds_meta. by split.
  - assert (q = "fp16" ∨ q = "int16") as Hmode.
    { apply elem_of_cons in Hq as [?|Hq]; [done|].
      apply elem_of_cons in Hq as [?|Hq]; [by left|].
      apply list_elem_of_singleton in Hq. by right. }
    assert (negb (String.eqb q "off") = true) as ->.
    { apply negb_true_iff. by apply String.eqb_neq. }
    destruct (quantize_cloud_run q kept (Z.min n target) w Hmode Hkept Hw)
      as (pts & q_meta & Hquant & Hshape & Hqmode).
    { intros Hi. specialize (Hn Hi). lia. }
    unfold try_quantize. rewrite Hpts, Hquant. cbn [ret].
    eexists. split; [reflexivity|].
    unfold converted_frame, with_objects, set_transform_metadata, set_points, update.
    cbn [objects]. rewrite !decide_True by done.
    cbn [point_count points transform_metadata].
    split_and!; try done.
    + exists ds_meta. by split.
    + intros _. exists q_meta. by split.
Qed.

Lemma holds_cloud_unique (f : Frame F) (n w n' w' : Z) :
  holds_cloud f n w → holds_cloud f n' w' → n = n' ∧ w = w'.
Proof.
  intros (a & Ha & Hs & _) (a' & Ha' & Hs' & _). rewrite Ha in Ha'.
  injection Ha' as <-. rewrite Hs in Hs'. by injection Hs'.
Qed.

(** The loop on frames that hold clouds, no frame listed twice. *)
Lemma transform_frames_converts (ds q : string) (target : Z) (selected : list nat)
    (st : State (F := F) (World := World)) :
  Downsample.tier_map !! ds = Some target →
  q ∈ ["off"; "fp16"; "int16"] →
  NoDup selected →
  (∀ l, l ∈ selected →
     ∃ n w, holds_cloud (objects st l) n w ∧ 3 ≤ w ∧ (q = "int16" → 0 < n)) →
  ∃ st' : State (F := F) (World := World),
    transform_frames seeded os_entropy choice ds q false selected st = (ret tt, st') ∧
    ∀ l n w, l ∈ selected → holds_cloud (objects st l) n w →
      converted_frame (objects st' l) (Z.min n target) q.
Proof using Hchoice.
  intros Htier Hq. revert st. induction selected as [|frame rest IH]; intros st Hnd Hall.
  - exists st. split; [done|]. intros l n w Hl. by apply elem_of_nil in Hl.
  - apply NoDup_cons in Hnd as [Hfresh Hnd].
    destruct (Hall frame ltac:(left)) as (n0 & w0 & Hholds & Hw & Hn).
    destruct (transform_frame_converts ds q target frame st n0 w0 Htier Hq Hholds Hw Hn)
      as (st1 & Hrun & Hconv).
    pose proof (transform_frame_step seeded os_entropy choice ds q false frame st)
      as ((Hkeep & _) & _). cbn zeta in Hkeep. rewrite Hrun in Hkeep. cbn [snd] in Hkeep.
    assert (∀ l, l ∈ rest → objects st1 l = objects st l) as Hrest.
    { intros l Hl. apply Hkeep. intros ->%list_elem_of_singleton. done. }
    destruct (IH st1 Hnd) as (st' & Hruns & Hconvs).
    { intros l Hl. rewrite (Hrest l Hl). apply Hall. by right. }
    pose proof (transform_frames_step seeded os_entropy choice ds q false rest st1)
      as ((Hkeep' & _) & _). cbn zeta in Hkeep'. rewrite Hruns in Hkeep'. cbn [snd] in Hkeep'.
    exists st'. cbn [transform_frames]. rewrite Hrun. split; [exact Hruns|].
    intros l n w Hl Hl'. apply elem_of_cons in Hl as [->|Hl].
    + destruct (holds_cloud_unique _ _ _ _ _ Hholds Hl') as [<- <-].
      by rewrite (Hkeep' frame Hfresh).
    + apply (Hconvs l n w); [done|]. by rewrite (Hrest l Hl).
Qed.

(** Outside a dry run, on a recognized tier and mode, [convert_frames]
    succeeds when the frames in the range are distinct objects that each
    hold a float32 cloud of at least three columns, with at least one point
    if the mode is int16.  Every such frame then holds the smaller of its
    count and the tier's: its point count, the length of its array and the
    final count in its downsampling metadata agree on it, and its
    quantization metadata is there exactly when the mode is not "off". *)
Theorem convert_frames_converts (pkl_data : FrameData F) (seq_id : string)
    (frame_start frame_end : Z) (ds q : string) (target : Z)
    (st : State (F := F) (World := World)) :
  let selected := take (Z.to_nat (frame_end + 1) - Z.to_nat frame_start)
                       (drop (Z.to_nat frame_start) (frames pkl_data)) in
  Downsample.tier_map !! ds = Some target →
  q ∈ ["off"; "fp16"; "int16"] →
  NoDup selected →
  (∀ l, l ∈ selected →
     ∃ n w, holds_cloud (objects st l) n w ∧ 3 ≤ w ∧ (q = "int16" → 0 < n)) →
  ∃ (c : Converted (F := F)) (st' : State (F := F) (World := World)),
    convert_frames seeded os_entropy choice pkl_data seq_id (frame_start, frame_end) ds q false st
    = (ret c, st') ∧
    converted_frames c = selected ∧
    ∀ l n w, l ∈ selected → holds_cloud (objects st l) n w →
      converted_frame (objects st' l) (Z.min n target) q.
Proof using Hchoice.
  intros selected Htier Hq Hnd Hall.
  destruct (transform_frames_converts ds q target selected st Htier Hq Hnd Hall)
    as (st' & Hrun & Hconv).
  unfold convert_frames. rewrite select_range. fold selected. rewrite Hrun.
  eexists _, st'. split; [reflexivity|]. by split.
Qed.

End ConvertFramesSuccess.

(** ** A frame without points *)

Section ConvertFramesFailure.
Import Models Pkl2web.
Context {F : Type} {num : NumOps F} {World Generator : Type}.
Variable seeded : N → Generator.
Variable os_entropy : World → N * World.
Variable choice : Generator → nat → nat → list nat.
Hypothesis Hchoice : Downsample.choice_spec choice.

Lemma transform_frames_app (ds q : string) (dry : bool) (pre post : list nat)
    (st : State (F := F) (World := World)) :
  transform_frames seeded os_entropy choice ds q dry (pre ++ post) st
  = match transform_frames seeded os_entropy choice ds q dry pre st with
    | (inl e, st1) => (inl e, st1)
    | (inr _, st1) => transform_frames seeded os_entropy choice ds q dry post st1
    end.
Proof.
  revert st. induction pre as [|frame pre IH]; intros st; [done|].
  cbn [app transform_frames].
  destruct (transform_frame _ _ _ ds q dry frame st) as [[e|u] st1]; [done|]. apply IH.
Qed.

(** The loop body on a frame whose cloud has no point, in the int16 mode. *)
Lemma transform_frame_empty (ds : string) (target : Z) (frame : nat)
    (st : State (F := F) (World := World)) (w : Z) :
  Downsample.tier_map !! ds = Some target →
  holds_cloud (objects st frame) 0 w → 3 ≤ w →
  ∃ st' : State (F := F) (World := World),
    transform_frame seeded os_entropy choice ds "int16" false frame st
    = (raise (ValueError
                "zero-size array to reduction operation minimum which has no identity"), st') ∧
    point_count (objects st' frame) = 0 ∧
    transform_metadata (objects st' frame) = transform_metadata (objects st frame).
Proof using Hchoice.
  intros Htier Hholds Hw.
  assert (0 < target) as Hpos by (apply tier_map_cases in Htier as [[_ ->]|[_ ->]]; lia).
  assert (bool_decide (ds ∈ ["100k"; "50k"]) = true) as Hds.
  { apply bool_decide_eq_true. apply tier_map_cases in Htier as [[-> _]|[-> _]];
      [left|right; left]. }
  destruct (try_downsample_cloud seeded os_entropy choice Hchoice ds target frame st 0 w
              Htier Hholds Hw) as (kept & ds_meta & Hrun & Hkept & Hfinal).
  rewrite Z.min_l in Hrun, Hkept by lia.
  unfold transform_frame. rewrite Hds, Hrun. cbn [negb ret].
  set (st1 := with_objects _ st).
  assert (points (objects st1 frame) = Quantize.FloatArray Quantize.float32 kept) as Hpts.
  { unfold st1, with_objects, set_point_count, set_points, update. cbn [objects].
    by rewrite !decide_True. }
  assert (point_count (objects st1 frame) = 0) as Hcount.
  { unfold st1, with_objects, set_point_count, set_points, update. cbn [objects].
    by rewrite !decide_True. }
  assert (transform_metadata (objects st1 frame) = transform_metadata (objects st frame))
    as Hmeta.
  { unfold st1, with_objects, set_point_count, set_points, update. cbn [objects].
    by rewrite !decide_True. }
  clearbody st1.
  cbn [String.eqb Ascii.eqb Bool.eqb negb]. unfold try_quantize.
  rewrite Hpts, (int16_refuses_empty kept w Hkept Hw). cbn [raise negb].
  exists st1. by split_and!.
Qed.

(** In the int16 mode a frame whose cloud has no point stops the
    conversion with the [ValueError] of numpy's empty reduction, and
    nothing is rolled back: the frames before it in the range stay
    converted, and the frame itself has got its point count but no
    transform metadata. *)
Theorem convert_frames_empty_frame (pkl_data : FrameData F) (seq_id : string)
    (frame_start frame_end : Z) (ds : string) (target : Z)
    (st : State (F := F) (World := World)) (pre post : list nat) (frame : nat) (w : Z) :
  take (Z.to_nat (frame_end + 1) - Z.to_nat frame_start)
       (drop (Z.to_nat frame_start) (frames pkl_data)) = pre ++ frame :: post →
  Downsample.tier_map !! ds = Some target →
  NoDup (pre ++ [frame]) →
  (∀ l, l ∈ pre → ∃ n w, holds_cloud (objects st l) n w ∧ 3 ≤ w ∧ 0 < n) →
  holds_cloud (objects st frame) 0 w → 3 ≤ w →
  ∃ st' : State (F := F) (World := World),
    convert_frames seeded os_entropy choice pkl_data seq_id (frame_start, frame_end)
      ds "int16" false st
    = (raise (ValueError
                "zero-size array to reduction operation minimum which has no identity"), st') ∧
    (∀ l n w, l ∈ pre → holds_cloud (objects st l) n w →
       converted_frame (objects st' l) (Z.min n target) "int16") ∧
    point_count (objects st' frame) = 0 ∧
    transform_metadata (objects st' frame) = transform_metadata (objects st frame).
Proof using Hchoice.
  intros Hsel Htier Hnd Hall Hholds Hw.
  apply NoDup_app in Hnd as (Hpre & Hfresh & _).
  destruct (transform_frames_converts seeded os_entropy choice Hchoice ds "int16" target pre st
              Htier ltac:(right; right; left) Hpre) as (st1 & Hrun & Hconv).
  { intros l Hl. destruct (Hall l Hl) as (n & w' & ? & ? & ?). exists n, w'. by split_and!. }
  pose proof (transform_frames_step seeded os_entropy choice ds "int16" false pre st)
    as ((Hkeep & _) & _). cbn zeta in Hkeep. rewrite Hrun in Hkeep. cbn [snd] in Hkeep.
  assert (frame ∉ pre) as Hout.
  { intros Hin. apply (Hfresh frame Hin). left. }
  assert (objects st1 frame = objects st frame) as Hsame by (by apply Hkeep).
  destruct (transform_frame_empty ds target frame st1 w Htier) as (st2 & Hfail & Hcount & Hmeta);
    [by rewrite Hsame|done|].
  pose proof (transform_frame_step seeded os_entropy choice ds "int16" false frame st1)
    as ((Hkeep2 & _) & _). cbn zeta in Hkeep2. rewrite Hfail in Hkeep2. cbn [snd] in Hkeep2.
  exists st2. unfold convert_frames. rewrite select_range, Hsel, transform_frames_app, Hrun.
  cbn [transform_frames]. rewrite Hfail. cbn [raise].
  split; [reflexivity|]. split_and!; [|done|by rewrite Hmeta, Hsame].
  intros l n w' Hl Hl'. rewrite Hkeep2; [by eapply Hconv|].
  intros ->%list_elem_of_singleton. done.
Qed.

End ConvertFramesFailure.

Lemma convert_frames_selects_range_witness :
  let frame : Models.Frame spec_float :=
    Models.MkFrame "000000"
      (Quantize.FloatArray Quantize.float32
         (NdArray [1; 3] [[S754_zero false; S754_zero false; S754_zero false]])) 1 [] ∅ ∅ in
  let st : Pkl2web.State (F := spec_float) (World := N) :=
    Pkl2web.MkState (λ _, frame) [] [] 0%N in
  let pkl_data : Models.FrameData spec_float := Models.MkFrameData [0; 1; 2]%nat ∅ in
  let c : Pkl2web.Converted (F := spec_float) :=
    Pkl2web.MkConverted [1; 2]%nat
      {[ "version" := PStr "1.0"; "sequenceId" := PStr "seq"; "frames" := PFloats [] ]} in
  Pkl2web.converted_frames c
  = take (Z.to_nat (5 + 1) - Z.to_nat 1) (drop (Z.to_nat 1) (Models.frames pkl_data)) ∧
  (0 ≤ 1 ≤ 5 →
   Z.of_nat (length (Pkl2web.converted_frames c))
   = Z.min (Models.frame_count pkl_data) (5 + 1) - Z.min (Models.frame_count pkl_data) 1) ∧
  Pkl2web.manifest c !! "sequenceId" = Some (PStr "seq") ∧
  Pkl2web.manifest c !! "frames" = Some (PFloats []).
Proof.
  intros frame st pkl_data c.
  apply (convert_frames_selects_range (num := IEEE.ops)
           Examples.toy_seeded Examples.toy_entropy Examples.toy_choice
           pkl_data "seq" 1 5 "50k" "fp16" true st c).
  vm_compute. reflexivity.
Defined.

Lemma convert_frames_converts_witness :
  let frame : Models.Frame spec_float :=
    Models.MkFrame "000000"
      (Quantize.FloatArray Quantize.float32
         (NdArray [1; 3] [[S754_zero false; S754_zero false; S754_zero false]])) 7 [] ∅ ∅ in
  let st : Pkl2web.State (F := spec_float) (World := N) :=
    Pkl2web.MkState (λ _, frame) [] [] 0%N in
  let pkl_data : Models.FrameData spec_float := Models.MkFrameData [0; 1; 2]%nat ∅ in
  ∃ (c : Pkl2web.Converted (F := spec_float))
    (st' : Pkl2web.State (F := spec_float) (World := N)),
    Pkl2web.convert_frames (num := IEEE.ops)
      Examples.toy_seeded Examples.toy_entropy Examples.toy_choice
      pkl_data "seq" (1, 5) "50k" "int16" false st = (ret c, st') ∧
    Pkl2web.converted_frames c
    = take (Z.to_nat (5 + 1) - Z.to_nat 1) (drop (Z.to_nat 1) (Models.frames pkl_data)) ∧
    ∀ l n w,
      l ∈ take (Z.to_nat (5 + 1) - Z.to_nat 1) (drop (Z.to_nat 1) (Models.frames pkl_data)) →
      holds_cloud (Pkl2web.objects st l) n w →
      converted_frame (Pkl2web.objects st' l) (Z.min n 50000) "int16".
Proof.
  intros frame st pkl_data.
  apply (convert_frames_converts (num := IEEE.ops)
           Examples.toy_seeded Examples.toy_entropy Examples.toy_choice toy_choice_spec
           pkl_data "seq" 1 5 "50k" "int16" 50000 st).
  - reflexivity.
  - right. right. left.
  - apply (bool_decide_unpack _). vm_compute. exact I.
  - intros l _. exists 1, 3. split; [|split; lia].
    eexists. split; [reflexivity|]. split; [reflexivity|]. split; [reflexivity|].
    repeat constructor.
Defined.

Lemma convert_frames_empty_frame_witness :
  let cloud (rs : list (list spec_float)) : Models.Frame spec_float :=
    Models.MkFrame "000000"
      (Quantize.FloatArray Quantize.float32 (NdArray [Z.of_nat (length rs); 3] rs)) 7 [] ∅ ∅ in
  let st : Pkl2web.State (F := spec_float) (World := N) :=
    Pkl2web.MkState
      (λ l, if (l =? 1)%nat then cloud []
            else cloud [[S754_zero false; S754_zero false; S754_zero false]]) [] [] 0%N in
  let pkl_data : Models.FrameData spec_float := Models.MkFrameData [0; 1; 2]%nat ∅ in
  ∃ st' : Pkl2web.State (F := spec_float) (World := N),
    Pkl2web.convert_frames (num := IEEE.ops)
      Examples.toy_seeded Examples.toy_entropy Examples.toy_choice
      pkl_data "seq" (0, 1) "100k" "int16" false st
    = (raise (ValueError
                "zero-size array to reduction operation minimum which has no identity"), st') ∧
    (∀ l n w, l ∈ [0%nat] → holds_cloud (Pkl2web.objects st l) n w →
       converted_frame (Pkl2web.objects st' l) (Z.min n 100000) "int16") ∧
    Models.point_count (Pkl2web.objects st' 1%nat) = 0 ∧
    Models.transform_metadata (Pkl2web.objects st' 1%nat)
    = Models.transform_metadata (Pkl2web.objects st 1%nat).
Proof.
  intros cloud st pkl_data.
  apply (convert_frames_empty_frame (num := IEEE.ops)
           Examples.toy_seeded Examples.toy_entropy Examples.toy_choice toy_choice_spec
           pkl_data "seq" 0 1 "100k" 100000 st [0%nat] [] 1%nat 3).
  - reflexivity.
  - reflexivity.
  - apply (bool_decide_unpack _). vm_compute. exact I.
  - intros l ->%list_elem_of_singleton. exists 1, 3. split; [|split; lia].
    eexists. split; [reflexivity|]. split; [reflexivity|]. split; [reflexivity|].
    repeat constructor.
  - eexists. split; [reflexivity|]. split; [reflexivity|]. split; [reflexivity|]. constructor.
  - lia.
Defined.

(** * The command line: which arguments pass validation *)

Section Split.
Import Pkl2web.

Lemma split_not_nil (sep : Ascii.ascii) (s : string) : split sep s ≠ [].
Proof.
  destruct s as [|c s]; [done|]. cbn [split].
  destruct (Ascii.eqb c sep); [done|]. by destruct (split sep s).
Qed.

(** Joining the parts with the separator gives the string back, and no part
    holds the separator. *)
Lemma split_join (s : string) :
  String.concat ":" (split colon s) = s ∧
  Forall (λ part, colon ∉ list_ascii_of_string part) (split colon s).
Proof.
  induction s as [|c s [IHj IHf]].
  - split; [done|]. constructor; [|constructor]. apply not_elem_of_nil.
  - cbn [split]. destruct (Ascii.eqb c colon) eqn:Hc.
    + apply Ascii.eqb_eq in Hc as ->. split.
      * pose proof (split_not_nil colon s) as Hne.
        destruct (split colon s) as [|p ps] eqn:E; [done|].
        cbn [String.concat]. by rewrite <- IHj.
      * constructor; [apply not_elem_of_nil|done].
    + apply Ascii.eqb_neq in Hc.
      pose proof (split_not_nil colon s) as Hne.
      destruct (split colon s) as [|p ps] eqn:E; [done|].
      apply Forall_cons in IHf as [Hp Hps]. split.
      * rewrite <- IHj. by destruct ps.
      * constructor; [|done]. cbn [list_ascii_of_string].
        apply not_elem_of_cons. by split.
Qed.

(** A string without the separator is its own single part, and a part
    before a separator is split off as it is. *)
Lemma split_part (a rest : string) :
  colon ∉ list_ascii_of_string a →
  split colon (a +:+ String colon rest) = a :: split colon rest.
Proof.
  induction a as [|c a IH]; intros Ha.
  - reflexivity.
  - cbn [list_ascii_of_string] in Ha. apply not_elem_of_cons in Ha as [Hc Ha].
    change (String c a +:+ String colon rest) with (String c (a +:+ String colon rest)).
    cbn [split].
    assert (Ascii.eqb c colon = false) as -> by (by apply Ascii.eqb_neq).
    by rewrite (IH Ha).
Qed.

Lemma split_whole (a : string) :
  colon ∉ list_ascii_of_string a → split colon a = [a].
Proof.
  induction a as [|c a IH]; intros Ha; [done|].
  cbn [list_ascii_of_string] in Ha. apply not_elem_of_cons in Ha as [Hc Ha].
  cbn [split]. assert (Ascii.eqb c colon = false) as -> by (by apply Ascii.eqb_neq).
  by rewrite (IH Ha).
Qed.

(** Exactly two parts: one separator, with a part on either side. *)
Lemma split_two (s a b : string) :
  split colon s = [a; b] ↔
  s = a +:+ ":" +:+ b ∧
  (colon ∉ list_ascii_of_string a) ∧ (colon ∉ list_ascii_of_string b).
Proof.
  split.
  - intros Hs. destruct (split_join s) as [Hj Hf]. rewrite Hs in Hj, Hf.
    apply Forall_cons in Hf as [Ha Hf]. apply Forall_cons in Hf as [Hb _].
    split; [|done]. rewrite <- Hj. reflexivity.
  - intros (-> & Ha & Hb).
    change (a +:+ ":" +:+ b) with (a +:+ String colon b).
    by rewrite (split_part a b Ha), (split_whole b Hb).
Qed.

End Split.

Section ValidateArgsProps.
Import Pkl2web.
Context {Path : Type}.
Variable mkPath : string → Path.
Variable path_str : Path → string.
Variable path_exists : Path → bool.
Variable path_is_file : Path → bool.
Variable py_int : string → option Z.

(** [validate_args] accepts a command line exactly when both the input file
    and the branches file exist and are files, and the frame range is two
    integers around a single colon, the first not negative and not above
    the second.  The range is not compared with the number of frames. *)
Theorem validate_args_accepts (args : Namespace) :
  validate_args mkPath path_str path_exists path_is_file py_int args = None ↔
  path_exists (mkPath (input_pkl args)) = true ∧
  path_is_file (mkPath (input_pkl args)) = true ∧
  path_exists (mkPath (branches args)) = true ∧
  path_is_file (mkPath (branches args)) = true ∧
  ∃ (a b : string) (frame_start frame_end : Z),
    frames_arg args = a +:+ ":" +:+ b ∧
    (colon ∉ list_ascii_of_string a) ∧ (colon ∉ list_ascii_of_string b) ∧
    py_int a = Some frame_start ∧ py_int b = Some frame_end ∧
    0 ≤ frame_start ≤ frame_end.
Proof.
  unfold validate_args.
  destruct (path_exists (mkPath (input_pkl args))); cbn [negb]; [|split; [done|by intros (? & _)]].
  destruct (path_is_file (mkPath (input_pkl args))); cbn [negb];
    [|split; [done|by intros (_ & ? & _)]].
  destruct (path_exists (mkPath (branches args))); cbn [negb];
    [|split; [done|by intros (_ & _ & ? & _)]].
  destruct (path_is_file (mkPath (branches args))); cbn [negb];
    [|split; [done|by intros (_ & _ & _ & ? & _)]].
  destruct (split colon (frames_arg args)) as [|a [|b [|c parts]]] eqn:Hsplit; cbn [length Nat.eqb negb nth].
  - split; [done|]. intros (_ & _ & _ & _ & a & b & s & e & Hf & Ha & Hb & _).
    pose proof (proj2 (split_two _ a b) (conj Hf (conj Ha Hb))). congruence.
  - split; [done|]. intros (_ & _ & _ & _ & a' & b & s & e & Hf & Ha & Hb & _).
    pose proof (proj2 (split_two _ a' b) (conj Hf (conj Ha Hb))). congruence.
  - apply split_two in Hsplit as (Hf & Ha & Hb). split.
    + intros Hnone. split_and!; try done. exists a, b.
      destruct (py_int a) as [s|]; [|done]. destruct (py_int b) as [e|]; [|done].
      exists s, e. destruct (s <? 0) eqn:Hs; [done|]. destruct (e <? 0) eqn:He; [done|].
      cbn [orb] in Hnone. destruct (e <? s) eqn:Hes; [done|].
      split_and!; try done; lia.
    + intros (_ & _ & _ & _ & a' & b' & s & e & Hf' & Ha' & Hb' & Hsa & Hsb & Hrange).
      assert (a' = a ∧ b' = b) as [-> ->].
      { pose proof (proj2 (split_two (frames_arg args) a b) (conj Hf (conj Ha Hb))) as H1.
        pose proof (proj2 (split_two (frames_arg args) a' b') (conj Hf' (conj Ha' Hb'))) as H2.
        rewrite H1 in H2. by injection H2. }
      rewrite Hsa, Hsb.
      assert ((s <? 0) = false) as -> by lia. assert ((e <? 0) = false) as -> by lia.
      cbn [orb]. by assert ((e <? s) = false) as -> by lia.
  - split; [done|]. intros (_ & _ & _ & _ & a' & b' & s & e & Hf & Ha & Hb & _).
    pose proof (proj2 (split_two _ a' b') (conj Hf (conj Ha Hb))). congruence.
Qed.

End ValidateArgsProps.

(** * The guards of the lossy modes *)

(** ** int16 mode: what the normalization divides by *)

Section Int16Divisor.
Context {F : Type} {num : NumOps F}.




End Int16Divisor.



(** ** float16 mode: where the cast overflows *)

Section HalfOverflow.
Local Open Scope R_scope.

(** The float32 number 65520, halfway between the largest finite float16
    number and the next power of two. *)
Lemma half_tie (sx : bool) (mx : positive) (ex : Z) :
  bounded 24 128 mx ex = true → IZR (Z.pos mx) * bpow ex = 65520 →
  binary_round 11 16 sx mx ex = S754_infinity sx.
Proof.
  intros Hb Hv.
  destruct (canonical_unique 24 128 mx 16773120 ex (-8) Hb eq_refl) as [-> ->].
  { rewrite Hv. change (-8)%Z with (- Z.of_nat 8)%Z. rewrite bpow_neg. lra. }
  by destruct sx.
Qed.

(** The largest finite float16 number is 65504; from 65520 on, rounding to
    nearest goes over to the infinity. *)
Lemma half_round_threshold (sx : bool) (mx : positive) (ex : Z) :
  bounded 24 128 mx ex = true →
  (IZR (Z.pos mx) * bpow ex < 65520 → finite_in 11 16 (binary_round 11 16 sx mx ex)) ∧
  (65520 <= IZR (Z.pos mx) * bpow ex → binary_round 11 16 sx mx ex = S754_infinity sx).
Proof.
  intros Hb.
  destruct (binary_round_total 11 16 ltac:(lia) ltac:(lia) sx mx ex)
    as (m1 & Hm1 & [Hnear Hint] & Hcases).
  pose proof (exponent_of_mantissa 11 16 (Z.pos mx) ex ltac:(lia)) as [He0 He1].
  pose proof (value_bounds (Z.pos mx) ex ltac:(lia)) as [Hv0 Hv1].
  pose proof (half_tie sx mx ex Hb) as Htie.
  assert (fexp 11 16 (Zdigits2 (Z.pos mx) + ex)
          = Z.max (Zdigits2 (Z.pos mx) + ex - 11) (-24)) as Hfe by reflexivity.
  assert (emin 11 16 = (-24)%Z) as Hemin by reflexivity. rewrite Hemin in He0, He1.
  revert Hnear Hint Hcases He0 He1 Hfe.
  generalize (fexp 11 16 (Zdigits2 (Z.pos mx) + ex)). intros e Hnear Hint Hcases He0 He1 Hfe.
  revert Hnear Hint Hcases He1 Hv0 Hv1 Htie.
  generalize (IZR (Z.pos mx) * bpow ex). intros X Hnear Hint Hcases He1 Hv0 Hv1 Htie.
  pose proof (bpow_pos e) as Hbe.
  assert (bpow 16 = 65536) as E16 by (rewrite (bpow_IZR 16) by lia; done).
  assert (bpow 15 = 32768) as E15 by (rewrite (bpow_IZR 15) by lia; done).
  assert (bpow 10 = 1024) as E10 by (rewrite (bpow_IZR 10) by lia; done).
  assert (bpow 5 = 32) as E5 by (rewrite (bpow_IZR 5) by lia; done).
  split.
  - intros HX.
    destruct Hcases as [[_ ->]|[(_ & _ & m & e' & -> & Hbd & _)|(_ & Hov & _)]]; [done|done|].
    exfalso. destruct (Z_le_gt_dec e 4%Z) as [Hle|Hgt].
    + assert (IZR (4095 * 2 ^ (4 - e)) * bpow e = 65520) as Ek.
      { rewrite IZR_shift by done. rewrite (bpow_IZR 4) by lia.
        change (2 ^ 4)%Z with 16%Z. lra. }
      assert (m1 ≤ 4095 * 2 ^ (4 - e))%Z as Hm'.
      { apply (proj1 (Hint _)). apply scaled_le. lra. }
      apply IZR_le in Hm'.
      apply Rmult_le_compat_r with (r := bpow e) in Hm'; lra.
    + destruct (Z.eq_dec e 5%Z) as [->|E].
      * rewrite E5 in *. apply Rabs_le_inv in Hnear.
        assert (IZR m1 < 2048) as Hlt by (unfold Rdiv in Hnear; lra).
        apply lt_IZR in Hlt. assert (m1 ≤ 2047)%Z as Hle by lia.
        apply IZR_le in Hle. lra.
      * specialize (He1 ltac:(lia)).
        pose proof (bpow_le 16 (e + 11 - 1) ltac:(lia)). lra.
  - intros HX.
    destruct (Rle_lt_or_eq_dec _ _ HX) as [Hgt|Heq]; [|by apply Htie].
    assert (15 < Zdigits2 (Z.pos mx) + ex)%Z as Hd.
    { apply bpow_lt_inv. lra. }
    assert (5 ≤ e)%Z as He5 by lia.
    assert (bpow 16 <= IZR m1 * bpow e) as Hbig.
    { destruct (Z.eq_dec e 5%Z) as [->|E].
      - rewrite E5 in *. apply Rabs_le_inv in Hnear.
        assert (2047 < IZR m1) as Hlt by (unfold Rdiv in Hnear; lra).
        apply lt_IZR in Hlt. assert (2048 ≤ m1)%Z as Hle by lia.
        apply IZR_le in Hle. lra.
      - specialize (He1 ltac:(lia)).
        assert (1024 ≤ m1)%Z as Hle.
        { apply (proj2 (Hint _)). apply scaled_ge. rewrite <- E10, <- bpow_add.
          replace (10 + e)%Z with (e + 11 - 1)%Z by lia. exact He1. }
        apply IZR_le in Hle.
        apply Rmult_le_compat_r with (r := bpow e) in Hle; [|lra].
        rewrite <- E10, <- bpow_add in Hle.
        pose proof (bpow_le 16 (10 + e) ltac:(lia)). lra. }
    destruct Hcases as [[-> _]|[(_ & Hlt & _)|(_ & _ & ->)]]; [|lra|done].
    rewrite Rmult_0_l in Hbig. lra.
Qed.

(** A finite float16 number has magnitude at most 65504. *)
Lemma half_magnitude (r : spec_float) :
  finite_in 11 16 r → Rabs (IEEE.SF2R r) <= 65504.
Proof.
  destruct r as [s|s| |s m e]; try done.
  - intros _. cbn [IEEE.SF2R]. rewrite Rabs_R0. lra.
  - intros Hb. cbn [finite_in] in Hb.
    destruct (bounded_facts 11 16 m e Hb) as (_ & He & _ & Hd & _).
    pose proof (Zdigits2_bounds (Z.pos m) ltac:(lia)) as [_ Hm].
    assert (Z.pos m < 2 ^ 11)%Z as Hm'.
    { eapply Z.lt_le_trans; [exact Hm|]. apply Z.pow_le_mono_r; lia. }
    change (2 ^ 11)%Z with 2048%Z in Hm'.
    assert (Z.pos m ≤ 2047)%Z as Hle by lia. apply IZR_le in Hle.
    pose proof (bpow_le e 5 ltac:(lia)) as Hbe. pose proof (bpow_pos e) as Hpos.
    assert (bpow 5 = 32) as E5 by (rewrite (bpow_IZR 5) by lia; done).
    pose proof (mantissa_nonneg m e) as Hv.
    rewrite SF2R_finite, Rabs_signed by lra.
    assert (0 < IZR (Z.pos m)) by (apply IZR_lt; lia).
    nra.
Qed.

(** What the cast to float16 makes of a finite float32 number. *)
Lemma half_cast_threshold (x : spec_float) :
  IEEE.finite32 x →
  (Rabs (IEEE.SF2R x) < 65520 →
   finite_in 11 16 (IEEE.cast 11 16 x) ∧ IEEE.overflows 11 16 x = false) ∧
  (65520 <= Rabs (IEEE.SF2R x) →
   (∃ (s : bool) (m : positive) (e : Z),
      x = S754_finite s m e ∧ IEEE.cast 11 16 x = S754_infinity s) ∧
   IEEE.overflows 11 16 x = true).
Proof.
  destruct x as [s|s| |s m e]; try done.
  - intros _. split; [done|]. cbn [IEEE.SF2R]. rewrite Rabs_R0. lra.
  - intros Hb. cbn [IEEE.finite32] in Hb.
    pose proof (mantissa_nonneg m e) as Hv.
    rewrite SF2R_finite, Rabs_signed by lra.
    destruct (half_round_threshold s m e Hb) as [Hlo Hhi].
    unfold IEEE.overflows. cbn [IEEE.cast]. split.
    + intros Hlt. specialize (Hlo Hlt). split; [done|].
      by destruct (binary_round 11 16 s m e).
    + intros Hge. rewrite (Hhi Hge). split; [|done]. by exists s, m, e.
Qed.

Lemma overflows_iff (x : spec_float) :
  float32_value x →
  IEEE.overflows 11 16 x = true ↔ IEEE.finite32 x ∧ 65520 <= Rabs (IEEE.SF2R x).
Proof.
  intros Hx. split.
  - intros Hov. destruct x as [s|s| |s m e]; try done.
    split; [exact Hx|].
    destruct (Rlt_le_dec (Rabs (IEEE.SF2R (S754_finite s m e))) 65520) as [Hlt|Hge]; [|done].
    destruct (half_cast_threshold (S754_finite s m e) Hx) as [Hlo _].
    destruct (Hlo Hlt). congruence.
  - intros [Hf Hge]. by destruct (half_cast_threshold _ Hf) as [_ [_ Hov]].
Qed.

(** The float16 cast of a float32 array warns exactly when some finite
    element has a magnitude of 65520 or more. *)
Lemma cast_warnings_half (a : ndarray spec_float) :
  Forall (Forall float32_value) (rows a) →
  Quantize.cast_warnings 11 16 a
  = [RuntimeWarning "overflow encountered in cast"] ∧
    Exists (Exists (λ x, IEEE.finite32 x ∧ 65520 <= Rabs (IEEE.SF2R x))) (rows a)
  ∨ Quantize.cast_warnings 11 16 a = [] ∧
    Forall (Forall (λ x, IEEE.finite32 x → Rabs (IEEE.SF2R x) < 65520)) (rows a).
Proof.
  intros Hrows. unfold Quantize.cast_warnings.
  destruct (existsb (existsb (IEEE.overflows 11 16)) (rows a)) eqn:E.
  - left. split; [done|].
    apply existsb_exists in E as (r & Hr & E). apply existsb_exists in E as (x & Hx & E).
    apply list_elem_of_In in Hr, Hx.
    apply Exists_exists. exists r. split; [done|]. apply Exists_exists. exists x. split; [done|].
    apply overflows_iff; [|done].
    rewrite Forall_forall in Hrows. specialize (Hrows r Hr).
    rewrite Forall_forall in Hrows. by apply Hrows.
  - right. split; [done|].
    apply Forall_forall. intros r Hr. apply Forall_forall. intros x Hx Hf.
    destruct (Rlt_le_dec (Rabs (IEEE.SF2R x)) 65520) as [Hlt|Hge]; [done|].
    exfalso. assert (existsb (existsb (IEEE.overflows 11 16)) (rows a) = true); [|congruence].
    apply existsb_exists. exists r. split; [by apply list_elem_of_In|].
    apply existsb_exists. exists x. split; [by apply list_elem_of_In|].
    apply overflows_iff; [|done].
    rewrite Forall_forall in Hrows. specialize (Hrows r Hr).
    rewrite Forall_forall in Hrows. by apply Hrows.
Qed.

End HalfOverflow.

(** C5, as the code and numpy have it.  The float16 mode is the
    element-wise cast with one fixed envelope and no check of its own.
    What surfaces is numpy's: the call issues one [RuntimeWarning: overflow
    encountered in cast] exactly when some finite coordinate has a
    magnitude of 65520 or more, which is when the cast takes it to the
    infinity of its sign.  A finite coordinate below 65520, beyond 65504
    or not, becomes a finite float16 number of magnitude at most 65504,
    and an infinity or NaN stays what it is; neither raises a warning. *)
Theorem quantize_fp16_overflow_warning (a : ndarray spec_float) :
  Forall (Forall float32_value) (rows a) →
  let beyond (x : spec_float) := IEEE.finite32 x ∧ (65520 <= Rabs (IEEE.SF2R x))%R in
  Quantize.quantize_fp16 (num := IEEE.ops) (Quantize.FloatArray Quantize.float32 a)
  = ret (Quantize.FloatArray Quantize.float16 (Quantize.amap (IEEE.cast 11 16) a),
         {[ "mode" := PStr "fp16";
            "dtype" := PStr "float16";
            "bytes_per_point" := PInt 8;
            "compression" := PFloat (IEEE.of_Q (1 # 2));
            "precision_loss_pct" := PFloat (IEEE.of_Q (1 # 10));
            "suitable_range" := PStr "[-65504, 65504] (meters)" ]}) ∧
  (Exists (Exists beyond) (rows a) →
   Quantize.quantize_fp16_warnings (Quantize.FloatArray Quantize.float32 a)
   = [RuntimeWarning "overflow encountered in cast"]) ∧
  (¬ Exists (Exists beyond) (rows a) →
   Quantize.quantize_fp16_warnings (Quantize.FloatArray Quantize.float32 a) = []) ∧
  Forall (Forall (λ x,
    (beyond x →
     ∃ (s : bool) (m : positive) (e : Z),
       x = S754_finite s m e ∧ IEEE.cast 11 16 x = S754_infinity s) ∧
    (IEEE.finite32 x → (Rabs (IEEE.SF2R x) < 65520)%R →
     finite_in 11 16 (IEEE.cast 11 16 x) ∧
     (Rabs (IEEE.SF2R (IEEE.cast 11 16 x)) <= 65504)%R) ∧
    (¬ IEEE.finite32 x → IEEE.cast 11 16 x = x))) (rows a).
Proof.
  intros Hrows beyond. split; [reflexivity|].
  assert (Quantize.quantize_fp16_warnings (Quantize.FloatArray Quantize.float32 a)
          = Quantize.cast_warnings 11 16 a) as -> by reflexivity.
  split_and!.
  - intros Hex. destruct (cast_warnings_half a Hrows) as [[-> _]|[_ Hall]]; [done|].
    exfalso. apply Exists_exists in Hex as (r & Hr & Hex).
    apply Exists_exists in Hex as (x & Hx & Hf & Hge).
    rewrite Forall_forall in Hall. specialize (Hall r Hr).
    rewrite Forall_forall in Hall. specialize (Hall x Hx Hf). lra.
  - intros Hno. by destruct (cast_warnings_half a Hrows) as [[_ Hex]|[-> _]].
  - eapply Forall_impl; [exact Hrows|]. intros r Hr.
    eapply Forall_impl; [exact Hr|]. intros x Hx. cbn beta. split_and!.
    + intros [Hf Hge]. by destruct (half_cast_threshold x Hf) as [_ [Hinf _]].
    + intros Hf Hlt. destruct (half_cast_threshold x Hf) as [[Hfin _] _]; [done|].
      split; [done|]. by apply half_magnitude.
    + intros Hnf. destruct x as [s|s| |s m e]; try done.
Qed.

(** At a cloud that reaches 70000: the coordinate becomes the positive
    infinity and the call issues numpy's warning. *)
Lemma quantize_fp16_overflow_warning_witness :
  let far := NdArray [1; 3] [[IEEE.of_Z 24 128 70000; IEEE.of_Z 24 128 0; IEEE.of_Z 24 128 0]] in
  Quantize.quantize_fp16 (num := IEEE.ops) (Quantize.FloatArray Quantize.float32 far)
  = ret (Quantize.FloatArray Quantize.float16
           (NdArray [1; 3] [[S754_infinity false; S754_zero false; S754_zero false]]),
         {[ "mode" := PStr "fp16";
            "dtype" := PStr "float16";
            "bytes_per_point" := PInt 8;
            "compression" := PFloat (IEEE.of_Q (1 # 2));
            "precision_loss_pct" := PFloat (IEEE.of_Q (1 # 10));
            "suitable_range" := PStr "[-65504, 65504] (meters)" ]}) ∧
  Quantize.quantize_fp16_warnings (Quantize.FloatArray Quantize.float32 far)
  = [RuntimeWarning "overflow encountered in cast"].
Proof.
  intros far.
  assert (Forall (Forall float32_value) (rows far)) as Hrows by (repeat constructor).
  destruct (quantize_fp16_overflow_warning far Hrows) as (Hq & Hwarn & _ & _).
  split; [exact Hq|]. apply Hwarn.
  apply Exists_cons_hd, Exists_cons_hd. split; [reflexivity|].
  change (IEEE.of_Z 24 128 70000) with (S754_finite false 8960000 (-7)).
  rewrite SF2R_finite. cbv iota.
  rewrite Rabs_pos_eq by (apply Rlt_le, mantissa_nonneg).
  change (-7)%Z with (- Z.of_nat 7)%Z. rewrite bpow_neg. lra.
Defined.

(** C5, refuted as stated.  65510 and the negative infinity both lie beyond
    the float16 range [-65504, 65504]; the float16 mode clamps the one to
    65504, passes the other on, and returns the usual envelope without any
    warning being issued. *)
Lemma quantize_fp16_clamps_silently :
  let cloud :=
    NdArray [1; 3] [[IEEE.of_Z 24 128 65510; S754_infinity true; IEEE.of_Z 24 128 0]] in
  SFltb (IEEE.of_Z 24 128 65504) (SFabs (IEEE.of_Z 24 128 65510)) = true ∧
  SFltb (IEEE.of_Z 24 128 65504) (SFabs (S754_infinity true)) = true ∧
  Quantize.quantize_fp16 (num := IEEE.ops) (Quantize.FloatArray Quantize.float32 cloud)
  = ret (Quantize.FloatArray Quantize.float16
           (NdArray [1; 3] [[IEEE.of_Z 11 16 65504; S754_infinity true; S754_zero false]]),
         {[ "mode" := PStr "fp16";
            "dtype" := PStr "float16";
            "bytes_per_point" := PInt 8;
            "compression" := PFloat (IEEE.of_Q (1 # 2));
            "precision_loss_pct" := PFloat (IEEE.of_Q (1 # 10));
            "suitable_range" := PStr "[-65504, 65504] (meters)" ]}) ∧
  Quantize.quantize_fp16_warnings (Quantize.FloatArray Quantize.float32 cloud) = [].
Proof. split_and!; vm_refl. Qed.
